(** * A shallow embedding of the page-frame allocator and the cooperative
      scheduler of the kernel, with the properties of their specification.

    Sources embedded here:
    - [src/src/memory_management.c]: bitmap allocator, region registry,
      access validator, [allocate_memory] and [free_memory];
    - [src/iso/src/memory_management_optimized.c]: the byte-wise finder
      [optimized_find_free_page];
    - [src/src/scalability.h]: thread table, circular run queue,
      [create_thread], [yield], [complete_current_thread], [load_balance],
      [schedule_process].

    C integers are modelled as [Z]; every wrap-around of a 32-bit or 8-bit
    operation is written out. The kernel is built for a 32-bit target:
    pointers and [size_t] are 32 bits wide, and a pointer is its address.
    C arrays are lists of their declared length, read with a total lookup
    and written with [<[i:=x]>].

    The security log is kept as the list of the events passed to
    [security_log_security_violation], each with the address it reports.
    The spin lock [mm_lock] is taken and released around every allocator
    call and is free between calls; on the single flow of control modelled
    here it has no effect and is left out, as are the profiling hooks of
    the optimized allocator. *)

From Stdlib Require Import ZArith Lia String Ascii Bool.
From stdpp Require Import base list.

Local Open Scope Z_scope.

(** ** Machine integers and arrays *)

Definition u32 (z : Z) : Z := z mod 4294967296.
Definition u8 (z : Z) : Z := z mod 256.

(** [a[i]] for a C array held as a list; [d] stands for a slot that the
    program never reads. *)
Definition aget {A} (d : A) (a : list A) (i : Z) : A := nth (Z.to_nat i) a d.

(** [a[i] = x]. *)
Definition aset {A} (a : list A) (i : Z) (x : A) : list A :=
  <[Z.to_nat i := x]> a.

Module Mem.

(** *** Constants of [memory_management.c] *)

Definition PAGE_SIZE : Z := 4096.
Definition KERNEL_END : Z := 1048576.          (* 0x100000 *)
Definition PHYS_MEMORY_END : Z := 16777216.    (* 0x1000000 *)
Definition BITMAP_SIZE : Z := Eval cbv in PHYS_MEMORY_END / PAGE_SIZE / 8.
Definition MAX_MEMORY_REGIONS : Z := 1024.
Definition TOTAL_PAGES : Z := Eval cbv in PHYS_MEMORY_END / PAGE_SIZE.
Definition NO_PAGE : Z := 4294967295.          (* (uint32_t)-1 *)

(** [memory_protection_t] of [security.h]. *)
Definition MEM_PROT_NONE : Z := 0.
Definition MEM_PROT_READ : Z := 1.
Definition MEM_PROT_WRITE : Z := 2.
Definition MEM_PROT_EXECUTE : Z := 4.
Definition MEM_PROT_ALL : Z := 7.

(** [memory_region_t]. Pointers ([void*], [user_t*]) are 32-bit addresses;
    [0] is [NULL]. *)
Record memory_region := mkRegion {
  base_address : Z;
  size : Z;
  protection : Z;
  owner : Z;
  is_allocated : bool
}.

Definition zero_region : memory_region := mkRegion 0 0 MEM_PROT_NONE 0 false.

(** The file-scope statics of [memory_management.c]. *)
Record mm_state := mkMM {
  page_bitmap : list Z;
  next_free_page : Z;
  memory_regions : list memory_region;
  region_count : Z;
  memory_protection_enabled : bool
}.

(** An audit event passed to [log_memory_security_event]: its category and
    the offending address. *)
Definition event : Type := string * Z.

Definition set_bitmap (s : mm_state) (b : list Z) : mm_state :=
  mkMM b (next_free_page s) (memory_regions s) (region_count s)
       (memory_protection_enabled s).

Definition set_hint (s : mm_state) (h : Z) : mm_state :=
  mkMM (page_bitmap s) h (memory_regions s) (region_count s)
       (memory_protection_enabled s).

Definition set_regions (s : mm_state) (r : list memory_region) (c : Z) : mm_state :=
  mkMM (page_bitmap s) (next_free_page s) r c (memory_protection_enabled s).

(** *** Bitmap primitives *)

Definition bitmap_set (b : list Z) (bit : Z) : list Z :=
  aset b (Z.shiftr bit 3)
       (u8 (Z.lor (aget 0 b (Z.shiftr bit 3)) (Z.shiftl 1 (Z.land bit 7)))).

Definition bitmap_clear (b : list Z) (bit : Z) : list Z :=
  aset b (Z.shiftr bit 3)
       (u8 (Z.land (aget 0 b (Z.shiftr bit 3))
                   (Z.lnot (Z.shiftl 1 (Z.land bit 7))))).

Definition bitmap_test (b : list Z) (bit : Z) : Z :=
  Z.land (aget 0 b (Z.shiftr bit 3)) (Z.shiftl 1 (Z.land bit 7)).

(** *** [find_free_page] *)

(** The [for] loop of [find_free_page]: [n] iterations are left and the
    loop variable is [i]. *)
Fixpoint find_free_loop (b : list Z) (n : nat) (i : Z) : option Z :=
  match n with
  | O => None
  | S n' =>
      if bitmap_test b i =? 0 then Some i
      else find_free_loop b n' (i + 1)
  end.

Definition find_free_page (s : mm_state) : Z * mm_state :=
  match find_free_loop (page_bitmap s)
          (Z.to_nat (TOTAL_PAGES - next_free_page s)) (next_free_page s) with
  | Some i => (i, set_hint s (i + 1))
  | None => (NO_PAGE, s)
  end.

(** *** Region registry *)

Definition register_memory_region (s : mm_state)
    (address sz prot own : Z) : bool * mm_state :=
  if region_count s >=? MAX_MEMORY_REGIONS then (false, s)
  else (true,
        set_regions s
          (aset (memory_regions s) (region_count s)
                (mkRegion address sz prot own true))
          (region_count s + 1)).

(** The inner loop of [unregister_memory_region]:
    [memory_regions[j] = memory_regions[j + 1]] for [j] up to
    [region_count - 2]. *)
Fixpoint shift_regions (r : list memory_region) (n : nat) (j : Z)
  : list memory_region :=
  match n with
  | O => r
  | S n' => shift_regions (aset r j (aget zero_region r (j + 1))) n' (j + 1)
  end.

Fixpoint unregister_loop (s : mm_state) (address : Z) (n : nat) (i : Z)
  : bool * mm_state :=
  match n with
  | O => (false, s)
  | S n' =>
      if base_address (aget zero_region (memory_regions s) i) =? address then
        (true,
         set_regions s
           (shift_regions (memory_regions s)
              (Z.to_nat (region_count s - 1 - i)) i)
           (region_count s - 1))
      else unregister_loop s address n' (i + 1)
  end.

Definition unregister_memory_region (s : mm_state) (address : Z)
  : bool * mm_state :=
  unregister_loop s address (Z.to_nat (region_count s)) 0.

(** *** Access validator *)

(** The scan over [memory_regions[0 .. region_count)] of
    [validate_memory_access]; the first region that contains the range
    decides. The string is the category of the rejection that is logged. *)
Fixpoint validate_loop (r : list memory_region) (cur start_addr end_addr access : Z)
    (n : nat) (i : Z) : bool * option string :=
  match n with
  | O => (false, Some "UNREGISTERED_REGION"%string)
  | S n' =>
      let region := aget zero_region r i in
      if (start_addr >=? base_address region)
         && (end_addr <=? u32 (base_address region + size region)) then
        if Z.land (protection region) access =? 0 then
          (false, Some "PERMISSION_DENIED"%string)
        else if negb (owner region =? 0) && negb (owner region =? cur) then
          (false, Some "WRONG_OWNER"%string)
        else (true, None)
      else validate_loop r cur start_addr end_addr access n' (i + 1)
  end.

(** [cur] is the result of [security_get_current_user()]. *)
Definition validate_memory_access (s : mm_state) (cur : Z)
    (address sz access : Z) : bool * option string :=
  if negb (memory_protection_enabled s) then (true, None)
  else if (address =? 0) || (sz =? 0) then
    (false, Some "INVALID_ACCESS"%string)
  else
    let start_addr := address in
    if u32 (start_addr + sz) <? start_addr then
      (false, Some "ADDRESS_OVERFLOW"%string)
    else
      let end_addr := u32 (start_addr + sz) in
      if (start_addr <? KERNEL_END) || (end_addr >? PHYS_MEMORY_END) then
        (false, Some "OUT_OF_BOUNDS"%string)
      else if negb (start_addr mod PAGE_SIZE =? 0) then
        (false, Some "MISALIGNED_ACCESS"%string)
      else
        validate_loop (memory_regions s) cur start_addr end_addr access
          (Z.to_nat (region_count s)) 0.

(** *** Initialisation, allocation and release *)

Fixpoint set_bits (b : list Z) (n : nat) (p : Z) : list Z :=
  match n with
  | O => b
  | S n' => set_bits (bitmap_set b p) n' (p + 1)
  end.

Definition kernel_pages : Z := Eval cbv in (KERNEL_END + PAGE_SIZE - 1) / PAGE_SIZE.

Definition init_memory_management : mm_state :=
  let s := mkMM (set_bits (replicate (Z.to_nat BITMAP_SIZE) 0)
                          (Z.to_nat kernel_pages) 0)
                kernel_pages
                (replicate (Z.to_nat MAX_MEMORY_REGIONS) zero_region)
                0 false in
  let s := snd (register_memory_region s 0 KERNEL_END
                  (Z.lor (Z.lor MEM_PROT_READ MEM_PROT_WRITE) MEM_PROT_EXECUTE) 0) in
  mkMM (page_bitmap s) (next_free_page s) (memory_regions s) (region_count s) true.

(** [allocate_memory]: the returned address ([0] is [NULL]), the new state
    and the events logged, oldest first. *)
Definition allocate_memory (s : mm_state) (cur : Z) (sz : Z)
  : Z * mm_state * list event :=
  if cur =? 0 then (0, s, [("NO_USER"%string, 0)])
  else if negb (sz =? PAGE_SIZE) then (0, s, [("INVALID_SIZE"%string, 0)])
  else
    let '(frame, s1) := find_free_page s in
    if frame =? NO_PAGE then (0, s1, [("OUT_OF_MEMORY"%string, 0)])
    else
      let s2 := set_bitmap s1 (bitmap_set (page_bitmap s1) frame) in
      let allocated_address := u32 (frame * PAGE_SIZE) in
      let '(ok, s3) :=
        register_memory_region s2 allocated_address PAGE_SIZE
          (Z.lor MEM_PROT_READ MEM_PROT_WRITE) cur in
      if negb ok then
        (0, set_bitmap s3 (bitmap_clear (page_bitmap s3) frame),
         [("REGION_REGISTRATION_FAILED"%string, allocated_address)])
      else
        (allocated_address, s3, [("MEMORY_ALLOCATED"%string, allocated_address)]).

Definition violation (v : bool * option string) (address : Z) : list event :=
  match snd v with
  | Some c => [(c, address)]
  | None => []
  end.

(** [free_memory]: the new state and the events logged, oldest first. *)
Definition free_memory (s : mm_state) (cur : Z) (ptr : Z)
  : mm_state * list event :=
  if ptr =? 0 then (s, [("NULL_POINTER_FREE"%string, 0)])
  else
    let v := validate_memory_access s cur ptr PAGE_SIZE MEM_PROT_WRITE in
    if negb (fst v) then
      (s, violation v ptr ++ [("INVALID_FREE"%string, ptr)])
    else if cur =? 0 then (s, [("NO_USER_FREE"%string, ptr)])
    else
      let frame := ptr / PAGE_SIZE in
      if frame <? TOTAL_PAGES then
        let s1 := set_bitmap s (bitmap_clear (page_bitmap s) frame) in
        let s2 := if frame <? next_free_page s1 then set_hint s1 frame else s1 in
        let s3 := snd (unregister_memory_region s2 ptr) in
        (s3, [("MEMORY_FREED"%string, ptr)])
      else (s, [("INVALID_FRAME"%string, ptr)]).

(** *** The finder of [memory_management_optimized.c] *)

(** [__builtin_ctz]: the index of the lowest set bit of a non-zero
    [unsigned int]. *)
Fixpoint ctz_loop (n : nat) (k : Z) (x : Z) : Z :=
  match n with
  | O => k
  | S n' => if Z.testbit x k then k else ctz_loop n' (k + 1) x
  end.

Definition builtin_ctz (x : Z) : Z := ctz_loop 32 0 x.

(** [~byte] is computed on the promoted [int] and handed to
    [__builtin_ctz] as an [unsigned int]. *)
Definition find_first_zero_bit (byte : Z) : Z :=
  if byte =? 255 then -1 else builtin_ctz (u32 (Z.lnot byte)).

(** One pass of the byte loop of [optimized_find_free_page]: [n] bytes are
    left and the loop variable is [byte_index]. Prefetching and the
    profiler calls do not touch the allocator's state. *)
Fixpoint opt_scan (b : list Z) (n : nat) (byte_index : Z) : option Z :=
  match n with
  | O => None
  | S n' =>
      let current_byte := aget 0 b byte_index in
      let next := opt_scan b n' (byte_index + 1) in
      if negb (current_byte =? 255) then
        let free_bit := find_first_zero_bit current_byte in
        if free_bit >=? 0 then
          let result := u32 (Z.shiftl byte_index 3 + free_bit) in
          if result <? TOTAL_PAGES then Some result else next
        else next
      else next
  end.

Definition optimized_find_free_page (s : mm_state) : Z * mm_state :=
  let start_page := next_free_page s in
  match opt_scan (page_bitmap s)
          (Z.to_nat (BITMAP_SIZE - Z.shiftr start_page 3))
          (Z.shiftr start_page 3) with
  | Some result => (result, set_hint s (u32 (result + 1)))
  | None =>
      match opt_scan (page_bitmap s) (Z.to_nat (Z.shiftr start_page 3)) 0 with
      | Some result => (result, set_hint s (u32 (result + 1)))
      | None => (NO_PAGE, s)
      end
  end.

(** *** [map_page] *)

(** [map_page]: the access check, then the frame of [phys_addr] is marked
    used; [virt_addr] is not used by the body. The events are those the
    validator logs. *)
Definition map_page (s : mm_state) (cur phys_addr virt_addr : Z)
  : mm_state * list event :=
  let v := validate_memory_access s cur phys_addr PAGE_SIZE MEM_PROT_WRITE in
  if negb (fst v) then (s, violation v phys_addr)
  else
    let frame := phys_addr / PAGE_SIZE in
    if frame <? TOTAL_PAGES then
      (set_bitmap s (bitmap_set (page_bitmap s) frame), [])
    else (s, []).

(** *** [log_memory_security_event] *)

(** ['0' + nibble] or ['A' + nibble - 10]. *)
Definition hex_digit (nibble : Z) : ascii :=
  ascii_of_nat (Z.to_nat (if nibble <? 10 then 48 + nibble else 65 + nibble - 10)).

(** The [do ... while (addr_val > 0 && i < 8)] loop that writes the
    digits of the address into [addr_str], the lowest first; [n] bounds
    the number of iterations. *)
Fixpoint hex_loop (n : nat) (addr_val i : Z) (addr_str : list ascii)
  : Z * list ascii :=
  match n with
  | O => (i, addr_str)
  | S n' =>
      let nibble := u8 (Z.land addr_val 15) in
      let addr_str := aset addr_str i (hex_digit nibble) in
      let i := i + 1 in
      let addr_val := Z.shiftr addr_val 4 in
      if (addr_val >? 0) && (i <? 8) then hex_loop n' addr_val i addr_str
      else (i, addr_str)
  end.

(** The loop that reverses [addr_str[0 .. i)] in place. *)
Fixpoint swap_loop (addr_str : list ascii) (i : Z) (n : nat) (j : Z)
  : list ascii :=
  match n with
  | O => addr_str
  | S n' =>
      let temp := aget zero addr_str j in
      let addr_str := aset addr_str j (aget zero addr_str (i - 1 - j)) in
      let addr_str := aset addr_str (i - 1 - j) temp in
      swap_loop addr_str i n' (j + 1)
  end.

(** The characters of a buffer up to its first NUL. *)
Fixpoint until_nul (buf : list ascii) : list ascii :=
  match buf with
  | [] => []
  | c :: buf' => if Ascii.eqb c zero then [] else c :: until_nul buf'
  end.

(** The digits of [address] as they stand in [addr_str] at the end. *)
Definition address_digits (address : Z) : list ascii :=
  let addr_val := u32 address in
  let '(i, addr_str) := hex_loop 8 addr_val 0 (replicate 32 zero) in
  let addr_str := swap_loop addr_str i (Z.to_nat (i / 2)) 0 in
  let addr_str := aset addr_str i zero in
  until_nul addr_str.

(** [log_memory_security_event]: the category and the detail string handed
    to [security_log_security_violation]. The detail string is built in a
    buffer of 256 characters without a bound check; every call of the file
    passes a literal of fewer than 60 characters as [details]. *)
Definition log_memory_security_event (event details : string) (address : Z)
  : string * string :=
  (event,
   (details ++ " at 0x" ++ string_of_list_ascii (address_digits address))%string).

(** *** The other functions of [memory_management_optimized.c]

    The file keeps a bitmap and a hint of its own and no registry; the
    registry fields of the state are carried along untouched. *)

(** The loop [page_bitmap[i] = 0xFF] for [i] from [i] on, [n] times. *)
Fixpoint fill_bytes (b : list Z) (n : nat) (i : Z) : list Z :=
  match n with
  | O => b
  | S n' => fill_bytes (aset b i 255) n' (i + 1)
  end.

Definition bitmap_set_range (b : list Z) (start_bit count : Z) : list Z :=
  let start_byte := Z.shiftr start_bit 3 in
  let start_bit_in_byte := Z.land start_bit 7 in
  let end_bit := u32 (start_bit + count) in
  let end_byte := Z.shiftr end_bit 3 in
  let end_bit_in_byte := Z.land end_bit 7 in
  let '(b1, start_byte1) :=
    if negb (start_bit_in_byte =? 0) then
      let mask := u8 (Z.shiftl 255 start_bit_in_byte) in
      let mask :=
        if start_byte =? end_byte then
          u8 (Z.land mask (Z.shiftr 255 (8 - end_bit_in_byte)))
        else mask in
      (aset b start_byte (u8 (Z.lor (aget 0 b start_byte) mask)),
       u32 (start_byte + 1))
    else (b, start_byte) in
  let b2 := fill_bytes b1 (Z.to_nat (end_byte - start_byte1)) start_byte1 in
  if (end_byte >? start_byte1) && negb (end_bit_in_byte =? 0) then
    let mask := u8 (Z.shiftr 255 (8 - end_bit_in_byte)) in
    aset b2 end_byte (u8 (Z.lor (aget 0 b2 end_byte) mask))
  else b2.

Definition optimized_map_page (s : mm_state) (phys_addr virt_addr : Z) : mm_state :=
  let frame := phys_addr / PAGE_SIZE in
  if frame <? TOTAL_PAGES then set_bitmap s (bitmap_set (page_bitmap s) frame)
  else s.

(** The loop [bitmap_64[i] = 0]: each store clears eight bytes. *)
Fixpoint clear_words (b : list Z) (n : nat) (i : Z) : list Z :=
  match n with
  | O => b
  | S n' =>
      clear_words
        (fold_left (fun b k => aset b (8 * i + k) 0) (seqZ 0 8) b) n' (i + 1)
  end.

(** The loop over the bytes that the 64-bit stores leave. *)
Fixpoint clear_bytes (b : list Z) (n : nat) (i : Z) : list Z :=
  match n with
  | O => b
  | S n' => clear_bytes (aset b i 0) n' (i + 1)
  end.

Definition optimized_init_memory_management (s : mm_state) : mm_state :=
  let bitmap_64_size := BITMAP_SIZE / 8 in
  let b := clear_words (page_bitmap s) (Z.to_nat bitmap_64_size) 0 in
  let b := clear_bytes b (Z.to_nat (BITMAP_SIZE - bitmap_64_size * 8))
                       (bitmap_64_size * 8) in
  let b := bitmap_set_range b 0 kernel_pages in
  set_hint (set_bitmap s b) kernel_pages.

Definition optimized_allocate_memory (s : mm_state) (sz : Z) : Z * mm_state :=
  if negb (sz =? PAGE_SIZE) then (0, s)
  else
    let '(frame, s1) := optimized_find_free_page s in
    if frame =? NO_PAGE then (0, s1)
    else
      (u32 (frame * PAGE_SIZE),
       set_bitmap s1 (bitmap_set (page_bitmap s1) frame)).

Definition optimized_free_memory (s : mm_state) (ptr : Z) : mm_state :=
  if ptr =? 0 then s
  else
    let frame := ptr / PAGE_SIZE in
    if frame <? TOTAL_PAGES then
      let s1 := set_bitmap s (bitmap_clear (page_bitmap s) frame) in
      if frame <? next_free_page s1 then set_hint s1 frame else s1
    else s.

(** *** Specification-level notions for the allocator *)

(** Frame [f] is marked used. *)
Definition frame_used (b : list Z) (f : Z) : bool := negb (bitmap_test b f =? 0).

(** The bitmap is an array of [BITMAP_SIZE] bytes. *)
Definition bitmap_ok (b : list Z) : Prop :=
  length b = Z.to_nat BITMAP_SIZE /\ Forall (fun x => 0 <= x < 256) b.

(** The slot [memory_regions[i]]. *)
Definition region_at (s : mm_state) (i : Z) : memory_region :=
  aget zero_region (memory_regions s) i.

(** The registered regions: the slots below [region_count]. *)
Definition live_regions (s : mm_state) : list memory_region :=
  take (Z.to_nat (region_count s)) (memory_regions s).

(** Region [r] contains the range [[start_addr, end_addr)]; the end of the
    region is computed in 32 bits, as the validator does. *)
Definition covers (r : memory_region) (start_addr end_addr : Z) : bool :=
  (start_addr >=? base_address r) && (end_addr <=? u32 (base_address r + size r)).

(** Slot [i] is the first registered region that contains
    [[address, address + sz)]. *)
Definition first_covering (s : mm_state) (address sz i : Z) : Prop :=
  0 <= i < region_count s /\
  covers (region_at s i) address (address + sz) = true /\
  forall j, 0 <= j < i -> covers (region_at s j) address (address + sz) = false.

(** What the validator answers once region [r] is the first one that
    contains the range. *)
Definition region_verdict (r : memory_region) (cur access : Z) : bool * option string :=
  if Z.land (protection r) access =? 0 then (false, Some "PERMISSION_DENIED"%string)
  else if negb (owner r =? 0) && negb (owner r =? cur) then
    (false, Some "WRONG_OWNER"%string)
  else (true, None).

(** The checks on the range alone: non-null, non-empty, no wrap-around,
    inside the user window, frame-aligned. *)
Definition range_ok (address sz : Z) : Prop :=
  address <> 0 /\ sz <> 0 /\ address + sz < 4294967296 /\
  KERNEL_END <= address /\ address + sz <= PHYS_MEMORY_END /\
  address mod PAGE_SIZE = 0.

(** The access validator as the specification words it: some registered
    region contains the range, the requested permission is a subset of
    that region's permissions, and the owner is null or the current
    principal. *)
Definition permission_subset (requested granted : Z) : bool :=
  Z.land requested granted =? requested.

Definition validate_as_specified (s : mm_state) (cur address sz access : Z) : bool :=
  negb (address =? 0) && negb (sz =? 0)
  && (address + sz <? 4294967296)
  && (KERNEL_END <=? address) && (address + sz <=? PHYS_MEMORY_END)
  && (address mod PAGE_SIZE =? 0)
  && existsb (fun r =>
        (base_address r <=? address) && (address + sz <=? base_address r + size r)
        && permission_subset access (protection r)
        && ((owner r =? 0) || (owner r =? cur)))
       (live_regions s).

(** One page allocated by principal [7] after initialisation. *)
Definition one_page_state : mm_state :=
  snd (fst (allocate_memory init_memory_management 7 PAGE_SIZE)).

(** Removal of the first region registered at [address], on the list of
    registered regions. *)
Fixpoint remove_base (address : Z) (l : list memory_region) : list memory_region :=
  match l with
  | [] => []
  | r :: l' => if base_address r =? address then l' else r :: remove_base address l'
  end.

Definition kernel_region : memory_region :=
  mkRegion 0 KERNEL_END 7 0 true.

(** A registered region is the kernel's or one page handed to a principal. *)
Definition region_ok (r : memory_region) : Prop :=
  r = kernel_region \/
  exists f, kernel_pages <= f < TOTAL_PAGES /\
            base_address r = f * PAGE_SIZE /\ size r = PAGE_SIZE /\
            Z.land (protection r) MEM_PROT_WRITE <> 0 /\ owner r <> 0.

(** The invariant of the allocator; [held] are the addresses that clients
    hold. *)
Record mm_inv (s : mm_state) (held : list Z) : Prop := {
  inv_bitmap : bitmap_ok (page_bitmap s);
  inv_len : length (memory_regions s) = Z.to_nat MAX_MEMORY_REGIONS;
  inv_count : 0 <= region_count s <= MAX_MEMORY_REGIONS;
  inv_hint : kernel_pages <= next_free_page s <= TOTAL_PAGES;
  inv_enabled : memory_protection_enabled s = true;
  inv_regions : Forall region_ok (live_regions s);
  inv_nodup : NoDup (base_address <$> live_regions s);
  inv_kernel : forall f, 0 <= f < kernel_pages -> frame_used (page_bitmap s) f = true;
  inv_used : forall f, kernel_pages <= f < TOTAL_PAGES ->
               (frame_used (page_bitmap s) f = true <-> f * PAGE_SIZE ∈ held);
  inv_held : forall a, a ∈ held <->
               a <> 0 /\ a ∈ (base_address <$> live_regions s);
  inv_held_nodup : NoDup held
}.

(** A sequence of calls made by clients of the allocator; [cur] is the
    principal that is current during the call. *)
Inductive mm_op :=
  | Alloc (cur sz : Z)
  | Free (cur ptr : Z).

Definition was_logged (c : string) (log : list event) : bool :=
  existsb (fun e => String.eqb (fst e) c) log.

(** The allocator state together with the addresses that clients hold:
    those returned by [allocate_memory] and not yet released by a
    [free_memory] that logged [MEMORY_FREED]. *)
Definition step (w : mm_state * list Z) (o : mm_op) : mm_state * list Z :=
  let '(s, held) := w in
  match o with
  | Alloc cur sz =>
      let '(a, s', _) := allocate_memory s cur sz in
      (s', if a =? 0 then held else a :: held)
  | Free cur ptr =>
      let '(s', log) := free_memory s cur ptr in
      (s', if was_logged "MEMORY_FREED" log
           then filter (fun a => a <> ptr) held else held)
  end.

Definition run (ops : list mm_op) : mm_state * list Z :=
  fold_left step ops (init_memory_management, []).

(** Principal [7] asks for a page [n] times in a row after initialisation. *)
Definition after_requests (n : nat) : mm_state :=
  fst (run (repeat (Alloc 7 PAGE_SIZE) n)).

(** The registry is full: the kernel's region and 1023 pages. *)
Definition full_registry_state : mm_state := after_requests 1023.

(** Two more requests have been refused for lack of a registry slot. *)
Definition two_refusals_state : mm_state := after_requests 1025.

(** Every remaining frame has been tried while the registry was full. *)
Definition exhausted_hint_state : mm_state := after_requests 3840.

(** The registry is full and only the last frame has not been tried. *)
Definition last_frame_state : mm_state := after_requests 3839.

(** *** Further notions for the allocator *)

(** The region that [allocate_memory] registers for frame [f] on behalf of
    principal [cur]. *)
Definition page_region (f cur : Z) : memory_region :=
  mkRegion (f * PAGE_SIZE) PAGE_SIZE (Z.lor MEM_PROT_READ MEM_PROT_WRITE) cur true.

Definition owned_page (r : memory_region) : Prop :=
  exists f cur, kernel_pages <= f < TOTAL_PAGES /\ cur <> 0 /\ r = page_region f cur.

(** The registry holds the kernel's region first, then one region per page
    handed out. *)
Definition registry_shape (s : mm_state) : Prop :=
  exists pages, live_regions s = kernel_region :: pages /\ Forall owned_page pages.

(** The page at address [a] is registered to principal [cur]. *)
Definition owns (s : mm_state) (cur a : Z) : Prop :=
  a <> 0 /\
  mkRegion a PAGE_SIZE (Z.lor MEM_PROT_READ MEM_PROT_WRITE) cur true ∈ live_regions s.

(** A call that is not a release of the page at [a] by principal [cur]. *)
Definition spares (cur a : Z) (o : mm_op) : Prop :=
  match o with
  | Alloc _ _ => True
  | Free c p => c <> cur \/ p <> a
  end.

(** Reading a string of upper-case hexadecimal digits. *)
Definition hex_digit_value (c : ascii) : Z :=
  let n := Z.of_nat (nat_of_ascii c) in
  if (48 <=? n) && (n <=? 57) then n - 48 else n - 55.

Definition is_hex_digit (c : ascii) : bool :=
  let n := Z.of_nat (nat_of_ascii c) in
  ((48 <=? n) && (n <=? 57)) || ((65 <=? n) && (n <=? 70)).

Definition hex_value (l : list ascii) : Z :=
  fold_left (fun acc c => 16 * acc + hex_digit_value c) l 0.

(** The number written by a list of digits, the lowest first. *)
Fixpoint lsb_value (l : list ascii) : Z :=
  match l with
  | [] => 0
  | c :: l' => hex_digit_value c + 16 * lsb_value l'
  end.

(** The number of clear frames among the [n] frames from [lo] on, and in
    the interval [[lo, hi)]. *)
Fixpoint clear_frames (b : list Z) (n : nat) (lo : Z) : Z :=
  match n with
  | O => 0
  | S n' => (if frame_used b lo then 0 else 1) + clear_frames b n' (lo + 1)
  end.

Definition clear_between (b : list Z) (lo hi : Z) : Z :=
  clear_frames b (Z.to_nat (hi - lo)) lo.

(** The number of frames that the scan of [find_free_page] can still find:
    the clear frames at or above the hint. *)
Definition clear_above_hint (s : mm_state) : Z :=
  clear_between (page_bitmap s) (next_free_page s) TOTAL_PAGES.

(** The states of the optimized allocator: a bitmap of the declared size
    and a hint within the frame range. *)
Definition opt_ok (s : mm_state) : Prop :=
  bitmap_ok (page_bitmap s) /\ 0 <= next_free_page s <= TOTAL_PAGES.

(** How far [bitmap_set_range] gets: the whole range, except that the
    last, partial byte is left out when the range ends in the byte at
    which the loop over full bytes starts. *)
Definition range_end_reached (start_bit count : Z) : Z :=
  let end_bit := start_bit + count in
  let first_full := start_bit / 8 + (if start_bit mod 8 =? 0 then 0 else 1) in
  if negb (end_bit mod 8 =? 0) && (end_bit / 8 =? first_full)
  then 8 * (end_bit / 8) else end_bit.

(** Frame [f] lies in [[lo, hi)]. *)
Definition in_frames (lo hi f : Z) : bool := (lo <=? f) && (f <? hi).

(** *** The optimized allocator as its callers see it *)

(** A call of one of the functions of [memory_management_optimized.c]
    that write the bitmap or the hint; the arguments are 32-bit values. *)
Inductive opt_op :=
  | OptInit
  | OptAlloc (sz : Z)
  | OptFree (ptr : Z)
  | OptMapPage (phys_addr virt_addr : Z).

Definition opt_step (s : mm_state) (o : opt_op) : mm_state :=
  match o with
  | OptInit => optimized_init_memory_management s
  | OptAlloc sz => snd (optimized_allocate_memory s (u32 sz))
  | OptFree ptr => optimized_free_memory s (u32 ptr)
  | OptMapPage phys_addr virt_addr => optimized_map_page s (u32 phys_addr) (u32 virt_addr)
  end.

Definition opt_run (s : mm_state) (ops : list opt_op) : mm_state :=
  fold_left opt_step ops s.

(** No frame below the hint is clear. *)
Definition below_hint_used (s : mm_state) : Prop :=
  forall g, 0 <= g < next_free_page s -> frame_used (page_bitmap s) g = true.

(** The statics of the optimized allocator at program start: the bitmap
    zeroed, the hint 0. *)
Definition opt_boot_state : mm_state :=
  set_hint (set_bitmap init_memory_management (replicate (Z.to_nat BITMAP_SIZE) 0)) 0.
End Mem.

Module Sched.

(** *** Types and constants of [scalability.h] *)

Inductive thread_state_t :=
  | THREAD_READY
  | THREAD_RUNNING
  | THREAD_BLOCKED
  | THREAD_DONE.

Definition state_eqb (a b : thread_state_t) : bool :=
  match a, b with
  | THREAD_READY, THREAD_READY
  | THREAD_RUNNING, THREAD_RUNNING
  | THREAD_BLOCKED, THREAD_BLOCKED
  | THREAD_DONE, THREAD_DONE => true
  | _, _ => false
  end.

Definition SC_MAX_THREADS : Z := 64.
Definition SC_MAX_CPUS : Z := 8.

(** [sc_thread_t]. [entry] is the function pointer ([0] is [NULL]) and
    [arg] the pointer handed to it. *)
Record sc_thread_t := mkThread {
  id : Z;
  cpu_id : Z;
  priority : Z;
  quota : Z;
  entry : Z;
  arg : Z;
  state : thread_state_t;
  ticks : Z
}.

(** A slot of static storage before its first write. *)
Definition zero_thread : sc_thread_t := mkThread 0 0 0 0 0 0 THREAD_READY 0.

(** The file-scope statics of [scalability.h]. *)
Record sc_state := mkSched {
  sc_threads : list sc_thread_t;
  sc_thread_count : Z;
  sc_run_queue : list Z;
  sc_rq_head : Z;
  sc_rq_tail : Z;
  sc_cpu_load : list Z;
  sc_cpu_count : Z;
  sc_current_thread : Z
}.

Definition thread_at (s : sc_state) (i : Z) : sc_thread_t :=
  aget zero_thread (sc_threads s) i.

Definition load_at (s : sc_state) (c : Z) : Z := aget 0 (sc_cpu_load s) c.

Definition with_threads (s : sc_state) (t : list sc_thread_t) : sc_state :=
  mkSched t (sc_thread_count s) (sc_run_queue s) (sc_rq_head s) (sc_rq_tail s)
          (sc_cpu_load s) (sc_cpu_count s) (sc_current_thread s).

Definition with_load (s : sc_state) (l : list Z) : sc_state :=
  mkSched (sc_threads s) (sc_thread_count s) (sc_run_queue s) (sc_rq_head s)
          (sc_rq_tail s) l (sc_cpu_count s) (sc_current_thread s).

Definition with_current (s : sc_state) (c : Z) : sc_state :=
  mkSched (sc_threads s) (sc_thread_count s) (sc_run_queue s) (sc_rq_head s)
          (sc_rq_tail s) (sc_cpu_load s) (sc_cpu_count s) c.

Definition set_state (t : sc_thread_t) (st : thread_state_t) : sc_thread_t :=
  mkThread (id t) (cpu_id t) (priority t) (quota t) (entry t) (arg t) st (ticks t).

Definition set_cpu (t : sc_thread_t) (c : Z) : sc_thread_t :=
  mkThread (id t) c (priority t) (quota t) (entry t) (arg t) (state t) (ticks t).

(** [ticks] is a [uint64_t]. *)
Definition inc_ticks (t : sc_thread_t) : sc_thread_t :=
  mkThread (id t) (cpu_id t) (priority t) (quota t) (entry t) (arg t) (state t)
           ((ticks t + 1) mod 18446744073709551616).

Definition init_scheduler (s : sc_state) (cpus : Z) : sc_state :=
  let cpus := if cpus <? 1 then 1 else cpus in
  let cpus := if cpus >? SC_MAX_CPUS then SC_MAX_CPUS else cpus in
  mkSched (sc_threads s) 0 (sc_run_queue s) 0 0
          (replicate (Z.to_nat SC_MAX_CPUS) 0) cpus (-1).

(** The state of the statics at program start (all zero, except the two
    initialised ones). *)
Definition boot_state : sc_state :=
  mkSched (replicate (Z.to_nat SC_MAX_THREADS) zero_thread) 0
          (replicate (Z.to_nat SC_MAX_THREADS) 0) 0 0
          (replicate (Z.to_nat SC_MAX_CPUS) 0) 1 (-1).

Fixpoint count_loop (s : sc_state) (n : nat) (i : Z) (count : Z) : Z :=
  match n with
  | O => count
  | S n' =>
      count_loop s n' (i + 1)
        (if state_eqb (state (thread_at s i)) THREAD_DONE then count else count + 1)
  end.

Definition get_thread_count (s : sc_state) : Z :=
  count_loop s (Z.to_nat (sc_thread_count s)) 0 0.

Definition get_cpu_load (s : sc_state) (c : Z) : Z :=
  if (c <? 0) || (c >=? sc_cpu_count s) then 0 else load_at s c.

Definition current_thread_id (s : sc_state) : Z := sc_current_thread s.

(** *** The circular run queue *)

Definition push_rq (s : sc_state) (i : Z) : Z * sc_state :=
  let next := (sc_rq_tail s + 1) mod SC_MAX_THREADS in
  if next =? sc_rq_head s then (-1, s)
  else (0,
        mkSched (sc_threads s) (sc_thread_count s)
                (aset (sc_run_queue s) (sc_rq_tail s) i)
                (sc_rq_head s) next
                (sc_cpu_load s) (sc_cpu_count s) (sc_current_thread s)).

Definition pop_rq (s : sc_state) : Z * sc_state :=
  if sc_rq_head s =? sc_rq_tail s then (-1, s)
  else (aget 0 (sc_run_queue s) (sc_rq_head s),
        mkSched (sc_threads s) (sc_thread_count s) (sc_run_queue s)
                ((sc_rq_head s + 1) mod SC_MAX_THREADS) (sc_rq_tail s)
                (sc_cpu_load s) (sc_cpu_count s) (sc_current_thread s)).

(** *** Thread creation, yield and completion *)

Fixpoint best_cpu_loop (load : list Z) (n : nat) (i : Z) (best_cpu : Z) : Z :=
  match n with
  | O => best_cpu
  | S n' =>
      best_cpu_loop load n' (i + 1)
        (if aget 0 load i <? aget 0 load best_cpu then i else best_cpu)
  end.

Definition create_thread (s : sc_state) (fn a prio : Z) : Z * sc_state :=
  if fn =? 0 then (-1, s)
  else if sc_thread_count s >=? SC_MAX_THREADS then (-1, s)
  else
    let best_cpu :=
      best_cpu_loop (sc_cpu_load s) (Z.to_nat (sc_cpu_count s - 1)) 1 0 in
    let i := sc_thread_count s in
    let s1 :=
      mkSched (aset (sc_threads s) i (mkThread i best_cpu prio 1 fn a THREAD_READY 0))
              (sc_thread_count s + 1) (sc_run_queue s) (sc_rq_head s)
              (sc_rq_tail s)
              (aset (sc_cpu_load s) best_cpu (aget 0 (sc_cpu_load s) best_cpu + 1))
              (sc_cpu_count s) (sc_current_thread s) in
    (i, snd (push_rq s1 i)).

Definition yield (s : sc_state) : sc_state :=
  if sc_current_thread s <? 0 then s
  else
    let i := sc_current_thread s in
    let s1 := with_threads s (aset (sc_threads s) i (set_state (thread_at s i) THREAD_READY)) in
    with_current (snd (push_rq s1 i)) (-1).

Definition complete_current_thread (s : sc_state) : sc_state :=
  if sc_current_thread s <? 0 then s
  else
    let i := sc_current_thread s in
    let s1 := with_threads s (aset (sc_threads s) i (set_state (thread_at s i) THREAD_DONE)) in
    let c := cpu_id (thread_at s1 i) in
    with_current (with_load s1 (aset (sc_cpu_load s1) c (load_at s1 c - 1))) (-1).

(** *** Load balancing *)

Fixpoint minmax_loop (load : list Z) (n : nat) (i : Z) (min_cpu max_cpu : Z)
  : Z * Z :=
  match n with
  | O => (min_cpu, max_cpu)
  | S n' =>
      let min_cpu' := if aget 0 load i <? aget 0 load min_cpu then i else min_cpu in
      let max_cpu' := if aget 0 load i >? aget 0 load max_cpu then i else max_cpu in
      minmax_loop load n' (i + 1) min_cpu' max_cpu'
  end.

Definition min_max_cpu (s : sc_state) : Z * Z :=
  minmax_loop (sc_cpu_load s) (Z.to_nat (sc_cpu_count s - 1)) 1 0 0.

Fixpoint migrate_loop (s : sc_state) (min_cpu max_cpu : Z) (n : nat) (i : Z)
  : sc_state :=
  match n with
  | O => s
  | S n' =>
      if state_eqb (state (thread_at s i)) THREAD_READY
         && (cpu_id (thread_at s i) =? max_cpu) then
        let s1 := with_threads s (aset (sc_threads s) i (set_cpu (thread_at s i) min_cpu)) in
        let s2 := with_load s1 (aset (sc_cpu_load s1) max_cpu (load_at s1 max_cpu - 1)) in
        with_load s2 (aset (sc_cpu_load s2) min_cpu (load_at s2 min_cpu + 1))
      else migrate_loop s min_cpu max_cpu n' (i + 1)
  end.

Definition load_balance (s : sc_state) : sc_state :=
  let '(min_cpu, max_cpu) := min_max_cpu s in
  if load_at s max_cpu - load_at s min_cpu <=? 1 then s
  else migrate_loop s min_cpu max_cpu (Z.to_nat (sc_thread_count s)) 0.

(** *** Thread bodies

    A thread body is C code that runs inside [schedule_process] and talks
    to the scheduler through its functions. One invocation of a body (one
    slice) is a finite tree of such calls; each continuation receives the
    value the call returned. [E] is the memory private to the bodies (the
    [steps] and [targets] arrays of the test driver, say). *)

Inductive sc_call :=
  | CallCurrentThreadId
  | CallGetThreadCount
  | CallGetCpuLoad (c : Z)
  | CallCreateThread (fn a prio : Z)
  | CallYield
  | CallComplete
  | CallLoadBalance.

Inductive slice (E : Type) :=
  | Return (e : E)
  | Invoke (c : sc_call) (k : Z -> slice E).

Arguments Return {E} e.
Arguments Invoke {E} c k.

Definition do_call (c : sc_call) (s : sc_state) : Z * sc_state :=
  match c with
  | CallCurrentThreadId => (current_thread_id s, s)
  | CallGetThreadCount => (get_thread_count s, s)
  | CallGetCpuLoad c => (get_cpu_load s c, s)
  | CallCreateThread fn a prio => create_thread s fn a prio
  | CallYield => (0, yield s)
  | CallComplete => (0, complete_current_thread s)
  | CallLoadBalance => (0, load_balance s)
  end.

Fixpoint run_slice {E} (p : slice E) (s : sc_state) : sc_state * E :=
  match p with
  | Return e => (s, e)
  | Invoke c k => let '(r, s') := do_call c s in run_slice (k r) s'
  end.

Section Dispatch.

Context {E : Type}.

(** [code fn a e]: what the function at address [fn] does when called
    with argument [a] while the private memory is [e]. *)
Variable code : Z -> Z -> E -> slice E.

Definition schedule_process (w : sc_state * E) : sc_state * E :=
  let '(s, e) := w in
  let '(i, s1) := pop_rq s in
  if i <? 0 then (s1, e)
  else if negb (state_eqb (state (thread_at s1 i)) THREAD_READY) then
    (snd (push_rq s1 i), e)
  else
    let s2 := with_threads s1 (aset (sc_threads s1) i (set_state (thread_at s1 i) THREAD_RUNNING)) in
    let s3 := with_current s2 i in
    let '(s4, e') := run_slice (code (entry (thread_at s3 i)) (arg (thread_at s3 i)) e) s3 in
    if sc_current_thread s4 =? i then
      let s5 := with_threads s4 (aset (sc_threads s4) i (inc_ticks (thread_at s4 i))) in
      let s6 := with_threads s5 (aset (sc_threads s5) i (set_state (thread_at s5 i) THREAD_READY)) in
      (with_current (snd (push_rq s6 i)) (-1), e')
    else (s4, e').

(** The driver loop [while (get_thread_count() > 0) schedule_process();]
    run for at most [fuel] iterations; [None] when the fuel runs out
    before the count reaches zero. *)
Fixpoint run_until_done (fuel : nat) (w : sc_state * E) : option (sc_state * E) :=
  if get_thread_count (fst w) =? 0 then Some w
  else match fuel with
       | O => None
       | S fuel' => run_until_done fuel' (schedule_process w)
       end.

End Dispatch.

(** *** Specification-level notions for the scheduler *)

(** Number of entries of the run queue. *)
Definition rq_len (s : sc_state) : Z :=
  (sc_rq_tail s - sc_rq_head s) mod SC_MAX_THREADS.

(** The entries of the run queue, the next to be popped first. *)
Definition rq_list (s : sc_state) : list Z :=
  (fun k => aget 0 (sc_run_queue s) ((sc_rq_head s + k) mod SC_MAX_THREADS))
    <$> seqZ 0 (rq_len s).

(** The arrays have their declared sizes and the indices are in range. *)
Record sched_wf (s : sc_state) : Prop := {
  wf_threads : length (sc_threads s) = Z.to_nat SC_MAX_THREADS;
  wf_queue : length (sc_run_queue s) = Z.to_nat SC_MAX_THREADS;
  wf_load : length (sc_cpu_load s) = Z.to_nat SC_MAX_CPUS;
  wf_head : 0 <= sc_rq_head s < SC_MAX_THREADS;
  wf_tail : 0 <= sc_rq_tail s < SC_MAX_THREADS;
  wf_count : 0 <= sc_thread_count s <= SC_MAX_THREADS;
  wf_cpus : 1 <= sc_cpu_count s <= SC_MAX_CPUS
}.

(** The state after a successful pop, and after a successful push. *)
Definition popped (s : sc_state) : sc_state :=
  mkSched (sc_threads s) (sc_thread_count s) (sc_run_queue s)
          ((sc_rq_head s + 1) mod SC_MAX_THREADS) (sc_rq_tail s)
          (sc_cpu_load s) (sc_cpu_count s) (sc_current_thread s).

Definition pushed (s : sc_state) (i : Z) : sc_state :=
  mkSched (sc_threads s) (sc_thread_count s)
          (aset (sc_run_queue s) (sc_rq_tail s) i)
          (sc_rq_head s) ((sc_rq_tail s + 1) mod SC_MAX_THREADS)
          (sc_cpu_load s) (sc_cpu_count s) (sc_current_thread s).

(** Thread bodies that return at once, over an empty private memory. *)
Definition idle_code (fn a : Z) (e : unit) : slice unit := Return e.

(** One thread, finished, whose id is still in the run queue. *)
Definition stale_state : sc_state :=
  mkSched (aset (sc_threads boot_state) 0 (mkThread 0 0 1 1 1 0 THREAD_DONE 0)) 1
          (aset (sc_run_queue boot_state) 0 0) 0 1
          (sc_cpu_load boot_state) 1 (-1).

(** The difference between the largest and the smallest load counter, as
    [load_balance] computes it. *)
Definition load_gap (s : sc_state) : Z :=
  load_at s (snd (min_max_cpu s)) - load_at s (fst (min_max_cpu s)).

(** Thread [k] is the first [Ready] thread assigned to CPU [c]. *)
Definition ready_on (s : sc_state) (c k : Z) : bool :=
  state_eqb (state (thread_at s k)) THREAD_READY && (cpu_id (thread_at s k) =? c).

Definition first_ready_on (s : sc_state) (c k : Z) : Prop :=
  0 <= k < sc_thread_count s /\ ready_on s c k = true /\
  forall j, 0 <= j < k -> ready_on s c j = false.

(** The state after thread [k] has been moved from [max_cpu] to [min_cpu]. *)
Definition migrated (s : sc_state) (min_cpu max_cpu k : Z) : sc_state :=
  let s1 := with_threads s (aset (sc_threads s) k (set_cpu (thread_at s k) min_cpu)) in
  let s2 := with_load s1 (aset (sc_cpu_load s1) max_cpu (load_at s1 max_cpu - 1)) in
  with_load s2 (aset (sc_cpu_load s2) min_cpu (load_at s2 min_cpu + 1)).

(** [t] threads, all [Ready] and all assigned to CPU 0, on [c] CPUs. *)
Record skewed (s : sc_state) (t c : Z) : Prop := {
  skewed_wf : sched_wf s;
  skewed_cpus : sc_cpu_count s = c;
  skewed_count : sc_thread_count s = t;
  skewed_threads : forall i, 0 <= i < t ->
      state (thread_at s i) = THREAD_READY /\ cpu_id (thread_at s i) = 0;
  skewed_load0 : load_at s 0 = t;
  skewed_loads : forall j, 1 <= j < c -> load_at s j = 0
}.

(** What [load_balance] maintains when started from a skewed state of [t]
    threads: the first [n] threads have left CPU 0, the others are still
    there; CPU 0 carries the largest load and the other loads differ by at
    most one. *)
Record balance_inv (t n : Z) (s : sc_state) : Prop := {
  bal_wf : sched_wf s;
  bal_count : sc_thread_count s = t;
  bal_n : 0 <= n <= t;
  bal_ready : forall i, 0 <= i < t -> state (thread_at s i) = THREAD_READY;
  bal_moved : forall i, 0 <= i < n -> cpu_id (thread_at s i) <> 0;
  bal_left : forall i, n <= i < t -> cpu_id (thread_at s i) = 0;
  bal_load0 : load_at s 0 = t - n;
  bal_max : forall j, 0 <= j < sc_cpu_count s -> load_at s j <= load_at s 0;
  bal_band : forall j j', 1 <= j < sc_cpu_count s -> 1 <= j' < sc_cpu_count s ->
      load_at s j <= load_at s j' + 1;
  bal_nonneg : forall j, 0 <= j < sc_cpu_count s -> 0 <= load_at s j
}.

(** Sixteen ready threads on CPU 0 of four. *)
Definition skewed_example : sc_state :=
  mkSched (((fun i => mkThread i 0 1 1 1 0 THREAD_READY 0) <$> seqZ 0 16)
             ++ replicate 48 zero_thread) 16
          (replicate 64 0) 0 0 [16; 0; 0; 0; 0; 0; 0; 0] 4 (-1).

(** What the single driver of the scheduler does between two
    initialisations: it calls [schedule_process] or another function of the
    interface. *)
Inductive driver_op :=
  | OpSchedule
  | OpCall (c : sc_call).

Definition drive_step {E} (code : Z -> Z -> E -> slice E)
    (w : sc_state * E) (o : driver_op) : sc_state * E :=
  match o with
  | OpSchedule => schedule_process code w
  | OpCall c => (snd (do_call c (fst w)), snd w)
  end.

Definition drive {E} (code : Z -> Z -> E -> slice E)
    (w : sc_state * E) (ops : list driver_op) : sc_state * E :=
  fold_left (drive_step code) ops w.

(** The thread whose body the next call of [schedule_process] runs, if
    any. *)
Definition dispatched (s : sc_state) : option Z :=
  let '(i, s1) := pop_rq s in
  if i <? 0 then None
  else if state_eqb (state (thread_at s1 i)) THREAD_READY then Some i
  else None.

(** Thread [r] exists, is [Ready] and has never run, and nothing can make
    it run: it is neither in the run queue nor the current thread. *)
Record never_run (r : Z) (s : sc_state) : Prop := {
  nr_wf : sched_wf s;
  nr_range : 0 <= r < sc_thread_count s;
  nr_queue : r ∉ rq_list s;
  nr_current : sc_current_thread s <> r;
  nr_state : state (thread_at s r) = THREAD_READY;
  nr_ticks : ticks (thread_at s r) = 0
}.

(** [n] threads with body [fn] created in a row. *)
Fixpoint spawn (s : sc_state) (fn : Z) (n : nat) : sc_state :=
  match n with
  | O => s
  | S n' => snd (create_thread (spawn s fn n') fn 0 1)
  end.

(** Sixty-three threads created on four CPUs: the run queue is full. *)
Definition full_queue_state : sc_state :=
  spawn (init_scheduler boot_state 4) 1 63.

(** Thread [i] counts in the load of CPU [c]: it is assigned to [c] and
    has not finished. *)
Definition live_on (s : sc_state) (c i : Z) : bool :=
  (cpu_id (thread_at s i) =? c)
  && negb (state_eqb (state (thread_at s i)) THREAD_DONE).

(** The number of indices below [n] that satisfy [P]. *)
Fixpoint tally (P : Z -> bool) (n : nat) : Z :=
  match n with
  | O => 0
  | S n' => tally P n' + (if P (Z.of_nat n') then 1 else 0)
  end.

(** What the functions of the scheduler maintain from [init_scheduler] on:
    the current thread, if any, is [Running] and every other thread is
    [Ready] or [Done]; the run queue holds thread ids; each load counter is
    the number of unfinished threads assigned to its CPU. *)
Record load_inv (s : sc_state) : Prop := {
  li_wf : sched_wf s;
  li_current : -1 <= sc_current_thread s < sc_thread_count s;
  li_running : 0 <= sc_current_thread s ->
      state (thread_at s (sc_current_thread s)) = THREAD_RUNNING;
  li_idle : forall i, 0 <= i < sc_thread_count s -> i <> sc_current_thread s ->
      state (thread_at s i) = THREAD_READY \/ state (thread_at s i) = THREAD_DONE;
  li_cpu : forall i, 0 <= i < sc_thread_count s ->
      0 <= cpu_id (thread_at s i) < sc_cpu_count s;
  li_queue : forall x, x ∈ rq_list s -> 0 <= x < sc_thread_count s;
  li_load : forall c, 0 <= c < SC_MAX_CPUS ->
      load_at s c = tally (live_on s c) (Z.to_nat (sc_thread_count s))
}.

(** *** The thread bodies of [tests/test_scalability.c] *)

(** The private memory of the bodies: the arrays [steps] and [targets]. *)
Record worker_env := mkEnv {
  steps : list Z;
  targets : list Z
}.

Definition count_step (e : worker_env) (tid : Z) : worker_env :=
  mkEnv (aset (steps e) tid (aget 0 (steps e) tid + 1)) (targets e).

(** [worker]: counts the slice, completes when the target is reached and
    yields explicitly otherwise. *)
Definition worker (e : worker_env) : slice worker_env :=
  Invoke CallCurrentThreadId (fun tid =>
    let e' := count_step e tid in
    if aget 0 (steps e') tid >=? aget 0 (targets e') tid then
      Invoke CallComplete (fun _ => Return e')
    else Invoke CallYield (fun _ => Return e')).

(** The same body without the call of [yield]: it returns to
    [schedule_process], which treats the slice as an implicit yield. *)
Definition quiet_worker (e : worker_env) : slice worker_env :=
  Invoke CallCurrentThreadId (fun tid =>
    let e' := count_step e tid in
    if aget 0 (steps e') tid >=? aget 0 (targets e') tid then
      Invoke CallComplete (fun _ => Return e')
    else Return e').

(** Addresses of the two bodies. *)
Definition WORKER : Z := 1.
Definition QUIET_WORKER : Z := 2.

Definition worker_code (fn a : Z) (e : worker_env) : slice worker_env :=
  if fn =? WORKER then worker e
  else if fn =? QUIET_WORKER then quiet_worker e
  else Return e.

(** The set-up of the test: [t] threads with body [fn] on [cpus] CPUs, each
    with target [m] and no step counted yet. *)
Definition test_world (cpus t m fn : Z) : sc_state * worker_env :=
  (spawn (init_scheduler boot_state cpus) fn (Z.to_nat t),
   mkEnv (replicate (Z.to_nat SC_MAX_THREADS) 0)
         (replicate (Z.to_nat t) m ++ replicate (Z.to_nat (SC_MAX_THREADS - t)) 0)).

(** The state of a run of [t] quiet workers with target [m] in which every
    thread has had [k] slices and the threads below [j] one more. *)
Record fair_inv (t m k j : Z) (w : sc_state * worker_env) : Prop := {
  fi_wf : sched_wf (fst w);
  fi_count : sc_thread_count (fst w) = t;
  fi_current : sc_current_thread (fst w) = -1;
  fi_steps : length (steps (snd w)) = Z.to_nat SC_MAX_THREADS;
  fi_queue : rq_list (fst w) =
             if k <? m - 1 then seqZ j (t - j) ++ seqZ 0 j else seqZ j (t - j);
  fi_body : forall i, 0 <= i < t ->
      entry (thread_at (fst w) i) = QUIET_WORKER /\ aget 0 (targets (snd w)) i = m;
  fi_served : forall i, 0 <= i < j ->
      aget 0 (steps (snd w)) i = k + 1 /\
      ticks (thread_at (fst w) i) = (if k <? m - 1 then k + 1 else k) /\
      state (thread_at (fst w) i) = (if k <? m - 1 then THREAD_READY else THREAD_DONE);
  fi_waiting : forall i, j <= i < t ->
      aget 0 (steps (snd w)) i = k /\
      ticks (thread_at (fst w) i) = k /\
      state (thread_at (fst w) i) = THREAD_READY
}.

(** *** Further notions for the scheduler *)

(** Thread [i] has not finished. *)
Definition unfinished (s : sc_state) (i : Z) : bool :=
  negb (state_eqb (state (thread_at s i)) THREAD_DONE).

(** The sum of [get_cpu_load] over the CPUs below [n]. *)
Fixpoint sum_loads (s : sc_state) (n : nat) : Z :=
  match n with
  | O => 0
  | S n' => sum_loads s n' + get_cpu_load s (Z.of_nat n')
  end.

Definition total_load (s : sc_state) : Z :=
  sum_loads s (Z.to_nat (sc_cpu_count s)).

(** The number of CPUs that [init_scheduler] settles on. *)
Definition clamp_cpus (cpus : Z) : Z := Z.max 1 (Z.min SC_MAX_CPUS cpus).

(** *** The driver of [tests/test_scalability.c] *)

Section TestDriver.

Context {E : Type}.
Variable code : Z -> Z -> E -> slice E.

(** The loop of [run_scheduler_until_done]; [n] bounds the number of
    iterations, which [guard] limits to 100000. *)
Fixpoint run_scheduler_loop (n : nat) (guard : Z) (w : sc_state * E)
  : sc_state * E :=
  match n with
  | O => w
  | S n' =>
      if (get_thread_count (fst w) >? 0) && (guard <? 100000) then
        let w1 := schedule_process code w in
        let w2 := if guard mod 32 =? 0 then (load_balance (fst w1), snd w1) else w1 in
        run_scheduler_loop n' (guard + 1) w2
      else w
  end.

Definition run_scheduler_until_done (w : sc_state * E) : sc_state * E :=
  run_scheduler_loop (Z.to_nat 100000) 0 w.

End TestDriver.

(** The state of a run of [t] workers of the test with target [m] in which
    every thread has had [k] slices and the threads below [j] one more;
    the body yields by itself, so no tick is counted. *)
Record test_inv (t m k j : Z) (w : sc_state * worker_env) : Prop := {
  ti_wf : sched_wf (fst w);
  ti_count : sc_thread_count (fst w) = t;
  ti_current : sc_current_thread (fst w) = -1;
  ti_steps : length (steps (snd w)) = Z.to_nat SC_MAX_THREADS;
  ti_queue : rq_list (fst w) =
             if k <? m - 1 then seqZ j (t - j) ++ seqZ 0 j else seqZ j (t - j);
  ti_body : forall i, 0 <= i < t ->
      entry (thread_at (fst w) i) = WORKER /\ aget 0 (targets (snd w)) i = m;
  ti_served : forall i, 0 <= i < j ->
      aget 0 (steps (snd w)) i = k + 1 /\
      ticks (thread_at (fst w) i) = 0 /\
      state (thread_at (fst w) i) = (if k <? m - 1 then THREAD_READY else THREAD_DONE);
  ti_waiting : forall i, j <= i < t ->
      aget 0 (steps (snd w)) i = k /\
      ticks (thread_at (fst w) i) = 0 /\
      state (thread_at (fst w) i) = THREAD_READY
}.

(** What holds of the scheduler between two calls of its driver, from
    [init_scheduler] on: the counters are kept, and the run queue holds
    each thread at most once and only threads that are [Ready]. *)
Record queue_inv (s : sc_state) : Prop := {
  qi_load : load_inv s;
  qi_nodup : NoDup (rq_list s);
  qi_ready : forall x, x ∈ rq_list s -> state (thread_at s x) = THREAD_READY
}.

(** State [s'] comes after [s]: it satisfies the invariant, no thread has
    disappeared, and every thread that had finished in [s] is exactly as
    it was. *)
Definition follows (s s' : sc_state) : Prop :=
  queue_inv s' /\ sc_thread_count s <= sc_thread_count s' /\
  forall i, 0 <= i < sc_thread_count s -> state (thread_at s i) = THREAD_DONE ->
            thread_at s' i = thread_at s i.

End Sched.

(** * Properties of the allocator *)

Module MemProofs.
Import Mem.

Ltac zconst :=
  unfold kernel_pages, TOTAL_PAGES, PAGE_SIZE, KERNEL_END, PHYS_MEMORY_END,
         MAX_MEMORY_REGIONS, BITMAP_SIZE, NO_PAGE in *.
Ltac zlia := zconst; lia.

(** ** Arrays *)

Lemma aget_aset_eq {A} (d : A) (a : list A) (i : Z) (x : A) :
  0 <= i < Z.of_nat (length a) -> aget d (aset a i x) i = x.
Proof.
  intros H. unfold aget, aset.
  apply nth_lookup_Some with (d := d).
  apply list_lookup_insert_eq. lia.
Qed.

Lemma aget_aset_ne {A} (d : A) (a : list A) (i j : Z) (x : A) :
  0 <= i -> 0 <= j -> i <> j -> aget d (aset a i x) j = aget d a j.
Proof.
  intros Hi Hj Hne. unfold aget, aset.
  rewrite !nth_lookup. rewrite list_lookup_insert_ne by lia. reflexivity.
Qed.

Lemma length_aset {A} (a : list A) (i : Z) (x : A) :
  length (aset a i x) = length a.
Proof. apply length_insert. Qed.

(** Among the indices [i .. i+n) either none satisfies [P] or there is a
    first one that does. *)
Lemma first_true_dec (P : Z -> bool) (n : nat) : forall i,
  (forall k, i <= k < i + Z.of_nat n -> P k = false) \/
  (exists k, i <= k < i + Z.of_nat n /\ P k = true /\
             forall j, i <= j < k -> P j = false).
Proof.
  induction n as [|n IH]; intros i.
  - left. intros k Hk. lia.
  - destruct (P i) eqn:Hi.
    + right. exists i. split; [lia|]. split; [exact Hi|]. intros j Hj. lia.
    + destruct (IH (i + 1)) as [Hnone|(k & Hk & Hp & Hbefore)].
      * left. intros k Hk. destruct (Z.eq_dec k i) as [->|]; [exact Hi|].
        apply Hnone. lia.
      * right. exists k. split; [lia|]. split; [exact Hp|].
        intros j Hj. destruct (Z.eq_dec j i) as [->|]; [exact Hi|].
        apply Hbefore. lia.
Qed.

(** ** Bits *)

Lemma land_bit_zero (x k : Z) :
  0 <= k -> (Z.land x (Z.shiftl 1 k) =? 0) = negb (Z.testbit x k).
Proof.
  intros Hk. rewrite Z.shiftl_1_l.
  destruct (Z.testbit x k) eqn:Hb; simpl.
  - apply Z.eqb_neq. intros Hz.
    assert (Z.testbit (Z.land x (2 ^ k)) k = true) as Ht.
    { rewrite Z.land_spec, Hb, Z.pow2_bits_true by lia. reflexivity. }
    rewrite Hz, Z.bits_0 in Ht. discriminate.
  - apply Z.eqb_eq. apply Z.bits_inj'. intros n Hn.
    rewrite Z.land_spec, Z.bits_0, Z.pow2_bits_eqb by lia.
    destruct (Z.eqb_spec k n) as [->|Hne].
    + rewrite Hb. reflexivity.
    + apply andb_false_r.
Qed.

Lemma frame_used_testbit (b : list Z) (f : Z) :
  0 <= f -> frame_used b f = Z.testbit (aget 0 b (f / 8)) (f mod 8).
Proof.
  intros Hf. unfold frame_used, bitmap_test.
  change 7 with (Z.ones 3). rewrite Z.land_ones, Z.shiftr_div_pow2 by lia.
  change (2 ^ 3) with 8. rewrite land_bit_zero, negb_involutive.
  - reflexivity.
  - apply Z.mod_pos_bound. lia.
Qed.

Lemma frame_index_split (i j : Z) :
  i / 8 = j / 8 -> i mod 8 = j mod 8 -> i = j.
Proof.
  intros Hq Hr. rewrite (Z.div_mod i 8), (Z.div_mod j 8) by lia. lia.
Qed.

Lemma byte_index_range (f : Z) :
  0 <= f < TOTAL_PAGES -> 0 <= f / 8 < BITMAP_SIZE.
Proof.
  unfold TOTAL_PAGES, BITMAP_SIZE. intros H. split.
  - apply Z.div_pos; lia.
  - apply Z.div_lt_upper_bound; lia.
Qed.

Lemma bitmap_ok_aget (b : list Z) (k : Z) :
  bitmap_ok b -> 0 <= aget 0 b k < 256.
Proof.
  intros [_ Hb]. unfold aget.
  destruct (nth_lookup_or_length b (Z.to_nat k) 0) as [Hl|Hl].
  - rewrite Forall_lookup in Hb. apply (Hb _ _ Hl).
  - rewrite nth_overflow by lia. lia.
Qed.

Lemma bitmap_ok_aset (b : list Z) (k x : Z) :
  bitmap_ok b -> 0 <= x < 256 -> bitmap_ok (aset b k x).
Proof.
  intros [Hlen Hb] Hx. split.
  - rewrite length_aset. exact Hlen.
  - unfold aset. apply Forall_insert; assumption.
Qed.

Lemma u8_range (x : Z) : 0 <= u8 x < 256.
Proof. unfold u8. apply Z.mod_pos_bound. lia. Qed.

Lemma bitmap_set_ok (b : list Z) (i : Z) : bitmap_ok b -> bitmap_ok (bitmap_set b i).
Proof. intros H. apply bitmap_ok_aset; [exact H | apply u8_range]. Qed.

Lemma bitmap_clear_ok (b : list Z) (i : Z) : bitmap_ok b -> bitmap_ok (bitmap_clear b i).
Proof. intros H. apply bitmap_ok_aset; [exact H | apply u8_range]. Qed.

Lemma u8_testbit (x k : Z) : 0 <= k < 8 -> Z.testbit (u8 x) k = Z.testbit x k.
Proof.
  intros Hk. unfold u8. change 256 with (2 ^ 8).
  apply Z.mod_pow2_bits_low. lia.
Qed.

Lemma shiftr3 (f : Z) : Z.shiftr f 3 = f / 8.
Proof. rewrite Z.shiftr_div_pow2 by lia. reflexivity. Qed.

Lemma land7 (f : Z) : Z.land f 7 = f mod 8.
Proof. change 7 with (Z.ones 3). rewrite Z.land_ones by lia. reflexivity. Qed.

(** Setting frame [i] marks [i] and leaves every other frame as it was. *)
Lemma frame_used_set (b : list Z) (i j : Z) :
  bitmap_ok b -> 0 <= i < TOTAL_PAGES -> 0 <= j ->
  frame_used (bitmap_set b i) j = if i =? j then true else frame_used b j.
Proof.
  intros Hok Hi Hj.
  pose proof (byte_index_range i Hi) as Hbi.
  assert (0 <= i mod 8 < 8) as Hri by (apply Z.mod_pos_bound; lia).
  assert (0 <= j mod 8 < 8) as Hrj by (apply Z.mod_pos_bound; lia).
  assert (0 <= j / 8) as Hqj by (apply Z.div_pos; lia).
  rewrite !frame_used_testbit by lia.
  unfold bitmap_set. rewrite shiftr3, land7, Z.shiftl_1_l.
  destruct (Z.eq_dec (i / 8) (j / 8)) as [Hq|Hq].
  - rewrite <- Hq. rewrite aget_aset_eq.
    2:{ destruct Hok as [Hlen _]. rewrite Hlen. unfold BITMAP_SIZE in *. lia. }
    rewrite u8_testbit, Z.lor_spec, Z.pow2_bits_eqb by lia.
    destruct (Z.eqb_spec i j) as [->|Hne].
    + rewrite Z.eqb_refl. apply orb_true_r.
    + destruct (Z.eqb_spec (i mod 8) (j mod 8)) as [Hr|Hr].
      * exfalso. apply Hne. apply frame_index_split; assumption.
      * apply orb_false_r.
  - rewrite aget_aset_ne by lia.
    destruct (Z.eqb_spec i j) as [->|Hne]; [congruence | reflexivity].
Qed.

(** Clearing frame [i] unmarks [i] and leaves every other frame as it was. *)
Lemma frame_used_clear (b : list Z) (i j : Z) :
  bitmap_ok b -> 0 <= i < TOTAL_PAGES -> 0 <= j ->
  frame_used (bitmap_clear b i) j = if i =? j then false else frame_used b j.
Proof.
  intros Hok Hi Hj.
  pose proof (byte_index_range i Hi) as Hbi.
  assert (0 <= i mod 8 < 8) as Hri by (apply Z.mod_pos_bound; lia).
  assert (0 <= j mod 8 < 8) as Hrj by (apply Z.mod_pos_bound; lia).
  assert (0 <= j / 8) as Hqj by (apply Z.div_pos; lia).
  rewrite !frame_used_testbit by lia.
  unfold bitmap_clear. rewrite shiftr3, land7, Z.shiftl_1_l.
  destruct (Z.eq_dec (i / 8) (j / 8)) as [Hq|Hq].
  - rewrite <- Hq. rewrite aget_aset_eq.
    2:{ destruct Hok as [Hlen _]. rewrite Hlen. unfold BITMAP_SIZE in *. lia. }
    rewrite u8_testbit, Z.land_spec, Z.lnot_spec, Z.pow2_bits_eqb by lia.
    destruct (Z.eqb_spec i j) as [->|Hne].
    + rewrite Z.eqb_refl. apply andb_false_r.
    + destruct (Z.eqb_spec (i mod 8) (j mod 8)) as [Hr|Hr].
      * exfalso. apply Hne. apply frame_index_split; assumption.
      * apply andb_true_r.
  - rewrite aget_aset_ne by lia.
    destruct (Z.eqb_spec i j) as [->|Hne]; [congruence | reflexivity].
Qed.

(** Setting a clear frame and clearing it again restores the bitmap, byte
    for byte. *)
Lemma bitmap_clear_set (b : list Z) (f : Z) :
  bitmap_ok b -> 0 <= f < TOTAL_PAGES -> frame_used b f = false ->
  bitmap_clear (bitmap_set b f) f = b.
Proof.
  intros Hok Hf Hclear.
  pose proof (byte_index_range f Hf) as Hbi.
  assert (0 <= f mod 8 < 8) as Hr by (apply Z.mod_pos_bound; lia).
  assert (Z.to_nat (f / 8) < length b)%nat as Hlt.
  { destruct Hok as [Hlen _]. rewrite Hlen. unfold BITMAP_SIZE in *. lia. }
  rewrite frame_used_testbit in Hclear by lia.
  unfold bitmap_clear, bitmap_set.
  rewrite shiftr3, land7, Z.shiftl_1_l.
  rewrite aget_aset_eq by lia.
  unfold aset. rewrite list_insert_insert_eq.
  apply list_insert_id.
  pose proof (bitmap_ok_aget b (f / 8) Hok) as Hx.
  unfold aget in *.
  destruct (nth_lookup_or_length b (Z.to_nat (f / 8)) 0) as [Hl|Hl]; [|lia].
  rewrite Hl. f_equal.
  set (x := nth (Z.to_nat (f / 8)) b 0) in *.
  apply Z.bits_inj'. intros n Hn.
  destruct (Z.ltb_spec n 8) as [Hn8|Hn8].
  - rewrite u8_testbit, Z.land_spec, Z.lnot_spec, Z.pow2_bits_eqb by lia.
    rewrite u8_testbit, Z.lor_spec, Z.pow2_bits_eqb by lia.
    destruct (Z.eqb_spec (f mod 8) n) as [<-|Hne].
    + rewrite Hclear. reflexivity.
    + simpl. rewrite orb_false_r, andb_true_r. reflexivity.
  - unfold u8 at 1. change 256 with (2 ^ 8).
    rewrite Z.mod_pow2_bits_high by lia.
    destruct (Z.eq_dec x 0) as [Hx0|Hx0]; [rewrite Hx0; apply Z.bits_0|].
    apply Z.bits_above_log2; [lia|].
    apply Z.log2_lt_pow2; [lia|].
    apply Z.lt_le_trans with (2 ^ 8); [simpl; lia|].
    apply Z.pow_le_mono_r; lia.
Qed.

(** ** The access validator *)

Lemma validate_loop_none r cur st en access n i :
  (forall j, i <= j < i + Z.of_nat n -> covers (aget zero_region r j) st en = false) ->
  validate_loop r cur st en access n i = (false, Some "UNREGISTERED_REGION"%string).
Proof.
  revert i. induction n as [|n IH]; intros i Hnone; [reflexivity|].
  cbn [validate_loop].
  pose proof (Hnone i ltac:(lia)) as Hi. unfold covers in Hi. rewrite Hi.
  apply IH. intros j Hj. apply Hnone. lia.
Qed.

Lemma validate_loop_first r cur st en access n i k :
  i <= k < i + Z.of_nat n ->
  covers (aget zero_region r k) st en = true ->
  (forall j, i <= j < k -> covers (aget zero_region r j) st en = false) ->
  validate_loop r cur st en access n i = region_verdict (aget zero_region r k) cur access.
Proof.
  revert i. induction n as [|n IH]; intros i Hk Hcov Hbefore; [lia|].
  cbn [validate_loop].
  destruct (Z.eq_dec i k) as [->|Hne].
  - unfold covers in Hcov. rewrite Hcov. reflexivity.
  - pose proof (Hbefore i ltac:(lia)) as Hi. unfold covers in Hi. rewrite Hi.
    apply IH; [lia | exact Hcov |]. intros j Hj. apply Hbefore. lia.
Qed.

(** Among the slots [i .. i+n) either none contains the range or there is
    a first one that does. *)
Lemma first_covering_dec r st en n i :
  (forall j, i <= j < i + Z.of_nat n -> covers (aget zero_region r j) st en = false) \/
  (exists k, i <= k < i + Z.of_nat n /\ covers (aget zero_region r k) st en = true /\
             forall j, i <= j < k -> covers (aget zero_region r j) st en = false).
Proof.
  revert i. induction n as [|n IH]; intros i.
  - left. intros j Hj. lia.
  - destruct (covers (aget zero_region r i) st en) eqn:Hi.
    + right. exists i. split; [lia|]. split; [exact Hi|]. intros j Hj. lia.
    + destruct (IH (i + 1)) as [Hnone|(k & Hk & Hcov & Hbefore)].
      * left. intros j Hj. destruct (Z.eq_dec j i) as [->|]; [exact Hi|].
        apply Hnone. lia.
      * right. exists k. split; [lia|]. split; [exact Hcov|].
        intros j Hj. destruct (Z.eq_dec j i) as [->|]; [exact Hi|].
        apply Hbefore. lia.
Qed.

Lemma first_covering_unique s address sz i j :
  first_covering s address sz i -> first_covering s address sz j -> i = j.
Proof.
  intros (Hi & Hci & Hbi) (Hj & Hcj & Hbj).
  destruct (Z.lt_trichotomy i j) as [Hlt|[Heq|Hgt]]; [|exact Heq|].
  - rewrite (Hbj i) in Hci by lia. discriminate.
  - rewrite (Hbi j) in Hcj by lia. discriminate.
Qed.

Lemma u32_small (z : Z) : 0 <= z < 4294967296 -> u32 z = z.
Proof. intros H. unfold u32. apply Z.mod_small. exact H. Qed.

Lemma u32_wrapped (z : Z) :
  4294967296 <= z < 2 * 4294967296 -> u32 z = z - 4294967296.
Proof.
  intros H. unfold u32.
  symmetry. apply Z.mod_unique with (q := 1); lia.
Qed.

(** The verdict of the validator on a range that passes the checks on the
    range alone is the verdict of the region scan. *)
Lemma validate_range_ok s cur address sz access :
  memory_protection_enabled s = true ->
  0 <= address < 4294967296 -> 0 <= sz < 4294967296 ->
  range_ok address sz ->
  validate_memory_access s cur address sz access =
  validate_loop (memory_regions s) cur address (address + sz) access
    (Z.to_nat (region_count s)) 0.
Proof.
  intros Hen Ha Hs (Hnz & Hsz & Hov & Hlo & Hhi & Hal).
  unfold validate_memory_access. rewrite Hen. cbn [negb].
  rewrite (proj2 (Z.eqb_neq address 0)), (proj2 (Z.eqb_neq sz 0)) by assumption.
  cbn [orb]. rewrite u32_small by lia.
  rewrite (proj2 (Z.ltb_ge (address + sz) address)) by lia.
  rewrite (proj2 (Z.ltb_ge address KERNEL_END)) by lia.
  rewrite Z.gtb_ltb, (proj2 (Z.ltb_ge PHYS_MEMORY_END (address + sz))) by lia.
  rewrite Hal. reflexivity.
Qed.

(** What the validator answers when a check on the range alone fails: the
    first failing check, in the order of the code, names the category. *)
Lemma validate_range_rejects s cur address sz access :
  memory_protection_enabled s = true ->
  0 <= address < 4294967296 -> 0 <= sz < 4294967296 ->
  (address = 0 \/ sz = 0 ->
   validate_memory_access s cur address sz access
   = (false, Some "INVALID_ACCESS"%string)) /\
  (address <> 0 -> sz <> 0 -> 4294967296 <= address + sz ->
   validate_memory_access s cur address sz access
   = (false, Some "ADDRESS_OVERFLOW"%string)) /\
  (address <> 0 -> sz <> 0 -> address + sz < 4294967296 ->
   address < KERNEL_END \/ PHYS_MEMORY_END < address + sz ->
   validate_memory_access s cur address sz access
   = (false, Some "OUT_OF_BOUNDS"%string)) /\
  (address <> 0 -> sz <> 0 -> address + sz < 4294967296 ->
   KERNEL_END <= address -> address + sz <= PHYS_MEMORY_END ->
   address mod PAGE_SIZE <> 0 ->
   validate_memory_access s cur address sz access
   = (false, Some "MISALIGNED_ACCESS"%string)).
Proof.
  intros Hen Ha Hs. unfold validate_memory_access. rewrite Hen. cbn [negb].
  repeat split.
  - intros [->| ->]; [reflexivity|]. rewrite orb_true_r. reflexivity.
  - intros Hnz Hsz Hov.
    rewrite (proj2 (Z.eqb_neq address 0)), (proj2 (Z.eqb_neq sz 0)) by assumption.
    cbn [orb]. rewrite u32_wrapped by lia.
    rewrite (proj2 (Z.ltb_lt (address + sz - 4294967296) address)) by lia.
    reflexivity.
  - intros Hnz Hsz Hov Hout.
    rewrite (proj2 (Z.eqb_neq address 0)), (proj2 (Z.eqb_neq sz 0)) by assumption.
    cbn [orb]. rewrite u32_small by lia.
    rewrite (proj2 (Z.ltb_ge (address + sz) address)) by lia.
    destruct Hout as [Hlo|Hhi].
    + rewrite (proj2 (Z.ltb_lt address KERNEL_END)) by lia. reflexivity.
    + rewrite Z.gtb_ltb, (proj2 (Z.ltb_lt PHYS_MEMORY_END (address + sz))) by lia.
      rewrite orb_true_r. reflexivity.
  - intros Hnz Hsz Hov Hlo Hhi Hal.
    rewrite (proj2 (Z.eqb_neq address 0)), (proj2 (Z.eqb_neq sz 0)) by assumption.
    cbn [orb]. rewrite u32_small by lia.
    rewrite (proj2 (Z.ltb_ge (address + sz) address)) by lia.
    rewrite (proj2 (Z.ltb_ge address KERNEL_END)) by lia.
    rewrite Z.gtb_ltb, (proj2 (Z.ltb_ge PHYS_MEMORY_END (address + sz))) by lia.
    rewrite (proj2 (Z.eqb_neq _ 0) Hal). reflexivity.
Qed.

Lemma range_ok_dec address sz :
  0 <= address < 4294967296 -> 0 <= sz < 4294967296 ->
  range_ok address sz \/
  (address = 0 \/ sz = 0) \/
  (address <> 0 /\ sz <> 0 /\ 4294967296 <= address + sz) \/
  (address <> 0 /\ sz <> 0 /\ address + sz < 4294967296 /\
   (address < KERNEL_END \/ PHYS_MEMORY_END < address + sz)) \/
  (address <> 0 /\ sz <> 0 /\ address + sz < 4294967296 /\
   KERNEL_END <= address /\ address + sz <= PHYS_MEMORY_END /\
   address mod PAGE_SIZE <> 0).
Proof.
  intros Ha Hs. unfold range_ok.
  destruct (Z.eq_dec (address mod PAGE_SIZE) 0); lia.
Qed.

Lemma region_verdict_true r cur access :
  fst (region_verdict r cur access) = true <->
  Z.land (protection r) access <> 0 /\ (owner r = 0 \/ owner r = cur).
Proof.
  unfold region_verdict.
  destruct (Z.eqb_spec (Z.land (protection r) access) 0) as [Hp|Hp]; cbn.
  - split; [discriminate | intros [H _]; contradiction].
  - destruct (Z.eqb_spec (owner r) 0) as [Ho|Ho];
      destruct (Z.eqb_spec (owner r) cur) as [Hc|Hc]; cbn;
      split; try discriminate; try tauto; intros _; tauto.
Qed.

Lemma single_flag_subset (p access : Z) :
  access = MEM_PROT_READ \/ access = MEM_PROT_WRITE \/ access = MEM_PROT_EXECUTE ->
  (Z.land p access <> 0 <-> permission_subset access p = true).
Proof.
  unfold permission_subset, MEM_PROT_READ, MEM_PROT_WRITE, MEM_PROT_EXECUTE.
  intros Hacc. rewrite Z.eqb_eq, (Z.land_comm access p).
  assert (forall k, 0 <= k -> Z.land p (2 ^ k) = 0 \/ Z.land p (2 ^ k) = 2 ^ k) as Hbit.
  { intros k Hk. pose proof (land_bit_zero p k Hk) as Hz.
    rewrite Z.shiftl_1_l in Hz.
    destruct (Z.testbit p k) eqn:Hb; cbn in Hz.
    - right. apply Z.bits_inj'. intros n Hn.
      rewrite Z.land_spec, Z.pow2_bits_eqb by lia.
      destruct (Z.eqb_spec k n) as [<-|]; [rewrite Hb; reflexivity | apply andb_false_r].
    - left. apply Z.eqb_eq. exact Hz. }
  destruct Hacc as [->|[->| ->]].
  - destruct (Hbit 0 ltac:(lia)) as [H|H]; change (2 ^ 0) with 1 in H; rewrite H; lia.
  - destruct (Hbit 1 ltac:(lia)) as [H|H]; change (2 ^ 1) with 2 in H; rewrite H; lia.
  - destruct (Hbit 2 ltac:(lia)) as [H|H]; change (2 ^ 2) with 4 in H; rewrite H; lia.
Qed.

Lemma validate_first_region s cur address sz access i :
  memory_protection_enabled s = true ->
  0 <= address < 4294967296 -> 0 <= sz < 4294967296 ->
  range_ok address sz -> first_covering s address sz i ->
  validate_memory_access s cur address sz access
  = region_verdict (region_at s i) cur access.
Proof.
  intros Hen Ha Hs Hok (Hi & Hcov & Hbefore).
  rewrite validate_range_ok by assumption.
  apply validate_loop_first with (k := i); [lia | exact Hcov |].
  intros j Hj. apply Hbefore. lia.
Qed.

Lemma first_covering_or_none s address sz :
  (forall i, ~ first_covering s address sz i) \/
  (exists i, first_covering s address sz i).
Proof.
  destruct (first_covering_dec (memory_regions s) address (address + sz)
              (Z.to_nat (region_count s)) 0) as [Hn|(k & Hk & Hcov & Hbefore)].
  - left. intros i (Hi & Hcov & _). unfold region_at in Hcov.
    rewrite Hn in Hcov by lia. discriminate.
  - right. exists k. split; [lia|]. split; [exact Hcov|].
    intros j Hj. apply Hbefore. lia.
Qed.

Lemma validate_no_region s cur address sz access :
  memory_protection_enabled s = true ->
  0 <= address < 4294967296 -> 0 <= sz < 4294967296 ->
  range_ok address sz -> (forall i, ~ first_covering s address sz i) ->
  validate_memory_access s cur address sz access
  = (false, Some "UNREGISTERED_REGION"%string).
Proof.
  intros Hen Ha Hs Hok Hno. rewrite validate_range_ok by assumption.
  apply validate_loop_none. intros j Hj.
  destruct (first_covering_dec (memory_regions s) address (address + sz)
              (Z.to_nat (region_count s)) 0) as [Hn|(k & Hk & Hcov & Hbefore)].
  - apply Hn. exact Hj.
  - exfalso. apply (Hno k). split; [lia|]. split; [exact Hcov|].
    intros j' Hj'. apply Hbefore. lia.
Qed.

(** When the validator approves. *)
Lemma validate_approves_iff s cur address sz access :
  memory_protection_enabled s = true ->
  0 <= address < 4294967296 -> 0 <= sz < 4294967296 ->
  (fst (validate_memory_access s cur address sz access) = true <->
   range_ok address sz /\
   exists i, first_covering s address sz i /\
             Z.land (protection (region_at s i)) access <> 0 /\
             (owner (region_at s i) = 0 \/ owner (region_at s i) = cur)).
Proof.
  intros Hen Ha Hs.
  destruct (validate_range_rejects s cur address sz access Hen Ha Hs)
    as (Hinv & Hovf & Hout & Hmis).
  split.
  - intros Htrue.
    destruct (range_ok_dec address sz Ha Hs)
      as [Hok|[Hbad|[(H1 & H2 & H3)|[(H1 & H2 & H3 & H4)|(H1 & H2 & H3 & H4 & H5 & H6)]]]].
    + split; [exact Hok|].
      destruct (first_covering_or_none s address sz) as [Hno|(k & Hfc)].
      * rewrite validate_no_region in Htrue by assumption. discriminate.
      * exists k. split; [exact Hfc|].
        rewrite (validate_first_region _ _ _ _ _ k) in Htrue by assumption.
        apply region_verdict_true in Htrue. exact Htrue.
    + rewrite (Hinv Hbad) in Htrue. discriminate.
    + rewrite (Hovf H1 H2 H3) in Htrue. discriminate.
    + rewrite (Hout H1 H2 H3 H4) in Htrue. discriminate.
    + rewrite (Hmis H1 H2 H3 H4 H5 H6) in Htrue. discriminate.
  - intros (Hok & i & Hfc & Hperm & Hown).
    rewrite (validate_first_region _ _ _ _ _ i) by assumption.
    apply region_verdict_true. split; assumption.
Qed.

(** C1, as the code decides it. With protection enabled, the validator
    approves exactly when the range is non-null, non-empty, free of
    wrap-around, inside the user window and frame-aligned, and the FIRST
    registered region that contains it shares at least one permission bit
    with the request and has a null owner or the current principal as
    owner. Every rejection names the first failing check: INVALID_ACCESS,
    ADDRESS_OVERFLOW, OUT_OF_BOUNDS, MISALIGNED_ACCESS, UNREGISTERED_REGION
    (no region contains the range), PERMISSION_DENIED, WRONG_OWNER. In
    particular a request on a region that grants it but is owned by a
    principal other than the current one is rejected as WRONG_OWNER. For a
    single-flag request, sharing a bit and being a subset are the same. *)
Theorem validate_memory_access_decision s cur address sz access :
  memory_protection_enabled s = true ->
  0 <= address < 4294967296 -> 0 <= sz < 4294967296 ->
  (fst (validate_memory_access s cur address sz access) = true <->
   range_ok address sz /\
   exists i, first_covering s address sz i /\
             Z.land (protection (region_at s i)) access <> 0 /\
             (owner (region_at s i) = 0 \/ owner (region_at s i) = cur)) /\
  (address = 0 \/ sz = 0 ->
   validate_memory_access s cur address sz access
   = (false, Some "INVALID_ACCESS"%string)) /\
  (address <> 0 -> sz <> 0 -> 4294967296 <= address + sz ->
   validate_memory_access s cur address sz access
   = (false, Some "ADDRESS_OVERFLOW"%string)) /\
  (address <> 0 -> sz <> 0 -> address + sz < 4294967296 ->
   address < KERNEL_END \/ PHYS_MEMORY_END < address + sz ->
   validate_memory_access s cur address sz access
   = (false, Some "OUT_OF_BOUNDS"%string)) /\
  (address <> 0 -> sz <> 0 -> address + sz < 4294967296 ->
   KERNEL_END <= address -> address + sz <= PHYS_MEMORY_END ->
   address mod PAGE_SIZE <> 0 ->
   validate_memory_access s cur address sz access
   = (false, Some "MISALIGNED_ACCESS"%string)) /\
  (range_ok address sz -> (forall i, ~ first_covering s address sz i) ->
   validate_memory_access s cur address sz access
   = (false, Some "UNREGISTERED_REGION"%string)) /\
  (range_ok address sz -> forall i, first_covering s address sz i ->
   Z.land (protection (region_at s i)) access = 0 ->
   validate_memory_access s cur address sz access
   = (false, Some "PERMISSION_DENIED"%string)) /\
  (range_ok address sz -> forall i, first_covering s address sz i ->
   Z.land (protection (region_at s i)) access <> 0 ->
   owner (region_at s i) <> 0 -> owner (region_at s i) <> cur ->
   validate_memory_access s cur address sz access
   = (false, Some "WRONG_OWNER"%string)) /\
  (access = MEM_PROT_READ \/ access = MEM_PROT_WRITE \/ access = MEM_PROT_EXECUTE ->
   forall p, Z.land p access <> 0 <-> permission_subset access p = true).
Proof.
  intros Hen Ha Hs.
  destruct (validate_range_rejects s cur address sz access Hen Ha Hs)
    as (Hinv & Hovf & Hout & Hmis).
  split; [apply validate_approves_iff; assumption|].
  split; [exact Hinv|]. split; [exact Hovf|]. split; [exact Hout|].
  split; [exact Hmis|]. split; [|split; [|split]].
  - intros Hok Hno. apply validate_no_region; assumption.
  - intros Hok i Hfc Hperm.
    rewrite (validate_first_region _ _ _ _ _ i) by assumption.
    unfold region_verdict. rewrite Hperm. reflexivity.
  - intros Hok i Hfc Hperm Ho Hc.
    rewrite (validate_first_region _ _ _ _ _ i) by assumption.
    unfold region_verdict.
    rewrite (proj2 (Z.eqb_neq _ 0) Hperm).
    rewrite (proj2 (Z.eqb_neq _ 0) Ho), (proj2 (Z.eqb_neq _ cur) Hc). reflexivity.
  - intros Hacc p. apply single_flag_subset. exact Hacc.
Qed.

Lemma validate_memory_access_decision_witness :
  fst (validate_memory_access one_page_state 7 1048576 4096 MEM_PROT_WRITE) = true <->
  range_ok 1048576 4096 /\
  exists i, first_covering one_page_state 1048576 4096 i /\
            Z.land (protection (region_at one_page_state i)) MEM_PROT_WRITE <> 0 /\
            (owner (region_at one_page_state i) = 0 \/
             owner (region_at one_page_state i) = 7).
Proof.
  apply (validate_memory_access_decision one_page_state 7 1048576 4096 MEM_PROT_WRITE);
    [reflexivity | lia | lia].
Defined.

(** C1 as worded fails: a request for read, write and execute together on
    a page that grants read and write only is approved by the code, while
    the requested permission is not a subset of the granted one. *)
Lemma validate_subset_counterexample :
  fst (validate_memory_access one_page_state 7 1048576 4096 MEM_PROT_ALL) = true /\
  validate_as_specified one_page_state 7 1048576 4096 MEM_PROT_ALL = false.
Proof. split; vm_compute; reflexivity. Qed.

(** ** The region registry *)

Lemma aget_lookup {A} (d : A) (a : list A) (i : Z) :
  (Z.to_nat i < length a)%nat -> a !! Z.to_nat i = Some (aget d a i).
Proof.
  intros H. unfold aget.
  destruct (nth_lookup_or_length a (Z.to_nat i) d) as [Hl|Hl]; [exact Hl | lia].
Qed.

Lemma register_full s address sz prot own :
  MAX_MEMORY_REGIONS <= region_count s ->
  register_memory_region s address sz prot own = (false, s).
Proof.
  intros Hc. unfold register_memory_region.
  rewrite Z.geb_leb, (proj2 (Z.leb_le _ _)) by lia. reflexivity.
Qed.

Lemma register_room s address sz prot own :
  region_count s < MAX_MEMORY_REGIONS ->
  register_memory_region s address sz prot own =
    (true, set_regions s
             (aset (memory_regions s) (region_count s)
                   (mkRegion address sz prot own true))
             (region_count s + 1)).
Proof.
  intros Hc. unfold register_memory_region.
  rewrite Z.geb_leb, (proj2 (Z.leb_gt _ _)) by lia. reflexivity.
Qed.

Lemma live_regions_append (r : list memory_region) (c : Z) (x : memory_region) :
  0 <= c -> (Z.to_nat c < length r)%nat ->
  take (Z.to_nat (c + 1)) (aset r c x) = take (Z.to_nat c) r ++ [x].
Proof.
  intros Hc Hlen. unfold aset.
  replace (Z.to_nat (c + 1)) with (S (Z.to_nat c)) by lia.
  rewrite (take_S_r _ _ x) by (apply list_lookup_insert_eq; lia).
  rewrite take_insert_ge by lia. reflexivity.
Qed.

Lemma shift_regions_spec (n : nat) : forall (r : list memory_region) (j : Z),
  0 <= j -> (Z.to_nat j + n < length r)%nat ->
  shift_regions r n j =
    take (Z.to_nat j) r ++ take n (drop (S (Z.to_nat j)) r)
      ++ drop (Z.to_nat j + n) r.
Proof.
  induction n as [|n IH]; intros r j Hj Hlen.
  - cbn [shift_regions take]. rewrite Nat.add_0_r. cbn [app].
    symmetry. apply take_drop.
  - cbn [shift_regions].
    rewrite IH by (rewrite ?length_aset; lia).
    replace (Z.to_nat (j + 1)) with (S (Z.to_nat j)) by lia.
    set (J := Z.to_nat j) in *.
    assert (r !! S J = Some (aget zero_region r (j + 1))) as Hx.
    { replace (S J) with (Z.to_nat (j + 1)) by lia. apply aget_lookup. lia. }
    unfold aset. fold J.
    rewrite (take_S_r _ _ (aget zero_region r (j + 1)))
      by (apply list_lookup_insert_eq; lia).
    rewrite take_insert_ge by lia.
    rewrite !drop_insert_lt by lia.
    rewrite (drop_S r _ (S J) Hx). cbn [take].
    rewrite <- app_assoc. cbn [app].
    replace (S J + n)%nat with (J + S n)%nat by lia. reflexivity.
Qed.

Lemma remove_base_no_match address (l1 l2 : list memory_region) :
  Forall (fun r => base_address r <> address) l1 ->
  remove_base address (l1 ++ l2) = l1 ++ remove_base address l2.
Proof.
  induction 1 as [|r l1 Hr _ IH]; [reflexivity|].
  cbn. rewrite (proj2 (Z.eqb_neq _ _) Hr), IH. reflexivity.
Qed.

(** The scan of [unregister_memory_region] from slot [i], none of the
    slots before [i] being registered at [address]. *)
Lemma unregister_loop_spec s address (n : nat) : forall (i : Z),
  0 <= i -> (Z.to_nat i + n)%nat = Z.to_nat (region_count s) ->
  0 <= region_count s ->
  (Z.to_nat (region_count s) <= length (memory_regions s))%nat ->
  Forall (fun r => base_address r <> address) (take (Z.to_nat i) (memory_regions s)) ->
  let s' := snd (unregister_loop s address n i) in
  live_regions s' = remove_base address (live_regions s) /\
  length (memory_regions s') = length (memory_regions s) /\
  0 <= region_count s' <= region_count s /\
  page_bitmap s' = page_bitmap s /\ next_free_page s' = next_free_page s /\
  memory_protection_enabled s' = memory_protection_enabled s.
Proof.
  induction n as [|n IH]; intros i Hi Hn Hc Hlen Hpre; cbn zeta.
  - cbn [unregister_loop snd].
    assert (Z.to_nat i = Z.to_nat (region_count s)) as Hic by lia.
    unfold live_regions. rewrite <- Hic.
    rewrite <- (app_nil_r (take (Z.to_nat i) (memory_regions s))) at 2.
    rewrite remove_base_no_match by exact Hpre. cbn. rewrite app_nil_r.
    repeat split; lia.
  - cbn [unregister_loop].
    set (I := Z.to_nat i) in *.
    assert (memory_regions s !! I = Some (aget zero_region (memory_regions s) i)) as Hx
      by (apply aget_lookup; lia).
    assert (live_regions s =
            take I (memory_regions s) ++
            aget zero_region (memory_regions s) i ::
            take n (drop (S I) (memory_regions s))) as Hlive.
    { unfold live_regions. rewrite <- Hn.
      rewrite <- take_take_drop. rewrite (drop_S _ _ _ Hx). reflexivity. }
    destruct (Z.eqb_spec (base_address (aget zero_region (memory_regions s) i)) address)
      as [Heq|Hne].
    + cbn [snd]. unfold live_regions at 1. cbn [memory_regions region_count set_regions].
      rewrite shift_regions_spec by lia. fold I.
      replace (Z.to_nat (region_count s - 1 - i)) with n by lia.
      replace (Z.to_nat (region_count s - 1)) with (I + n)%nat by lia.
      rewrite Hlive, remove_base_no_match by exact Hpre.
      cbn [remove_base]. rewrite (proj2 (Z.eqb_eq _ _) Heq).
      rewrite app_assoc.
      rewrite take_app_length'.
      2:{ rewrite length_app, length_take_le by lia.
          rewrite length_take_le by (rewrite length_drop; lia). reflexivity. }
      split; [reflexivity|].
      split.
      { rewrite !length_app, length_take_le by lia.
        rewrite length_take_le by (rewrite length_drop; lia).
        rewrite length_drop. lia. }
      repeat split; lia.
    + apply IH; try lia.
      replace (Z.to_nat (i + 1)) with (S I) by lia.
      rewrite (take_S_r _ _ _ Hx). apply Forall_app. split; [exact Hpre|].
      constructor; [exact Hne | constructor].
Qed.

Lemma unregister_spec s address :
  0 <= region_count s ->
  (Z.to_nat (region_count s) <= length (memory_regions s))%nat ->
  let s' := snd (unregister_memory_region s address) in
  live_regions s' = remove_base address (live_regions s) /\
  length (memory_regions s') = length (memory_regions s) /\
  0 <= region_count s' <= region_count s /\
  page_bitmap s' = page_bitmap s /\ next_free_page s' = next_free_page s /\
  memory_protection_enabled s' = memory_protection_enabled s.
Proof.
  intros Hc Hlen. unfold unregister_memory_region.
  apply unregister_loop_spec; try lia. constructor.
Qed.

(** ** The frame scan *)

Lemma bitmap_test_used (b : list Z) (f : Z) :
  (bitmap_test b f =? 0) = negb (frame_used b f).
Proof. unfold frame_used. rewrite negb_involutive. reflexivity. Qed.

Lemma find_free_loop_some b (n : nat) : forall i f,
  find_free_loop b n i = Some f ->
  i <= f < i + Z.of_nat n /\ frame_used b f = false /\
  forall j, i <= j < f -> frame_used b j = true.
Proof.
  induction n as [|n IH]; intros i f; cbn [find_free_loop]; [discriminate|].
  rewrite bitmap_test_used.
  destruct (frame_used b i) eqn:Hi; cbn [negb].
  - intros H. destruct (IH _ _ H) as (Hr & Hf & Hb).
    split; [lia|]. split; [exact Hf|].
    intros j Hj. destruct (Z.eq_dec j i) as [->|]; [exact Hi | apply Hb; lia].
  - intros [= <-]. split; [lia|]. split; [exact Hi|]. intros j Hj. lia.
Qed.

Lemma find_free_loop_none b (n : nat) : forall i,
  find_free_loop b n i = None ->
  forall j, i <= j < i + Z.of_nat n -> frame_used b j = true.
Proof.
  induction n as [|n IH]; intros i; cbn [find_free_loop]; [intros _ j Hj; lia|].
  rewrite bitmap_test_used.
  destruct (frame_used b i) eqn:Hi; cbn [negb]; [|discriminate].
  intros H j Hj. destruct (Z.eq_dec j i) as [->|]; [exact Hi|].
  apply (IH _ H). lia.
Qed.

(** The first clear frame at or above [i] is the one found. *)
Lemma find_free_loop_first b (n : nat) i f :
  i <= f < i + Z.of_nat n -> frame_used b f = false ->
  (forall j, i <= j < f -> frame_used b j = true) ->
  find_free_loop b n i = Some f.
Proof.
  intros Hr Hf Hb.
  destruct (find_free_loop b n i) as [g|] eqn:Hg.
  - destruct (find_free_loop_some _ _ _ _ Hg) as (Hgr & Hgf & Hgb).
    destruct (Z.lt_trichotomy f g) as [Hlt|[->|Hgt]]; [|reflexivity|].
    + rewrite (Hgb f) in Hf by lia. discriminate.
    + rewrite (Hb g) in Hgf by lia. discriminate.
  - rewrite (find_free_loop_none _ _ _ Hg f) in Hf by lia. discriminate.
Qed.

(** [find_free_page] by cases: either a frame [f] at or above the hint is
    returned, every frame between the hint and [f] being used, and the
    hint moves to [f + 1]; or no frame at or above the hint is clear and
    the state is unchanged. *)
Lemma find_free_page_cases s :
  (exists f, find_free_page s = (f, set_hint s (f + 1)) /\
             next_free_page s <= f < TOTAL_PAGES /\
             frame_used (page_bitmap s) f = false /\
             forall j, next_free_page s <= j < f -> frame_used (page_bitmap s) j = true) \/
  (find_free_page s = (NO_PAGE, s) /\
   forall j, next_free_page s <= j < TOTAL_PAGES -> frame_used (page_bitmap s) j = true).
Proof.
  unfold find_free_page.
  destruct (find_free_loop (page_bitmap s) (Z.to_nat (TOTAL_PAGES - next_free_page s))
              (next_free_page s)) as [f|] eqn:Hf.
  - left. exists f. split; [reflexivity|].
    destruct (find_free_loop_some _ _ _ _ Hf) as (Hr & Hc & Hb).
    split; [lia|]. split; assumption.
  - right. split; [reflexivity|]. intros j Hj.
    apply (find_free_loop_none _ _ _ Hf). lia.
Qed.

(** ** [allocate_memory] by cases *)

Lemma page_address (f : Z) :
  0 <= f < TOTAL_PAGES -> u32 (f * PAGE_SIZE) = f * PAGE_SIZE.
Proof.
  unfold TOTAL_PAGES, PAGE_SIZE. intros H. apply u32_small. lia.
Qed.

Lemma set_bitmap_same s : set_bitmap s (page_bitmap s) = s.
Proof. destruct s. reflexivity. Qed.

Lemma allocate_no_user s sz :
  allocate_memory s 0 sz = (0, s, [("NO_USER"%string, 0)]).
Proof. reflexivity. Qed.

Lemma allocate_bad_size s cur sz :
  cur <> 0 -> sz <> PAGE_SIZE ->
  allocate_memory s cur sz = (0, s, [("INVALID_SIZE"%string, 0)]).
Proof.
  intros Hc Hs. unfold allocate_memory.
  rewrite (proj2 (Z.eqb_neq _ _) Hc), (proj2 (Z.eqb_neq _ _) Hs). reflexivity.
Qed.

(** A request for one page by a principal, on a state whose bitmap is well
    formed: out of memory, rolled back because the registry is full, or
    granted. *)
Lemma allocate_cases s cur :
  cur <> 0 -> bitmap_ok (page_bitmap s) -> 0 <= next_free_page s ->
  (allocate_memory s cur PAGE_SIZE = (0, s, [("OUT_OF_MEMORY"%string, 0)]) /\
   fst (find_free_page s) = NO_PAGE /\
   forall j, next_free_page s <= j < TOTAL_PAGES -> frame_used (page_bitmap s) j = true) \/
  (exists f,
     fst (find_free_page s) = f /\
     next_free_page s <= f < TOTAL_PAGES /\
     frame_used (page_bitmap s) f = false /\
     (forall j, next_free_page s <= j < f -> frame_used (page_bitmap s) j = true) /\
     ((MAX_MEMORY_REGIONS <= region_count s /\
       allocate_memory s cur PAGE_SIZE =
         (0, set_hint s (f + 1),
          [("REGION_REGISTRATION_FAILED"%string, f * PAGE_SIZE)])) \/
      (region_count s < MAX_MEMORY_REGIONS /\
       allocate_memory s cur PAGE_SIZE =
         (f * PAGE_SIZE,
          mkMM (bitmap_set (page_bitmap s) f) (f + 1)
               (aset (memory_regions s) (region_count s)
                     (mkRegion (f * PAGE_SIZE) PAGE_SIZE
                        (Z.lor MEM_PROT_READ MEM_PROT_WRITE) cur true))
               (region_count s + 1) (memory_protection_enabled s),
          [("MEMORY_ALLOCATED"%string, f * PAGE_SIZE)])))).
Proof.
  intros Hc Hbm Hh. unfold allocate_memory.
  rewrite (proj2 (Z.eqb_neq _ _) Hc), Z.eqb_refl. cbn [negb].
  destruct (find_free_page_cases s) as [(f & Hfind & Hr & Hclear & Hbefore)|(Hfind & Hall)];
    rewrite Hfind.
  - right. exists f. split; [reflexivity|].
    split; [exact Hr|]. split; [exact Hclear|]. split; [exact Hbefore|].
    assert (f <> NO_PAGE) as Hne by (unfold NO_PAGE, TOTAL_PAGES in *; lia).
    rewrite (proj2 (Z.eqb_neq _ _) Hne).
    rewrite page_address by lia.
    destruct (Z.lt_ge_cases (region_count s) MAX_MEMORY_REGIONS) as [Hroom|Hfull].
    + right. split; [exact Hroom|].
      rewrite register_room by exact Hroom. reflexivity.
    + left. split; [exact Hfull|].
      rewrite register_full by exact Hfull. cbn [negb].
      cbn [set_bitmap set_hint page_bitmap next_free_page memory_regions region_count
           memory_protection_enabled].
      rewrite bitmap_clear_set by (try assumption; lia).
      reflexivity.
  - left. split; [reflexivity|]. split; [reflexivity | exact Hall].
Qed.

(** ** [free_memory] under the invariant *)

Lemma remove_base_Forall (P : memory_region -> Prop) address l :
  Forall P l -> Forall P (remove_base address l).
Proof.
  induction 1 as [|r l Hr Hl IH]; cbn; [constructor|].
  destruct (base_address r =? address); [exact Hl | constructor; assumption].
Qed.

Lemma remove_base_bases address l :
  NoDup (base_address <$> l) ->
  NoDup (base_address <$> remove_base address l) /\
  forall a, a ∈ (base_address <$> remove_base address l) <->
            a <> address /\ a ∈ (base_address <$> l).
Proof.
  induction l as [|r l IH]; cbn; intros Hnd.
  - split; [constructor|]. intros a. rewrite elem_of_nil. tauto.
  - apply NoDup_cons in Hnd as [Hr Hnd].
    destruct (Z.eqb_spec (base_address r) address) as [Heq|Hne].
    + split; [exact Hnd|]. intros a. rewrite elem_of_cons. split.
      * intros Ha. split; [|right; exact Ha]. intros ->. rewrite <- Heq in Ha. contradiction.
      * intros [Hna [->|Ha]]; [contradiction | exact Ha].
    + destruct (IH Hnd) as [IHnd IHin]. cbn. split.
      * apply NoDup_cons. split; [|exact IHnd].
        rewrite IHin. intros [_ Hin]. contradiction.
      * intros a. rewrite !elem_of_cons, IHin. split.
        -- intros [->|[Hna Ha]]; [split; [exact Hne | left; reflexivity]|].
           split; [exact Hna | right; exact Ha].
        -- intros [Hna [->|Ha]]; [left; reflexivity | right; split; assumption].
Qed.

Lemma validate_page_true s cur ptr access :
  memory_protection_enabled s = true ->
  fst (validate_memory_access s cur ptr PAGE_SIZE access) = true ->
  0 <= ptr < 4294967296 /\ range_ok ptr PAGE_SIZE.
Proof.
  intros Hen. unfold validate_memory_access. rewrite Hen. cbn [negb].
  destruct (Z.eqb_spec ptr 0) as [|Hnz]; [discriminate|].
  change (PAGE_SIZE =? 0) with false. cbn [orb].
  destruct (Z.ltb_spec (u32 (ptr + PAGE_SIZE)) ptr) as [|Hov]; [discriminate|].
  destruct (Z.ltb_spec ptr KERNEL_END) as [|Hlo]; [discriminate|]. cbn [orb].
  rewrite Z.gtb_ltb.
  destruct (Z.ltb_spec PHYS_MEMORY_END (u32 (ptr + PAGE_SIZE))) as [|Hhi]; [discriminate|].
  destruct (Z.eqb_spec (ptr mod PAGE_SIZE) 0) as [Hal|]; [|discriminate].
  intros _. unfold KERNEL_END, PHYS_MEMORY_END, PAGE_SIZE, range_ok in *.
  assert (ptr <= 16777216) as Hp by lia.
  rewrite u32_small in Hhi by lia.
  unfold KERNEL_END, PHYS_MEMORY_END, PAGE_SIZE. lia.
Qed.

Lemma live_lookup s i :
  0 <= i < region_count s ->
  (Z.to_nat (region_count s) <= length (memory_regions s))%nat ->
  live_regions s !! Z.to_nat i = Some (region_at s i).
Proof.
  intros Hi Hlen. unfold live_regions, region_at.
  rewrite lookup_take_lt by lia. apply aget_lookup. lia.
Qed.

(** Under the invariant a release that passes validation is the release of
    a page held by the current principal. *)
Lemma validate_free_page s held cur ptr :
  mm_inv s held ->
  fst (validate_memory_access s cur ptr PAGE_SIZE MEM_PROT_WRITE) = true ->
  exists g, kernel_pages <= g < TOTAL_PAGES /\ ptr = g * PAGE_SIZE /\
            cur <> 0 /\ ptr ∈ held.
Proof.
  intros Hinv Hval.
  destruct (validate_page_true _ _ _ _ (inv_enabled _ _ Hinv) Hval) as [Hp Hok].
  apply (validate_approves_iff s cur ptr PAGE_SIZE MEM_PROT_WRITE
           (inv_enabled _ _ Hinv) Hp ltac:(unfold PAGE_SIZE; lia)) in Hval.
  destruct Hval as (_ & i & (Hi & Hcov & _) & _ & Hown).
  pose proof (inv_count _ _ Hinv) as Hc. pose proof (inv_len _ _ Hinv) as Hlen.
  assert (live_regions s !! Z.to_nat i = Some (region_at s i)) as Hl
    by (apply live_lookup; lia).
  pose proof (inv_regions _ _ Hinv) as Hall.
  rewrite Forall_lookup in Hall. specialize (Hall _ _ Hl).
  destruct Hok as (Hnz & _ & _ & Hlo & Hhi & Hal).
  unfold covers in Hcov. apply andb_true_iff in Hcov as [Hge Hle].
  rewrite Z.geb_leb in Hge. apply Z.leb_le in Hge. apply Z.leb_le in Hle.
  destruct Hall as [Hk|(g & Hg & Hbase & Hsize & _ & Howner)].
  - rewrite Hk in Hle. change (ptr + PAGE_SIZE <= 1048576) in Hle.
    unfold KERNEL_END, PAGE_SIZE in *. lia.
  - rewrite Hbase, Hsize in Hle. rewrite Hbase in Hge.
    unfold kernel_pages, TOTAL_PAGES, PAGE_SIZE in *.
    rewrite u32_small in Hle by lia.
    exists g. split; [lia|]. split; [lia|].
    split; [destruct Hown as [Ho|Ho]; congruence|].
    apply (inv_held _ _ Hinv). split; [exact Hnz|].
    apply list_elem_of_fmap. exists (region_at s i).
    split; [lia|]. apply list_elem_of_lookup_2 with (i := Z.to_nat i). exact Hl.
Qed.

Lemma page_frame (g : Z) : g * PAGE_SIZE / PAGE_SIZE = g.
Proof. unfold PAGE_SIZE. apply Z.div_mul. lia. Qed.

(** [free_memory] under the invariant: either nothing changes and no
    release is logged, or the page of frame [g] held by a client is
    released. *)
Lemma free_cases s held cur ptr :
  mm_inv s held ->
  (fst (free_memory s cur ptr) = s /\
   was_logged "MEMORY_FREED" (snd (free_memory s cur ptr)) = false) \/
  (exists g, kernel_pages <= g < TOTAL_PAGES /\ ptr = g * PAGE_SIZE /\
             cur <> 0 /\ ptr ∈ held /\
             free_memory s cur ptr =
               (snd (unregister_memory_region
                       (mkMM (bitmap_clear (page_bitmap s) g)
                             (if g <? next_free_page s then g else next_free_page s)
                             (memory_regions s) (region_count s)
                             (memory_protection_enabled s)) ptr),
                [("MEMORY_FREED"%string, ptr)])).
Proof.
  intros Hinv. unfold free_memory.
  destruct (Z.eqb_spec ptr 0) as [|Hnz]; [left; split; reflexivity|].
  destruct (fst (validate_memory_access s cur ptr PAGE_SIZE MEM_PROT_WRITE)) eqn:Hval;
    cbn [negb].
  - destruct (validate_free_page _ _ _ _ Hinv Hval) as (g & Hg & Hptr & Hcur & Hheld).
    right. exists g. split; [exact Hg|]. split; [exact Hptr|].
    split; [exact Hcur|]. split; [exact Hheld|].
    rewrite (proj2 (Z.eqb_neq _ _) Hcur). subst ptr. rewrite page_frame.
    rewrite (proj2 (Z.ltb_lt g TOTAL_PAGES)) by lia.
    cbn [set_bitmap next_free_page].
    destruct (g <? next_free_page s); reflexivity.
  - left. split; [reflexivity|]. cbn [snd].
    unfold violation.
    destruct (validate_memory_access s cur ptr PAGE_SIZE MEM_PROT_WRITE) as [v [c|]] eqn:Hv;
      cbn [snd app]; [|reflexivity].
    cbn [fst] in Hval. subst v.
    unfold was_logged. cbn [existsb fst]. rewrite orb_false_r.
    revert Hv. unfold validate_memory_access.
    repeat match goal with
           | |- context [if ?c then _ else _] => destruct c
           end; try (intros [= <-]; reflexivity); try discriminate.
    generalize 0 at 1. generalize (Z.to_nat (region_count s)). intros n.
    induction n as [|n IH]; intros i; cbn [validate_loop].
    + intros [= <-]. reflexivity.
    + repeat match goal with
             | |- context [if ?c then _ else _] => destruct c
             end; try (intros [= <-]; reflexivity); try discriminate. apply IH.
Qed.

(** ** The invariant holds after every call *)

Lemma forallb_seqZ (P : Z -> bool) (m n : Z) :
  forallb P (seqZ m n) = true -> forall f, m <= f < m + n -> P f = true.
Proof.
  intros H f Hf. rewrite forallb_forall in H. apply H.
  apply list_elem_of_In, elem_of_seqZ. exact Hf.
Qed.

Lemma forallb_Forall {A} (P : A -> bool) (l : list A) :
  forallb P l = true -> Forall (fun x => P x = true) l.
Proof.
  intros H. rewrite forallb_forall in H. apply Forall_forall.
  intros x Hx. apply H, list_elem_of_In, Hx.
Qed.

Lemma init_bitmap_ok : bitmap_ok (page_bitmap init_memory_management).
Proof.
  split; [vm_compute; reflexivity|].
  assert (forallb (fun x => (0 <=? x) && (x <? 256))
            (page_bitmap init_memory_management) = true) as H
    by (vm_compute; reflexivity).
  apply forallb_Forall in H. eapply Forall_impl; [exact H|].
  cbn beta. intros x Hx. apply andb_true_iff in Hx as [H1 H2].
  apply Z.leb_le in H1. apply Z.ltb_lt in H2. lia.
Qed.

Lemma init_frames (f : Z) :
  0 <= f < TOTAL_PAGES ->
  frame_used (page_bitmap init_memory_management) f = (f <? kernel_pages).
Proof.
  intros Hf.
  assert (forallb (fun f => Bool.eqb (frame_used (page_bitmap init_memory_management) f)
                                     (f <? kernel_pages))
            (seqZ 0 TOTAL_PAGES) = true) as H by (vm_compute; reflexivity).
  apply Bool.eqb_prop. apply (forallb_seqZ _ _ _ H). lia.
Qed.

Lemma init_inv : mm_inv init_memory_management [].
Proof.
  assert (live_regions init_memory_management = [kernel_region]) as Hlive
    by (vm_compute; reflexivity).
  split.
  - apply init_bitmap_ok.
  - vm_compute; reflexivity.
  - vm_compute. split; discriminate.
  - vm_compute. split; discriminate.
  - reflexivity.
  - rewrite Hlive. constructor; [left; reflexivity | constructor].
  - rewrite Hlive. cbn. apply NoDup_singleton.
  - intros f Hf. rewrite init_frames by (unfold kernel_pages, TOTAL_PAGES in *; lia).
    apply Z.ltb_lt. lia.
  - intros f Hf. rewrite init_frames by zlia. rewrite elem_of_nil.
    rewrite (proj2 (Z.ltb_ge f kernel_pages)) by zlia. split; [discriminate | tauto].
  - intros a. rewrite Hlive. cbn. rewrite elem_of_nil, list_elem_of_singleton.
    split; [tauto | intros [H1 H2]; apply H1, H2].
  - constructor.
Qed.

Lemma frame_address_inj (f g : Z) : f * PAGE_SIZE = g * PAGE_SIZE -> f = g.
Proof. unfold PAGE_SIZE. lia. Qed.

Lemma alloc_granted_inv s held cur f :
  mm_inv s held -> cur <> 0 ->
  next_free_page s <= f < TOTAL_PAGES ->
  frame_used (page_bitmap s) f = false ->
  region_count s < MAX_MEMORY_REGIONS ->
  mm_inv (mkMM (bitmap_set (page_bitmap s) f) (f + 1)
               (aset (memory_regions s) (region_count s)
                     (mkRegion (f * PAGE_SIZE) PAGE_SIZE
                        (Z.lor MEM_PROT_READ MEM_PROT_WRITE) cur true))
               (region_count s + 1) (memory_protection_enabled s))
         (f * PAGE_SIZE :: held).
Proof.
  intros Hinv Hcur Hf Hclear Hroom.
  pose proof (inv_count _ _ Hinv) as Hc. pose proof (inv_len _ _ Hinv) as Hlen.
  pose proof (inv_hint _ _ Hinv) as Hh. pose proof (inv_bitmap _ _ Hinv) as Hbm.
  assert (f * PAGE_SIZE ∉ held) as Hfresh.
  { intros Hin. apply (inv_used _ _ Hinv) in Hin; [|zlia]. congruence. }
  assert (f * PAGE_SIZE <> 0) as Hnz
    by (unfold kernel_pages, PAGE_SIZE in *; lia).
  set (r := mkRegion (f * PAGE_SIZE) PAGE_SIZE (Z.lor MEM_PROT_READ MEM_PROT_WRITE) cur true).
  assert (live_regions (mkMM (bitmap_set (page_bitmap s) f) (f + 1)
                             (aset (memory_regions s) (region_count s) r)
                             (region_count s + 1) (memory_protection_enabled s))
          = live_regions s ++ [r]) as Hlive.
  { unfold live_regions. cbn [memory_regions region_count].
    apply live_regions_append; [zlia|]. rewrite Hlen. unfold MAX_MEMORY_REGIONS in *. lia. }
  split; cbn [page_bitmap next_free_page memory_regions region_count
              memory_protection_enabled].
  - apply bitmap_set_ok, Hbm.
  - rewrite length_aset. exact Hlen.
  - zlia.
  - zlia.
  - apply (inv_enabled _ _ Hinv).
  - rewrite Hlive. apply Forall_app. split; [apply (inv_regions _ _ Hinv)|].
    constructor; [|constructor]. right. exists f.
    split; [zlia|]. split; [reflexivity|]. split; [reflexivity|].
    split; [cbn; discriminate | exact Hcur].
  - rewrite Hlive, fmap_app. apply NoDup_app.
    split; [apply (inv_nodup _ _ Hinv)|]. split; [|cbn; apply NoDup_singleton].
    intros a Ha. cbn. rewrite list_elem_of_singleton. intros ->.
    apply Hfresh. apply (inv_held _ _ Hinv). split; assumption.
  - intros j Hj. rewrite frame_used_set by (try assumption; zlia).
    destruct (f =? j); [reflexivity | apply (inv_kernel _ _ Hinv), Hj].
  - intros j Hj. rewrite frame_used_set by (try assumption; zlia).
    rewrite elem_of_cons.
    destruct (Z.eqb_spec f j) as [->|Hne].
    + split; [left; reflexivity | reflexivity].
    + rewrite (inv_used _ _ Hinv j Hj). split; [right; assumption|].
      intros [Heq|Hin]; [|exact Hin].
      apply frame_address_inj in Heq. congruence.
  - intros a. rewrite elem_of_cons, Hlive, fmap_app, elem_of_app.
    rewrite (inv_held _ _ Hinv a). cbn. rewrite list_elem_of_singleton.
    split.
    + intros [->|[H1 H2]]; [split; [exact Hnz | right; reflexivity]|].
      split; [exact H1 | left; exact H2].
    + intros [H1 [H2| ->]]; [right; split; assumption | left; reflexivity].
  - apply NoDup_cons. split; [exact Hfresh | apply (inv_held_nodup _ _ Hinv)].
Qed.

Lemma set_hint_inv s held h :
  mm_inv s held -> kernel_pages <= h <= TOTAL_PAGES -> mm_inv (set_hint s h) held.
Proof.
  intros Hinv Hh. destruct Hinv. split; try assumption.
Qed.

Lemma free_granted_inv s held g h :
  mm_inv s held -> kernel_pages <= g < TOTAL_PAGES ->
  kernel_pages <= h <= TOTAL_PAGES ->
  mm_inv (snd (unregister_memory_region
                 (mkMM (bitmap_clear (page_bitmap s) g) h
                       (memory_regions s) (region_count s)
                       (memory_protection_enabled s)) (g * PAGE_SIZE)))
         (filter (fun a => a <> g * PAGE_SIZE) held).
Proof.
  intros Hinv Hg Hh.
  pose proof (inv_count _ _ Hinv) as Hc. pose proof (inv_len _ _ Hinv) as Hlen.
  pose proof (inv_bitmap _ _ Hinv) as Hbm.
  set (s1 := mkMM (bitmap_clear (page_bitmap s) g) h (memory_regions s)
                  (region_count s) (memory_protection_enabled s)).
  destruct (unregister_spec s1 (g * PAGE_SIZE)) as (Hlive & Hlen' & Hc' & Hb' & Hh' & He').
  { cbn. lia. }
  { cbn [s1 memory_regions region_count]. rewrite Hlen.
    unfold MAX_MEMORY_REGIONS in *. lia. }
  change (live_regions s1) with (live_regions s) in Hlive.
  cbn [s1 memory_regions region_count page_bitmap next_free_page
       memory_protection_enabled] in Hlen', Hc', Hb', Hh', He'.
  destruct (remove_base_bases (g * PAGE_SIZE) (live_regions s) (inv_nodup _ _ Hinv))
    as [Hnd Hin].
  assert (unfold_used : kernel_pages <= TOTAL_PAGES) by (vm_compute; discriminate).
  split.
  - rewrite Hb'. apply bitmap_clear_ok, Hbm.
  - rewrite Hlen'. exact Hlen.
  - zlia.
  - rewrite Hh'. exact Hh.
  - rewrite He'. apply (inv_enabled _ _ Hinv).
  - rewrite Hlive. apply remove_base_Forall, (inv_regions _ _ Hinv).
  - rewrite Hlive. exact Hnd.
  - intros j Hj. rewrite Hb', frame_used_clear
      by (try assumption; unfold kernel_pages, TOTAL_PAGES in *; lia).
    destruct (Z.eqb_spec g j) as [->|]; [lia | apply (inv_kernel _ _ Hinv), Hj].
  - intros j Hj. rewrite Hb', frame_used_clear
      by (try assumption; unfold kernel_pages, TOTAL_PAGES in *; lia).
    rewrite list_elem_of_filter.
    destruct (Z.eqb_spec g j) as [->|Hne].
    + split; [discriminate | intros [H _]; contradiction].
    + rewrite (inv_used _ _ Hinv j Hj). split; [|tauto].
      intros Hin'. split; [|exact Hin'].
      intros Heq. apply frame_address_inj in Heq. congruence.
  - intros a. rewrite list_elem_of_filter, Hlive, Hin, (inv_held _ _ Hinv a). tauto.
  - apply NoDup_filter, (inv_held_nodup _ _ Hinv).
Qed.

Lemma step_inv s held o :
  mm_inv s held -> mm_inv (fst (step (s, held) o)) (snd (step (s, held) o)).
Proof.
  intros Hinv. destruct o as [cur sz|cur ptr]; cbn [step].
  - destruct (Z.eq_dec cur 0) as [->|Hcur].
    { rewrite allocate_no_user. exact Hinv. }
    destruct (Z.eq_dec sz PAGE_SIZE) as [->|Hsz].
    2:{ rewrite allocate_bad_size by assumption. exact Hinv. }
    pose proof (inv_hint _ _ Hinv) as Hh.
    destruct (allocate_cases s cur Hcur (inv_bitmap _ _ Hinv))
      as [(Ha & _)|(f & _ & Hf & Hclear & _ & [(Hfull & Ha)|(Hroom & Ha)])];
      [unfold kernel_pages in *; lia | rewrite Ha; cbn..].
    + exact Hinv.
    + apply set_hint_inv; [exact Hinv | unfold kernel_pages in *; lia].
    + assert (f * PAGE_SIZE <> 0) as Hnz
        by (unfold kernel_pages, PAGE_SIZE in *; lia).
      rewrite (proj2 (Z.eqb_neq _ _) Hnz).
      apply alloc_granted_inv; assumption.
  - destruct (free_cases s held cur ptr Hinv) as [[Hs Hlog]|(g & Hg & -> & _ & _ & Hfree)].
    + destruct (free_memory s cur ptr) as [s' log]. cbn [fst snd] in *.
      rewrite Hlog. subst s'. exact Hinv.
    + rewrite Hfree. cbn [was_logged existsb fst String.eqb].
      replace (was_logged "MEMORY_FREED" [("MEMORY_FREED"%string, g * PAGE_SIZE)])
        with true by reflexivity.
      cbn [fst snd].
      apply free_granted_inv; [exact Hinv | exact Hg |].
      pose proof (inv_hint _ _ Hinv) as Hh.
      destruct (Z.ltb_spec g (next_free_page s)); zlia.
Qed.

Lemma run_inv ops : mm_inv (fst (run ops)) (snd (run ops)).
Proof.
  unfold run. rewrite <- (rev_involutive ops).
  induction (rev ops) as [|o l IH]; cbn [rev].
  - apply init_inv.
  - rewrite fold_left_app. cbn [fold_left].
    destruct (fold_left step (rev l) (init_memory_management, [])) as [s held].
    apply step_inv. exact IH.
Qed.

(** ** The byte-wise finder *)

Lemma ctz_loop_first (x : Z) (n : nat) (k0 : Z) : forall k,
  k <= k0 < k + Z.of_nat n -> Z.testbit x k0 = true ->
  (forall i, k <= i < k0 -> Z.testbit x i = false) ->
  ctz_loop n k x = k0.
Proof.
  induction n as [|n IH]; intros k Hk Hset Hbefore; [lia|].
  cbn [ctz_loop]. destruct (Z.eq_dec k k0) as [->|Hne].
  - rewrite Hset. reflexivity.
  - rewrite (Hbefore k) by lia. apply IH; [lia | exact Hset |].
    intros i Hi. apply Hbefore. lia.
Qed.

Lemma byte_all_ones (x : Z) :
  0 <= x < 256 -> (forall i, 0 <= i < 8 -> Z.testbit x i = true) -> x = 255.
Proof.
  intros Hx Hall. apply Z.bits_inj'. intros n Hn.
  destruct (Z.ltb_spec n 8) as [Hlt|Hge].
  - rewrite Hall by lia. change 255 with (Z.ones 8).
    rewrite Z.ones_spec_low by lia. reflexivity.
  - change 255 with (Z.ones 8). rewrite Z.ones_spec_high by lia.
    destruct (Z.eq_dec x 0) as [->|Hx0]; [apply Z.bits_0|].
    apply Z.bits_above_log2; [lia|].
    apply Z.log2_lt_pow2; [lia|].
    apply Z.lt_le_trans with (2 ^ 8); [simpl; lia|].
    apply Z.pow_le_mono_r; lia.
Qed.

(** On a byte that is not [0xFF], [find_first_zero_bit] is the index of
    its lowest clear bit. *)
Lemma find_first_zero_bit_spec (byte : Z) :
  0 <= byte < 256 -> byte <> 255 ->
  exists k, 0 <= k < 8 /\ find_first_zero_bit byte = k /\
            Z.testbit byte k = false /\
            forall i, 0 <= i < k -> Z.testbit byte i = true.
Proof.
  intros Hb Hne.
  destruct (first_true_dec (fun i => negb (Z.testbit byte i)) 8 0)
    as [Hnone|(k & Hk & Hclear & Hbefore)].
  - exfalso. apply Hne. apply byte_all_ones; [exact Hb|].
    intros i Hi. specialize (Hnone i ltac:(lia)).
    apply negb_false_iff in Hnone. exact Hnone.
  - exists k. split; [lia|].
    apply negb_true_iff in Hclear. split; [|split; [exact Hclear|]].
    + unfold find_first_zero_bit. rewrite (proj2 (Z.eqb_neq _ _) Hne).
      unfold builtin_ctz. apply ctz_loop_first; [lia | |].
      * unfold u32. change 4294967296 with (2 ^ 32).
        rewrite Z.mod_pow2_bits_low, Z.lnot_spec, Hclear by lia. reflexivity.
      * intros i Hi. unfold u32. change 4294967296 with (2 ^ 32).
        rewrite Z.mod_pow2_bits_low, Z.lnot_spec by lia.
        specialize (Hbefore i ltac:(lia)). apply negb_false_iff in Hbefore.
        rewrite Hbefore. reflexivity.
    + intros i Hi. specialize (Hbefore i ltac:(lia)).
      apply negb_false_iff in Hbefore. exact Hbefore.
Qed.

Lemma frame_in_byte (bi k : Z) :
  0 <= k < 8 -> (8 * bi + k) / 8 = bi /\ (8 * bi + k) mod 8 = k.
Proof. intros Hk. Z.to_euclidean_division_equations. lia. Qed.

(** One pass of the byte loop over the bytes [bi .. bi+n): the lowest clear
    frame of those bytes, if there is one. *)
Lemma opt_scan_spec (b : list Z) (n : nat) : forall bi,
  bitmap_ok b -> 0 <= bi -> bi + Z.of_nat n <= BITMAP_SIZE ->
  match opt_scan b n bi with
  | Some f => 8 * bi <= f < 8 * (bi + Z.of_nat n) /\ frame_used b f = false /\
              forall g, 8 * bi <= g < f -> frame_used b g = true
  | None => forall g, 8 * bi <= g < 8 * (bi + Z.of_nat n) -> frame_used b g = true
  end.
Proof.
  induction n as [|n IH]; intros bi Hok Hbi Hn; cbn [opt_scan].
  - intros g Hg. lia.
  - pose proof (bitmap_ok_aget b bi Hok) as Hbyte.
    specialize (IH (bi + 1) Hok ltac:(lia) ltac:(lia)).
    destruct (Z.eqb_spec (aget 0 b bi) 255) as [Hfull|Hfree]; cbn [negb].
    + assert (forall g, 8 * bi <= g < 8 * (bi + 1) -> frame_used b g = true) as Hbyte_used.
      { intros g Hg. rewrite frame_used_testbit by lia.
        replace (g / 8) with bi by (Z.to_euclidean_division_equations; lia).
        rewrite Hfull. change 255 with (Z.ones 8). apply Z.ones_spec_low.
        Z.to_euclidean_division_equations; lia. }
      destruct (opt_scan b n (bi + 1)) as [f|].
      * destruct IH as (Hr & Hclear & Hbefore). split; [lia|]. split; [exact Hclear|].
        intros g Hg. destruct (Z.lt_ge_cases g (8 * (bi + 1))); [apply Hbyte_used | apply Hbefore]; lia.
      * intros g Hg. destruct (Z.lt_ge_cases g (8 * (bi + 1))); [apply Hbyte_used | apply IH]; lia.
    + destruct (find_first_zero_bit_spec _ Hbyte Hfree) as (k & Hk & -> & Hclear & Hbefore).
      rewrite Z.geb_leb, (proj2 (Z.leb_le 0 k)) by lia.
      rewrite Z.shiftl_mul_pow2 by lia. change (2 ^ 3) with 8.
      rewrite u32_small by zlia.
      rewrite (proj2 (Z.ltb_lt (bi * 8 + k) TOTAL_PAGES)) by zlia.
      replace (bi * 8 + k) with (8 * bi + k) by lia.
      destruct (frame_in_byte bi k Hk) as [Hq Hr].
      split; [lia|]. split.
      * rewrite frame_used_testbit by lia. rewrite Hq, Hr. exact Hclear.
      * intros g Hg. rewrite frame_used_testbit by lia.
        replace (g / 8) with bi by (Z.to_euclidean_division_equations; lia).
        apply Hbefore. Z.to_euclidean_division_equations; lia.
Qed.

(** Where the two finders agree: when no frame below the hint is clear
    (and the hint is within the range), [optimized_find_free_page] returns
    what [find_free_page] returns and leaves the same hint. *)
Lemma finders_agree_above_hint s :
  bitmap_ok (page_bitmap s) -> 0 <= next_free_page s <= TOTAL_PAGES ->
  (forall g, 0 <= g < next_free_page s -> frame_used (page_bitmap s) g = true) ->
  optimized_find_free_page s = find_free_page s.
Proof.
  intros Hok Hh Hbelow. unfold optimized_find_free_page.
  rewrite shiftr3.
  set (h8 := next_free_page s / 8).
  assert (0 <= h8 <= BITMAP_SIZE /\ 8 * h8 <= next_free_page s < 8 * h8 + 8) as [Hh8 Hh8']
    by (subst h8; zconst; Z.to_euclidean_division_equations; lia).
  pose proof (opt_scan_spec (page_bitmap s) (Z.to_nat (BITMAP_SIZE - h8)) h8 Hok
                ltac:(lia) ltac:(lia)) as Hfirst.
  pose proof (opt_scan_spec (page_bitmap s) (Z.to_nat h8) 0 Hok
                ltac:(lia) ltac:(lia)) as Hsecond.
  replace (h8 + Z.of_nat (Z.to_nat (BITMAP_SIZE - h8))) with BITMAP_SIZE in Hfirst by lia.
  replace (0 + Z.of_nat (Z.to_nat h8)) with h8 in Hsecond by lia.
  destruct (find_free_page_cases s) as [(f & -> & Hf & Hclear & Hbefore)|(-> & Hall)].
  - destruct (opt_scan (page_bitmap s) (Z.to_nat (BITMAP_SIZE - h8)) h8) as [f'|].
    + destruct Hfirst as (Hr' & Hclear' & Hbefore').
      assert (f' = f) as ->.
      { destruct (Z.lt_trichotomy f' f) as [Hlt|[Heq|Hgt]]; [|exact Heq|].
        - destruct (Z.lt_ge_cases f' (next_free_page s)).
          + rewrite Hbelow in Hclear' by lia. discriminate.
          + rewrite Hbefore in Hclear' by lia. discriminate.
        - rewrite Hbefore' in Hclear by lia. discriminate. }
      rewrite u32_small by zlia. reflexivity.
    + rewrite Hfirst in Hclear by zlia. discriminate.
  - destruct (opt_scan (page_bitmap s) (Z.to_nat (BITMAP_SIZE - h8)) h8) as [f'|].
    + destruct Hfirst as (Hr' & Hclear' & _).
      destruct (Z.lt_ge_cases f' (next_free_page s)).
      * rewrite Hbelow in Hclear' by lia. discriminate.
      * rewrite Hall in Hclear' by zlia. discriminate.
    + destruct (opt_scan (page_bitmap s) (Z.to_nat h8) 0) as [f''|]; [|reflexivity].
      destruct Hsecond as (Hr'' & Hclear'' & _).
      rewrite Hbelow in Hclear'' by lia. discriminate.
Qed.

(** ** The properties of the allocator *)

(** C7. After every sequence of allocate and free calls that starts from
    the initialised state, a frame's bit is set exactly when the frame is
    reserved for the kernel or its page is held by a client (returned by
    [allocate_memory] and not released since); no address is held twice,
    and an address that [allocate_memory] returns is not held by anybody at
    that moment. *)
Theorem bitmap_tracks_live_allocations (ops : list mm_op) :
  let s := fst (run ops) in
  let held := snd (run ops) in
  (forall f, 0 <= f < TOTAL_PAGES ->
     (frame_used (page_bitmap s) f = true <->
      f < kernel_pages \/ f * PAGE_SIZE ∈ held)) /\
  NoDup held /\
  (forall cur sz, let a := fst (fst (allocate_memory s cur sz)) in
     a <> 0 -> a ∉ held).
Proof.
  cbn zeta. pose proof (run_inv ops) as Hinv.
  split; [|split].
  - intros f Hf. destruct (Z.lt_ge_cases f kernel_pages) as [Hk|Hk].
    + rewrite (inv_kernel _ _ Hinv f) by lia. tauto.
    + rewrite (inv_used _ _ Hinv f) by lia. split; [tauto|].
      intros [H|H]; [lia | exact H].
  - apply (inv_held_nodup _ _ Hinv).
  - intros cur sz Hnz Hin.
    pose proof (step_inv _ _ (Alloc cur sz) Hinv) as Hstep.
    cbn [step] in Hstep.
    destruct (allocate_memory (fst (run ops)) cur sz) as [[a s'] log].
    cbn [fst snd] in *. rewrite (proj2 (Z.eqb_neq _ _) Hnz) in Hstep.
    apply inv_held_nodup, NoDup_cons in Hstep. tauto.
Qed.

Lemma live_length s :
  0 <= region_count s ->
  (Z.to_nat (region_count s) <= length (memory_regions s))%nat ->
  length (live_regions s) = Z.to_nat (region_count s).
Proof. intros Hc Hlen. unfold live_regions. apply length_take_le. lia. Qed.

Lemma inv_live_length s held :
  mm_inv s held -> length (live_regions s) = Z.to_nat (region_count s).
Proof.
  intros Hinv. pose proof (inv_count _ _ Hinv). pose proof (inv_len _ _ Hinv) as Hl.
  apply live_length; [lia|]. rewrite Hl. zlia.
Qed.

Lemma remove_base_length address l :
  address ∈ (base_address <$> l) ->
  S (length (remove_base address l)) = length l.
Proof.
  induction l as [|r l IH]; cbn; [rewrite elem_of_nil; tauto|].
  rewrite elem_of_cons.
  destruct (Z.eqb_spec (base_address r) address) as [Heq|Hne]; [reflexivity|].
  intros [Heq|Hin]; [congruence|]. cbn. rewrite IH by exact Hin. reflexivity.
Qed.

(** Under the invariant, the page of a held frame is released when its
    owner asks for it. *)
Lemma free_own_page s held cur f :
  mm_inv s held -> cur <> 0 -> kernel_pages <= f < TOTAL_PAGES ->
  mkRegion (f * PAGE_SIZE) PAGE_SIZE (Z.lor MEM_PROT_READ MEM_PROT_WRITE) cur true
    ∈ live_regions s ->
  fst (validate_memory_access s cur (f * PAGE_SIZE) PAGE_SIZE MEM_PROT_WRITE) = true.
Proof.
  intros Hinv Hcur Hf Hin.
  pose proof (inv_count _ _ Hinv) as Hc. pose proof (inv_len _ _ Hinv) as Hlen.
  assert (0 <= f * PAGE_SIZE < 4294967296) as Hp by zlia.
  assert (range_ok (f * PAGE_SIZE) PAGE_SIZE) as Hok.
  { unfold range_ok. repeat split; try zlia.
    unfold PAGE_SIZE. apply Z.mod_mul. lia. }
  apply (validate_approves_iff s cur (f * PAGE_SIZE) PAGE_SIZE MEM_PROT_WRITE
           (inv_enabled _ _ Hinv) Hp ltac:(zlia)).
  split; [exact Hok|].
  apply list_elem_of_lookup_1 in Hin as [n Hn].
  assert (n < Z.to_nat (region_count s))%nat as Hnc.
  { apply lookup_lt_Some in Hn. rewrite (inv_live_length _ _ Hinv) in Hn. exact Hn. }
  destruct (first_covering_dec (memory_regions s) (f * PAGE_SIZE)
              (f * PAGE_SIZE + PAGE_SIZE) (Z.to_nat (region_count s)) 0)
    as [Hnone|(k & Hk & Hcov & Hbefore)].
  - exfalso. specialize (Hnone (Z.of_nat n) ltac:(lia)).
    assert (live_regions s !! Z.to_nat (Z.of_nat n)
            = Some (region_at s (Z.of_nat n))) as Hl
      by (apply live_lookup; [lia | rewrite Hlen; zlia]).
    rewrite Nat2Z.id, Hn in Hl. injection Hl as Hl.
    unfold region_at in Hl. rewrite <- Hl in Hnone.
    unfold covers in Hnone. cbn [base_address size] in Hnone.
    rewrite u32_small in Hnone by zlia.
    rewrite Z.geb_leb, !Z.leb_refl in Hnone. discriminate.
  - exists k.
    assert (first_covering s (f * PAGE_SIZE) PAGE_SIZE k) as Hfc.
    { split; [lia|]. split; [exact Hcov|]. intros j Hj. apply Hbefore. lia. }
    split; [exact Hfc|].
    assert (live_regions s !! Z.to_nat k = Some (region_at s k)) as Hl
      by (apply live_lookup; [lia | rewrite Hlen; zlia]).
    pose proof (inv_regions _ _ Hinv) as Hall. rewrite Forall_lookup in Hall.
    specialize (Hall _ _ Hl).
    fold (region_at s k) in Hcov.
    unfold covers in Hcov. apply andb_true_iff in Hcov as [Hge Hle].
    rewrite Z.geb_leb in Hge. apply Z.leb_le in Hge. apply Z.leb_le in Hle.
    destruct Hall as [Hker|(g & Hg & Hbase & Hsize & Hprot & Hown)].
    + rewrite Hker in Hle. change (f * PAGE_SIZE + PAGE_SIZE <= 1048576) in Hle. zlia.
    + split; [exact Hprot|]. right.
      rewrite Hbase, Hsize in Hle. rewrite Hbase in Hge.
      rewrite u32_small in Hle by zlia.
      assert (base_address (region_at s k) = f * PAGE_SIZE) as Hsame by zlia.
      pose proof (inv_nodup _ _ Hinv) as Hnd.
      assert ((base_address <$> live_regions s) !! Z.to_nat k = Some (f * PAGE_SIZE)) as H1
        by (rewrite list_lookup_fmap, Hl; cbn; congruence).
      assert ((base_address <$> live_regions s) !! n = Some (f * PAGE_SIZE)) as H2
        by (rewrite list_lookup_fmap, Hn; reflexivity).
      pose proof (NoDup_lookup _ _ _ _ Hnd H1 H2) as Hkn.
      rewrite Hkn, Hn in Hl. injection Hl as Hl. rewrite <- Hl. reflexivity.
Qed.

(** ** Clear frames at or above the hint *)

Lemma clear_frames_nonneg b (n : nat) : forall lo, 0 <= clear_frames b n lo.
Proof.
  induction n as [|n IH]; intros lo; cbn [clear_frames]; [lia|].
  specialize (IH (lo + 1)). destruct (frame_used b lo); lia.
Qed.

Lemma clear_frames_ext b b' (n : nat) : forall lo,
  (forall f, lo <= f < lo + Z.of_nat n -> frame_used b f = frame_used b' f) ->
  clear_frames b n lo = clear_frames b' n lo.
Proof.
  induction n as [|n IH]; intros lo Hsame; cbn [clear_frames]; [reflexivity|].
  rewrite (Hsame lo) by lia. rewrite (IH (lo + 1)); [reflexivity|].
  intros f Hf. apply Hsame. lia.
Qed.

Lemma clear_frames_used b (n : nat) : forall lo,
  (forall f, lo <= f < lo + Z.of_nat n -> frame_used b f = true) ->
  clear_frames b n lo = 0.
Proof.
  induction n as [|n IH]; intros lo Hused; cbn [clear_frames]; [reflexivity|].
  rewrite (Hused lo) by lia. rewrite IH; [reflexivity|].
  intros f Hf. apply Hused. lia.
Qed.

Lemma clear_frames_app b (n m : nat) : forall lo,
  clear_frames b (n + m) lo = clear_frames b n lo + clear_frames b m (lo + Z.of_nat n).
Proof.
  induction n as [|n IH]; intros lo.
  - cbn [clear_frames Nat.add]. rewrite Z.add_0_r. reflexivity.
  - cbn [clear_frames Nat.add]. rewrite IH.
    replace (lo + 1 + Z.of_nat n) with (lo + Z.of_nat (S n)) by lia. lia.
Qed.

Lemma clear_between_split b lo mid hi :
  lo <= mid <= hi ->
  clear_between b lo hi = clear_between b lo mid + clear_between b mid hi.
Proof.
  intros H. unfold clear_between.
  replace (Z.to_nat (hi - lo)) with (Z.to_nat (mid - lo) + Z.to_nat (hi - mid))%nat by lia.
  rewrite clear_frames_app. do 2 f_equal. lia.
Qed.

Lemma clear_between_one b g :
  clear_between b g (g + 1) = if frame_used b g then 0 else 1.
Proof.
  unfold clear_between. replace (g + 1 - g) with 1 by lia.
  change (Z.to_nat 1) with 1%nat. cbn [clear_frames]. lia.
Qed.

Lemma clear_between_nonneg b lo hi : 0 <= clear_between b lo hi.
Proof. apply clear_frames_nonneg. Qed.

Lemma clear_between_ext b b' lo hi :
  (forall f, lo <= f < hi -> frame_used b f = frame_used b' f) ->
  clear_between b lo hi = clear_between b' lo hi.
Proof. intros H. apply clear_frames_ext. intros f Hf. apply H. lia. Qed.

Lemma clear_between_used b lo hi :
  (forall f, lo <= f < hi -> frame_used b f = true) -> clear_between b lo hi = 0.
Proof. intros H. apply clear_frames_used. intros f Hf. apply H. lia. Qed.

(** The registry never has more free slots than there are clear frames at
    or above the hint: a grant uses up one of each, a release gives back
    one of each (the hint is rewound to the released frame when it was
    above), and a roll-back happens only when no slot is free. *)
Lemma step_slots s held o :
  mm_inv s held ->
  MAX_MEMORY_REGIONS - region_count s <= clear_above_hint s ->
  let s' := fst (step (s, held) o) in
  MAX_MEMORY_REGIONS - region_count s' <= clear_above_hint s'.
Proof.
  intros Hinv Hslots. cbn zeta.
  pose proof (inv_hint _ _ Hinv) as Hh. pose proof (inv_bitmap _ _ Hinv) as Hbm.
  pose proof (inv_count _ _ Hinv) as Hc. pose proof (inv_len _ _ Hinv) as Hlen.
  destruct o as [cur sz|cur ptr]; cbn [step].
  - destruct (Z.eq_dec cur 0) as [->|Hcur].
    { rewrite allocate_no_user. exact Hslots. }
    destruct (Z.eq_dec sz PAGE_SIZE) as [->|Hsz].
    2:{ rewrite allocate_bad_size by assumption. exact Hslots. }
    destruct (allocate_cases s cur Hcur Hbm ltac:(zlia))
      as [(Ha & _)|(f & _ & Hf & Hclear & Hbefore & [(Hfull & Ha)|(Hroom & Ha)])];
      rewrite Ha; cbn [fst snd].
    + exact Hslots.
    + pose proof (clear_between_nonneg (page_bitmap s) (f + 1) TOTAL_PAGES).
      unfold clear_above_hint. cbn [set_hint page_bitmap next_free_page region_count]. lia.
    + unfold clear_above_hint in *.
      cbn [page_bitmap next_free_page region_count].
      rewrite (clear_between_split _ _ f) in Hslots by lia.
      rewrite (clear_between_split _ f (f + 1)) in Hslots by lia.
      rewrite clear_between_one, Hclear in Hslots.
      rewrite (clear_between_used _ _ f) in Hslots by exact Hbefore.
      rewrite (clear_between_ext _ (page_bitmap s)); [lia|].
      intros g Hg. rewrite frame_used_set by (try assumption; zlia).
      rewrite (proj2 (Z.eqb_neq f g)) by lia. reflexivity.
  - destruct (free_cases s held cur ptr Hinv) as [[Hsame _]|(g & Hg & -> & _ & Hheld & Hfree)].
    { destruct (free_memory s cur ptr) as [s' log]. cbn [fst] in *. subst s'. exact Hslots. }
    rewrite Hfree. cbn [fst].
    set (h := if g <? next_free_page s then g else next_free_page s).
    set (s1 := mkMM (bitmap_clear (page_bitmap s) g) h (memory_regions s) (region_count s)
                    (memory_protection_enabled s)).
    destruct (unregister_spec s1 (g * PAGE_SIZE)) as (Hlive & Hlen' & Hc' & Hb' & Hh' & _).
    { cbn. lia. }
    { cbn [s1 memory_regions region_count]. rewrite Hlen. zlia. }
    set (s' := snd (unregister_memory_region s1 (g * PAGE_SIZE))) in *.
    assert (region_count s' = region_count s - 1) as Hcount.
    { assert (length (live_regions s') = Z.to_nat (region_count s')) as Hl'
        by (apply live_length; [lia | rewrite Hlen'; cbn [s1 memory_regions region_count] in *;
            rewrite Hlen; zlia]).
      assert (S (length (live_regions s')) = length (live_regions s)) as Hl.
      { rewrite Hlive. change (live_regions s1) with (live_regions s).
        apply remove_base_length. apply (inv_held _ _ Hinv). exact Hheld. }
      rewrite (inv_live_length _ _ Hinv) in Hl.
      cbn [s1 region_count] in Hc'. lia. }
    assert (frame_used (page_bitmap s) g = true) as Hused
      by (apply (inv_used _ _ Hinv); [lia | exact Hheld]).
    unfold clear_above_hint in *. rewrite Hb', Hh', Hcount.
    cbn [s1 page_bitmap next_free_page].
    assert (forall lo hi, 0 <= lo -> (hi <= g \/ g < lo) ->
              clear_between (bitmap_clear (page_bitmap s) g) lo hi
              = clear_between (page_bitmap s) lo hi) as Hother.
    { intros lo hi Hpos Hout. apply clear_between_ext. intros f Hf.
      rewrite frame_used_clear by (try assumption; zlia).
      rewrite (proj2 (Z.eqb_neq g f)) by lia. reflexivity. }
    assert (clear_between (bitmap_clear (page_bitmap s) g) g (g + 1) = 1) as Hone.
    { rewrite clear_between_one, frame_used_clear by (try assumption; zlia).
      rewrite Z.eqb_refl. reflexivity. }
    subst h. destruct (Z.ltb_spec g (next_free_page s)) as [Hlow|Hhigh].
    + rewrite (clear_between_split _ g (g + 1)) by lia. rewrite Hone.
      rewrite Hother by zlia.
      rewrite (clear_between_split _ (g + 1) (next_free_page s)) by lia.
      pose proof (clear_between_nonneg (page_bitmap s) (g + 1) (next_free_page s)). lia.
    + rewrite (clear_between_split _ _ g) by lia.
      rewrite (clear_between_split _ g (g + 1)) by lia. rewrite Hone.
      rewrite !Hother by zlia.
      rewrite (clear_between_split _ _ g) in Hslots by lia.
      rewrite (clear_between_split _ g (g + 1)) in Hslots by lia.
      rewrite clear_between_one, Hused in Hslots. lia.
Qed.

Lemma run_slots ops :
  MAX_MEMORY_REGIONS - region_count (fst (run ops)) <= clear_above_hint (fst (run ops)).
Proof.
  unfold run. rewrite <- (rev_involutive ops).
  induction (rev ops) as [|o l IH]; cbn [rev].
  - vm_compute. discriminate.
  - rewrite fold_left_app. cbn [fold_left].
    pose proof (run_inv (rev l)) as Hinv. unfold run in Hinv.
    destruct (fold_left step (rev l) (init_memory_management, [])) as [s held].
    apply step_slots; assumption.
Qed.

(** While the registry has room, a frame at or above the hint is clear. *)
Lemma room_means_clear_frame ops :
  region_count (fst (run ops)) < MAX_MEMORY_REGIONS ->
  exists g, next_free_page (fst (run ops)) <= g < TOTAL_PAGES /\
            frame_used (page_bitmap (fst (run ops))) g = false.
Proof.
  intros Hroom. pose proof (run_slots ops) as Hslots.
  set (s := fst (run ops)) in *.
  destruct (find_free_page_cases s) as [(f & _ & Hf & Hclear & _)|(_ & Hall)].
  - exists f. split; assumption.
  - unfold clear_above_hint in Hslots.
    rewrite clear_between_used in Hslots by exact Hall. lia.
Qed.

(** C8. In every state reached from initialisation in which a principal is
    current and the registry has room, a request for a page is granted;
    freeing the page clears the bit of its frame and rewinds the hint to
    it; and the next request returns the same address, hence the same
    frame. *)
Theorem allocate_free_allocate_same_frame (ops : list mm_op) (cur : Z) :
  cur <> 0 ->
  region_count (fst (run ops)) < MAX_MEMORY_REGIONS ->
  let s := fst (run ops) in
  let a := fst (fst (allocate_memory s cur PAGE_SIZE)) in
  let s1 := snd (fst (allocate_memory s cur PAGE_SIZE)) in
  let s2 := fst (free_memory s1 cur a) in
  a <> 0 /\
  fst (fst (allocate_memory s2 cur PAGE_SIZE)) = a /\
  a = fst (find_free_page s) * PAGE_SIZE /\
  kernel_pages <= a / PAGE_SIZE < TOTAL_PAGES /\
  frame_used (page_bitmap s) (a / PAGE_SIZE) = false /\
  frame_used (page_bitmap s1) (a / PAGE_SIZE) = true /\
  frame_used (page_bitmap s2) (a / PAGE_SIZE) = false /\
  next_free_page s2 = a / PAGE_SIZE.
Proof.
  intros Hcur Hroom. cbn zeta.
  destruct (room_means_clear_frame ops Hroom) as (g0 & Hg0 & Hclear0).
  pose proof (run_inv ops) as Hinv.
  set (s := fst (run ops)) in *. set (held := snd (run ops)) in *.
  pose proof (inv_hint _ _ Hinv) as Hh. pose proof (inv_bitmap _ _ Hinv) as Hbm.
  pose proof (inv_count _ _ Hinv) as Hc. pose proof (inv_len _ _ Hinv) as Hlen.
  destruct (allocate_cases s cur Hcur Hbm ltac:(zlia))
    as [(_ & _ & Hall)|(f & Hfind & Hf & Hclear & _ & [(Hfull & _)|(_ & Ha)])];
    [rewrite (Hall g0 Hg0) in Hclear0; discriminate | lia |].
  rewrite Ha; cbn [fst snd].
  set (r := mkRegion (f * PAGE_SIZE) PAGE_SIZE (Z.lor MEM_PROT_READ MEM_PROT_WRITE) cur true).
  set (s1 := mkMM (bitmap_set (page_bitmap s) f) (f + 1)
                  (aset (memory_regions s) (region_count s) r)
                  (region_count s + 1) (memory_protection_enabled s)).
  assert (mm_inv s1 (f * PAGE_SIZE :: held)) as Hinv1
    by (apply alloc_granted_inv; assumption).
  assert (live_regions s1 = live_regions s ++ [r]) as Hlive1.
  { unfold live_regions. cbn [s1 memory_regions region_count].
    apply live_regions_append; [lia|]. rewrite Hlen. zlia. }
  assert (fst (validate_memory_access s1 cur (f * PAGE_SIZE) PAGE_SIZE MEM_PROT_WRITE)
          = true) as Hval.
  { apply (free_own_page s1 (f * PAGE_SIZE :: held)); try assumption; [zlia|].
    rewrite Hlive1. apply elem_of_app. right. apply list_elem_of_singleton. reflexivity. }
  destruct (free_cases s1 (f * PAGE_SIZE :: held) cur (f * PAGE_SIZE) Hinv1)
    as [[_ Hlog]|(g & Hg & Hgf & _ & _ & Hfree)].
  { exfalso. revert Hlog. unfold free_memory.
    assert (f * PAGE_SIZE <> 0) as Hnz by zlia.
    rewrite (proj2 (Z.eqb_neq _ _) Hnz), Hval, (proj2 (Z.eqb_neq _ _) Hcur).
    cbn [negb]. rewrite page_frame, (proj2 (Z.ltb_lt f TOTAL_PAGES)) by lia.
    cbn. discriminate. }
  apply frame_address_inj in Hgf. subst g.
  rewrite Hfree. cbn [fst].
  cbn [s1 page_bitmap next_free_page memory_regions region_count
       memory_protection_enabled] in *.
  rewrite (proj2 (Z.ltb_lt f (f + 1))) by lia.
  rewrite bitmap_clear_set by (try assumption; zlia).
  set (s1' := mkMM (page_bitmap s) f (aset (memory_regions s) (region_count s) r)
                   (region_count s + 1) (memory_protection_enabled s)).
  destruct (unregister_spec s1' (f * PAGE_SIZE)) as (Hlive2 & Hlen2 & Hc2 & Hb2 & Hh2 & He2).
  { cbn. lia. }
  { cbn [s1' memory_regions region_count]. rewrite length_aset, Hlen. zlia. }
  set (s2 := snd (unregister_memory_region s1' (f * PAGE_SIZE))) in *.
  cbn [s1' page_bitmap next_free_page memory_regions region_count
       memory_protection_enabled] in Hlen2, Hc2, Hb2, Hh2, He2.
  change (live_regions s1') with
    (take (Z.to_nat (region_count s + 1)) (aset (memory_regions s) (region_count s) r))
    in Hlive2.
  rewrite live_regions_append in Hlive2 by (try lia; rewrite Hlen; zlia).
  fold (live_regions s) in Hlive2.
  assert (region_count s2 = region_count s) as Hcount2.
  { assert (length (live_regions s2) = Z.to_nat (region_count s2)) as Hl2
      by (apply live_length; [lia | rewrite Hlen2, length_aset, Hlen; zlia]).
    assert (S (length (live_regions s2)) = length (live_regions s ++ [r])) as Hl3.
    { rewrite Hlive2. apply remove_base_length.
      rewrite fmap_app. apply elem_of_app. right. cbn.
      apply list_elem_of_singleton. reflexivity. }
    rewrite length_app, (inv_live_length _ _ Hinv) in Hl3. cbn in Hl3. lia. }
  split; [zlia|]. split.
  - destruct (allocate_cases s2 cur Hcur ltac:(rewrite Hb2; exact Hbm) ltac:(rewrite Hh2; zlia))
      as [(_ & _ & Hall)|(f' & _ & Hf' & Hclear' & Hbefore' & [(Hfull & _)|(_ & Ha')])].
    + rewrite Hb2, Hh2 in Hall. rewrite (Hall f) in Hclear by lia. discriminate.
    + lia.
    + rewrite Ha'. cbn [fst]. f_equal.
      rewrite Hb2, Hh2 in *.
      destruct (Z.eq_dec f' f) as [Heq|Hne]; [exact Heq|].
      rewrite (Hbefore' f) in Hclear by lia. discriminate.
  - rewrite page_frame, Hb2, Hh2.
    split; [rewrite Hfind; reflexivity|]. split; [lia|]. split; [exact Hclear|].
    split; [|split; [exact Hclear | reflexivity]].
    rewrite frame_used_set by (try assumption; zlia). rewrite Z.eqb_refl. reflexivity.
Qed.

Lemma allocate_free_allocate_same_frame_witness :
  let s := fst (run [Alloc 7 PAGE_SIZE; Alloc 9 PAGE_SIZE; Free 7 1048576]) in
  let a := fst (fst (allocate_memory s 9 PAGE_SIZE)) in
  let s1 := snd (fst (allocate_memory s 9 PAGE_SIZE)) in
  let s2 := fst (free_memory s1 9 a) in
  a <> 0 /\
  fst (fst (allocate_memory s2 9 PAGE_SIZE)) = a /\
  a = fst (find_free_page s) * PAGE_SIZE /\
  kernel_pages <= a / PAGE_SIZE < TOTAL_PAGES /\
  frame_used (page_bitmap s) (a / PAGE_SIZE) = false /\
  frame_used (page_bitmap s1) (a / PAGE_SIZE) = true /\
  frame_used (page_bitmap s2) (a / PAGE_SIZE) = false /\
  next_free_page s2 = a / PAGE_SIZE.
Proof.
  apply (allocate_free_allocate_same_frame
           [Alloc 7 PAGE_SIZE; Alloc 9 PAGE_SIZE; Free 7 1048576] 9);
    [lia | vm_compute; reflexivity].
Defined.

(** [find_free_page] never looks below the hint: what it returns is a
    frame at or above the hint, or the out-of-memory value. *)
Lemma find_free_page_not_below_hint s :
  fst (find_free_page s) = NO_PAGE \/ next_free_page s <= fst (find_free_page s).
Proof.
  destruct (find_free_page_cases s) as [(f & Hfind & Hr & _)|(Hfind & _)];
    rewrite Hfind; cbn [fst]; [right; lia | left; reflexivity].
Qed.

(** The roll-back of [allocate_memory] on a full registry, in general: the
    call returns [NULL] and restores the bitmap and the registry, but the
    hint stays one past the frame that was tried, so that the next scan
    does not return that frame. *)
Lemma allocate_registry_full s cur :
  cur <> 0 -> bitmap_ok (page_bitmap s) -> 0 <= next_free_page s ->
  MAX_MEMORY_REGIONS <= region_count s ->
  let f := fst (find_free_page s) in
  let s' := snd (fst (allocate_memory s cur PAGE_SIZE)) in
  fst (fst (allocate_memory s cur PAGE_SIZE)) = 0 /\
  page_bitmap s' = page_bitmap s /\
  memory_regions s' = memory_regions s /\ region_count s' = region_count s /\
  (f <> NO_PAGE ->
   frame_used (page_bitmap s') f = false /\
   next_free_page s' = f + 1 /\
   fst (find_free_page s') <> f).
Proof.
  intros Hcur Hbm Hh Hfull. cbn zeta.
  destruct (allocate_cases s cur Hcur Hbm Hh)
    as [(Ha & Hnone & _)|(f & Hfind & Hf & Hclear & _ & [(_ & Ha)|(Hroom & _)])];
    [| |lia]; rewrite Ha; cbn [fst snd].
  - rewrite Hnone. repeat (split; [reflexivity|]). intros Hne. contradiction.
  - rewrite Hfind. repeat (split; [reflexivity|]). intros _.
    split; [exact Hclear|]. split; [reflexivity|].
    destruct (find_free_page_not_below_hint (set_hint s (f + 1))) as [Hn|Hn];
      cbn [set_hint next_free_page] in Hn; zlia.
Qed.

(** C3, evaluated. With the registry full ([full_registry_state]: 1023
    pages handed out), a request returns [NULL], the bitmap and the registry
    are exactly as before and frame 1279, the one the scan had found, is
    clear again; but the hint is left at 1280, and the next scan returns
    1280, not 1279. With only the last frame untried ([last_frame_state]),
    the roll-back of frame 4095 leaves the hint at 4096 and the next scan
    reports out of memory although frame 4095 is clear. *)
Theorem rollback_leaves_hint_past_frame :
  (let s := full_registry_state in
   let s' := snd (fst (allocate_memory s 7 PAGE_SIZE)) in
   region_count s = MAX_MEMORY_REGIONS /\
   fst (find_free_page s) = 1279 /\
   fst (fst (allocate_memory s 7 PAGE_SIZE)) = 0 /\
   page_bitmap s' = page_bitmap s /\
   memory_regions s' = memory_regions s /\ region_count s' = region_count s /\
   frame_used (page_bitmap s') 1279 = false /\
   next_free_page s' = 1280 /\
   fst (find_free_page s') = 1280) /\
  (let s := last_frame_state in
   let s' := snd (fst (allocate_memory s 7 PAGE_SIZE)) in
   region_count s = MAX_MEMORY_REGIONS /\
   fst (find_free_page s) = 4095 /\
   fst (fst (allocate_memory s 7 PAGE_SIZE)) = 0 /\
   frame_used (page_bitmap s') 4095 = false /\
   next_free_page s' = 4096 /\
   fst (find_free_page s') = NO_PAGE).
Proof. split; vm_compute; repeat split; reflexivity. Qed.

(** C2, evaluated. [exhausted_hint_state] is reached from initialisation
    by 3840 requests of principal 7 (1023 granted, the others rolled back).
    There frame 1279 is clear and lies below the hint, which is 4096; the
    scan does not wrap around: it reports out of memory, and
    [allocate_memory] logs OUT_OF_MEMORY. *)
Theorem find_free_page_does_not_wrap :
  let s := exhausted_hint_state in
  next_free_page s = 4096 /\
  frame_used (page_bitmap s) 1279 = false /\
  fst (find_free_page s) = NO_PAGE /\
  allocate_memory s 7 PAGE_SIZE = (0, s, [("OUT_OF_MEMORY"%string, 0)]).
Proof. vm_compute. repeat split; reflexivity. Qed.

(** C9, counterexample. On the same bitmap and hint the two finders can
    disagree, namely when a frame below the hint is clear. In
    [two_refusals_state] (hint 1281, frame 1280 clear) the basic finder
    returns 1281 and the optimized one 1280, the lowest clear bit of the
    byte that holds the hint. In [exhausted_hint_state] (hint 4096) the
    basic finder reports out of memory and the optimized one wraps around
    and returns 1279. *)
Theorem finders_disagree :
  (let s := two_refusals_state in
   next_free_page s = 1281 /\
   frame_used (page_bitmap s) 1280 = false /\
   find_free_page s = (1281, set_hint s 1282) /\
   optimized_find_free_page s = (1280, set_hint s 1281) /\
   fst (optimized_find_free_page s) <> fst (find_free_page s) /\
   next_free_page (snd (optimized_find_free_page s))
   <> next_free_page (snd (find_free_page s))) /\
  (let s := exhausted_hint_state in
   next_free_page s = 4096 /\
   frame_used (page_bitmap s) 1279 = false /\
   find_free_page s = (NO_PAGE, s) /\
   optimized_find_free_page s = (1279, set_hint s 1280) /\
   fst (optimized_find_free_page s) <> fst (find_free_page s) /\
   next_free_page (snd (optimized_find_free_page s))
   <> next_free_page (snd (find_free_page s))).
Proof. split; vm_compute; repeat split; first [reflexivity | discriminate]. Qed.

End MemProofs.
(** * Properties of the scheduler *)

Module SchedProofs.
Import Sched.
Import MemProofs.

Ltac sconst := unfold SC_MAX_THREADS, SC_MAX_CPUS in *.
Ltac slia := sconst; lia.
Ltac mod64 := sconst; Z.to_euclidean_division_equations; lia.

(** ** The circular run queue *)

Lemma rq_len_range s : 0 <= rq_len s < SC_MAX_THREADS.
Proof. unfold rq_len. apply Z.mod_pos_bound. slia. Qed.

Lemma length_rq_list s : length (rq_list s) = Z.to_nat (rq_len s).
Proof. unfold rq_list. rewrite length_fmap, length_seqZ. reflexivity. Qed.

Lemma rq_list_nil s :
  sched_wf s -> (rq_list s = [] <-> sc_rq_head s = sc_rq_tail s).
Proof.
  intros Hwf. pose proof (wf_head _ Hwf). pose proof (wf_tail _ Hwf).
  pose proof (rq_len_range s) as Hr.
  split.
  - intros Hnil. apply (f_equal length) in Hnil.
    rewrite length_rq_list in Hnil. cbn in Hnil.
    assert (rq_len s = 0) as Hz by lia. unfold rq_len in *. mod64.
  - intros Heq. unfold rq_list, rq_len. rewrite Heq, Z.sub_diag. reflexivity.
Qed.

Lemma pop_rq_empty s :
  sched_wf s -> rq_list s = [] -> pop_rq s = (-1, s).
Proof.
  intros Hwf Hnil. apply (rq_list_nil s Hwf) in Hnil.
  unfold pop_rq. rewrite Hnil, Z.eqb_refl. reflexivity.
Qed.

Lemma pop_rq_cons s x l :
  sched_wf s -> rq_list s = x :: l ->
  pop_rq s = (x, popped s) /\ rq_list (popped s) = l /\ sched_wf (popped s).
Proof.
  intros Hwf Hl. pose proof (wf_head _ Hwf) as Hh. pose proof (wf_tail _ Hwf) as Ht.
  pose proof (rq_len_range s) as Hr.
  assert (0 < rq_len s) as Hpos.
  { apply (f_equal length) in Hl. rewrite length_rq_list in Hl. cbn in Hl. lia. }
  assert (sc_rq_head s <> sc_rq_tail s) as Hne.
  { intros Heq. apply (rq_list_nil s Hwf) in Heq. congruence. }
  unfold rq_list in Hl. rewrite seqZ_cons in Hl by lia. cbn [fmap list_fmap] in Hl.
  injection Hl as Hx Hrest.
  rewrite Z.add_0_r, Z.mod_small in Hx by slia.
  split; [|split].
  - unfold pop_rq. rewrite (proj2 (Z.eqb_neq _ _) Hne), Hx. reflexivity.
  - rewrite <- Hrest. unfold rq_list, rq_len, popped.
    cbn [sc_run_queue sc_rq_head sc_rq_tail].
    replace ((sc_rq_tail s - (sc_rq_head s + 1) mod SC_MAX_THREADS) mod SC_MAX_THREADS)
      with (Z.pred ((sc_rq_tail s - sc_rq_head s) mod SC_MAX_THREADS))
      by (unfold rq_len in *; mod64).
    change (Z.succ 0) with (1 + 0). rewrite <- fmap_add_seqZ, <- list_fmap_compose.
    apply list_fmap_ext. intros _ k _. cbn. f_equal. mod64.
  - destruct Hwf. split; cbn; try assumption.
    apply Z.mod_pos_bound. slia.
Qed.

Lemma push_rq_full s x :
  sched_wf s -> rq_len s = SC_MAX_THREADS - 1 -> push_rq s x = (-1, s).
Proof.
  intros Hwf Hlen. pose proof (wf_head _ Hwf) as Hh. pose proof (wf_tail _ Hwf) as Ht.
  unfold push_rq.
  replace ((sc_rq_tail s + 1) mod SC_MAX_THREADS) with (sc_rq_head s)
    by (unfold rq_len in *; mod64).
  rewrite Z.eqb_refl. reflexivity.
Qed.

Lemma push_rq_room s x :
  sched_wf s -> rq_len s < SC_MAX_THREADS - 1 ->
  push_rq s x = (0, pushed s x) /\ rq_list (pushed s x) = rq_list s ++ [x] /\
  sched_wf (pushed s x).
Proof.
  intros Hwf Hlen. pose proof (wf_head _ Hwf) as Hh. pose proof (wf_tail _ Hwf) as Ht.
  pose proof (rq_len_range s) as Hr. pose proof (wf_queue _ Hwf) as Hq.
  assert ((sc_rq_tail s + 1) mod SC_MAX_THREADS <> sc_rq_head s) as Hne
    by (unfold rq_len in *; mod64).
  split; [|split].
  - unfold push_rq. rewrite (proj2 (Z.eqb_neq _ _) Hne). reflexivity.
  - unfold rq_list, pushed. cbn [sc_run_queue sc_rq_head sc_rq_tail].
    replace (rq_len
               {| sc_threads := sc_threads s; sc_thread_count := sc_thread_count s;
                  sc_run_queue := aset (sc_run_queue s) (sc_rq_tail s) x;
                  sc_rq_head := sc_rq_head s;
                  sc_rq_tail := (sc_rq_tail s + 1) mod SC_MAX_THREADS;
                  sc_cpu_load := sc_cpu_load s; sc_cpu_count := sc_cpu_count s;
                  sc_current_thread := sc_current_thread s |})
      with (rq_len s + 1)
      by (unfold rq_len in *; cbn [sc_rq_head sc_rq_tail]; mod64).
    rewrite seqZ_app, fmap_app by lia. f_equal.
    + apply list_fmap_ext. intros n k Hk. cbn.
      apply lookup_seqZ in Hk as [-> Hn].
      apply aget_aset_ne; [lia | apply Z.mod_pos_bound; slia |].
      unfold rq_len in *. mod64.
    + rewrite seqZ_cons, seqZ_nil by lia. cbn. f_equal.
      replace ((sc_rq_head s + (0 + rq_len s)) mod SC_MAX_THREADS) with (sc_rq_tail s)
        by (unfold rq_len in *; mod64).
      apply aget_aset_eq. rewrite Hq. slia.
  - destruct Hwf. split; cbn; try assumption.
    + rewrite length_aset. assumption.
    + apply Z.mod_pos_bound. slia.
Qed.

(** ** Stale run-queue entries *)

Lemma state_eqb_eq a b : state_eqb a b = true <-> a = b.
Proof. destruct a, b; cbn; split; congruence. Qed.

Lemma state_eqb_neq a b : state_eqb a b = false <-> a <> b.
Proof. destruct a, b; cbn; split; congruence. Qed.

(** C5, as the code has it. When [schedule_process] pops the id [x] of a
    thread that is not [Ready], it pushes [x] back: the run queue is
    rotated, [x] going from the head to the tail. No body runs, and the
    thread table, the load counters, the current thread and the private
    memory of the bodies are unchanged. *)
Theorem stale_entry_is_requeued {E : Type} (code : Z -> Z -> E -> slice E)
    (s : sc_state) (e : E) (x : Z) (l : list Z) :
  sched_wf s -> rq_list s = x :: l -> 0 <= x ->
  state (thread_at s x) <> THREAD_READY ->
  let s' := fst (schedule_process code (s, e)) in
  schedule_process code (s, e) = (pushed (popped s) x, e) /\
  rq_list s' = l ++ [x] /\
  sc_threads s' = sc_threads s /\ sc_thread_count s' = sc_thread_count s /\
  sc_cpu_load s' = sc_cpu_load s /\ sc_current_thread s' = sc_current_thread s.
Proof.
  intros Hwf Hq Hx Hst. cbn zeta.
  destruct (pop_rq_cons s x l Hwf Hq) as (Hpop & Hl & Hwf1).
  assert (rq_len (popped s) < SC_MAX_THREADS - 1) as Hroom.
  { pose proof (rq_len_range s) as Hr.
    apply (f_equal length) in Hq, Hl. rewrite length_rq_list in Hq, Hl.
    cbn in Hq. lia. }
  destruct (push_rq_room (popped s) x Hwf1 Hroom) as (Hpush & Hl' & _).
  assert (schedule_process code (s, e) = (pushed (popped s) x, e)) as Hrun.
  { unfold schedule_process. rewrite Hpop.
    rewrite (proj2 (Z.ltb_ge x 0)) by lia.
    change (thread_at (popped s) x) with (thread_at s x).
    rewrite (proj2 (state_eqb_neq _ _) Hst). cbn [negb].
    rewrite Hpush. reflexivity. }
  rewrite Hrun. cbn [fst].
  split; [reflexivity|]. split; [rewrite Hl', Hl; reflexivity|].
  repeat split.
Qed.

Lemma stale_state_wf : sched_wf stale_state.
Proof. split; try reflexivity; cbn; slia. Qed.

Lemma stale_entry_is_requeued_witness :
  let s' := fst (schedule_process idle_code (stale_state, tt)) in
  schedule_process idle_code (stale_state, tt) = (pushed (popped stale_state) 0, tt) /\
  rq_list s' = [] ++ [0] /\
  sc_threads s' = sc_threads stale_state /\
  sc_thread_count s' = sc_thread_count stale_state /\
  sc_cpu_load s' = sc_cpu_load stale_state /\
  sc_current_thread s' = sc_current_thread stale_state.
Proof.
  apply (stale_entry_is_requeued idle_code stale_state tt 0 []);
    [exact stale_state_wf | reflexivity | lia | discriminate].
Defined.

(** C5 as worded fails: in [stale_state] the only queue entry is the id of
    a finished thread; after [schedule_process] the id is in the run queue
    again instead of having been discarded. *)
Lemma stale_entry_not_discarded :
  rq_list stale_state = [0] /\
  state (thread_at stale_state 0) = THREAD_DONE /\
  rq_list (fst (schedule_process idle_code (stale_state, tt))) = [0].
Proof. vm_compute. repeat split; reflexivity. Qed.

(** ** Load balancing *)

Lemma aget_aset {A} (d : A) (a : list A) (i j : Z) (x : A) :
  0 <= i < Z.of_nat (length a) -> 0 <= j ->
  aget d (aset a i x) j = if i =? j then x else aget d a j.
Proof.
  intros Hi Hj. destruct (Z.eqb_spec i j) as [<-|Hne].
  - apply aget_aset_eq. exact Hi.
  - apply aget_aset_ne; lia.
Qed.

Lemma minmax_loop_spec (load : list Z) (n : nat) : forall i mn mx,
  0 <= mn < i -> 0 <= mx < i ->
  (forall c, 0 <= c < i -> aget 0 load mn <= aget 0 load c <= aget 0 load mx) ->
  (forall c, 0 <= c < mn -> aget 0 load mn < aget 0 load c) ->
  (forall c, 0 <= c < mx -> aget 0 load c < aget 0 load mx) ->
  let r := minmax_loop load n i mn mx in
  0 <= fst r < i + Z.of_nat n /\ 0 <= snd r < i + Z.of_nat n /\
  (forall c, 0 <= c < i + Z.of_nat n ->
     aget 0 load (fst r) <= aget 0 load c <= aget 0 load (snd r)) /\
  (forall c, 0 <= c < fst r -> aget 0 load (fst r) < aget 0 load c) /\
  (forall c, 0 <= c < snd r -> aget 0 load c < aget 0 load (snd r)).
Proof.
  induction n as [|n IH]; intros i mn mx Hmn Hmx Hall Hfmin Hfmax; cbn zeta.
  - cbn [minmax_loop fst snd]. rewrite Z.add_0_r. repeat split; try lia; try apply Hall;
      try assumption; auto.
  - cbn [minmax_loop].
    set (mn' := if aget 0 load i <? aget 0 load mn then i else mn).
    set (mx' := if aget 0 load i >? aget 0 load mx then i else mx).
    assert (0 <= mn' < i + 1 /\ 0 <= mx' < i + 1 /\
            (forall c, 0 <= c < i + 1 ->
               aget 0 load mn' <= aget 0 load c <= aget 0 load mx') /\
            (forall c, 0 <= c < mn' -> aget 0 load mn' < aget 0 load c) /\
            (forall c, 0 <= c < mx' -> aget 0 load c < aget 0 load mx')) as Hstep.
    { subst mn' mx'. rewrite Z.gtb_ltb.
      destruct (Z.ltb_spec (aget 0 load i) (aget 0 load mn)) as [Hlt|Hge];
        destruct (Z.ltb_spec (aget 0 load mx) (aget 0 load i)) as [Hgt|Hle];
        (split; [lia|]); (split; [lia|]); (split; [|split]); intros c Hc;
        try (destruct (Z.eq_dec c i) as [->|Hci];
             [lia | pose proof (Hall c ltac:(lia)); lia]);
        try (pose proof (Hall c ltac:(lia)); lia);
        try (apply Hfmin; lia); try (apply Hfmax; lia). }
    destruct Hstep as (H1 & H2 & H3 & H4 & H5).
    specialize (IH (i + 1) mn' mx' H1 H2 H3 H4 H5). cbn zeta in IH.
    replace (i + Z.of_nat (S n)) with (i + 1 + Z.of_nat n) by lia. exact IH.
Qed.

(** [load_balance] picks a CPU of least load and a CPU of greatest load
    among the first [sc_cpu_count]; among equals, the lowest index. *)
Lemma min_max_cpu_spec s :
  1 <= sc_cpu_count s ->
  let mn := fst (min_max_cpu s) in
  let mx := snd (min_max_cpu s) in
  0 <= mn < sc_cpu_count s /\ 0 <= mx < sc_cpu_count s /\
  (forall c, 0 <= c < sc_cpu_count s -> load_at s mn <= load_at s c <= load_at s mx) /\
  (forall c, 0 <= c < mn -> load_at s mn < load_at s c) /\
  (forall c, 0 <= c < mx -> load_at s c < load_at s mx).
Proof.
  intros Hc. cbn zeta. unfold min_max_cpu, load_at.
  pose proof (minmax_loop_spec (sc_cpu_load s) (Z.to_nat (sc_cpu_count s - 1)) 1 0 0
                ltac:(lia) ltac:(lia)) as H.
  cbn zeta in H.
  replace (1 + Z.of_nat (Z.to_nat (sc_cpu_count s - 1))) with (sc_cpu_count s) in H by lia.
  apply H.
  - intros c Hc'. replace c with 0 by lia. lia.
  - intros c Hc'. lia.
  - intros c Hc'. lia.
Qed.

Lemma migrate_loop_none s mn mx (n : nat) : forall i,
  (forall k, i <= k < i + Z.of_nat n -> ready_on s mx k = false) ->
  migrate_loop s mn mx n i = s.
Proof.
  induction n as [|n IH]; intros i Hnone; [reflexivity|].
  cbn [migrate_loop].
  pose proof (Hnone i ltac:(lia)) as Hi. unfold ready_on in Hi. rewrite Hi.
  apply IH. intros k Hk. apply Hnone. lia.
Qed.

Lemma migrate_loop_first s mn mx (n : nat) k : forall i,
  i <= k < i + Z.of_nat n -> ready_on s mx k = true ->
  (forall j, i <= j < k -> ready_on s mx j = false) ->
  migrate_loop s mn mx n i = migrated s mn mx k.
Proof.
  induction n as [|n IH]; intros i Hk Hready Hbefore; [lia|].
  cbn [migrate_loop].
  destruct (Z.eq_dec i k) as [->|Hne].
  - unfold ready_on in Hready. rewrite Hready. reflexivity.
  - pose proof (Hbefore i ltac:(lia)) as Hi. unfold ready_on in Hi. rewrite Hi.
    apply IH; [lia | exact Hready |]. intros j Hj. apply Hbefore. lia.
Qed.

(** One call of [load_balance], by cases. *)
Lemma load_balance_cases s :
  let mn := fst (min_max_cpu s) in
  let mx := snd (min_max_cpu s) in
  (load_gap s <= 1 /\ load_balance s = s) \/
  (1 < load_gap s /\
   (forall k, 0 <= k < sc_thread_count s -> ready_on s mx k = false) /\
   load_balance s = s) \/
  (1 < load_gap s /\
   exists k, first_ready_on s mx k /\ load_balance s = migrated s mn mx k).
Proof.
  cbn zeta. unfold load_balance, load_gap.
  destruct (min_max_cpu s) as [mn mx]. cbn [fst snd].
  destruct (Z.leb_spec (load_at s mx - load_at s mn) 1) as [Hle|Hgt].
  - left. split; [exact Hle | reflexivity].
  - right.
    destruct (first_true_dec (ready_on s mx) (Z.to_nat (sc_thread_count s)) 0)
      as [Hnone|(k & Hk & Hready & Hbefore)].
    + left. split; [exact Hgt|]. split.
      * intros k Hk. apply Hnone. lia.
      * apply migrate_loop_none. exact Hnone.
    + right. split; [exact Hgt|]. exists k. split.
      * split; [lia|]. split; [exact Hready|]. intros j Hj. apply Hbefore. lia.
      * apply migrate_loop_first with (k := k); assumption.
Qed.

Lemma migrated_load s mn mx k c :
  sched_wf s -> 0 <= mn < SC_MAX_CPUS -> 0 <= mx < SC_MAX_CPUS -> mn <> mx ->
  0 <= c ->
  load_at (migrated s mn mx k) c =
    if c =? mn then load_at s mn + 1
    else if c =? mx then load_at s mx - 1 else load_at s c.
Proof.
  intros Hwf Hmn Hmx Hne Hc. pose proof (wf_load _ Hwf) as Hl.
  unfold migrated, load_at, with_load, with_threads.
  cbn [sc_cpu_load].
  rewrite !aget_aset by (rewrite ?length_aset, ?Hl; slia).
  rewrite (Z.eqb_sym mn c), (Z.eqb_sym mx c).
  rewrite (proj2 (Z.eqb_neq mx mn)) by lia.
  reflexivity.
Qed.

Lemma migrated_thread s mn mx k j :
  sched_wf s -> 0 <= k < SC_MAX_THREADS -> 0 <= j ->
  thread_at (migrated s mn mx k) j =
    if k =? j then set_cpu (thread_at s k) mn else thread_at s j.
Proof.
  intros Hwf Hk Hj. pose proof (wf_threads _ Hwf) as Hl.
  unfold migrated, thread_at, with_load, with_threads. cbn [sc_threads].
  apply aget_aset; [rewrite Hl; slia | exact Hj].
Qed.

Lemma migrated_wf s mn mx k : sched_wf s -> sched_wf (migrated s mn mx k).
Proof.
  intros Hwf. destruct Hwf. split; cbn; rewrite ?length_aset; assumption.
Qed.

(** A call of [load_balance] never widens the gap between the largest and
    the smallest load. *)
Lemma load_gap_monotone s :
  sched_wf s -> load_gap (load_balance s) <= load_gap s.
Proof.
  intros Hwf. pose proof (wf_cpus _ Hwf) as Hc.
  destruct (load_balance_cases s) as [[_ ->]|[(_ & _ & ->)|(Hgap & k & _ & ->)]];
    [lia | lia |].
  destruct (min_max_cpu_spec s ltac:(lia)) as (Hmn & Hmx & Hall & _ & _).
  unfold load_gap in *.
  set (mn := fst (min_max_cpu s)) in *. set (mx := snd (min_max_cpu s)) in *.
  set (s' := migrated s mn mx k).
  assert (mn <> mx) as Hne by (intros Heq; rewrite Heq in Hgap; lia).
  destruct (min_max_cpu_spec s' ltac:(cbn; lia)) as (Hmn' & Hmx' & _).
  change (sc_cpu_count s') with (sc_cpu_count s) in Hmn', Hmx'.
  assert (forall c, 0 <= c < sc_cpu_count s ->
            load_at s mn <= load_at s' c <= load_at s mx) as Hband.
  { intros c Hcr. subst s'. rewrite migrated_load by (try assumption; slia).
    pose proof (Hall c Hcr).
    destruct (c =? mn); [lia|]. destruct (c =? mx); lia. }
  pose proof (Hband _ Hmn'). pose proof (Hband _ Hmx'). lia.
Qed.

Lemma skewed_balance_inv s t c : skewed s t c -> balance_inv t 0 s.
Proof.
  intros Hsk. pose proof (skewed_wf _ _ _ Hsk) as Hwf.
  pose proof (wf_count _ Hwf) as Hcount. rewrite (skewed_count _ _ _ Hsk) in Hcount.
  pose proof (skewed_cpus _ _ _ Hsk) as Hc.
  assert (forall j, 0 <= j < c -> load_at s j = if j =? 0 then t else 0) as Hload.
  { intros j Hj. destruct (Z.eqb_spec j 0) as [->|Hne].
    - apply (skewed_load0 _ _ _ Hsk).
    - apply (skewed_loads _ _ _ Hsk). lia. }
  split; try assumption.
  - apply (skewed_count _ _ _ Hsk).
  - lia.
  - intros i Hi. apply (skewed_threads _ _ _ Hsk i Hi).
  - intros i Hi. lia.
  - intros i Hi. apply (skewed_threads _ _ _ Hsk i). lia.
  - rewrite (skewed_load0 _ _ _ Hsk). lia.
  - intros j Hj. rewrite Hc in Hj. rewrite (Hload j Hj), (skewed_load0 _ _ _ Hsk).
    destruct (j =? 0); lia.
  - intros j j' Hj Hj'. rewrite Hc in Hj, Hj'.
    rewrite (Hload j), (Hload j') by lia.
    rewrite (proj2 (Z.eqb_neq j 0)), (proj2 (Z.eqb_neq j' 0)) by lia. lia.
  - intros j Hj. rewrite Hc in Hj. rewrite (Hload j Hj). destruct (j =? 0); lia.
Qed.

(** One call from a state of the family: either the loads are already
    within one of each other and nothing changes, or thread [n] leaves
    CPU 0. *)
Lemma balance_inv_step t n s :
  balance_inv t n s ->
  (load_gap s <= 1 /\ load_balance s = s) \/
  (1 < load_gap s /\ n < t /\ balance_inv t (n + 1) (load_balance s)).
Proof.
  intros Hinv. pose proof (bal_wf _ _ _ Hinv) as Hwf.
  pose proof (wf_cpus _ Hwf) as Hc. pose proof (wf_count _ Hwf) as Hcount.
  pose proof (bal_count _ _ _ Hinv) as Ht. pose proof (bal_n _ _ _ Hinv) as Hn.
  destruct (Z.le_gt_cases (load_gap s) 1) as [Hle|Hgt].
  { left. split; [exact Hle|].
    destruct (load_balance_cases s) as [[_ H]|[(H & _)|(H & _)]]; [exact H | lia | lia]. }
  right. split; [exact Hgt|].
  destruct (min_max_cpu_spec s ltac:(lia)) as (Hmn & Hmx & Hall & _ & Hfmax).
  unfold load_gap in Hgt.
  set (mn := fst (min_max_cpu s)) in *. set (mx := snd (min_max_cpu s)) in *.
  assert (mx = 0) as Hmx0.
  { destruct (Z.eq_dec mx 0) as [|Hne]; [assumption|].
    pose proof (Hfmax 0 ltac:(lia)). pose proof (bal_max _ _ _ Hinv mx Hmx). lia. }
  rewrite Hmx0 in *.
  assert (mn <> 0) as Hmn0 by (intros Heq; rewrite Heq in Hgt; lia).
  pose proof (bal_nonneg _ _ _ Hinv mn Hmn) as Hnn.
  pose proof (bal_load0 _ _ _ Hinv) as Hl0.
  assert (n < t) as Hnt by lia.
  split; [exact Hnt|].
  assert (first_ready_on s 0 n) as Hfirst.
  { split; [lia|]. unfold ready_on. split.
    - rewrite (bal_ready _ _ _ Hinv n), (bal_left _ _ _ Hinv n) by lia. reflexivity.
    - intros j Hj. apply andb_false_iff. right. apply Z.eqb_neq.
      apply (bal_moved _ _ _ Hinv). lia. }
  assert (load_balance s = migrated s mn 0 n) as Hlb.
  { destruct (load_balance_cases s) as [[H _]|[(_ & Hnone & _)|(_ & k & Hk & Hres)]].
    - unfold load_gap in H. fold mn mx in H. rewrite Hmx0 in H. lia.
    - fold mx in Hnone. rewrite Hmx0 in Hnone.
      destruct Hfirst as (Hr & Hready & _). rewrite Hnone in Hready by lia. discriminate.
    - fold mx mn in Hk, Hres. rewrite Hmx0 in Hk, Hres.
      destruct Hk as (Hk & Hkr & Hkb). destruct Hfirst as (Hr & Hready & Hbefore).
      destruct (Z.lt_trichotomy k n) as [Hlt|[->|Hlt]]; [|exact Hres|].
      + rewrite Hbefore in Hkr by lia. discriminate.
      + rewrite Hkb in Hready by lia. discriminate. }
  rewrite Hlb.
  assert (forall j, 0 <= j < sc_cpu_count s ->
            load_at (migrated s mn 0 n) j =
            if j =? mn then load_at s mn + 1
            else if j =? 0 then load_at s 0 - 1 else load_at s j) as Hload.
  { intros j Hj. apply migrated_load; try assumption; slia. }
  assert (forall j, 0 <= j ->
            thread_at (migrated s mn 0 n) j =
            if n =? j then set_cpu (thread_at s n) mn else thread_at s j) as Hthread.
  { intros j Hj. apply migrated_thread; try assumption; slia. }
  split.
  - apply migrated_wf, Hwf.
  - exact Ht.
  - lia.
  - intros i Hi. rewrite Hthread by lia.
    destruct (n =? i); [|apply (bal_ready _ _ _ Hinv i Hi)].
    cbn. apply (bal_ready _ _ _ Hinv n). lia.
  - intros i Hi. rewrite Hthread by lia.
    destruct (Z.eqb_spec n i) as [<-|Hne]; [cbn; exact Hmn0|].
    apply (bal_moved _ _ _ Hinv). lia.
  - intros i Hi. rewrite Hthread by lia.
    rewrite (proj2 (Z.eqb_neq n i)) by lia. apply (bal_left _ _ _ Hinv). lia.
  - rewrite Hload by lia. rewrite (proj2 (Z.eqb_neq 0 mn)) by lia. cbn. lia.
  - change (sc_cpu_count (migrated s mn 0 n)) with (sc_cpu_count s).
    intros j Hj. rewrite (Hload j Hj), (Hload 0) by lia.
    rewrite (proj2 (Z.eqb_neq 0 mn)) by lia. cbn [Z.eqb].
    destruct (Z.eqb_spec j mn) as [->|Hjm]; [lia|].
    destruct (Z.eqb_spec j 0) as [->|Hj0]; [lia|].
    pose proof (bal_band _ _ _ Hinv j mn ltac:(lia) ltac:(lia)). lia.
  - change (sc_cpu_count (migrated s mn 0 n)) with (sc_cpu_count s).
    intros j j' Hj Hj'. rewrite (Hload j), (Hload j') by lia.
    rewrite (proj2 (Z.eqb_neq j 0)), (proj2 (Z.eqb_neq j' 0)) by lia.
    pose proof (Hall j ltac:(lia)). pose proof (Hall j' ltac:(lia)).
    pose proof (bal_band _ _ _ Hinv j j' Hj Hj').
    pose proof (bal_band _ _ _ Hinv j mn Hj ltac:(lia)).
    destruct (j =? mn), (j' =? mn); lia.
  - change (sc_cpu_count (migrated s mn 0 n)) with (sc_cpu_count s).
    intros j Hj. rewrite (Hload j Hj).
    pose proof (bal_nonneg _ _ _ Hinv j Hj). pose proof (bal_nonneg _ _ _ Hinv 0 ltac:(lia)).
    destruct (j =? mn); [lia|]. destruct (j =? 0); lia.
Qed.

Lemma iter_load_balance_fixed s (k : nat) :
  load_balance s = s -> Nat.iter k load_balance s = s.
Proof.
  intros H. induction k as [|k IH]; [reflexivity|].
  change (load_balance (Nat.iter k load_balance s) = s). rewrite IH. exact H.
Qed.

Lemma iter_succ_r {A} (f : A -> A) (k : nat) (x : A) :
  Nat.iter (S k) f x = Nat.iter k f (f x).
Proof.
  induction k as [|k IH]; [reflexivity|].
  change (f (Nat.iter (S k) f x) = f (Nat.iter k f (f x))). rewrite IH. reflexivity.
Qed.

(** After [k] calls either the loads are balanced, for good, or exactly
    [k] threads have left CPU 0. *)
Lemma balance_inv_iter t (k : nat) : forall n s,
  balance_inv t n s ->
  let s' := Nat.iter k load_balance s in
  (load_gap s' <= 1 /\ load_balance s' = s') \/
  balance_inv t (n + Z.of_nat k) s'.
Proof.
  induction k as [|k IH]; intros n s Hinv; cbn zeta.
  - right. cbn. rewrite Z.add_0_r. exact Hinv.
  - rewrite iter_succ_r.
    destruct (balance_inv_step t n s Hinv) as [[Hgap Hfix]|(_ & _ & Hinv')].
    + left. rewrite Hfix, iter_load_balance_fixed by exact Hfix. split; assumption.
    + specialize (IH (n + 1) _ Hinv'). cbn zeta in IH.
      replace (n + Z.of_nat (S k)) with (n + 1 + Z.of_nat k) by lia. exact IH.
Qed.

Lemma skewed_example_is_skewed : skewed skewed_example 16 4.
Proof.
  split; try reflexivity.
  - split; try reflexivity; cbn; slia.
  - intros i Hi.
    assert (forallb (fun i => state_eqb (state (thread_at skewed_example i)) THREAD_READY
                              && (cpu_id (thread_at skewed_example i) =? 0))
              (seqZ 0 16) = true) as H by (vm_compute; reflexivity).
    pose proof (forallb_seqZ _ _ _ H i ltac:(lia)) as Hi'.
    apply andb_true_iff in Hi' as [H1 H2].
    apply state_eqb_eq in H1. apply Z.eqb_eq in H2. split; assumption.
  - intros j Hj.
    assert (j = 1 \/ j = 2 \/ j = 3) as [->|[->| ->]] by lia; reflexivity.
Qed.

(** ** A thread that was never enqueued *)

Ltac wf_tac H :=
  destruct H; split; cbn; rewrite ?length_aset; try assumption; try slia.

Lemma best_cpu_loop_range (load : list Z) (n : nat) : forall i best,
  0 <= best < i -> 0 <= best_cpu_loop load n i best < i + Z.of_nat n.
Proof.
  induction n as [|n IH]; intros i best Hb; cbn [best_cpu_loop]; [lia|].
  replace (i + Z.of_nat (S n)) with (i + 1 + Z.of_nat n) by lia.
  apply IH. destruct (aget 0 load i <? aget 0 load best); lia.
Qed.

Lemma best_cpu_range s :
  1 <= sc_cpu_count s ->
  0 <= best_cpu_loop (sc_cpu_load s) (Z.to_nat (sc_cpu_count s - 1)) 1 0 < sc_cpu_count s.
Proof.
  intros Hc.
  pose proof (best_cpu_loop_range (sc_cpu_load s) (Z.to_nat (sc_cpu_count s - 1)) 1 0
                ltac:(lia)). lia.
Qed.

Lemma thread_at_update s i j t :
  sched_wf s -> 0 <= i < SC_MAX_THREADS -> 0 <= j ->
  aget zero_thread (aset (sc_threads s) i t) j = if i =? j then t else thread_at s j.
Proof.
  intros Hwf Hi Hj. pose proof (wf_threads _ Hwf) as Hl.
  apply aget_aset; [rewrite Hl; slia | exact Hj].
Qed.

(** Writing a slot other than [r]'s leaves the thread [r] alone. *)
Lemma thread_at_other s i r t :
  0 <= i -> 0 <= r -> i <> r ->
  aget zero_thread (aset (sc_threads s) i t) r = thread_at s r.
Proof. intros Hi Hr Hne. apply aget_aset_ne; assumption. Qed.

Lemma push_rq_cases s x :
  sched_wf s ->
  (push_rq s x = (-1, s) /\ rq_len s = SC_MAX_THREADS - 1) \/
  (push_rq s x = (0, pushed s x) /\ rq_list (pushed s x) = rq_list s ++ [x] /\
   sched_wf (pushed s x)).
Proof.
  intros Hwf. pose proof (rq_len_range s) as Hr.
  destruct (Z.eq_dec (rq_len s) (SC_MAX_THREADS - 1)) as [Hfull|Hroom].
  - left. split; [apply push_rq_full; assumption | exact Hfull].
  - right. apply push_rq_room; [exact Hwf | lia].
Qed.

Lemma never_run_push r s x :
  never_run r s -> x <> r -> never_run r (snd (push_rq s x)).
Proof.
  intros Hnr Hx. destruct (push_rq_cases s x (nr_wf _ _ Hnr)) as [[-> _]|(-> & Hl & Hwf)];
    cbn [snd]; [exact Hnr|].
  destruct Hnr. split; try assumption.
  rewrite Hl, elem_of_app, list_elem_of_singleton. intros [H|H]; [contradiction | congruence].
Qed.

(** Rewriting the slot of another thread, or the load counters, or the
    current thread to something other than [r], keeps [never_run]. *)
Lemma never_run_frame r s threads' loads' current' :
  never_run r s ->
  length threads' = length (sc_threads s) ->
  length loads' = length (sc_cpu_load s) ->
  state (aget zero_thread threads' r) = THREAD_READY ->
  ticks (aget zero_thread threads' r) = 0 ->
  current' <> r ->
  never_run r (mkSched threads' (sc_thread_count s) (sc_run_queue s)
                       (sc_rq_head s) (sc_rq_tail s) loads' (sc_cpu_count s) current').
Proof.
  intros Hnr Hlt Hll Hst Htk Hcur. destruct Hnr as [Hwf Hr Hq Hc Hs Ht].
  split; try assumption.
  destruct Hwf. split; cbn; try assumption; congruence.
Qed.

Lemma never_run_write r s i t cur :
  never_run r s -> 0 <= i -> i <> r -> cur <> r ->
  never_run r (with_current (with_threads s (aset (sc_threads s) i t)) cur).
Proof.
  intros Hnr Hi Hne Hcur. pose proof (nr_range _ _ Hnr) as Hr.
  apply (never_run_frame r s (aset (sc_threads s) i t) (sc_cpu_load s) cur Hnr);
    rewrite ?length_aset; try reflexivity; try assumption;
    rewrite thread_at_other by lia.
  - apply (nr_state _ _ Hnr).
  - apply (nr_ticks _ _ Hnr).
Qed.

Lemma with_current_same s : with_current s (sc_current_thread s) = s.
Proof. destruct s. reflexivity. Qed.

Lemma never_run_yield r s : never_run r s -> never_run r (yield s).
Proof.
  intros Hnr. unfold yield.
  destruct (Z.ltb_spec (sc_current_thread s) 0) as [|Hcur]; [exact Hnr|].
  pose proof (nr_current _ _ Hnr) as Hne. pose proof (nr_range _ _ Hnr) as Hr.
  set (s1 := with_threads s _).
  assert (never_run r s1) as Hnr1.
  { subst s1. rewrite <- with_current_same.
    apply never_run_write; try assumption. }
  pose proof (never_run_push r s1 (sc_current_thread s) Hnr1 Hne) as Hnr2.
  destruct Hnr2 as [Hwf2 Hr2 Hq2 Hc2 Hs2 Ht2].
  split; try assumption.
  - wf_tac Hwf2.
  - cbn. lia.
Qed.

Lemma never_run_complete r s : never_run r s -> never_run r (complete_current_thread s).
Proof.
  intros Hnr. unfold complete_current_thread.
  destruct (Z.ltb_spec (sc_current_thread s) 0) as [|Hcur]; [exact Hnr|].
  pose proof (nr_current _ _ Hnr) as Hne. pose proof (nr_range _ _ Hnr) as Hr.
  set (i := sc_current_thread s) in *.
  set (threads' := aset (sc_threads s) i (set_state (thread_at s i) THREAD_DONE)).
  set (s1 := with_threads s threads').
  apply (never_run_frame r s threads'
           (aset (sc_cpu_load s1) (cpu_id (thread_at s1 i))
                 (load_at s1 (cpu_id (thread_at s1 i)) - 1)) (-1) Hnr);
    subst threads'; rewrite ?length_aset; try reflexivity; try lia;
    rewrite thread_at_other by lia.
  - apply (nr_state _ _ Hnr).
  - apply (nr_ticks _ _ Hnr).
Qed.

Lemma never_run_load_balance r s : never_run r s -> never_run r (load_balance s).
Proof.
  intros Hnr. pose proof (nr_wf _ _ Hnr) as Hwf. pose proof (nr_range _ _ Hnr) as Hr.
  pose proof (wf_count _ Hwf) as Hcount.
  destruct (load_balance_cases s) as [[_ ->]|[(_ & _ & ->)|(_ & k & (Hk & _ & _) & ->)]];
    try exact Hnr.
  set (s' := migrated s (fst (min_max_cpu s)) (snd (min_max_cpu s)) k).
  assert (thread_at s' r = if k =? r then set_cpu (thread_at s k) (fst (min_max_cpu s))
                           else thread_at s r) as Hth
    by (apply migrated_thread; try assumption; slia).
  apply (never_run_frame r s (sc_threads s') (sc_cpu_load s') (sc_current_thread s) Hnr).
  - cbn. rewrite length_aset. reflexivity.
  - cbn. rewrite !length_aset. reflexivity.
  - fold (thread_at s' r). rewrite Hth.
    destruct (Z.eqb_spec k r) as [->|]; cbn; apply (nr_state _ _ Hnr).
  - fold (thread_at s' r). rewrite Hth.
    destruct (Z.eqb_spec k r) as [->|]; cbn; apply (nr_ticks _ _ Hnr).
  - apply (nr_current _ _ Hnr).
Qed.

Lemma never_run_create r s fn a prio :
  never_run r s -> never_run r (snd (create_thread s fn a prio)).
Proof.
  intros Hnr. pose proof (nr_wf _ _ Hnr) as Hwf. pose proof (nr_range _ _ Hnr) as Hr.
  unfold create_thread.
  destruct (fn =? 0); [exact Hnr|].
  rewrite Z.geb_leb.
  destruct (Z.leb_spec SC_MAX_THREADS (sc_thread_count s)) as [|Hroom]; [exact Hnr|].
  cbn [snd]. apply never_run_push; [|lia].
  destruct Hnr as [_ _ Hq Hc Hs Ht].
  split; cbn [sc_thread_count sc_current_thread sc_threads]; try assumption.
  - wf_tac Hwf.
  - lia.
  - unfold thread_at. cbn [sc_threads]. rewrite thread_at_other by lia. exact Hs.
  - unfold thread_at. cbn [sc_threads]. rewrite thread_at_other by lia. exact Ht.
Qed.

Lemma never_run_call r s c : never_run r s -> never_run r (snd (do_call c s)).
Proof.
  intros Hnr. destruct c; cbn [do_call snd]; try exact Hnr.
  - apply never_run_create, Hnr.
  - apply never_run_yield, Hnr.
  - apply never_run_complete, Hnr.
  - apply never_run_load_balance, Hnr.
Qed.

Lemma never_run_slice {E} r (p : slice E) : forall s,
  never_run r s -> never_run r (fst (run_slice p s)).
Proof.
  induction p as [e|c k IH]; intros s Hnr; cbn [run_slice]; [exact Hnr|].
  pose proof (never_run_call r s c Hnr) as Hnr'.
  destruct (do_call c s) as [v s']. apply IH. exact Hnr'.
Qed.

Lemma never_run_pop r s :
  never_run r s ->
  never_run r (snd (pop_rq s)) /\ fst (pop_rq s) <> r.
Proof.
  intros Hnr. pose proof (nr_wf _ _ Hnr) as Hwf. pose proof (nr_range _ _ Hnr) as Hr.
  destruct (rq_list s) as [|x l] eqn:Hq.
  - rewrite (pop_rq_empty s Hwf Hq). cbn. split; [exact Hnr | lia].
  - destruct (pop_rq_cons s x l Hwf Hq) as (-> & Hl & Hwf').
    pose proof (nr_queue _ _ Hnr) as Hnotin. rewrite Hq in Hnotin.
    cbn [fst snd]. split.
    + destruct Hnr. split; try assumption. rewrite Hl.
      intros Hin. apply Hnotin. apply elem_of_cons. right. exact Hin.
    + intros ->. apply Hnotin. apply elem_of_cons. left. reflexivity.
Qed.

Lemma never_run_schedule {E} (code : Z -> Z -> E -> slice E) r w :
  never_run r (fst w) -> never_run r (fst (schedule_process code w)).
Proof.
  destruct w as [s e]. cbn [fst]. intros Hnr.
  destruct (never_run_pop r s Hnr) as [Hnr1 Hx].
  unfold schedule_process. destruct (pop_rq s) as [x s1]. cbn [fst snd] in *.
  destruct (Z.ltb_spec x 0) as [|Hx0]; [exact Hnr1|].
  destruct (state_eqb (state (thread_at s1 x)) THREAD_READY); cbn [negb].
  2:{ apply never_run_push; assumption. }
  pose proof (nr_range _ _ Hnr1) as Hr.
  set (s3 := with_current _ x).
  assert (never_run r s3) as Hnr3
    by (subst s3; apply never_run_write; assumption).
  pose proof (never_run_slice r (code (entry (thread_at s3 x)) (arg (thread_at s3 x)) e)
                s3 Hnr3) as Hnr4.
  destruct (run_slice _ s3) as [s4 e']. cbn [fst] in *.
  destruct (sc_current_thread s4 =? x); [|exact Hnr4].
  cbn [fst].
  set (s5 := with_threads s4 _).
  set (s6 := with_threads s5 _).
  assert (never_run r s5) as Hnr5.
  { subst s5. rewrite <- with_current_same.
    apply never_run_write; try assumption. apply (nr_current _ _ Hnr4). }
  assert (never_run r s6) as Hnr6.
  { subst s6. rewrite <- with_current_same.
    apply never_run_write; try assumption. apply (nr_current _ _ Hnr5). }
  pose proof (never_run_push r s6 x Hnr6 Hx) as Hnr7.
  destruct Hnr7 as [Hwf7 Hr7 Hq7 Hc7 Hs7 Ht7].
  split; try assumption.
  - wf_tac Hwf7.
  - cbn. lia.
Qed.

Lemma never_run_drive {E} (code : Z -> Z -> E -> slice E) r (ops : list driver_op) :
  forall w, never_run r (fst w) -> never_run r (fst (drive code w ops)).
Proof.
  induction ops as [|o ops IH]; intros w Hnr; [exact Hnr|].
  cbn [drive fold_left]. apply IH.
  destruct o as [|c]; cbn [drive_step fst].
  - apply never_run_schedule, Hnr.
  - apply never_run_call, Hnr.
Qed.

Lemma never_run_not_dispatched r s : never_run r s -> dispatched s <> Some r.
Proof.
  intros Hnr. destruct (never_run_pop r s Hnr) as [_ Hx].
  unfold dispatched. destruct (pop_rq s) as [x s1]. cbn [fst] in Hx.
  destruct (x <? 0); [discriminate|].
  destruct (state_eqb _ _); [|discriminate]. congruence.
Qed.

(** C10. When the thread table has room but the run queue already holds
    its [SC_MAX_THREADS - 1] entries, [create_thread] still returns the
    next thread id, fills the slot ([Ready], no ticks), and increments the
    load counter of the chosen CPU; the push onto the run queue fails and
    the failure is dropped, so the queue is unchanged. From then on,
    whatever the driver and the thread bodies call, the thread stays
    [Ready] with no ticks, its id is never in the run queue and
    [schedule_process] never dispatches it. *)
Theorem create_thread_full_queue_never_runs (s : sc_state) (fn a prio : Z) :
  sched_wf s -> fn <> 0 ->
  sc_thread_count s < SC_MAX_THREADS ->
  rq_len s = SC_MAX_THREADS - 1 ->
  sc_thread_count s ∉ rq_list s ->
  sc_current_thread s <> sc_thread_count s ->
  let r := fst (create_thread s fn a prio) in
  let s' := snd (create_thread s fn a prio) in
  let best := best_cpu_loop (sc_cpu_load s) (Z.to_nat (sc_cpu_count s - 1)) 1 0 in
  r = sc_thread_count s /\
  sc_thread_count s' = sc_thread_count s + 1 /\
  thread_at s' r = mkThread r best prio 1 fn a THREAD_READY 0 /\
  load_at s' best = load_at s best + 1 /\
  (forall c, 0 <= c -> c <> best -> load_at s' c = load_at s c) /\
  push_rq s' r = (-1, s') /\
  rq_list s' = rq_list s /\
  forall (E : Type) (code : Z -> Z -> E -> slice E) (e : E) (ops : list driver_op),
    let s'' := fst (drive code (s', e) ops) in
    dispatched s'' <> Some r /\
    state (thread_at s'' r) = THREAD_READY /\
    ticks (thread_at s'' r) = 0 /\
    r ∉ rq_list s''.
Proof.
  intros Hwf Hfn Hroom Hfull Hnotin Hcur. cbn zeta.
  pose proof (wf_count _ Hwf) as Hcount. pose proof (wf_cpus _ Hwf) as Hcpus.
  pose proof (best_cpu_range s ltac:(lia)) as Hbest.
  set (best := best_cpu_loop (sc_cpu_load s) (Z.to_nat (sc_cpu_count s - 1)) 1 0) in *.
  set (r := sc_thread_count s) in *.
  set (s1 := mkSched (aset (sc_threads s) r (mkThread r best prio 1 fn a THREAD_READY 0))
                     (r + 1) (sc_run_queue s) (sc_rq_head s) (sc_rq_tail s)
                     (aset (sc_cpu_load s) best (aget 0 (sc_cpu_load s) best + 1))
                     (sc_cpu_count s) (sc_current_thread s)).
  assert (sched_wf s1) as Hwf1 by (subst s1 r; wf_tac Hwf).
  assert (push_rq s1 r = (-1, s1)) as Hpush by (apply push_rq_full; assumption).
  assert (create_thread s fn a prio = (r, s1)) as Hcreate.
  { unfold create_thread. rewrite (proj2 (Z.eqb_neq _ _) Hfn).
    rewrite Z.geb_leb, (proj2 (Z.leb_gt _ _)) by exact Hroom.
    fold r best s1. rewrite Hpush. reflexivity. }
  rewrite Hcreate. cbn [fst snd].
  assert (thread_at s1 r = mkThread r best prio 1 fn a THREAD_READY 0) as Hthread.
  { unfold thread_at. cbn [s1 sc_threads]. apply aget_aset_eq.
    rewrite (wf_threads _ Hwf). slia. }
  split; [reflexivity|]. split; [reflexivity|]. split; [exact Hthread|].
  split; [|split; [|split; [exact Hpush|split; [reflexivity|]]]].
  - unfold load_at. cbn [s1 sc_cpu_load]. apply aget_aset_eq.
    rewrite (wf_load _ Hwf). slia.
  - intros c Hc Hne. unfold load_at. cbn [s1 sc_cpu_load].
    apply aget_aset_ne; lia.
  - intros E code e ops.
    assert (never_run r s1) as Hnr.
    { split; try assumption.
      - cbn. lia.
      - rewrite Hthread. reflexivity.
      - rewrite Hthread. reflexivity. }
    pose proof (never_run_drive code r ops (s1, e) Hnr) as Hnr'.
    split; [apply never_run_not_dispatched, Hnr'|].
    split; [apply (nr_state _ _ Hnr')|].
    split; [apply (nr_ticks _ _ Hnr') | apply (nr_queue _ _ Hnr')].
Qed.

Lemma full_queue_state_wf : sched_wf full_queue_state.
Proof.
  split; vm_compute; try reflexivity; (split; [discriminate | try reflexivity; discriminate]).
Qed.

Lemma create_thread_full_queue_never_runs_witness :
  let r := fst (create_thread full_queue_state 1 0 1) in
  let s' := snd (create_thread full_queue_state 1 0 1) in
  let best := best_cpu_loop (sc_cpu_load full_queue_state)
                (Z.to_nat (sc_cpu_count full_queue_state - 1)) 1 0 in
  r = sc_thread_count full_queue_state /\
  sc_thread_count s' = sc_thread_count full_queue_state + 1 /\
  thread_at s' r = mkThread r best 1 1 1 0 THREAD_READY 0 /\
  load_at s' best = load_at full_queue_state best + 1 /\
  (forall c, 0 <= c -> c <> best -> load_at s' c = load_at full_queue_state c) /\
  push_rq s' r = (-1, s') /\
  rq_list s' = rq_list full_queue_state /\
  forall (E : Type) (code : Z -> Z -> E -> slice E) (e : E) (ops : list driver_op),
    let s'' := fst (drive code (s', e) ops) in
    dispatched s'' <> Some r /\
    state (thread_at s'' r) = THREAD_READY /\
    ticks (thread_at s'' r) = 0 /\
    r ∉ rq_list s''.
Proof.
  apply (create_thread_full_queue_never_runs full_queue_state 1 0 1).
  - exact full_queue_state_wf.
  - lia.
  - vm_compute. reflexivity.
  - vm_compute. reflexivity.
  - intros Hin. apply list_elem_of_In in Hin. vm_compute in Hin.
    repeat (destruct Hin as [Hin|Hin]; [discriminate|]). exact Hin.
  - vm_compute. discriminate.
Defined.

(** ** Fairness of the dispatch *)

Lemma create_thread_room s fn a prio :
  sched_wf s -> fn <> 0 -> sc_thread_count s < SC_MAX_THREADS ->
  rq_len s < SC_MAX_THREADS - 1 ->
  let r := sc_thread_count s in
  let s' := snd (create_thread s fn a prio) in
  fst (create_thread s fn a prio) = r /\
  sched_wf s' /\ sc_thread_count s' = r + 1 /\
  sc_current_thread s' = sc_current_thread s /\
  rq_list s' = rq_list s ++ [r] /\
  (exists best, thread_at s' r = mkThread r best prio 1 fn a THREAD_READY 0) /\
  forall i, 0 <= i -> i <> r -> thread_at s' i = thread_at s i.
Proof.
  intros Hwf Hfn Hroom Hq. cbn zeta.
  pose proof (wf_count _ Hwf) as Hcount.
  set (best := best_cpu_loop (sc_cpu_load s) (Z.to_nat (sc_cpu_count s - 1)) 1 0).
  set (r := sc_thread_count s) in *.
  set (s1 := mkSched (aset (sc_threads s) r (mkThread r best prio 1 fn a THREAD_READY 0))
                     (r + 1) (sc_run_queue s) (sc_rq_head s) (sc_rq_tail s)
                     (aset (sc_cpu_load s) best (aget 0 (sc_cpu_load s) best + 1))
                     (sc_cpu_count s) (sc_current_thread s)).
  assert (sched_wf s1) as Hwf1 by (subst s1 r; wf_tac Hwf).
  destruct (push_rq_room s1 r Hwf1 Hq) as (Hpush & Hl & Hwf2).
  assert (create_thread s fn a prio = (r, pushed s1 r)) as Hcreate.
  { unfold create_thread. rewrite (proj2 (Z.eqb_neq _ _) Hfn).
    rewrite Z.geb_leb, (proj2 (Z.leb_gt _ _)) by exact Hroom.
    fold r best s1. rewrite Hpush. reflexivity. }
  rewrite Hcreate. cbn [fst snd].
  split; [reflexivity|]. split; [exact Hwf2|]. split; [reflexivity|].
  split; [reflexivity|]. split; [exact Hl|]. split.
  - exists best. unfold thread_at. cbn [pushed s1 sc_threads].
    apply aget_aset_eq. rewrite (wf_threads _ Hwf). slia.
  - intros i Hi Hne. unfold thread_at. cbn [pushed s1 sc_threads].
    apply aget_aset_ne; lia.
Qed.

Lemma init_scheduler_wf cpus : sched_wf (init_scheduler boot_state cpus).
Proof.
  unfold init_scheduler. split; cbn; try reflexivity; try slia.
  destruct (cpus <? 1) eqn:H1.
  - cbn. slia.
  - apply Z.ltb_ge in H1. rewrite Z.gtb_ltb.
    destruct (Z.ltb_spec SC_MAX_CPUS cpus); slia.
Qed.

(** After [n] creations on a fresh scheduler the run queue holds the ids
    [0 .. n-1] in order and every thread is [Ready] with no ticks. *)
Lemma spawn_spec cpus fn (n : nat) :
  fn <> 0 -> (n <= 63)%nat ->
  let s := spawn (init_scheduler boot_state cpus) fn n in
  sched_wf s /\ sc_thread_count s = Z.of_nat n /\ sc_current_thread s = -1 /\
  rq_list s = seqZ 0 (Z.of_nat n) /\
  forall i, 0 <= i < Z.of_nat n ->
    entry (thread_at s i) = fn /\ ticks (thread_at s i) = 0 /\
    state (thread_at s i) = THREAD_READY.
Proof.
  intros Hfn. induction n as [|n IH]; intros Hn; cbn zeta.
  - cbn [spawn]. split; [apply init_scheduler_wf|].
    repeat split; try reflexivity; lia.
  - cbn [spawn]. destruct (IH ltac:(lia)) as (Hwf & Hcount & Hcur & Hq & Hth).
    set (s := spawn (init_scheduler boot_state cpus) fn n) in *.
    assert (rq_len s = Z.of_nat n) as Hlen.
    { pose proof (rq_len_range s). apply (f_equal length) in Hq.
      rewrite length_rq_list, length_seqZ in Hq. lia. }
    destruct (create_thread_room s fn 0 1 Hwf Hfn ltac:(slia) ltac:(slia))
      as (_ & Hwf' & Hcount' & Hcur' & Hq' & (best & Hnew) & Hold).
    split; [exact Hwf'|]. split; [lia|]. split; [congruence|]. split.
    + rewrite Hq', Hq, Hcount. rewrite Nat2Z.inj_succ, <- Z.add_1_r.
      rewrite seqZ_app by lia. rewrite (seqZ_cons _ 1) by lia. reflexivity.
    + intros i Hi. destruct (Z.eq_dec i (sc_thread_count s)) as [->|Hne].
      * rewrite Hnew. repeat split.
      * rewrite Hold by lia. apply Hth. lia.
Qed.

Lemma count_loop_lower s (n : nat) : forall i acc, acc <= count_loop s n i acc.
Proof.
  induction n as [|n IH]; intros i acc; cbn [count_loop]; [lia|].
  etransitivity; [|apply IH]. destruct (state_eqb _ _); lia.
Qed.

Lemma count_loop_done s (n : nat) : forall i acc,
  (forall j, i <= j < i + Z.of_nat n -> state (thread_at s j) = THREAD_DONE) ->
  count_loop s n i acc = acc.
Proof.
  induction n as [|n IH]; intros i acc Hdone; cbn [count_loop]; [reflexivity|].
  rewrite (Hdone i) by lia. cbn. apply IH. intros j Hj. apply Hdone. lia.
Qed.

Lemma count_loop_live s (n : nat) j : forall i acc,
  i <= j < i + Z.of_nat n -> state (thread_at s j) <> THREAD_DONE ->
  acc < count_loop s n i acc.
Proof.
  induction n as [|n IH]; intros i acc Hj Hlive; cbn [count_loop]; [lia|].
  destruct (Z.eq_dec i j) as [->|Hne].
  - rewrite (proj2 (state_eqb_neq _ _) Hlive).
    pose proof (count_loop_lower s n (j + 1) (acc + 1)). lia.
  - pose proof (IH (i + 1) (if state_eqb (state (thread_at s i)) THREAD_DONE
                            then acc else acc + 1) ltac:(lia) Hlive).
    destruct (state_eqb _ _); lia.
Qed.

End SchedProofs.

Module FairProofs.
Import Sched.
Import MemProofs.
Import SchedProofs.

Lemma ticks_no_wrap (k : Z) :
  0 <= k < 2147483647 -> (k + 1) mod 18446744073709551616 = k + 1.
Proof. intros H. apply Z.mod_small. lia. Qed.

Lemma wf_with_threads s l :
  sched_wf s -> length l = length (sc_threads s) -> sched_wf (with_threads s l).
Proof. intros Hwf Hl. destruct Hwf. split; cbn; try assumption. congruence. Qed.

Lemma wf_with_current s c : sched_wf s -> sched_wf (with_current s c).
Proof. intros Hwf. destruct Hwf. split; cbn; assumption. Qed.

Lemma wf_with_load s l :
  sched_wf s -> length l = length (sc_cpu_load s) -> sched_wf (with_load s l).
Proof. intros Hwf Hl. destruct Hwf. split; cbn; try assumption. congruence. Qed.

Ltac wf_step :=
  repeat first
    [ assumption
    | apply wf_with_current
    | apply wf_with_threads; [|apply length_aset]
    | apply wf_with_load; [|apply length_aset] ].

(** One call of [schedule_process] in a fair run: thread [j] gets its
    slice. *)
Lemma fair_step t m k j w :
  1 <= t <= 63 -> 1 <= m <= 2147483647 -> 0 <= k <= m - 1 -> 0 <= j < t ->
  fair_inv t m k j w ->
  fair_inv t m k (j + 1) (schedule_process worker_code w).
Proof.
  intros Ht Hm Hk Hj Hinv. destruct w as [s e].
  destruct Hinv as [Hwf Hcount Hcur Hsteps Hq Hbody Hserved Hwait]; cbn [fst snd] in *.
  destruct (Hwait j ltac:(lia)) as (Hsj & Htj & Hstj).
  destruct (Hbody j ltac:(lia)) as (Hej & Htgt).
  set (rest := if k <? m - 1 then seqZ (j + 1) (t - (j + 1)) ++ seqZ 0 j
               else seqZ (j + 1) (t - (j + 1))).
  assert (rq_list s = j :: rest) as Hqc.
  { rewrite Hq. subst rest. rewrite (seqZ_cons j) by lia.
    replace (Z.succ j) with (j + 1) by lia.
    replace (Z.pred (t - j)) with (t - (j + 1)) by lia.
    destruct (k <? m - 1); reflexivity. }
  destruct (pop_rq_cons s j rest Hwf Hqc) as (Hpop & Hrest & Hwf1).
  assert (length rest <= Z.to_nat (t - 1))%nat as Hlrest.
  { subst rest. destruct (k <? m - 1); rewrite ?length_app, !length_seqZ; lia. }
  unfold schedule_process. rewrite Hpop.
  rewrite (proj2 (Z.ltb_ge j 0)) by lia.
  change (thread_at (popped s) j) with (thread_at s j).
  rewrite Hstj. cbn [state_eqb negb].
  set (running := set_state (thread_at s j) THREAD_RUNNING).
  set (s3 := with_current (with_threads (popped s) (aset (sc_threads (popped s)) j running)) j).
  assert (sched_wf s3) as Hwf3 by (subst s3; wf_step).
  assert (forall i, 0 <= i -> thread_at s3 i = if j =? i then running else thread_at s i)
    as Hth3.
  { intros i Hi. unfold thread_at. cbn [s3 with_current with_threads sc_threads popped].
    apply thread_at_update; [exact Hwf | slia | exact Hi]. }
  rewrite (Hth3 j) by lia. rewrite Z.eqb_refl.
  cbn [running entry arg set_state]. rewrite Hej.
  change (worker_code QUIET_WORKER (arg (thread_at s j)) e) with (quiet_worker e).
  unfold quiet_worker. cbn [run_slice do_call]. unfold current_thread_id.
  change (sc_current_thread s3) with j.
  set (e' := count_step e j).
  assert (forall i, 0 <= i ->
            aget 0 (steps e') i = if j =? i then k + 1 else aget 0 (steps e) i) as Hst'.
  { intros i Hi. cbn [e' count_step steps]. rewrite aget_aset by (rewrite ?Hsteps; slia).
    rewrite Hsj. reflexivity. }
  assert (length (steps e') = Z.to_nat SC_MAX_THREADS) as Hsteps'
    by (cbn [e' count_step steps]; rewrite length_aset; exact Hsteps).
  rewrite (Hst' j) by lia. rewrite Z.eqb_refl.
  change (targets e') with (targets e). rewrite Htgt.
  rewrite Z.geb_leb.
  destruct (Z.ltb_spec k (m - 1)) as [Hround|Hlast].
  - (* an ordinary slice: implicit yield *)
    rewrite (proj2 (Z.leb_gt m (k + 1))) by lia.
    cbn [run_slice]. change (sc_current_thread s3) with j. rewrite Z.eqb_refl.
    set (s5 := with_threads s3 (aset (sc_threads s3) j (inc_ticks (thread_at s3 j)))).
    assert (sched_wf s5) as Hwf5 by (subst s5; wf_step).
    assert (forall i, 0 <= i ->
              thread_at s5 i = if j =? i then inc_ticks running else thread_at s i) as Hth5.
    { intros i Hi. unfold thread_at at 1. cbn [s5 with_threads sc_threads].
      rewrite thread_at_update by (try assumption; slia).
      rewrite !Hth3 by lia. rewrite Z.eqb_refl. destruct (j =? i); reflexivity. }
    set (s6 := with_threads s5 (aset (sc_threads s5) j (set_state (thread_at s5 j) THREAD_READY))).
    assert (sched_wf s6) as Hwf6 by (subst s6; wf_step).
    assert (forall i, 0 <= i ->
              thread_at s6 i = if j =? i then set_state (inc_ticks running) THREAD_READY
                               else thread_at s i) as Hth6.
    { intros i Hi. unfold thread_at at 1. cbn [s6 with_threads sc_threads].
      rewrite thread_at_update by (try assumption; slia).
      rewrite !Hth5 by lia. rewrite Z.eqb_refl. destruct (j =? i); reflexivity. }
    assert (rq_list s6 = rest) as Hq6 by exact Hrest.
    assert (rq_len s6 < SC_MAX_THREADS - 1) as Hroom.
    { pose proof (rq_len_range s6). apply (f_equal length) in Hq6.
      rewrite length_rq_list in Hq6. slia. }
    destruct (push_rq_room s6 j Hwf6 Hroom) as (Hpush & Hq7 & Hwf7).
    rewrite Hpush. cbn [snd].
    split; cbn [fst snd].
    + wf_step.
    + exact Hcount.
    + reflexivity.
    + exact Hsteps'.
    + change (rq_list (with_current (pushed s6 j) (-1))) with (rq_list (pushed s6 j)).
      rewrite Hq7, Hq6. subst rest.
      rewrite (proj2 (Z.ltb_lt k (m - 1)) Hround).
      rewrite <- app_assoc. f_equal.
      rewrite (seqZ_app 0 j 1) by lia. rewrite (seqZ_cons _ 1) by lia. reflexivity.
    + intros i Hi.
      change (thread_at (with_current (pushed s6 j) (-1)) i) with (thread_at s6 i).
      rewrite Hth6 by lia.
      destruct (Z.eqb_spec j i) as [<-|Hne]; [|apply Hbody, Hi].
      cbn [running entry set_state inc_ticks]. split; [exact Hej | exact Htgt].
    + intros i Hi.
      change (thread_at (with_current (pushed s6 j) (-1)) i) with (thread_at s6 i).
      rewrite Hth6, Hst' by lia.
      rewrite (proj2 (Z.ltb_lt k (m - 1)) Hround).
      destruct (Z.eqb_spec j i) as [<-|Hne].
      * cbn [running ticks state set_state inc_ticks]. rewrite Htj.
        rewrite ticks_no_wrap by lia. repeat split.
      * apply Hserved. lia.
    + intros i Hi.
      change (thread_at (with_current (pushed s6 j) (-1)) i) with (thread_at s6 i).
      rewrite Hth6, Hst' by lia.
      rewrite (proj2 (Z.eqb_neq j i)) by lia. apply Hwait. lia.
  - (* the last slice: the thread completes *)
    rewrite (proj2 (Z.leb_le m (k + 1))) by lia.
    cbn [run_slice do_call]. unfold complete_current_thread.
    change (sc_current_thread s3) with j.
    rewrite (proj2 (Z.ltb_ge j 0)) by lia.
    set (s4 := with_threads s3 (aset (sc_threads s3) j (set_state (thread_at s3 j) THREAD_DONE))).
    assert (sched_wf s4) as Hwf4 by (subst s4; wf_step).
    assert (forall i, 0 <= i ->
              thread_at s4 i = if j =? i then set_state running THREAD_DONE
                               else thread_at s i) as Hth4.
    { intros i Hi. unfold thread_at at 1. cbn [s4 with_threads sc_threads].
      rewrite thread_at_update by (try assumption; slia).
      rewrite !Hth3 by lia. rewrite Z.eqb_refl. destruct (j =? i); reflexivity. }
    cbn [with_current with_load sc_current_thread].
    rewrite (proj2 (Z.eqb_neq (-1) j)) by lia.
    set (sf := with_current (with_load s4 _) (-1)).
    assert (forall i, thread_at sf i = thread_at s4 i) as Hthf by reflexivity.
    split; cbn [fst snd].
    + subst sf. wf_step.
    + exact Hcount.
    + reflexivity.
    + exact Hsteps'.
    + change (rq_list sf) with (rq_list (popped s)). rewrite Hrest. subst rest.
      rewrite (proj2 (Z.ltb_ge k (m - 1)) Hlast). reflexivity.
    + intros i Hi. rewrite Hthf, Hth4 by lia.
      destruct (Z.eqb_spec j i) as [<-|Hne]; [|apply Hbody, Hi].
      cbn [running entry set_state]. split; [exact Hej | exact Htgt].
    + intros i Hi. rewrite Hthf, Hth4, Hst' by lia.
      rewrite (proj2 (Z.ltb_ge k (m - 1)) Hlast).
      destruct (Z.eqb_spec j i) as [<-|Hne].
      * cbn [running ticks state set_state]. rewrite Htj. repeat split.
      * apply Hserved. lia.
    + intros i Hi. rewrite Hthf, Hth4, Hst' by lia.
      rewrite (proj2 (Z.eqb_neq j i)) by lia. apply Hwait. lia.
Qed.

(** A round is over: every thread has had one more slice. *)
Lemma fair_round t m k w :
  k < m - 1 -> fair_inv t m k t w -> fair_inv t m (k + 1) 0 w.
Proof.
  intros Hk Hinv. destruct Hinv as [Hwf Hcount Hcur Hsteps Hq Hbody Hserved Hwait].
  rewrite (proj2 (Z.ltb_lt k (m - 1)) Hk) in Hq.
  split; try assumption.
  - rewrite Hq, Z.sub_diag, Z.sub_0_r. cbn [seqZ].
    destruct (k + 1 <? m - 1); cbn; rewrite ?app_nil_r; reflexivity.
  - intros i Hi. lia.
  - intros i Hi. pose proof (Hserved i ltac:(lia)) as Hs.
    rewrite (proj2 (Z.ltb_lt k (m - 1)) Hk) in Hs. exact Hs.
Qed.

Lemma fair_start cpus t m :
  1 <= t <= 63 -> fair_inv t m 0 0 (test_world cpus t m QUIET_WORKER).
Proof.
  intros Ht. unfold test_world.
  destruct (spawn_spec cpus QUIET_WORKER (Z.to_nat t) ltac:(discriminate) ltac:(lia))
    as (Hwf & Hcount & Hcur & Hq & Hth).
  rewrite Z2Nat.id in Hcount, Hq, Hth by lia.
  split; cbn [fst snd steps targets]; try assumption.
  - apply length_replicate.
  - rewrite Hq, Z.sub_0_r. destruct (0 <? m - 1); cbn [seqZ]; rewrite ?app_nil_r; reflexivity.
  - intros i Hi. split; [apply Hth, Hi|].
    unfold aget. rewrite nth_lookup, lookup_app_l by (rewrite length_replicate; lia).
    rewrite lookup_replicate_2 by lia. reflexivity.
  - intros i Hi. lia.
  - intros i Hi. split; [|apply Hth, Hi].
    unfold aget. rewrite nth_lookup.
    rewrite lookup_replicate_2 by slia. reflexivity.
Qed.

Lemma fair_count_live t m k j w :
  0 <= j < t -> fair_inv t m k j w -> get_thread_count (fst w) <> 0.
Proof.
  intros Hj Hinv. unfold get_thread_count.
  pose proof (count_loop_live (fst w) (Z.to_nat (sc_thread_count (fst w))) j 0 0) as H.
  rewrite (fi_count _ _ _ _ _ Hinv) in *.
  destruct (fi_waiting _ _ _ _ _ Hinv j ltac:(lia)) as (_ & _ & Hst).
  specialize (H ltac:(lia) ltac:(rewrite Hst; discriminate)). lia.
Qed.

Lemma fair_count_done t m w :
  1 <= m -> fair_inv t m (m - 1) t w -> get_thread_count (fst w) = 0.
Proof.
  intros Hm Hinv. unfold get_thread_count. apply count_loop_done.
  intros i Hi. rewrite (fi_count _ _ _ _ _ Hinv) in Hi.
  destruct (fi_served _ _ _ _ _ Hinv i ltac:(lia)) as (_ & _ & Hst).
  rewrite Z.ltb_irrefl in Hst. exact Hst.
Qed.

(** The driver loop, started in a state of a fair run that is
    [(m - 1 - k) * t + (t - j)] slices away from the end: with that much
    fuel it stops in the final state, with less it does not stop. *)
Lemma fair_run t m (fuel : nat) : forall k j w,
  1 <= t <= 63 -> 1 <= m <= 2147483647 -> 0 <= k <= m - 1 -> 0 <= j <= t ->
  fair_inv t m k j w ->
  if (m - 1 - k) * t + (t - j) <=? Z.of_nat fuel then
    exists w', run_until_done worker_code fuel w = Some w' /\
               fair_inv t m (m - 1) t w'
  else run_until_done worker_code fuel w = None.
Proof.
  induction fuel as [|fuel IH]; intros k j w Ht Hm Hk Hj Hinv.
  - cbn [run_until_done].
    destruct (Z.leb_spec ((m - 1 - k) * t + (t - j)) (Z.of_nat 0)) as [Hle|Hgt].
    + assert (j = t /\ k = m - 1) as [-> ->] by nia.
      rewrite (fair_count_done t m w) by (try assumption; lia).
      cbn. exists w. split; [reflexivity | exact Hinv].
    + destruct (Z.eq_dec j t) as [->|Hjt].
      * assert (k < m - 1) as Hk' by nia.
        apply fair_round in Hinv; [|exact Hk'].
        rewrite (proj2 (Z.eqb_neq _ 0)); [reflexivity|].
        apply (fair_count_live t m (k + 1) 0 w); [lia | exact Hinv].
      * rewrite (proj2 (Z.eqb_neq _ 0)); [reflexivity|].
        apply (fair_count_live t m k j w); [lia | exact Hinv].
  - assert (forall k' j', 0 <= k' <= m - 1 -> 0 <= j' < t -> fair_inv t m k' j' w ->
              if (m - 1 - k') * t + (t - j') <=? Z.of_nat (S fuel) then
                exists w', run_until_done worker_code (S fuel) w = Some w' /\
                           fair_inv t m (m - 1) t w'
              else run_until_done worker_code (S fuel) w = None) as Hlive.
    { intros k' j' Hk' Hj' Hinv'. cbn [run_until_done].
      rewrite (proj2 (Z.eqb_neq _ 0)) by (apply (fair_count_live t m k' j' w); assumption).
      pose proof (fair_step t m k' j' w Ht Hm Hk' Hj' Hinv') as Hstep.
      specialize (IH k' (j' + 1) _ Ht Hm Hk' ltac:(lia) Hstep).
      destruct (Z.leb_spec ((m - 1 - k') * t + (t - (j' + 1))) (Z.of_nat fuel));
        destruct (Z.leb_spec ((m - 1 - k') * t + (t - j')) (Z.of_nat (S fuel)));
        try lia; exact IH. }
    destruct (Z.eq_dec j t) as [->|Hjt]; [|apply Hlive; [lia | lia | exact Hinv]].
    destruct (Z.eq_dec k (m - 1)) as [->|Hkm].
    + replace ((m - 1 - (m - 1)) * t + (t - t)) with 0 by lia.
      cbn [Z.leb Z.compare Z.of_nat]. cbn [run_until_done].
      rewrite (fair_count_done t m w) by (try assumption; lia).
      cbn. exists w. split; [reflexivity | exact Hinv].
    + apply fair_round in Hinv; [|lia].
      replace ((m - 1 - k) * t + (t - t)) with ((m - 1 - (k + 1)) * t + (t - 0)) by lia.
      apply Hlive; [lia | lia | exact Hinv].
Qed.

(** The test's own body yields explicitly, so [schedule_process] never
    takes its counting branch: after the run of the test (12 threads,
    target 100, 4 CPUs) every thread has counted 100 slices itself and
    every tick counter is still 0. *)
Lemma explicit_yield_is_not_counted :
  match run_until_done worker_code 1200 (test_world 4 12 100 WORKER) with
  | Some (s', e') =>
      get_thread_count s' = 0 /\
      (fun i => ticks (thread_at s' i)) <$> seqZ 0 12 = replicate 12 0 /\
      (fun i => aget 0 (steps e') i) <$> seqZ 0 12 = replicate 12 100
  | None => False
  end.
Proof. vm_compute. repeat split. Qed.

(** C4, as the code has it. For [t] threads ([t] at most 63, the capacity
    of the run queue) whose bodies need [m] slices each, returning silently
    on the first [m - 1] and calling [complete_current_thread] on the last,
    the loop [while (get_thread_count() > 0) schedule_process()] stops
    after exactly [t * m] calls; then every thread is [Done], has counted
    [m] slices itself, and its tick counter is [m - 1]: the slice in which
    a thread completes is not counted by [schedule_process]. *)
Theorem fair_run_ticks (cpus t m : Z) :
  1 <= t <= 63 -> 1 <= m <= 2147483647 ->
  exists s' e',
    run_until_done worker_code (Z.to_nat (t * m)) (test_world cpus t m QUIET_WORKER)
      = Some (s', e') /\
    (forall fuel, (fuel < Z.to_nat (t * m))%nat ->
       run_until_done worker_code fuel (test_world cpus t m QUIET_WORKER) = None) /\
    get_thread_count s' = 0 /\
    forall i, 0 <= i < t ->
      ticks (thread_at s' i) = m - 1 /\
      state (thread_at s' i) = THREAD_DONE /\
      aget 0 (steps e') i = m.
Proof.
  intros Ht Hm.
  pose proof (fair_start cpus t m Ht) as Hstart.
  pose proof (fair_run t m (Z.to_nat (t * m)) 0 0 _ Ht Hm ltac:(lia) ltac:(lia) Hstart)
    as Hrun.
  rewrite (proj2 (Z.leb_le _ _)) in Hrun by nia.
  destruct Hrun as ([s' e'] & Hrun & Hfinal).
  exists s', e'. split; [exact Hrun|]. split; [|split].
  - intros fuel Hfuel.
    pose proof (fair_run t m fuel 0 0 _ Ht Hm ltac:(lia) ltac:(lia) Hstart) as Hless.
    rewrite (proj2 (Z.leb_gt _ _)) in Hless by nia. exact Hless.
  - apply (fair_count_done t m (s', e')); [lia | exact Hfinal].
  - intros i Hi.
    destruct (fi_served _ _ _ _ _ Hfinal i Hi) as (Hs & Htk & Hst).
    rewrite Z.ltb_irrefl in Htk, Hst. cbn [fst snd] in *.
    split; [exact Htk|]. split; [exact Hst | lia].
Qed.

Lemma fair_run_ticks_witness :
  exists s' e',
    run_until_done worker_code (Z.to_nat (12 * 100)) (test_world 4 12 100 QUIET_WORKER)
      = Some (s', e') /\
    (forall fuel, (fuel < Z.to_nat (12 * 100))%nat ->
       run_until_done worker_code fuel (test_world 4 12 100 QUIET_WORKER) = None) /\
    get_thread_count s' = 0 /\
    forall i, 0 <= i < 12 ->
      ticks (thread_at s' i) = 100 - 1 /\
      state (thread_at s' i) = THREAD_DONE /\
      aget 0 (steps e') i = 100.
Proof. apply (fair_run_ticks 4 12 100); lia. Defined.

(** C4 as worded fails on its own example: 12 threads needing 100 slices
    each on 4 CPUs. The loop ends with no live thread, but the tick counter
    of thread 0 (and of every other thread) is 99, not 100. *)
Lemma ticks_fall_short_of_target :
  match run_until_done worker_code 1200 (test_world 4 12 100 QUIET_WORKER) with
  | Some (s', _) =>
      get_thread_count s' = 0 /\
      (fun i => ticks (thread_at s' i)) <$> seqZ 0 12 = replicate 12 99 /\
      ticks (thread_at s' 0) <> 100
  | None => False
  end.
Proof. vm_compute. repeat split. discriminate. Qed.

End FairProofs.

Module BalanceProofs.
Import Sched.
Import MemProofs.
Import SchedProofs.
Import FairProofs.

(** ** Counting the threads of a CPU *)

Lemma tally_nonneg (P : Z -> bool) (n : nat) : 0 <= tally P n.
Proof. induction n as [|n IH]; cbn [tally]; [lia|]. destruct (P _); lia. Qed.

Lemma tally_ext (P Q : Z -> bool) (n : nat) :
  (forall i, 0 <= i < Z.of_nat n -> P i = Q i) -> tally P n = tally Q n.
Proof.
  induction n as [|n IH]; intros Heq; cbn [tally]; [reflexivity|].
  rewrite IH by (intros i Hi; apply Heq; lia).
  rewrite (Heq (Z.of_nat n)) by lia. reflexivity.
Qed.

(** Changing the predicate at the single index [k]. *)
Lemma tally_update (P Q : Z -> bool) (k : Z) (n : nat) :
  0 <= k < Z.of_nat n ->
  (forall i, 0 <= i < Z.of_nat n -> i <> k -> P i = Q i) ->
  tally Q n = tally P n - (if P k then 1 else 0) + (if Q k then 1 else 0).
Proof.
  induction n as [|n IH]; intros Hk Heq; [lia|]. cbn [tally].
  destruct (Z.eq_dec k (Z.of_nat n)) as [->|Hne].
  - rewrite (tally_ext P Q n) by (intros i Hi; apply Heq; lia). lia.
  - rewrite IH by (try lia; intros i Hi Hik; apply Heq; lia).
    rewrite (Heq (Z.of_nat n)) by lia. lia.
Qed.

Lemma tally_exists (P : Z -> bool) (n : nat) :
  0 < tally P n -> exists i, 0 <= i < Z.of_nat n /\ P i = true.
Proof.
  induction n as [|n IH]; cbn [tally]; [lia|].
  destruct (P (Z.of_nat n)) eqn:Hn; intros Hpos.
  - exists (Z.of_nat n). split; [lia | exact Hn].
  - destruct IH as (i & Hi & HP); [lia|]. exists i. split; [lia | exact HP].
Qed.

Lemma tally_without (P : Z -> bool) (x : Z) (n : nat) :
  tally P n <= 1 + tally (fun i => P i && negb (i =? x)) n.
Proof.
  assert (tally P n =
          tally (fun i => P i && negb (i =? x)) n
          + (if (0 <=? x) && (x <? Z.of_nat n) && P x then 1 else 0)) as H.
  { induction n as [|n IH]; cbn [tally].
    - destruct (Z.leb_spec 0 x); destruct (Z.ltb_spec x (Z.of_nat 0)); cbn [andb]; lia.
    - rewrite IH.
      destruct (Z.leb_spec 0 x); destruct (Z.ltb_spec x (Z.of_nat n));
        destruct (Z.ltb_spec x (Z.of_nat (S n)));
        destruct (Z.eqb_spec (Z.of_nat n) x) as [Heq|Hne];
        try rewrite <- Heq in *; cbn [andb negb]; try lia;
        rewrite ?andb_true_r, ?andb_false_r;
        destruct (P x); destruct (P (Z.of_nat n)); lia. }
  rewrite H. destruct (_ && _ && _); lia.
Qed.

(** With a count of two or more there is a hit other than [x]. *)
Lemma tally_two (P : Z -> bool) (x : Z) (n : nat) :
  2 <= tally P n -> exists i, 0 <= i < Z.of_nat n /\ i <> x /\ P i = true.
Proof.
  intros H2. pose proof (tally_without P x n) as Hw.
  destruct (tally_exists (fun i => P i && negb (i =? x)) n ltac:(lia)) as (i & Hi & HP).
  apply andb_true_iff in HP as [HP Hx]. apply negb_true_iff, Z.eqb_neq in Hx.
  exists i. split; [exact Hi|]. split; assumption.
Qed.

(** ** The load counters count the unfinished threads *)

Lemma push_rq_frame s x :
  sched_wf s ->
  let s' := snd (push_rq s x) in
  sched_wf s' /\ sc_threads s' = sc_threads s /\
  sc_thread_count s' = sc_thread_count s /\ sc_cpu_load s' = sc_cpu_load s /\
  sc_cpu_count s' = sc_cpu_count s /\ sc_current_thread s' = sc_current_thread s /\
  forall y, y ∈ rq_list s' -> y ∈ rq_list s \/ y = x.
Proof.
  intros Hwf. cbn zeta.
  destruct (push_rq_cases s x Hwf) as [[-> _]|(-> & Hl & Hwf')]; cbn [snd].
  - do 6 (split; [first [assumption | reflexivity]|]). intros y Hy. left. exact Hy.
  - do 6 (split; [first [assumption | reflexivity]|]). intros y Hy.
    rewrite Hl, elem_of_app, list_elem_of_singleton in Hy. exact Hy.
Qed.

Lemma pop_rq_frame s :
  sched_wf s ->
  let s' := snd (pop_rq s) in
  sched_wf s' /\ sc_threads s' = sc_threads s /\
  sc_thread_count s' = sc_thread_count s /\ sc_cpu_load s' = sc_cpu_load s /\
  sc_cpu_count s' = sc_cpu_count s /\ sc_current_thread s' = sc_current_thread s /\
  (forall y, y ∈ rq_list s' -> y ∈ rq_list s) /\
  (fst (pop_rq s) = -1 \/ fst (pop_rq s) ∈ rq_list s).
Proof.
  intros Hwf. cbn zeta. destruct (rq_list s) as [|x l] eqn:Hq.
  - rewrite (pop_rq_empty s Hwf Hq). cbn [fst snd]. rewrite Hq.
    do 6 (split; [first [assumption | reflexivity]|]).
    split; [intros y Hy; exact Hy | left; reflexivity].
  - destruct (pop_rq_cons s x l Hwf Hq) as (-> & Hl & Hwf'). cbn [fst snd].
    rewrite Hl.
    do 6 (split; [first [assumption | reflexivity]|]). split.
    + intros y Hy. apply elem_of_cons. right. exact Hy.
    + right. apply elem_of_cons. left. reflexivity.
Qed.

Lemma live_on_eq s s' c i :
  cpu_id (thread_at s' i) = cpu_id (thread_at s i) ->
  (state (thread_at s' i) = THREAD_DONE <-> state (thread_at s i) = THREAD_DONE) ->
  live_on s' c i = live_on s c i.
Proof.
  intros Hcpu Hdone. unfold live_on. rewrite Hcpu. f_equal. f_equal.
  destruct (state (thread_at s' i)), (state (thread_at s i)); cbn; try reflexivity;
    try (destruct Hdone as [H1 H2]; first [specialize (H1 eq_refl) | specialize (H2 eq_refl)];
         discriminate).
Qed.

(** A change that keeps the counters, the CPU of every thread and which
    threads are finished. *)
Lemma load_inv_keep s s' :
  load_inv s -> sched_wf s' ->
  sc_thread_count s' = sc_thread_count s -> sc_cpu_count s' = sc_cpu_count s ->
  sc_cpu_load s' = sc_cpu_load s ->
  (forall y, y ∈ rq_list s' -> 0 <= y < sc_thread_count s) ->
  -1 <= sc_current_thread s' < sc_thread_count s ->
  (0 <= sc_current_thread s' ->
   state (thread_at s' (sc_current_thread s')) = THREAD_RUNNING) ->
  (forall i, 0 <= i < sc_thread_count s -> i <> sc_current_thread s' ->
     state (thread_at s' i) = THREAD_READY \/ state (thread_at s' i) = THREAD_DONE) ->
  (forall i, 0 <= i < sc_thread_count s ->
     cpu_id (thread_at s' i) = cpu_id (thread_at s i) /\
     (state (thread_at s' i) = THREAD_DONE <-> state (thread_at s i) = THREAD_DONE)) ->
  load_inv s'.
Proof.
  intros Hinv Hwf Hcount Hcpus Hload Hq Hcur Hrun Hidle Hsame.
  pose proof (wf_count _ (li_wf _ Hinv)) as Hc.
  split; rewrite ?Hcount, ?Hcpus; try assumption.
  - intros i Hi. rewrite (proj1 (Hsame i Hi)). apply (li_cpu _ Hinv i Hi).
  - intros c Hcr. unfold load_at. rewrite Hload.
    fold (load_at s c). rewrite (li_load _ Hinv c Hcr).
    apply tally_ext. intros i Hi. symmetry.
    destruct (Hsame i ltac:(lia)) as [H1 H2]. apply live_on_eq; assumption.
Qed.

Lemma load_at_replicate (c : Z) : aget 0 (replicate (Z.to_nat SC_MAX_CPUS) 0) c = 0.
Proof.
  unfold aget. rewrite nth_lookup.
  destruct (replicate (Z.to_nat SC_MAX_CPUS) 0 !! Z.to_nat c) as [x|] eqn:Hx; [|reflexivity].
  apply lookup_replicate in Hx as [-> _]. reflexivity.
Qed.

Lemma load_inv_init cpus : load_inv (init_scheduler boot_state cpus).
Proof.
  split.
  - apply init_scheduler_wf.
  - cbn. lia.
  - cbn. lia.
  - cbn. intros i Hi. lia.
  - cbn [init_scheduler sc_thread_count]. intros i Hi. lia.
  - intros x Hx. exfalso. revert Hx.
    change (rq_list (init_scheduler boot_state cpus)) with (@nil Z).
    apply not_elem_of_nil.
  - intros c Hc. unfold load_at. cbn [init_scheduler sc_cpu_load sc_thread_count].
    rewrite load_at_replicate. reflexivity.
Qed.

Lemma load_inv_yield s : load_inv s -> load_inv (yield s).
Proof.
  intros Hinv. pose proof (li_wf _ Hinv) as Hwf. pose proof (li_current _ Hinv) as Hcur.
  pose proof (wf_count _ Hwf) as Hc.
  unfold yield. destruct (Z.ltb_spec (sc_current_thread s) 0) as [|Hk]; [exact Hinv|].
  set (k := sc_current_thread s) in *.
  set (s1 := with_threads s (aset (sc_threads s) k (set_state (thread_at s k) THREAD_READY))).
  assert (sched_wf s1) as Hwf1 by (subst s1; wf_step).
  destruct (push_rq_frame s1 k Hwf1) as (Hwf2 & Hth & Hcount & Hload & Hcpus & _ & Hq).
  set (s2 := snd (push_rq s1 k)) in *.
  assert (forall i, 0 <= i ->
            thread_at (with_current s2 (-1)) i =
            if k =? i then set_state (thread_at s k) THREAD_READY else thread_at s i) as Hthread.
  { intros i Hi. unfold thread_at at 1. cbn [with_current sc_threads]. rewrite Hth.
    apply thread_at_update; [exact Hwf | slia | exact Hi]. }
  apply (load_inv_keep s); try assumption.
  - wf_step.
  - intros y Hy. destruct (Hq y Hy) as [H| ->]; [apply (li_queue _ Hinv y H) | lia].
  - cbn. lia.
  - cbn. lia.
  - intros i Hi _. rewrite Hthread by lia.
    destruct (Z.eqb_spec k i) as [<-|Hne]; [left; reflexivity|].
    apply (li_idle _ Hinv i Hi). fold k. lia.
  - intros i Hi. rewrite Hthread by lia.
    destruct (Z.eqb_spec k i) as [<-|Hne]; [|tauto].
    assert (state (thread_at s k) = THREAD_RUNNING) as Hr by apply (li_running _ Hinv Hk).
    cbn [set_state cpu_id state]. split; [reflexivity|]. rewrite Hr. split; discriminate.
Qed.

Lemma load_inv_complete s : load_inv s -> load_inv (complete_current_thread s).
Proof.
  intros Hinv. pose proof (li_wf _ Hinv) as Hwf. pose proof (li_current _ Hinv) as Hcur.
  pose proof (wf_count _ Hwf) as Hc. pose proof (wf_cpus _ Hwf) as Hcpus.
  unfold complete_current_thread.
  destruct (Z.ltb_spec (sc_current_thread s) 0) as [|Hk]; [exact Hinv|].
  set (k := sc_current_thread s) in *.
  assert (state (thread_at s k) = THREAD_RUNNING) as Hr by apply (li_running _ Hinv Hk).
  set (s1 := with_threads s (aset (sc_threads s) k (set_state (thread_at s k) THREAD_DONE))).
  assert (sched_wf s1) as Hwf1 by (subst s1; wf_step).
  assert (forall i, 0 <= i ->
            thread_at s1 i =
            if k =? i then set_state (thread_at s k) THREAD_DONE else thread_at s i) as Hthread.
  { intros i Hi. unfold thread_at at 1. cbn [s1 with_threads sc_threads].
    apply thread_at_update; [exact Hwf | slia | exact Hi]. }
  rewrite (Hthread k) by lia. rewrite Z.eqb_refl. cbn [cpu_id set_state].
  set (c0 := cpu_id (thread_at s k)).
  pose proof (li_cpu _ Hinv k ltac:(lia)) as Hc0. fold c0 in Hc0.
  set (s' := with_current (with_load s1 _) (-1)).
  assert (forall i, thread_at s' i = thread_at s1 i) as Hsame by reflexivity.
  assert (forall c, 0 <= c ->
            load_at s' c = if c0 =? c then load_at s c0 - 1 else load_at s c) as Hload.
  { intros c Hcr. unfold load_at at 1. cbn [s' with_current with_load sc_cpu_load s1 with_threads].
    apply aget_aset; [rewrite (wf_load _ Hwf); slia | exact Hcr]. }
  split.
  - subst s'. wf_step.
  - cbn. lia.
  - cbn. lia.
  - intros i Hi _. rewrite Hsame, Hthread by (cbn in Hi; lia).
    destruct (Z.eqb_spec k i) as [<-|Hne]; [right; reflexivity|].
    apply (li_idle _ Hinv i Hi). fold k. lia.
  - intros i Hi. rewrite Hsame, Hthread by (cbn in Hi; lia).
    destruct (Z.eqb_spec k i) as [<-|Hne]; [exact Hc0 | apply (li_cpu _ Hinv i Hi)].
  - intros x Hx. apply (li_queue _ Hinv x Hx).
  - intros c Hcr. rewrite Hload by lia.
    change (sc_thread_count s') with (sc_thread_count s).
    rewrite (tally_update (live_on s c) (live_on s' c) k) by
      (try lia; intros i Hi Hik; unfold live_on; rewrite Hsame, Hthread by lia;
       rewrite (proj2 (Z.eqb_neq k i)) by lia; reflexivity).
    rewrite <- !(li_load _ Hinv) by slia.
    unfold live_on. rewrite Hsame, Hthread, Z.eqb_refl by lia.
    cbn [cpu_id state set_state state_eqb negb]. rewrite andb_false_r, Hr.
    cbn [state_eqb negb]. rewrite andb_true_r. fold c0.
    destruct (Z.eqb_spec c0 c) as [->|Hne]; lia.
Qed.

Lemma load_inv_create s fn a prio :
  load_inv s -> load_inv (snd (create_thread s fn a prio)).
Proof.
  intros Hinv. pose proof (li_wf _ Hinv) as Hwf. pose proof (li_current _ Hinv) as Hcur.
  pose proof (wf_count _ Hwf) as Hc. pose proof (wf_cpus _ Hwf) as Hcpus.
  unfold create_thread. destruct (fn =? 0); [exact Hinv|].
  rewrite Z.geb_leb.
  destruct (Z.leb_spec SC_MAX_THREADS (sc_thread_count s)) as [|Hroom]; [exact Hinv|].
  cbn [snd].
  pose proof (best_cpu_range s ltac:(lia)) as Hbest.
  set (best := best_cpu_loop (sc_cpu_load s) (Z.to_nat (sc_cpu_count s - 1)) 1 0) in *.
  set (r := sc_thread_count s) in *.
  set (newt := mkThread r best prio 1 fn a THREAD_READY 0).
  set (s1 := mkSched (aset (sc_threads s) r newt) (r + 1) (sc_run_queue s) (sc_rq_head s)
                     (sc_rq_tail s)
                     (aset (sc_cpu_load s) best (aget 0 (sc_cpu_load s) best + 1))
                     (sc_cpu_count s) (sc_current_thread s)).
  assert (sched_wf s1) as Hwf1 by (subst s1 r; wf_tac Hwf).
  destruct (push_rq_frame s1 r Hwf1) as (Hwf2 & Hth & Hcount & Hload & Hcpus' & Hcur' & Hq).
  set (s' := snd (push_rq s1 r)) in *.
  cbn [s1 sc_threads sc_thread_count sc_cpu_load sc_cpu_count sc_current_thread]
    in Hth, Hcount, Hload, Hcpus', Hcur'.
  assert (forall i, 0 <= i -> thread_at s' i = if r =? i then newt else thread_at s i)
    as Hthread.
  { intros i Hi. unfold thread_at at 1. rewrite Hth.
    apply thread_at_update; [exact Hwf | slia | exact Hi]. }
  assert (forall c, 0 <= c ->
            load_at s' c = if best =? c then load_at s best + 1 else load_at s c) as Hloads.
  { intros c Hcr. unfold load_at at 1. rewrite Hload.
    apply aget_aset; [rewrite (wf_load _ Hwf); slia | exact Hcr]. }
  split; rewrite ?Hcount, ?Hcpus', ?Hcur'.
  - exact Hwf2.
  - lia.
  - intros Hk. rewrite Hthread by lia. rewrite (proj2 (Z.eqb_neq r _)) by lia.
    apply (li_running _ Hinv Hk).
  - intros i Hi Hne. rewrite Hthread by lia.
    destruct (Z.eqb_spec r i) as [<-|Hri]; [left; reflexivity|].
    apply (li_idle _ Hinv i); [lia | exact Hne].
  - intros i Hi. rewrite Hthread by lia.
    destruct (Z.eqb_spec r i) as [<-|Hri]; [exact Hbest|].
    apply (li_cpu _ Hinv i). lia.
  - intros y Hy. destruct (Hq y Hy) as [H| ->]; [|lia].
    pose proof (li_queue _ Hinv y H). lia.
  - intros c Hcr. rewrite Hloads by lia.
    replace (Z.to_nat (r + 1)) with (S (Z.to_nat r)) by lia. cbn [tally].
    rewrite Z2Nat.id by lia.
    rewrite (tally_ext (live_on s' c) (live_on s c)) by
      (intros i Hi; unfold live_on; rewrite Hthread by lia;
       rewrite (proj2 (Z.eqb_neq r i)) by lia; reflexivity).
    rewrite <- !(li_load _ Hinv) by slia.
    unfold live_on. rewrite Hthread, Z.eqb_refl by lia.
    cbn [newt cpu_id state state_eqb negb]. rewrite andb_true_r.
    destruct (Z.eqb_spec best c) as [->|Hne]; lia.
Qed.

Lemma load_inv_load_balance s : load_inv s -> load_inv (load_balance s).
Proof.
  intros Hinv. pose proof (li_wf _ Hinv) as Hwf. pose proof (li_current _ Hinv) as Hcur.
  pose proof (wf_count _ Hwf) as Hc. pose proof (wf_cpus _ Hwf) as Hcpus.
  destruct (load_balance_cases s) as [[_ ->]|[(_ & _ & ->)|(Hgap & k & (Hk & Hready & _) & ->)]];
    try exact Hinv.
  destruct (min_max_cpu_spec s ltac:(lia)) as (Hmn & Hmx & _).
  unfold load_gap in Hgap.
  set (mn := fst (min_max_cpu s)) in *. set (mx := snd (min_max_cpu s)) in *.
  assert (mn <> mx) as Hne by (intros Heq; rewrite Heq in Hgap; lia).
  unfold ready_on in Hready. apply andb_true_iff in Hready as [Hst Hcpu].
  apply state_eqb_eq in Hst. apply Z.eqb_eq in Hcpu.
  set (s' := migrated s mn mx k).
  assert (forall i, 0 <= i ->
            thread_at s' i = if k =? i then set_cpu (thread_at s k) mn else thread_at s i)
    as Hthread by (intros i Hi; apply migrated_thread; try assumption; slia).
  assert (forall c, 0 <= c ->
            load_at s' c = if c =? mn then load_at s mn + 1
                           else if c =? mx then load_at s mx - 1 else load_at s c)
    as Hloads by (intros c Hcr; apply migrated_load; try assumption; slia).
  assert (k <> sc_current_thread s) as Hkc.
  { intros ->. rewrite (li_running _ Hinv) in Hst by lia. discriminate. }
  split.
  - apply migrated_wf, Hwf.
  - exact Hcur.
  - change (sc_current_thread s') with (sc_current_thread s). intros Hk0.
    rewrite Hthread by lia. rewrite (proj2 (Z.eqb_neq k _)) by lia.
    apply (li_running _ Hinv Hk0).
  - change (sc_current_thread s') with (sc_current_thread s).
    change (sc_thread_count s') with (sc_thread_count s).
    intros i Hi Hic. rewrite Hthread by lia.
    destruct (Z.eqb_spec k i) as [<-|Hki]; [left; exact Hst|].
    apply (li_idle _ Hinv i Hi Hic).
  - change (sc_cpu_count s') with (sc_cpu_count s).
    change (sc_thread_count s') with (sc_thread_count s).
    intros i Hi. rewrite Hthread by lia.
    destruct (Z.eqb_spec k i) as [<-|Hki]; [exact Hmn | apply (li_cpu _ Hinv i Hi)].
  - intros x Hx. apply (li_queue _ Hinv x Hx).
  - intros c Hcr. rewrite Hloads by lia.
    change (sc_thread_count s') with (sc_thread_count s).
    rewrite (tally_update (live_on s c) (live_on s' c) k) by
      (try lia; intros i Hi Hik; unfold live_on; rewrite Hthread by lia;
       rewrite (proj2 (Z.eqb_neq k i)) by lia; reflexivity).
    rewrite <- !(li_load _ Hinv) by slia.
    unfold live_on. rewrite Hthread, Z.eqb_refl by lia.
    cbn [cpu_id state set_cpu]. rewrite Hst, Hcpu. cbn [state_eqb negb].
    rewrite !andb_true_r. rewrite (Z.eqb_sym mx c), (Z.eqb_sym mn c).
    destruct (Z.eqb_spec c mn) as [->|H1];
      [rewrite (proj2 (Z.eqb_neq mn mx)) by lia; lia
      |destruct (Z.eqb_spec c mx) as [->|H2]; lia].
Qed.

Lemma load_inv_call s c : load_inv s -> load_inv (snd (do_call c s)).
Proof.
  intros Hinv. destruct c; cbn [do_call snd]; try exact Hinv.
  - apply load_inv_create, Hinv.
  - apply load_inv_yield, Hinv.
  - apply load_inv_complete, Hinv.
  - apply load_inv_load_balance, Hinv.
Qed.

(** No function of the interface makes a thread current. *)
Lemma do_call_current s c :
  sched_wf s ->
  sc_current_thread (snd (do_call c s)) = sc_current_thread s \/
  sc_current_thread (snd (do_call c s)) = -1.
Proof.
  intros Hwf. destruct c; cbn [do_call snd]; try (left; reflexivity).
  - left. unfold create_thread. destruct (fn =? 0); [reflexivity|].
    rewrite Z.geb_leb.
    destruct (Z.leb_spec SC_MAX_THREADS (sc_thread_count s)) as [|Hroom]; [reflexivity|].
    cbn [snd]. pose proof (wf_count _ Hwf) as Hc.
    match goal with |- context [push_rq ?s1 ?r] =>
      assert (sched_wf s1) as Hwf1 by (wf_tac Hwf);
      destruct (push_rq_frame s1 r Hwf1) as (_ & _ & _ & _ & _ & H & _); exact H
    end.
  - unfold yield. destruct (_ <? 0); [left|right]; reflexivity.
  - unfold complete_current_thread. destruct (_ <? 0); [left|right]; reflexivity.
  - left. destruct (load_balance_cases s) as [[_ ->]|[(_ & _ & ->)|(_ & k & _ & ->)]];
      reflexivity.
Qed.

Lemma load_inv_slice {E} (p : slice E) : forall s,
  load_inv s ->
  load_inv (fst (run_slice p s)) /\
  (sc_current_thread (fst (run_slice p s)) = sc_current_thread s \/
   sc_current_thread (fst (run_slice p s)) = -1).
Proof.
  induction p as [e|c k IH]; intros s Hinv; cbn [run_slice].
  - split; [exact Hinv | left; reflexivity].
  - pose proof (load_inv_call s c Hinv) as Hinv'.
    pose proof (do_call_current s c (li_wf _ Hinv)) as Hcur.
    destruct (do_call c s) as [v s']. cbn [snd] in *.
    destruct (IH v s' Hinv') as [Hinv'' Hcur'']. split; [exact Hinv''|].
    destruct Hcur'' as [H|H]; [rewrite H; exact Hcur | right; exact H].
Qed.

Lemma thread_at_threads s s' i :
  sc_threads s' = sc_threads s -> thread_at s' i = thread_at s i.
Proof. intros H. unfold thread_at. rewrite H. reflexivity. Qed.

Lemma load_inv_pop s :
  load_inv s ->
  load_inv (snd (pop_rq s)) /\
  sc_current_thread (snd (pop_rq s)) = sc_current_thread s /\
  sc_thread_count (snd (pop_rq s)) = sc_thread_count s /\
  (fst (pop_rq s) = -1 \/ 0 <= fst (pop_rq s) < sc_thread_count s).
Proof.
  intros Hinv. pose proof (li_wf _ Hinv) as Hwf.
  destruct (pop_rq_frame s Hwf) as (Hwf1 & Hth & Hcount & Hload & Hcpus & Hcur & Hq & Hx).
  split; [|split; [exact Hcur|split; [exact Hcount|]]].
  - apply (load_inv_keep s); try assumption.
    + intros y Hy. apply (li_queue _ Hinv y), Hq, Hy.
    + rewrite Hcur. apply (li_current _ Hinv).
    + rewrite Hcur. intros Hk. rewrite (thread_at_threads s _ _ Hth).
      apply (li_running _ Hinv Hk).
    + rewrite Hcur. intros i Hi Hne. rewrite (thread_at_threads s _ _ Hth).
      apply (li_idle _ Hinv i Hi Hne).
    + intros i Hi. rewrite (thread_at_threads s _ _ Hth). tauto.
  - destruct Hx as [Hx|Hx]; [left; exact Hx | right; apply (li_queue _ Hinv _ Hx)].
Qed.

Lemma load_inv_push s x :
  load_inv s -> 0 <= x < sc_thread_count s ->
  load_inv (snd (push_rq s x)) /\
  sc_threads (snd (push_rq s x)) = sc_threads s /\
  sc_current_thread (snd (push_rq s x)) = sc_current_thread s.
Proof.
  intros Hinv Hx. pose proof (li_wf _ Hinv) as Hwf.
  destruct (push_rq_frame s x Hwf) as (Hwf1 & Hth & Hcount & Hload & Hcpus & Hcur & Hq).
  split; [|split; assumption].
  apply (load_inv_keep s); try assumption.
  - intros y Hy. destruct (Hq y Hy) as [H| ->]; [apply (li_queue _ Hinv y H) | exact Hx].
  - rewrite Hcur. apply (li_current _ Hinv).
  - rewrite Hcur. intros Hk. rewrite (thread_at_threads s _ _ Hth).
    apply (li_running _ Hinv Hk).
  - rewrite Hcur. intros i Hi Hne. rewrite (thread_at_threads s _ _ Hth).
    apply (li_idle _ Hinv i Hi Hne).
  - intros i Hi. rewrite (thread_at_threads s _ _ Hth). tauto.
Qed.

(** Rewriting the state and the ticks of thread [x], which is or becomes
    the only thread that may be neither [Ready] nor [Done]. *)
Lemma load_inv_restate s x t cur :
  load_inv s -> 0 <= x < sc_thread_count s ->
  sc_current_thread s = -1 \/ sc_current_thread s = x ->
  cpu_id t = cpu_id (thread_at s x) ->
  state (thread_at s x) <> THREAD_DONE -> state t <> THREAD_DONE ->
  (cur = x /\ state t = THREAD_RUNNING) \/ (cur = -1 /\ state t = THREAD_READY) ->
  load_inv (with_current (with_threads s (aset (sc_threads s) x t)) cur).
Proof.
  intros Hinv Hx Hcur Hcpu Hlive Hlive' Hnew. pose proof (li_wf _ Hinv) as Hwf.
  pose proof (wf_count _ Hwf) as Hc.
  set (s' := with_current (with_threads s (aset (sc_threads s) x t)) cur).
  assert (forall i, 0 <= i -> thread_at s' i = if x =? i then t else thread_at s i)
    as Hthread.
  { intros i Hi. unfold thread_at at 1. cbn [s' with_current with_threads sc_threads].
    apply thread_at_update; [exact Hwf | slia | exact Hi]. }
  apply (load_inv_keep s); try assumption; try reflexivity.
  - subst s'. wf_step.
  - intros y Hy. apply (li_queue _ Hinv y Hy).
  - cbn. destruct Hnew as [[-> _]|[-> _]]; lia.
  - cbn [s' with_current sc_current_thread]. intros Hk.
    destruct Hnew as [[-> Hst]|[-> _]]; [|lia].
    rewrite Hthread, Z.eqb_refl by lia. exact Hst.
  - cbn [s' with_current sc_current_thread]. intros i Hi Hne.
    rewrite Hthread by lia.
    destruct (Z.eqb_spec x i) as [<-|Hxi].
    + destruct Hnew as [[-> _]|[_ Hst]]; [contradiction | left; exact Hst].
    + apply (li_idle _ Hinv i Hi). destruct Hcur as [-> | ->]; lia.
  - intros i Hi. rewrite Hthread by lia.
    destruct (Z.eqb_spec x i) as [<-|Hxi]; [|tauto].
    split; [exact Hcpu|]. split; intros H; contradiction.
Qed.

Lemma load_inv_schedule {E} (code : Z -> Z -> E -> slice E) s e :
  load_inv s -> sc_current_thread s = -1 ->
  load_inv (fst (schedule_process code (s, e))) /\
  sc_current_thread (fst (schedule_process code (s, e))) = -1.
Proof.
  intros Hinv Hcur.
  destruct (load_inv_pop s Hinv) as (Hinv1 & Hcur1 & Hcount1 & Hx).
  unfold schedule_process. destruct (pop_rq s) as [x s1]. cbn [fst snd] in *.
  rewrite Hcur in Hcur1.
  destruct (Z.ltb_spec x 0) as [|Hx0]; [cbn [fst]; split; assumption|].
  destruct Hx as [Hx|Hx]; [lia|]. rewrite <- Hcount1 in Hx.
  destruct (state_eqb (state (thread_at s1 x)) THREAD_READY) eqn:Hst; cbn [negb].
  2:{ destruct (load_inv_push s1 x Hinv1 Hx) as (Hinv2 & _ & Hcur2).
      cbn [fst]. split; [exact Hinv2 | congruence]. }
  apply state_eqb_eq in Hst.
  set (s3 := with_current _ x).
  assert (load_inv s3) as Hinv3.
  { subst s3. apply load_inv_restate; try assumption.
    - left. exact Hcur1.
    - reflexivity.
    - rewrite Hst. discriminate.
    - cbn. discriminate.
    - left. split; reflexivity. }
  destruct (load_inv_slice (code (entry (thread_at s3 x)) (arg (thread_at s3 x)) e) s3 Hinv3)
    as [Hinv4 Hcur4].
  destruct (run_slice _ s3) as [s4 e']. cbn [fst] in *.
  change (sc_current_thread s3) with x in Hcur4.
  destruct (Z.eqb_spec (sc_current_thread s4) x) as [Hc4|Hc4].
  2:{ cbn [fst]. split; [exact Hinv4|]. destruct Hcur4; [contradiction | assumption]. }
  cbn [fst].
  assert (0 <= x < sc_thread_count s4) as Hx4.
  { pose proof (li_current _ Hinv4). lia. }
  assert (state (thread_at s4 x) = THREAD_RUNNING) as Hrun4.
  { rewrite <- Hc4. apply (li_running _ Hinv4). lia. }
  set (s5 := with_threads s4 (aset (sc_threads s4) x (inc_ticks (thread_at s4 x)))).
  assert (load_inv s5 /\ thread_at s5 x = inc_ticks (thread_at s4 x) /\
          sc_current_thread s5 = x /\ sc_thread_count s5 = sc_thread_count s4)
    as (Hinv5 & Hth5 & Hc5 & Hn5).
  { subst s5. rewrite <- (with_current_same (with_threads s4 _)).
    cbn [with_threads sc_current_thread]. rewrite Hc4. split; [|split; [|split; reflexivity]].
    - apply load_inv_restate; try assumption.
      + right. exact Hc4.
      + reflexivity.
      + rewrite Hrun4. discriminate.
      + cbn. rewrite Hrun4. discriminate.
      + left. split; [reflexivity | cbn; exact Hrun4].
    - unfold thread_at at 1. cbn [with_current with_threads sc_threads].
      rewrite thread_at_update by (try apply (li_wf _ Hinv4); try lia;
                                   pose proof (wf_count _ (li_wf _ Hinv4)); slia).
      rewrite Z.eqb_refl. reflexivity. }
  set (s6 := with_threads s5 (aset (sc_threads s5) x (set_state (thread_at s5 x) THREAD_READY))).
  assert (load_inv (with_current s6 (-1))) as Hinv6.
  { subst s6. apply load_inv_restate; try assumption.
    - right. exact Hc5.
    - reflexivity.
    - rewrite Hth5. cbn. rewrite Hrun4. discriminate.
    - cbn. discriminate.
    - right. split; reflexivity. }
  destruct (load_inv_push (with_current s6 (-1)) x Hinv6 ltac:(cbn; lia))
    as (Hinv7 & _ & Hcur7).
  split; [|reflexivity].
  assert (with_current (snd (push_rq s6 x)) (-1) = snd (push_rq (with_current s6 (-1)) x))
    as ->.
  { unfold push_rq. cbn [with_current sc_rq_tail sc_rq_head].
    destruct (_ =? _); reflexivity. }
  exact Hinv7.
Qed.

Lemma load_inv_drive {E} (code : Z -> Z -> E -> slice E) (ops : list driver_op) :
  forall w, load_inv (fst w) -> sc_current_thread (fst w) = -1 ->
  load_inv (fst (drive code w ops)) /\ sc_current_thread (fst (drive code w ops)) = -1.
Proof.
  induction ops as [|o ops IH]; intros w Hinv Hcur; [split; assumption|].
  cbn [drive fold_left].
  assert (load_inv (fst (drive_step code w o)) /\
          sc_current_thread (fst (drive_step code w o)) = -1) as [Hinv' Hcur'].
  { destruct o as [|c]; destruct w as [s e]; cbn [drive_step fst snd] in *.
    - apply load_inv_schedule; assumption.
    - split; [apply load_inv_call, Hinv|].
      destruct (do_call_current s c (li_wf _ Hinv)) as [H|H]; congruence. }
  apply IH; assumption.
Qed.

(** Under the invariant, a gap of more than one means that the max-load
    CPU has a [Ready] thread to give away. *)
Lemma load_inv_ready_on_max s :
  load_inv s -> 1 < load_gap s ->
  exists k, first_ready_on s (snd (min_max_cpu s)) k.
Proof.
  intros Hinv Hgap. pose proof (li_wf _ Hinv) as Hwf.
  pose proof (wf_cpus _ Hwf) as Hcpus. pose proof (wf_count _ Hwf) as Hc.
  destruct (min_max_cpu_spec s ltac:(lia)) as (Hmn & Hmx & _).
  unfold load_gap in Hgap.
  set (mn := fst (min_max_cpu s)) in *. set (mx := snd (min_max_cpu s)) in *.
  pose proof (li_load _ Hinv mn ltac:(slia)) as Hlmn.
  pose proof (li_load _ Hinv mx ltac:(slia)) as Hlmx.
  pose proof (tally_nonneg (live_on s mn) (Z.to_nat (sc_thread_count s))) as Hnn.
  destruct (tally_two (live_on s mx) (sc_current_thread s)
              (Z.to_nat (sc_thread_count s)) ltac:(lia)) as (i & Hi & Hne & Hlive).
  unfold live_on in Hlive. apply andb_true_iff in Hlive as [Hcpu Hnd].
  apply negb_true_iff, state_eqb_neq in Hnd.
  assert (ready_on s mx i = true) as Hready.
  { unfold ready_on. rewrite Hcpu, andb_true_r. apply state_eqb_eq.
    destruct (li_idle _ Hinv i ltac:(lia) Hne) as [H|H]; [exact H | contradiction]. }
  destruct (first_true_dec (ready_on s mx) (Z.to_nat (sc_thread_count s)) 0)
    as [Hnone|(k & Hk & Hrk & Hbefore)].
  - rewrite Hnone in Hready by lia. discriminate.
  - exists k. split; [lia|]. split; [exact Hrk|]. intros j Hj. apply Hbefore. lia.
Qed.

(** ** The claim on load balancing *)

(** C6. A call of [load_balance] selects a CPU of least load and a CPU of
    greatest load. If the two counters differ by at most 1 the call changes
    nothing. If they differ by more, the first [Ready] thread assigned to
    the max-load CPU is moved to the min-load CPU: its [cpu_id] is
    rewritten, the counter of the max-load CPU goes down by one, that of
    the min-load CPU up by one, and no other thread or counter changes
    (with no [Ready] thread on that CPU the call changes nothing); so a
    call migrates at most one thread. In every state that the driver
    reaches from [init_scheduler], whatever the thread bodies do, the
    max-load CPU does have a [Ready] thread when the gap exceeds 1, so that
    exactly one thread is migrated. The gap never grows from one call to
    the next; and from [t] ready threads all on CPU 0, it is at most 1
    after [t] calls. *)
Theorem load_balance_migrates_and_converges :
  (forall s, sched_wf s ->
     let mn := fst (min_max_cpu s) in
     let mx := snd (min_max_cpu s) in
     (0 <= mn < sc_cpu_count s /\ 0 <= mx < sc_cpu_count s /\
      forall c, 0 <= c < sc_cpu_count s ->
                load_at s mn <= load_at s c <= load_at s mx) /\
     (load_at s mx - load_at s mn <= 1 -> load_balance s = s) /\
     (1 < load_at s mx - load_at s mn ->
      forall k, first_ready_on s mx k ->
        let s' := load_balance s in
        s' = migrated s mn mx k /\
        thread_at s' k = set_cpu (thread_at s k) mn /\
        (forall j, 0 <= j -> j <> k -> thread_at s' j = thread_at s j) /\
        load_at s' mx = load_at s mx - 1 /\
        load_at s' mn = load_at s mn + 1 /\
        (forall c, 0 <= c -> c <> mn -> c <> mx -> load_at s' c = load_at s c)) /\
     (1 < load_at s mx - load_at s mn ->
      (forall k, 0 <= k < sc_thread_count s -> ready_on s mx k = false) ->
      load_balance s = s) /\
     load_gap (load_balance s) <= load_gap s) /\
  (forall (E : Type) (code : Z -> Z -> E -> slice E) (cpus : Z) (e : E)
          (ops : list driver_op),
     let s := fst (drive code (init_scheduler boot_state cpus, e) ops) in
     1 < load_gap s ->
     exists k, first_ready_on s (snd (min_max_cpu s)) k /\
               load_balance s
               = migrated s (fst (min_max_cpu s)) (snd (min_max_cpu s)) k) /\
  (forall s t c, skewed s t c ->
     (forall n : nat,
        load_gap (Nat.iter (S n) load_balance s)
        <= load_gap (Nat.iter n load_balance s)) /\
     load_gap (Nat.iter (Z.to_nat t) load_balance s) <= 1).
Proof.
  split; [|split].
  - intros s Hwf. cbn zeta.
    pose proof (wf_cpus _ Hwf) as Hc. pose proof (wf_count _ Hwf) as Hcount.
    destruct (min_max_cpu_spec s ltac:(lia)) as (Hmn & Hmx & Hall & _ & _).
    set (mn := fst (min_max_cpu s)) in *. set (mx := snd (min_max_cpu s)) in *.
    split; [split; [exact Hmn | split; [exact Hmx | exact Hall]]|].
    split; [|split; [|split]].
    + intros Hle.
      destruct (load_balance_cases s) as [[_ H]|[(H & _)|(H & _)]];
        [exact H | unfold load_gap in H; fold mn mx in H; lia..].
    + intros Hgt k Hk.
      assert (load_balance s = migrated s mn mx k) as Hlb.
      { destruct (load_balance_cases s) as [[H _]|[(_ & Hnone & _)|(_ & k' & Hk' & Hres)]].
        - unfold load_gap in H. fold mn mx in H. lia.
        - fold mx in Hnone. destruct Hk as (Hr & Hready & _).
          rewrite Hnone in Hready by lia. discriminate.
        - fold mx mn in Hk', Hres.
          destruct Hk as (Hr & Hready & Hbefore). destruct Hk' as (Hr' & Hready' & Hbefore').
          destruct (Z.lt_trichotomy k' k) as [Hlt|[->|Hlt]]; [|exact Hres|].
          + rewrite Hbefore in Hready' by lia. discriminate.
          + rewrite Hbefore' in Hready by lia. discriminate. }
      rewrite Hlb. destruct Hk as (Hr & _ & _).
      assert (mn <> mx) as Hne by (intros Heq; rewrite Heq in Hgt; lia).
      split; [reflexivity|]. split; [|split; [|split; [|split]]].
      * rewrite migrated_thread by (try assumption; slia). rewrite Z.eqb_refl. reflexivity.
      * intros j Hj Hjk. rewrite migrated_thread by (try assumption; slia).
        rewrite (proj2 (Z.eqb_neq k j)) by lia. reflexivity.
      * rewrite migrated_load by (try assumption; slia).
        rewrite (proj2 (Z.eqb_neq mx mn)) by lia. rewrite Z.eqb_refl. reflexivity.
      * rewrite migrated_load by (try assumption; slia). rewrite Z.eqb_refl. reflexivity.
      * intros c' Hc' H1 H2. rewrite migrated_load by (try assumption; slia).
        rewrite (proj2 (Z.eqb_neq c' mn)), (proj2 (Z.eqb_neq c' mx)) by lia. reflexivity.
    + intros Hgt Hnone.
      destruct (load_balance_cases s) as [[_ H]|[(_ & _ & H)|(_ & k & Hk & _)]];
        [exact H | exact H |].
      fold mx in Hk. destruct Hk as (Hr & Hready & _).
      rewrite Hnone in Hready by lia. discriminate.
    + apply load_gap_monotone, Hwf.
  - intros E code cpus e ops. cbn zeta. intros Hgap.
    destruct (load_inv_drive code ops (init_scheduler boot_state cpus, e)
                (load_inv_init cpus) eq_refl) as [Hinv _].
    set (s := fst (drive code (init_scheduler boot_state cpus, e) ops)) in *.
    destruct (load_inv_ready_on_max s Hinv Hgap) as (k & Hk).
    exists k. split; [exact Hk|].
    destruct (load_balance_cases s) as [[H _]|[(_ & Hnone & _)|(_ & k' & Hk' & Hres)]].
    + lia.
    + destruct Hk as (Hr & Hready & _). rewrite Hnone in Hready by lia. discriminate.
    + destruct Hk as (Hr & Hready & Hbefore). destruct Hk' as (Hr' & Hready' & Hbefore').
      destruct (Z.lt_trichotomy k' k) as [Hlt|[->|Hlt]]; [|exact Hres|].
      * rewrite Hbefore in Hready' by lia. discriminate.
      * rewrite Hbefore' in Hready by lia. discriminate.
  - intros s t c Hsk. pose proof (skewed_balance_inv s t c Hsk) as Hinv.
    split.
    + intros n.
      change (Nat.iter (S n) load_balance s)
        with (load_balance (Nat.iter n load_balance s)).
      destruct (balance_inv_iter t n 0 s Hinv) as [[_ Hfix]|Hinv'].
      * rewrite Hfix. lia.
      * apply load_gap_monotone. apply (bal_wf _ _ _ Hinv').
    + pose proof (bal_n _ _ _ Hinv) as Ht.
      destruct (balance_inv_iter t (Z.to_nat t) 0 s Hinv) as [[Hgap _]|Hinv'];
        [exact Hgap|].
      rewrite Z2Nat.id in Hinv' by lia.
      destruct (balance_inv_step t (0 + t) _ Hinv') as [[Hgap _]|(_ & Hlt & _)];
        [exact Hgap | lia].
Qed.

Lemma load_balance_migrates_and_converges_witness :
  (forall n : nat,
     load_gap (Nat.iter (S n) load_balance skewed_example)
     <= load_gap (Nat.iter n load_balance skewed_example)) /\
  load_gap (Nat.iter (Z.to_nat 16) load_balance skewed_example) <= 1.
Proof.
  apply (proj2 (proj2 load_balance_migrates_and_converges) skewed_example 16 4).
  exact skewed_example_is_skewed.
Defined.

End BalanceProofs.
(** * Further properties of the allocator *)

Module MemExtra.
Import Mem MemProofs.

(** ** The registry along a run *)

Lemma run_snoc ops o : run (ops ++ [o]) = step (run ops) o.
Proof. unfold run. rewrite fold_left_app. reflexivity. Qed.

Lemma run_app ops ops' : run (ops ++ ops') = fold_left step ops' (run ops).
Proof. unfold run. apply fold_left_app. Qed.

Lemma live_regions_grow s held (r : memory_region) bm h en :
  mm_inv s held -> region_count s < MAX_MEMORY_REGIONS ->
  live_regions (mkMM bm h (aset (memory_regions s) (region_count s) r)
                     (region_count s + 1) en)
  = live_regions s ++ [r].
Proof.
  intros Hinv Hroom. unfold live_regions. cbn [region_count memory_regions].
  pose proof (inv_count _ _ Hinv). pose proof (inv_len _ _ Hinv) as Hl.
  apply live_regions_append; [lia|]. rewrite Hl. zlia.
Qed.

(** What a granted release does to the state. *)
Lemma free_granted_effect s held g :
  mm_inv s held ->
  let s' := snd (unregister_memory_region
                   (mkMM (bitmap_clear (page_bitmap s) g)
                         (if g <? next_free_page s then g else next_free_page s)
                         (memory_regions s) (region_count s)
                         (memory_protection_enabled s)) (g * PAGE_SIZE)) in
  live_regions s' = remove_base (g * PAGE_SIZE) (live_regions s) /\
  page_bitmap s' = bitmap_clear (page_bitmap s) g /\
  next_free_page s' = Z.min (next_free_page s) g.
Proof.
  intros Hinv s'.
  pose proof (inv_count _ _ Hinv) as Hc. pose proof (inv_len _ _ Hinv) as Hl.
  destruct (unregister_spec
              (mkMM (bitmap_clear (page_bitmap s) g)
                    (if g <? next_free_page s then g else next_free_page s)
                    (memory_regions s) (region_count s)
                    (memory_protection_enabled s)) (g * PAGE_SIZE))
    as (H1 & _ & _ & H2 & H3 & _).
  { cbn. lia. }
  { cbn. rewrite Hl. zlia. }
  fold s' in H1, H2, H3. split; [exact H1|]. split; [exact H2|].
  rewrite H3. cbn [next_free_page].
  destruct (Z.ltb_spec g (next_free_page s)); lia.
Qed.

Lemma owned_page_base r : owned_page r -> base_address r <> 0.
Proof.
  intros (f & cur & Hf & _ & ->). cbn. zlia.
Qed.

Lemma remove_base_shape ptr pages :
  ptr <> 0 ->
  remove_base ptr (kernel_region :: pages) = kernel_region :: remove_base ptr pages.
Proof.
  intros Hp. cbn [remove_base]. change (base_address kernel_region) with 0.
  destruct (Z.eqb_spec 0 ptr); [congruence | reflexivity].
Qed.

Lemma step_shape s held o :
  mm_inv s held -> registry_shape s -> registry_shape (fst (step (s, held) o)).
Proof.
  intros Hinv (pages & Hlive & Hpages).
  destruct o as [cur sz|cur ptr]; cbn [step].
  - destruct (Z.eq_dec cur 0) as [->|Hcur].
    { rewrite allocate_no_user. exists pages. auto. }
    destruct (Z.eq_dec sz PAGE_SIZE) as [->|Hsz].
    2:{ rewrite allocate_bad_size by assumption. exists pages. auto. }
    pose proof (inv_hint _ _ Hinv) as Hh.
    destruct (allocate_cases s cur Hcur (inv_bitmap _ _ Hinv))
      as [(Ha & _)|(f & _ & Hf & Hclear & _ & [(Hfull & Ha)|(Hroom & Ha)])];
      [zlia | rewrite Ha; cbn [fst snd]..].
    + exists pages. auto.
    + exists pages. auto.
    + exists (pages ++ [page_region f cur]). split.
      * rewrite (live_regions_grow s held) by assumption.
        rewrite Hlive. reflexivity.
      * apply Forall_app. split; [exact Hpages|].
        apply Forall_singleton. exists f, cur. split; [zlia|]. auto.
  - destruct (free_cases s held cur ptr Hinv) as [[Hs Hlog]|(g & Hg & -> & _ & _ & Hfree)].
    + destruct (free_memory s cur ptr) as [s' log]. cbn [fst snd] in *.
      subst s'. destruct (was_logged _ _); exists pages; auto.
    + rewrite Hfree. cbn [fst snd].
      destruct (free_granted_effect s held g Hinv) as (H1 & _ & _).
      exists (remove_base (g * PAGE_SIZE) pages). split.
      * match goal with |- context [if ?c then _ else _] => destruct c end;
          cbn [fst]; rewrite H1, Hlive; apply remove_base_shape; zlia.
      * apply remove_base_Forall. exact Hpages.
Qed.

Lemma init_shape : registry_shape init_memory_management.
Proof. exists []. split; [reflexivity | constructor]. Qed.

Lemma run_shape ops : registry_shape (fst (run ops)).
Proof.
  induction ops as [|o ops IH] using rev_ind.
  - apply init_shape.
  - rewrite run_snoc. pose proof (run_inv ops) as Hinv.
    destruct (run ops) as [s held]. apply (step_shape s held); assumption.
Qed.


(** ** Bitmaps as sets of frames *)

Lemma byte_ext (x y : Z) :
  0 <= x < 256 -> 0 <= y < 256 ->
  (forall k, 0 <= k < 8 -> Z.testbit x k = Z.testbit y k) -> x = y.
Proof.
  intros Hx Hy Hbits. apply Z.bits_inj'. intros n Hn.
  destruct (Z.ltb_spec n 8) as [Hn8|Hn8]; [apply Hbits; lia|].
  assert (forall z, 0 <= z < 256 -> Z.testbit z n = false) as Hhigh.
  { intros z Hz. destruct (Z.eq_dec z 0) as [->|Hz0]; [apply Z.bits_0|].
    apply Z.bits_above_log2; [lia|].
    apply Z.log2_lt_pow2; [lia|].
    apply Z.lt_le_trans with (2 ^ 8); [simpl; lia|].
    apply Z.pow_le_mono_r; lia. }
  rewrite !Hhigh by assumption. reflexivity.
Qed.

Lemma bitmap_ext (b b' : list Z) :
  bitmap_ok b -> bitmap_ok b' ->
  (forall f, 0 <= f < TOTAL_PAGES -> frame_used b f = frame_used b' f) ->
  b = b'.
Proof.
  intros Hok Hok' Hall. apply list_eq. intros i.
  destruct Hok as [Hlen Hb]. destruct Hok' as [Hlen' Hb'].
  destruct (Nat.lt_ge_cases i (length b)) as [Hi|Hi].
  - destruct (lookup_lt_is_Some_2 b i Hi) as [x Hx].
    destruct (lookup_lt_is_Some_2 b' i ltac:(lia)) as [y Hy].
    rewrite Hx, Hy. f_equal.
    rewrite Forall_lookup in Hb, Hb'.
    apply byte_ext; [apply (Hb _ _ Hx) | apply (Hb' _ _ Hy)|].
    intros k Hk.
    assert (0 <= Z.of_nat i < BITMAP_SIZE) as Hib by (rewrite Hlen in Hi; lia).
    specialize (Hall (8 * Z.of_nat i + k) ltac:(zlia)).
    rewrite !frame_used_testbit in Hall by lia.
    destruct (frame_in_byte (Z.of_nat i) k Hk) as [Hq Hr].
    rewrite Hq, Hr in Hall. unfold aget in Hall.
    rewrite Nat2Z.id in Hall.
    rewrite (nth_lookup_Some _ _ _ _ Hx), (nth_lookup_Some _ _ _ _ Hy) in Hall.
    exact Hall.
  - rewrite !lookup_ge_None_2 by lia. reflexivity.
Qed.

Lemma bitmap_set_used (b : list Z) (f : Z) :
  bitmap_ok b -> 0 <= f < TOTAL_PAGES -> frame_used b f = true ->
  bitmap_set b f = b.
Proof.
  intros Hok Hf Hused. apply bitmap_ext; [apply bitmap_set_ok; exact Hok | exact Hok |].
  intros g Hg. rewrite frame_used_set by (assumption || lia).
  destruct (Z.eqb_spec f g) as [->|]; [symmetry; exact Hused | reflexivity].
Qed.

(** ** The validator on the states of a run *)

Lemma shape_region s held r :
  mm_inv s held -> registry_shape s -> r ∈ live_regions s ->
  r = kernel_region \/ owned_page r.
Proof.
  intros _ (pages & Hlive & Hpages) Hin. rewrite Hlive in Hin.
  apply elem_of_cons in Hin as [->|Hin]; [left; reflexivity|].
  right. rewrite Forall_forall in Hpages. apply Hpages. exact Hin.
Qed.

(** A registered region that contains a well-formed range is the region
    of the page the range starts at. *)
Lemma covering_region s held r a n :
  mm_inv s held -> registry_shape s -> r ∈ live_regions s ->
  range_ok a n -> 0 <= n -> covers r a (a + n) = true ->
  exists f c, kernel_pages <= f < TOTAL_PAGES /\ c <> 0 /\
              r = page_region f c /\ a = f * PAGE_SIZE /\ n <= PAGE_SIZE.
Proof.
  intros Hinv Hshape Hin (Ha0 & Hn0 & Hsum & Hlo & Hhi & Hal) Hn Hcov.
  unfold covers in Hcov. apply andb_true_iff in Hcov as [Hge Hle].
  rewrite Z.geb_leb in Hge. apply Z.leb_le in Hge. apply Z.leb_le in Hle.
  destruct (shape_region s held r Hinv Hshape Hin) as [->|(f & c & Hf & Hc & ->)].
  - change (a + n <= 1048576) in Hle. zlia.
  - exists f, c. cbn [page_region base_address size] in *.
    rewrite u32_small in Hle by zlia.
    assert (a = f * PAGE_SIZE) as Heq.
    { unfold PAGE_SIZE in *.
      apply Z.mod_divide in Hal as [q Hq]; [|lia]. subst a. nia. }
    repeat split; try assumption; lia.
Qed.

Lemma owns_page s held cur a :
  mm_inv s held -> registry_shape s -> owns s cur a ->
  exists f, kernel_pages <= f < TOTAL_PAGES /\ a = f * PAGE_SIZE /\ cur <> 0 /\
            page_region f cur ∈ live_regions s /\ a ∈ held.
Proof.
  intros Hinv Hshape [Ha Hin].
  destruct (shape_region s held _ Hinv Hshape Hin) as [Hk|(f & c & Hf & Hc & Heq)].
  - exfalso. apply Ha. apply (f_equal base_address) in Hk. exact Hk.
  - injection Heq as Hb Ho. subst a c.
    exists f. repeat split; try assumption; try lia.
    apply (inv_held _ _ Hinv). split; [exact Ha|].
    apply list_elem_of_fmap. exists (page_region f cur). split; [reflexivity | exact Hin].
Qed.

Lemma shaped_validate s held cur a n access :
  mm_inv s held -> registry_shape s ->
  0 <= a < 4294967296 -> 0 <= n < 4294967296 ->
  (fst (validate_memory_access s cur a n access) = true <->
   owns s cur a /\ 1 <= n <= PAGE_SIZE /\
   Z.land (Z.lor MEM_PROT_READ MEM_PROT_WRITE) access <> 0).
Proof.
  intros Hinv Hshape Ha Hn.
  pose proof (inv_count _ _ Hinv) as Hc. pose proof (inv_len _ _ Hinv) as Hlen.
  rewrite (validate_approves_iff s cur a n access (inv_enabled _ _ Hinv) Ha Hn).
  split.
  - intros (Hok & i & (Hi & Hcov & Hbefore) & Hperm & Hown).
    assert (live_regions s !! Z.to_nat i = Some (region_at s i)) as Hl
      by (apply live_lookup; [lia | rewrite Hlen; zlia]).
    assert (region_at s i ∈ live_regions s) as Hin
      by (eapply list_elem_of_lookup_2; exact Hl).
    destruct (covering_region s held _ a n Hinv Hshape Hin Hok ltac:(lia) Hcov)
      as (f & c & Hf & Hc0 & Hr & Heq & Hle).
    rewrite Hr in Hperm, Hown, Hin. cbn [page_region protection owner] in *.
    destruct Hown as [Hown|Hown]; [congruence|]. subst c.
    split; [|split].
    + split; [destruct Hok; assumption|]. subst a. exact Hin.
    + destruct Hok as (_ & Hn0 & _). lia.
    + exact Hperm.
  - intros (Hown & Hn1 & Hperm).
    destruct (owns_page s held cur a Hinv Hshape Hown) as (f & Hf & -> & Hcur & Hin & _).
    assert (range_ok (f * PAGE_SIZE) n) as Hok.
    { unfold range_ok. repeat split; try zlia.
      unfold PAGE_SIZE. apply Z.mod_mul. lia. }
    split; [exact Hok|].
    apply list_elem_of_lookup_1 in Hin as [m Hm].
    assert (m < Z.to_nat (region_count s))%nat as Hmc.
    { apply lookup_lt_Some in Hm. rewrite (inv_live_length _ _ Hinv) in Hm. exact Hm. }
    assert (forall k, 0 <= k < region_count s ->
              live_regions s !! Z.to_nat k = Some (region_at s k)) as Hlook
      by (intros k Hk; apply live_lookup; [lia | rewrite Hlen; zlia]).
    destruct (first_covering_dec (memory_regions s) (f * PAGE_SIZE)
                (f * PAGE_SIZE + n) (Z.to_nat (region_count s)) 0)
      as [Hnone|(k & Hk & Hcov & Hbefore)].
    + exfalso. specialize (Hnone (Z.of_nat m) ltac:(lia)).
      pose proof (Hlook (Z.of_nat m) ltac:(lia)) as Hl.
      rewrite Nat2Z.id, Hm in Hl. injection Hl as Hl.
      unfold region_at in Hl. rewrite <- Hl in Hnone.
      unfold covers in Hnone. cbn [page_region base_address size] in Hnone.
      rewrite u32_small in Hnone by zlia.
      rewrite Z.geb_leb, Z.leb_refl in Hnone.
      rewrite (proj2 (Z.leb_le _ _)) in Hnone by lia. discriminate.
    + exists k.
      assert (first_covering s (f * PAGE_SIZE) n k) as Hfc.
      { split; [lia|]. split; [exact Hcov|]. intros j Hj. apply Hbefore. lia. }
      split; [exact Hfc|].
      pose proof (Hlook k ltac:(lia)) as Hl.
      assert (region_at s k ∈ live_regions s) as Hink
        by (eapply list_elem_of_lookup_2; exact Hl).
      fold (region_at s k) in Hcov.
      destruct (covering_region s held _ _ n Hinv Hshape Hink Hok ltac:(lia) Hcov)
        as (g & c & Hg & Hc0 & Hr & Heq & _).
      apply frame_address_inj in Heq. subst g.
      pose proof (inv_nodup _ _ Hinv) as Hnd.
      assert ((base_address <$> live_regions s) !! Z.to_nat k = Some (f * PAGE_SIZE)) as H1
        by (rewrite list_lookup_fmap, Hl, Hr; reflexivity).
      assert ((base_address <$> live_regions s) !! m = Some (f * PAGE_SIZE)) as H2
        by (rewrite list_lookup_fmap, Hm; reflexivity).
      pose proof (NoDup_lookup _ _ _ _ Hnd H1 H2) as Hkm.
      rewrite Hkm, Hm in Hl. injection Hl as Hl. rewrite <- Hl.
      cbn [page_region protection owner]. split; [exact Hperm | right; reflexivity].
Qed.


(** ** Allocation and release on the states of a run *)

Lemma validate_loop_reason r cur st en access (n : nat) : forall i,
  fst (validate_loop r cur st en access n i) = false ->
  exists c, validate_loop r cur st en access n i = (false, Some c).
Proof.
  induction n as [|n IH]; intros i; cbn [validate_loop].
  - intros _. eexists. reflexivity.
  - repeat match goal with
           | |- context [if ?c then _ else _] => destruct c
           end; try (intros _; eexists; reflexivity); try discriminate. apply IH.
Qed.

Lemma validate_false_reason s cur a n access :
  memory_protection_enabled s = true ->
  fst (validate_memory_access s cur a n access) = false ->
  exists c, validate_memory_access s cur a n access = (false, Some c).
Proof.
  intros Hen. unfold validate_memory_access. rewrite Hen. cbn [negb].
  repeat match goal with
         | |- context [if ?c then _ else _] => destruct c
         end; try (intros _; eexists; reflexivity).
  apply validate_loop_reason.
Qed.

Lemma land_rw_write : Z.land (Z.lor MEM_PROT_READ MEM_PROT_WRITE) MEM_PROT_WRITE <> 0.
Proof. discriminate. Qed.

(** [free_memory] on a state of a run: the page is released exactly when
    it is registered to the caller. *)
Lemma free_memory_cases s held cur ptr :
  mm_inv s held -> registry_shape s ->
  (owns s cur ptr /\
   exists g, kernel_pages <= g < TOTAL_PAGES /\ ptr = g * PAGE_SIZE /\ cur <> 0 /\
     free_memory s cur ptr =
       (snd (unregister_memory_region
               (mkMM (bitmap_clear (page_bitmap s) g)
                     (if g <? next_free_page s then g else next_free_page s)
                     (memory_regions s) (region_count s)
                     (memory_protection_enabled s)) ptr),
        [("MEMORY_FREED"%string, ptr)])) \/
  (~ owns s cur ptr /\ fst (free_memory s cur ptr) = s /\
   was_logged "MEMORY_FREED" (snd (free_memory s cur ptr)) = false /\
   (snd (free_memory s cur ptr) = [("NULL_POINTER_FREE"%string, 0)] \/
    exists c, snd (free_memory s cur ptr) = [(c, ptr); ("INVALID_FREE"%string, ptr)])).
Proof.
  intros Hinv Hshape.
  assert (forall c, snd (free_memory s cur ptr) = [(c, ptr); ("INVALID_FREE"%string, ptr)] ->
            was_logged "MEMORY_FREED" (snd (free_memory s cur ptr)) = false) as Hnf.
  { intros c Hc.
    destruct (free_cases s held cur ptr Hinv) as [[_ Hw]|(g & _ & _ & _ & _ & Hfree)];
      [exact Hw|].
    rewrite Hfree in Hc. discriminate. }
  revert Hnf. unfold free_memory.
  destruct (Z.eqb_spec ptr 0) as [->|Hnz].
  { intros _. right. split; [intros [H _]; congruence|]. split; [reflexivity|].
    split; [reflexivity|]. left. reflexivity. }
  intros Hnf.
  destruct (fst (validate_memory_access s cur ptr PAGE_SIZE MEM_PROT_WRITE)) eqn:Hval;
    cbn [negb].
  - destruct (validate_page_true _ _ _ _ (inv_enabled _ _ Hinv) Hval) as [Hp Hok].
    pose proof Hval as Hown.
    apply (shaped_validate s held cur ptr PAGE_SIZE MEM_PROT_WRITE Hinv Hshape Hp
             ltac:(zlia)) in Hown as (Hown & _).
    destruct (owns_page s held cur ptr Hinv Hshape Hown) as (g & Hg & Hptr & Hcur & _).
    left. split; [exact Hown|]. exists g.
    split; [exact Hg|]. split; [exact Hptr|]. split; [exact Hcur|].
    rewrite (proj2 (Z.eqb_neq _ _) Hcur). subst ptr. rewrite page_frame.
    rewrite (proj2 (Z.ltb_lt g TOTAL_PAGES)) by lia.
    cbn [set_bitmap next_free_page].
    destruct (g <? next_free_page s); reflexivity.
  - cbn [negb] in Hnf.
    destruct (validate_false_reason _ _ _ _ _ (inv_enabled _ _ Hinv) Hval) as [c Hc].
    right. split; [|split; [reflexivity|split]].
    2:{ apply (Hnf c). rewrite Hc. reflexivity. }
    2:{ right. exists c. rewrite Hc. reflexivity. }
    + intros Hown.
      destruct (owns_page s held cur ptr Hinv Hshape Hown) as (g & Hg & Hptr & _).
      assert (fst (validate_memory_access s cur ptr PAGE_SIZE MEM_PROT_WRITE) = true) as Ht.
      { apply (shaped_validate s held cur ptr PAGE_SIZE MEM_PROT_WRITE Hinv Hshape);
          [zlia | zlia |].
        split; [exact Hown|]. split; [zlia | exact land_rw_write]. }
      congruence.
Qed.

Lemma set_hint_live s h : live_regions (set_hint s h) = live_regions s.
Proof. reflexivity. Qed.

Lemma elem_of_remove_base (r : memory_region) address l :
  r ∈ l -> base_address r <> address -> r ∈ remove_base address l.
Proof.
  induction l as [|x l IH]; cbn [remove_base]; [rewrite elem_of_nil; tauto|].
  rewrite elem_of_cons. intros [->|Hin] Hne.
  - destruct (Z.eqb_spec (base_address x) address); [congruence|].
    apply elem_of_cons. left. reflexivity.
  - destruct (Z.eqb_spec (base_address x) address); [exact Hin|].
    apply elem_of_cons. right. apply IH; assumption.
Qed.

(** Two regions registered at one address are one region. *)
Lemma same_base_same_region s held (r r' : memory_region) :
  mm_inv s held -> r ∈ live_regions s -> r' ∈ live_regions s ->
  base_address r = base_address r' -> r = r'.
Proof.
  intros Hinv Hr Hr' Hb.
  apply list_elem_of_lookup_1 in Hr as [i Hi].
  apply list_elem_of_lookup_1 in Hr' as [j Hj].
  pose proof (inv_nodup _ _ Hinv) as Hnd.
  assert ((base_address <$> live_regions s) !! i = Some (base_address r)) as H1
    by (rewrite list_lookup_fmap, Hi; reflexivity).
  assert ((base_address <$> live_regions s) !! j = Some (base_address r)) as H2
    by (rewrite list_lookup_fmap, Hj, Hb; reflexivity).
  pose proof (NoDup_lookup _ _ _ _ Hnd H1 H2) as Hij. subst j. congruence.
Qed.

(** X1. On every state reached from initialisation by calls of
    [allocate_memory] and [free_memory], with any principals and
    arguments: [allocate_memory] returns a page exactly when a principal is
    current, the size asked for is one page, the registry has a free slot
    and some frame at or above the hint is clear. A failed call leaves the
    bitmap and the registry as they were. A successful call returns the
    page-aligned address, inside the user window, of the first clear frame
    at or above the hint, marks that frame, moves the hint past it and
    registers the page to the caller at the end of the registry. *)
Theorem allocate_memory_outcome (ops : list mm_op) (cur sz : Z) :
  let s := fst (run ops) in
  let a := fst (fst (allocate_memory s cur sz)) in
  let s' := snd (fst (allocate_memory s cur sz)) in
  (a <> 0 <->
   cur <> 0 /\ sz = PAGE_SIZE /\ region_count s < MAX_MEMORY_REGIONS /\
   exists f, next_free_page s <= f < TOTAL_PAGES /\
             frame_used (page_bitmap s) f = false) /\
  (a = 0 -> page_bitmap s' = page_bitmap s /\ live_regions s' = live_regions s) /\
  (a <> 0 ->
   a mod PAGE_SIZE = 0 /\ KERNEL_END <= a < PHYS_MEMORY_END /\
   frame_used (page_bitmap s) (a / PAGE_SIZE) = false /\
   (forall j, next_free_page s <= j < a / PAGE_SIZE ->
              frame_used (page_bitmap s) j = true) /\
   page_bitmap s' = bitmap_set (page_bitmap s) (a / PAGE_SIZE) /\
   next_free_page s' = a / PAGE_SIZE + 1 /\
   live_regions s' = live_regions s ++ [page_region (a / PAGE_SIZE) cur] /\
   owns s' cur a).
Proof.
  cbn zeta. pose proof (run_inv ops) as Hinv.
  destruct (run ops) as [s held]. cbn [fst snd] in *.
  pose proof (inv_hint _ _ Hinv) as Hh.
  destruct (Z.eq_dec cur 0) as [->|Hcur].
  { rewrite allocate_no_user. cbn [fst snd].
    split; [split; [congruence | intros (H & _); congruence]|].
    split; [auto | congruence]. }
  destruct (Z.eq_dec sz PAGE_SIZE) as [->|Hsz].
  2:{ rewrite allocate_bad_size by assumption. cbn [fst snd].
      split; [split; [congruence | intros (_ & H & _); congruence]|].
      split; [auto | congruence]. }
  destruct (allocate_cases s cur Hcur (inv_bitmap _ _ Hinv))
    as [(Ha & _ & Hall)|(f & _ & Hf & Hclear & Hfirst & [(Hfull & Ha)|(Hroom & Ha)])];
    [zlia | rewrite Ha; cbn [fst snd]..].
  - split; [split; [congruence|]|split; [auto | congruence]].
    intros (_ & _ & _ & f & Hf & Hclear). rewrite Hall in Hclear by lia. discriminate.
  - split; [split; [congruence|]|split; [auto | congruence]].
    intros (_ & _ & Hroom & _). lia.
  - assert (f * PAGE_SIZE <> 0) as Hnz by zlia.
    split; [split; [intros _|intros _; exact Hnz]|split; [congruence|intros _]].
    + split; [exact Hcur|]. split; [reflexivity|]. split; [exact Hroom|].
      exists f. split; [lia | exact Hclear].
    + rewrite page_frame.
      split; [unfold PAGE_SIZE; apply Z.mod_mul; lia|].
      split; [zlia|]. split; [exact Hclear|]. split; [exact Hfirst|].
      split; [reflexivity|]. split; [reflexivity|].
      rewrite (live_regions_grow s held) by assumption.
      split; [reflexivity|]. split; [exact Hnz|].
      rewrite (live_regions_grow s held) by assumption.
      apply elem_of_app. right. apply list_elem_of_singleton. reflexivity.
Qed.

(** X2. On every state of a run, [free_memory] releases the page at [ptr]
    exactly when that page is registered to the calling principal. Then it
    logs MEMORY_FREED, clears the frame's bit, lowers the hint to the frame
    if it was above, and removes the page's region; the page is no longer
    registered to anybody. In every other case the state is unchanged and
    the call logs NULL_POINTER_FREE, or the validator's rejection followed
    by INVALID_FREE; NO_USER_FREE and INVALID_FRAME are never logged. *)
Theorem free_memory_outcome (ops : list mm_op) (cur ptr : Z) :
  let s := fst (run ops) in
  let s' := fst (free_memory s cur ptr) in
  let log := snd (free_memory s cur ptr) in
  (owns s cur ptr ->
   log = [("MEMORY_FREED"%string, ptr)] /\
   live_regions s' = remove_base ptr (live_regions s) /\
   page_bitmap s' = bitmap_clear (page_bitmap s) (ptr / PAGE_SIZE) /\
   next_free_page s' = Z.min (next_free_page s) (ptr / PAGE_SIZE) /\
   frame_used (page_bitmap s') (ptr / PAGE_SIZE) = false /\
   forall c, ~ owns s' c ptr) /\
  (~ owns s cur ptr ->
   s' = s /\
   (log = [("NULL_POINTER_FREE"%string, 0)] \/
    exists c, log = [(c, ptr); ("INVALID_FREE"%string, ptr)])).
Proof.
  cbn zeta. pose proof (run_inv ops) as Hinv. pose proof (run_shape ops) as Hshape.
  destruct (run ops) as [s held]. cbn [fst snd] in *.
  destruct (free_memory_cases s held cur ptr Hinv Hshape)
    as [(Hown & g & Hg & Hptr & Hcur & Hfree)|(Hnot & Hs & _ & Hlog)].
  - split; [intros _|tauto].
    rewrite Hfree. cbn [fst snd]. subst ptr. rewrite page_frame.
    destruct (free_granted_effect s held g Hinv) as (H1 & H2 & H3).
    split; [reflexivity|]. split; [exact H1|]. split; [exact H2|].
    split; [exact H3|]. split.
    + rewrite H2, frame_used_clear by (try apply (inv_bitmap _ _ Hinv); zlia).
      rewrite Z.eqb_refl. reflexivity.
    + intros c [_ Hin]. rewrite H1 in Hin.
      destruct (remove_base_bases (g * PAGE_SIZE) (live_regions s) (inv_nodup _ _ Hinv))
        as [_ Hbases].
      assert (g * PAGE_SIZE ∈ base_address <$> remove_base (g * PAGE_SIZE) (live_regions s))
        as Hb by (apply list_elem_of_fmap; eexists; split; [|exact Hin]; reflexivity).
      apply Hbases in Hb as [Hne _]. congruence.
  - split; [tauto|]. intros _. split; assumption.
Qed.

(** X3. Releasing a page twice is harmless: right after a call of
    [free_memory] has released the page at [ptr], a second call for [ptr],
    by the same or any other principal, finds no region registered for it;
    it logs UNREGISTERED_REGION and INVALID_FREE and changes nothing. *)
Theorem double_free_is_rejected (ops : list mm_op) (cur c2 ptr : Z) :
  let s := fst (run ops) in
  let s1 := fst (free_memory s cur ptr) in
  was_logged "MEMORY_FREED" (snd (free_memory s cur ptr)) = true ->
  free_memory s1 c2 ptr =
    (s1, [("UNREGISTERED_REGION"%string, ptr); ("INVALID_FREE"%string, ptr)]).
Proof.
  cbn zeta. intros Hlog.
  pose proof (run_inv ops) as Hinv. pose proof (run_shape ops) as Hshape.
  pose proof (run_inv (ops ++ [Free cur ptr])) as Hinv1.
  pose proof (run_shape (ops ++ [Free cur ptr])) as Hshape1.
  rewrite run_snoc in Hinv1, Hshape1.
  destruct (run ops) as [s held]. cbn [fst snd] in *.
  destruct (free_memory_cases s held cur ptr Hinv Hshape)
    as [(Hown & g & Hg & Hptr & Hcur & Hfree)|(Hnot & Hs & Hw & _)].
  2:{ congruence. }
  assert (step (s, held) (Free cur ptr)
          = (fst (free_memory s cur ptr), filter (fun a => a <> ptr) held)) as Hstep.
  { cbn [step]. rewrite Hfree. reflexivity. }
  rewrite Hstep in Hinv1, Hshape1. cbn [fst snd] in Hinv1, Hshape1.
  clear Hstep. rewrite Hfree in *. cbn [fst snd] in *.
  set (s1 := snd (unregister_memory_region _ ptr)) in *.
  destruct (free_granted_effect s held g Hinv) as (H1 & _ & _).
  rewrite <- Hptr in H1. fold s1 in H1.
  assert (range_ok ptr PAGE_SIZE) as Hok.
  { subst ptr. unfold range_ok. repeat split; try zlia.
    unfold PAGE_SIZE. apply Z.mod_mul. lia. }
  assert (0 <= ptr < 4294967296) as Hp by zlia.
  pose proof (inv_count _ _ Hinv1) as Hc1. pose proof (inv_len _ _ Hinv1) as Hlen1.
  assert (validate_memory_access s1 c2 ptr PAGE_SIZE MEM_PROT_WRITE
          = (false, Some "UNREGISTERED_REGION"%string)) as Hv.
  { apply validate_no_region;
      [apply (inv_enabled _ _ Hinv1) | exact Hp | zlia | exact Hok |].
    intros i (Hi & Hcov & _).
    assert (live_regions s1 !! Z.to_nat i = Some (region_at s1 i)) as Hl
      by (apply live_lookup; [lia | rewrite Hlen1; zlia]).
    assert (region_at s1 i ∈ live_regions s1) as Hin
      by (eapply list_elem_of_lookup_2; exact Hl).
    destruct (covering_region s1 _ _ ptr PAGE_SIZE Hinv1 Hshape1 Hin Hok ltac:(zlia) Hcov)
      as (f & c & Hf & Hc0 & Hr & Heq & _).
    destruct (remove_base_bases ptr (live_regions s) (inv_nodup _ _ Hinv)) as [_ Hbases].
    assert (ptr ∈ base_address <$> remove_base ptr (live_regions s)) as Hb.
    { rewrite <- H1. apply list_elem_of_fmap. exists (region_at s1 i).
      split; [rewrite Hr; cbn; lia | exact Hin]. }
    apply Hbases in Hb as [Hne _]. congruence. }
  unfold free_memory. rewrite (proj2 (Z.eqb_neq ptr 0)) by (destruct Hok; assumption).
  rewrite Hv. reflexivity.
Qed.


Lemma double_free_is_rejected_witness :
  let s := fst (run [Alloc 7 PAGE_SIZE]) in
  let s1 := fst (free_memory s 7 1048576) in
  free_memory s1 9 1048576 =
    (s1, [("UNREGISTERED_REGION"%string, 1048576); ("INVALID_FREE"%string, 1048576)]).
Proof. apply (double_free_is_rejected [Alloc 7 PAGE_SIZE] 7 9 1048576). reflexivity. Defined.

(** X4. On every state of a run the validator approves a range for a
    principal exactly when the range starts at a page registered to that
    principal, is between one byte and one page long, and the access asked
    for includes reading or writing. So no principal is granted access to
    another principal's page or to a kernel address, no range longer than
    a page is ever approved, and an execute-only access never is. *)
Theorem validator_grants_own_pages_only (ops : list mm_op) (cur a n access : Z) :
  0 <= a < 4294967296 -> 0 <= n < 4294967296 ->
  (fst (validate_memory_access (fst (run ops)) cur a n access) = true <->
   owns (fst (run ops)) cur a /\ 1 <= n <= PAGE_SIZE /\
   Z.land (Z.lor MEM_PROT_READ MEM_PROT_WRITE) access <> 0).
Proof.
  intros Ha Hn. pose proof (run_inv ops) as Hinv. pose proof (run_shape ops) as Hshape.
  destruct (run ops) as [s held]. cbn [fst snd] in *.
  apply (shaped_validate s held); assumption.
Qed.

Lemma validator_grants_own_pages_only_witness :
  fst (validate_memory_access (fst (run [Alloc 7 PAGE_SIZE])) 7 1048576 100 MEM_PROT_READ)
    = true <->
  owns (fst (run [Alloc 7 PAGE_SIZE])) 7 1048576 /\ 1 <= 100 <= PAGE_SIZE /\
  Z.land (Z.lor MEM_PROT_READ MEM_PROT_WRITE) MEM_PROT_READ <> 0.
Proof.
  apply (validator_grants_own_pages_only [Alloc 7 PAGE_SIZE] 7 1048576 100 MEM_PROT_READ);
    lia.
Defined.

Lemma step_keeps_page s held cur a o :
  mm_inv s held -> registry_shape s -> owns s cur a -> spares cur a o ->
  owns (fst (step (s, held) o)) cur a.
Proof.
  intros Hinv Hshape [Ha Hin] Hsp.
  destruct o as [c sz|c ptr]; cbn [step].
  - destruct (Z.eq_dec c 0) as [->|Hc].
    { rewrite allocate_no_user. split; assumption. }
    destruct (Z.eq_dec sz PAGE_SIZE) as [->|Hsz].
    2:{ rewrite allocate_bad_size by assumption. split; assumption. }
    pose proof (inv_hint _ _ Hinv) as Hh.
    destruct (allocate_cases s c Hc (inv_bitmap _ _ Hinv))
      as [(Hal & _)|(f & _ & Hf & Hclear & _ & [(Hfull & Hal)|(Hroom & Hal)])];
      [zlia | rewrite Hal; cbn [fst snd]..].
    + split; assumption.
    + split; assumption.
    + split; [exact Ha|]. rewrite (live_regions_grow s held) by assumption.
      apply elem_of_app. left. exact Hin.
  - destruct (free_memory_cases s held c ptr Hinv Hshape)
      as [(Hown & g & Hg & Hptr & Hc & Hfree)|(_ & Hs & _)].
    + rewrite Hfree. cbn [fst snd].
      destruct (free_granted_effect s held g Hinv) as (H1 & _ & _).
      rewrite <- Hptr in H1.
      assert (ptr <> a) as Hne.
      { intros ->. destruct Hown as [_ Hin'].
        pose proof (same_base_same_region s held _ _ Hinv Hin Hin' eq_refl) as Heq.
        injection Heq as Heq. cbn [spares] in Hsp. lia. }
      match goal with |- context [if ?c then _ else _] => destruct c end;
        cbn [fst]; (split; [exact Ha|]); rewrite H1;
        apply elem_of_remove_base; [exact Hin | cbn; lia | exact Hin | cbn; lia].
    + destruct (free_memory s c ptr) as [s' log]. cbn [fst snd] in *. subst s'.
      split; assumption.
Qed.

(** X5. Isolation over time: a page registered to a principal stays
    registered to it, and its frame stays marked, through every sequence of
    calls that does not contain a release of that page by that principal;
    requests and releases made by other principals, for this or any other
    address, do not affect it. *)
Theorem page_outlives_other_calls (ops ops' : list mm_op) (cur a : Z) :
  owns (fst (run ops)) cur a -> Forall (spares cur a) ops' ->
  owns (fst (run (ops ++ ops'))) cur a /\
  frame_used (page_bitmap (fst (run (ops ++ ops')))) (a / PAGE_SIZE) = true /\
  a ∈ snd (run (ops ++ ops')).
Proof.
  intros Hown Hsp.
  assert (owns (fst (run (ops ++ ops'))) cur a) as Hfinal.
  { induction ops' as [|o ops' IH] using rev_ind.
    - rewrite app_nil_r. exact Hown.
    - apply Forall_app in Hsp as [Hsp Ho]. rewrite Forall_singleton in Ho.
      rewrite app_assoc, run_snoc.
      pose proof (run_inv (ops ++ ops')) as Hinv.
      pose proof (run_shape (ops ++ ops')) as Hshape.
      specialize (IH Hsp).
      destruct (run (ops ++ ops')) as [s held]. cbn [fst snd] in *.
      apply step_keeps_page; assumption. }
  split; [exact Hfinal|].
  pose proof (run_inv (ops ++ ops')) as Hinv.
  pose proof (run_shape (ops ++ ops')) as Hshape.
  destruct (run (ops ++ ops')) as [s held]. cbn [fst snd] in *.
  destruct (owns_page s held cur a Hinv Hshape Hfinal) as (f & Hf & -> & _ & _ & Hheld).
  split; [|exact Hheld]. rewrite page_frame.
  apply (inv_used _ _ Hinv); [lia | exact Hheld].
Qed.

Lemma page_outlives_other_calls_witness :
  owns (fst (run ([Alloc 7 PAGE_SIZE]
                    ++ [Free 9 1048576; Alloc 9 PAGE_SIZE; Free 7 1052672]))) 7 1048576 /\
  frame_used (page_bitmap (fst (run ([Alloc 7 PAGE_SIZE]
                    ++ [Free 9 1048576; Alloc 9 PAGE_SIZE; Free 7 1052672]))))
             (1048576 / PAGE_SIZE) = true /\
  1048576 ∈ snd (run ([Alloc 7 PAGE_SIZE]
                    ++ [Free 9 1048576; Alloc 9 PAGE_SIZE; Free 7 1052672])).
Proof.
  apply (page_outlives_other_calls [Alloc 7 PAGE_SIZE]
           [Free 9 1048576; Alloc 9 PAGE_SIZE; Free 7 1052672] 7 1048576).
  - split; [lia|]. vm_compute. apply list_elem_of_further, list_elem_of_here.
  - repeat constructor; cbn; lia.
Defined.

(** ** Capacity *)

Lemma held_are_pages s held pages :
  mm_inv s held -> live_regions s = kernel_region :: pages -> Forall owned_page pages ->
  length held = length pages.
Proof.
  intros Hinv Hlive Hpages.
  rewrite <- (length_fmap base_address pages).
  apply Permutation_length. apply NoDup_Permutation.
  - apply (inv_held_nodup _ _ Hinv).
  - pose proof (inv_nodup _ _ Hinv) as Hnd. rewrite Hlive in Hnd.
    cbn [fmap list_fmap] in Hnd. apply NoDup_cons in Hnd as [_ Hnd]. exact Hnd.
  - intros a. rewrite (inv_held _ _ Hinv a), Hlive. cbn [fmap list_fmap].
    change (base_address kernel_region) with 0. rewrite elem_of_cons. split.
    + intros [Hnz [->|Hin]]; [congruence | exact Hin].
    + intros Hin. split; [|right; exact Hin].
      apply list_elem_of_fmap in Hin as (r & -> & Hr).
      rewrite Forall_forall in Hpages. apply owned_page_base, Hpages, Hr.
Qed.

Lemma allocate_granted_room s held cur sz :
  mm_inv s held -> fst (fst (allocate_memory s cur sz)) <> 0 ->
  region_count s < MAX_MEMORY_REGIONS.
Proof.
  intros Hinv. pose proof (inv_hint _ _ Hinv) as Hh.
  destruct (Z.eq_dec cur 0) as [->|Hcur].
  { rewrite allocate_no_user. cbn. congruence. }
  destruct (Z.eq_dec sz PAGE_SIZE) as [->|Hsz].
  2:{ rewrite allocate_bad_size by assumption. cbn. congruence. }
  destruct (allocate_cases s cur Hcur (inv_bitmap _ _ Hinv))
    as [(Ha & _)|(f & _ & _ & _ & _ & [(_ & Ha)|(Hroom & _)])];
    [zlia | rewrite Ha; cbn; congruence..| intros _; exact Hroom].
Qed.

(** X6. The registry bounds the allocator: in every state of a run the
    registry holds the kernel's region and one region per page held, so at
    most 1023 pages (of the 3840 frames above the kernel) are ever held at
    once; while 1023 are held every request fails. *)
Theorem registry_bounds_held_pages (ops : list mm_op) :
  let s := fst (run ops) in
  let held := snd (run ops) in
  region_count s = Z.of_nat (length held) + 1 /\
  (length held <= 1023)%nat /\
  (length held = 1023%nat ->
   forall cur sz, fst (fst (allocate_memory s cur sz)) = 0).
Proof.
  cbn zeta. pose proof (run_inv ops) as Hinv. pose proof (run_shape ops) as Hshape.
  destruct (run ops) as [s held]. cbn [fst snd] in *.
  destruct Hshape as (pages & Hlive & Hpages).
  pose proof (held_are_pages s held pages Hinv Hlive Hpages) as Hlen.
  pose proof (inv_live_length _ _ Hinv) as Hll. rewrite Hlive in Hll. cbn [length] in Hll.
  pose proof (inv_count _ _ Hinv) as Hc.
  assert (region_count s = Z.of_nat (length held) + 1) as Hrc by lia.
  split; [exact Hrc|]. split; [zlia|].
  intros H1023 cur sz.
  destruct (Z.eq_dec (fst (fst (allocate_memory s cur sz))) 0) as [|Hnz]; [assumption|].
  apply (allocate_granted_room s held) in Hnz; [zlia | exact Hinv].
Qed.


(** ** [map_page] *)

(** X7. On every state of a run [map_page] changes nothing: it marks a
    frame only after the validator has approved a write to it, and the
    pages the validator approves are registered pages, whose frames are
    marked already. It logs nothing exactly when the page is registered to
    the caller, and the validator's rejection otherwise. *)
Theorem map_page_changes_nothing (ops : list mm_op) (cur phys_addr virt_addr : Z) :
  0 <= phys_addr < 4294967296 ->
  fst (map_page (fst (run ops)) cur phys_addr virt_addr) = fst (run ops) /\
  (snd (map_page (fst (run ops)) cur phys_addr virt_addr) = [] <->
   owns (fst (run ops)) cur phys_addr).
Proof.
  intros Hp. pose proof (run_inv ops) as Hinv. pose proof (run_shape ops) as Hshape.
  destruct (run ops) as [s held]. cbn [fst snd] in *.
  pose proof (shaped_validate s held cur phys_addr PAGE_SIZE MEM_PROT_WRITE Hinv Hshape Hp
                ltac:(zlia)) as Hval.
  unfold map_page.
  destruct (fst (validate_memory_access s cur phys_addr PAGE_SIZE MEM_PROT_WRITE)) eqn:Hv;
    cbn [negb].
  - destruct (proj1 Hval eq_refl) as (Hown & _).
    destruct (owns_page s held cur phys_addr Hinv Hshape Hown)
      as (f & Hf & -> & _ & _ & Hheld).
    rewrite page_frame. rewrite (proj2 (Z.ltb_lt f TOTAL_PAGES)) by lia.
    cbn [fst snd]. split; [|tauto].
    rewrite bitmap_set_used; [apply set_bitmap_same | apply (inv_bitmap _ _ Hinv) | zlia |].
    apply (inv_used _ _ Hinv); [lia | exact Hheld].
  - cbn [fst snd]. split; [reflexivity|].
    destruct (validate_false_reason _ _ _ _ _ (inv_enabled _ _ Hinv) Hv) as [c Hc].
    rewrite Hc. unfold violation. cbn [snd]. split; [discriminate|].
    intros Hown. exfalso.
    assert (false = true) as Hft; [|discriminate].
    apply Hval. split; [exact Hown|]. split; [zlia | exact land_rw_write].
Qed.

Lemma map_page_changes_nothing_witness :
  fst (map_page (fst (run [Alloc 7 PAGE_SIZE])) 9 1048576 0) = fst (run [Alloc 7 PAGE_SIZE]) /\
  (snd (map_page (fst (run [Alloc 7 PAGE_SIZE])) 9 1048576 0) = [] <->
   owns (fst (run [Alloc 7 PAGE_SIZE])) 9 1048576).
Proof. apply (map_page_changes_nothing [Alloc 7 PAGE_SIZE] 9 1048576 0). lia. Defined.

(** ** The registry *)

Lemma unregister_loop_found s address (n : nat) : forall (i : Z),
  0 <= i ->
  (fst (unregister_loop s address n i) = true <->
   exists j, i <= j < i + Z.of_nat n /\
             base_address (aget zero_region (memory_regions s) j) = address) /\
  (fst (unregister_loop s address n i) = false -> unregister_loop s address n i = (false, s)) /\
  (fst (unregister_loop s address n i) = true ->
   region_count (snd (unregister_loop s address n i)) = region_count s - 1).
Proof.
  induction n as [|n IH]; intros i Hi; cbn [unregister_loop].
  - cbn [fst snd]. split; [|split; [reflexivity | discriminate]].
    split; [discriminate | intros (j & Hj & _); lia].
  - destruct (Z.eqb_spec (base_address (aget zero_region (memory_regions s) i)) address)
      as [Heq|Hne].
    + cbn [fst snd]. split; [|split; [discriminate | reflexivity]].
      split; [intros _; exists i; split; [lia | exact Heq] | reflexivity].
    + destruct (IH (i + 1) ltac:(lia)) as (H1 & H2 & H3).
      split; [|split; assumption]. rewrite H1. split.
      * intros (j & Hj & Hb). exists j. split; [lia | exact Hb].
      * intros (j & Hj & Hb). exists j. split; [|exact Hb].
        destruct (Z.eq_dec j i) as [->|]; [congruence | lia].
Qed.

Lemma live_bases s address :
  0 <= region_count s ->
  (Z.to_nat (region_count s) <= length (memory_regions s))%nat ->
  (address ∈ (base_address <$> live_regions s) <->
   exists j, 0 <= j < region_count s /\
             base_address (aget zero_region (memory_regions s) j) = address).
Proof.
  intros Hc Hlen. split.
  - intros Hin. apply list_elem_of_fmap in Hin as (r & -> & Hr).
    apply list_elem_of_lookup_1 in Hr as [k Hk].
    pose proof (lookup_lt_Some _ _ _ Hk) as Hlt. rewrite live_length in Hlt by assumption.
    exists (Z.of_nat k). split; [lia|].
    pose proof (live_lookup s (Z.of_nat k) ltac:(lia) Hlen) as Hl.
    rewrite Nat2Z.id, Hk in Hl. injection Hl as ->. reflexivity.
  - intros (j & Hj & Hb). apply list_elem_of_fmap.
    exists (region_at s j). split; [symmetry; exact Hb|].
    apply list_elem_of_lookup_2 with (i := Z.to_nat j). apply live_lookup; assumption.
Qed.

Lemma remove_base_absent address l :
  address ∉ (base_address <$> l) -> remove_base address l = l.
Proof.
  induction l as [|r l IH]; cbn [remove_base fmap list_fmap]; [reflexivity|].
  rewrite not_elem_of_cons. intros [Hne Hnin].
  destruct (Z.eqb_spec (base_address r) address); [congruence|].
  rewrite IH by exact Hnin. reflexivity.
Qed.

(** X8. [unregister_memory_region] on a registry whose count is within the
    array: it answers true exactly when a region is registered at the
    address; it removes the first such region and keeps the others in
    their order, taking one off the count; when none is registered the
    state is unchanged. It undoes a [register_memory_region] of a fresh
    address: the registered regions and the count are again what they
    were. *)
Theorem unregister_removes_first_match (s : mm_state) (address : Z) :
  0 <= region_count s ->
  (Z.to_nat (region_count s) <= length (memory_regions s))%nat ->
  let r := unregister_memory_region s address in
  (fst r = true <-> address ∈ (base_address <$> live_regions s)) /\
  live_regions (snd r) = remove_base address (live_regions s) /\
  (fst r = true -> region_count (snd r) = region_count s - 1) /\
  (fst r = false -> snd r = s) /\
  (forall sz prot own,
     region_count s < MAX_MEMORY_REGIONS ->
     (Z.to_nat MAX_MEMORY_REGIONS <= length (memory_regions s))%nat ->
     address ∉ (base_address <$> live_regions s) ->
     let s1 := snd (register_memory_region s address sz prot own) in
     fst (register_memory_region s address sz prot own) = true /\
     fst (unregister_memory_region s1 address) = true /\
     live_regions (snd (unregister_memory_region s1 address)) = live_regions s /\
     region_count (snd (unregister_memory_region s1 address)) = region_count s).
Proof.
  intros Hc Hlen. cbn zeta.
  assert (forall t, 0 <= region_count t ->
            (Z.to_nat (region_count t) <= length (memory_regions t))%nat ->
            (fst (unregister_memory_region t address) = true <->
             address ∈ (base_address <$> live_regions t)) /\
            (fst (unregister_memory_region t address) = true ->
             region_count (snd (unregister_memory_region t address)) = region_count t - 1) /\
            (fst (unregister_memory_region t address) = false ->
             snd (unregister_memory_region t address) = t)) as Hgen.
  { intros t Htc Htl. unfold unregister_memory_region.
    destruct (unregister_loop_found t address (Z.to_nat (region_count t)) 0 ltac:(lia))
      as (H1 & H2 & H3).
    split; [|split; [exact H3|]].
    - rewrite H1, (live_bases t address Htc Htl). split.
      + intros (j & Hj & Hb). exists j. split; [lia | exact Hb].
      + intros (j & Hj & Hb). exists j. split; [lia | exact Hb].
    - intros Hf. rewrite (H2 Hf). reflexivity. }
  destruct (Hgen s Hc Hlen) as (G1 & G2 & G3).
  destruct (unregister_spec s address Hc Hlen) as (Hlive & _).
  split; [exact G1|]. split; [exact Hlive|]. split; [exact G2|]. split; [exact G3|].
  intros sz prot own Hroom Hcap Hfresh.
  rewrite register_room by assumption. cbn [fst snd].
  set (s1 := set_regions s _ _).
  assert (0 <= region_count s1) as Hc1 by (cbn; lia).
  assert (Z.to_nat (region_count s1) <= length (memory_regions s1))%nat as Hlen1.
  { cbn. rewrite length_aset. zlia. }
  assert (live_regions s1 = live_regions s ++ [mkRegion address sz prot own true]) as Hl1.
  { unfold live_regions, s1. cbn [region_count memory_regions set_regions].
    apply live_regions_append; [lia | zlia]. }
  destruct (Hgen s1 Hc1 Hlen1) as (K1 & K2 & _).
  destruct (unregister_spec s1 address Hc1 Hlen1) as (Hlive1 & _).
  assert (fst (unregister_memory_region s1 address) = true) as Hfound.
  { apply K1. rewrite Hl1, fmap_app. apply elem_of_app. right.
    apply list_elem_of_singleton. reflexivity. }
  split; [reflexivity|]. split; [exact Hfound|]. split.
  - rewrite Hlive1, Hl1. rewrite remove_base_no_match.
    + cbn [remove_base base_address]. rewrite Z.eqb_refl. apply app_nil_r.
    + apply Forall_forall. intros r Hr Hb. apply Hfresh.
      apply list_elem_of_fmap. exists r. split; [symmetry; exact Hb | exact Hr].
  - rewrite (K2 Hfound). cbn. lia.
Qed.

Lemma unregister_removes_first_match_witness :
  let s := fst (run [Alloc 7 PAGE_SIZE; Alloc 9 PAGE_SIZE]) in
  let r := unregister_memory_region s 1048576 in
  (fst r = true <-> 1048576 ∈ (base_address <$> live_regions s)) /\
  live_regions (snd r) = remove_base 1048576 (live_regions s) /\
  (fst r = true -> region_count (snd r) = region_count s - 1) /\
  (fst r = false -> snd r = s) /\
  (forall sz prot own,
     region_count s < MAX_MEMORY_REGIONS ->
     (Z.to_nat MAX_MEMORY_REGIONS <= length (memory_regions s))%nat ->
     1048576 ∉ (base_address <$> live_regions s) ->
     let s1 := snd (register_memory_region s 1048576 sz prot own) in
     fst (register_memory_region s 1048576 sz prot own) = true /\
     fst (unregister_memory_region s1 1048576) = true /\
     live_regions (snd (unregister_memory_region s1 1048576)) = live_regions s /\
     region_count (snd (unregister_memory_region s1 1048576)) = region_count s).
Proof.
  apply (unregister_removes_first_match
           (fst (run [Alloc 7 PAGE_SIZE; Alloc 9 PAGE_SIZE])) 1048576).
  - vm_compute. discriminate.
  - vm_compute. lia.
Defined.


(** ** The address in the audit messages *)

Lemma hex_digit_facts (x : Z) :
  0 <= x < 16 ->
  hex_digit_value (hex_digit x) = x /\ is_hex_digit (hex_digit x) = true /\
  Ascii.eqb (hex_digit x) zero = false /\
  (hex_digit x = "0"%char <-> x = 0).
Proof.
  intros Hx.
  assert (x = 0 \/ x = 1 \/ x = 2 \/ x = 3 \/ x = 4 \/ x = 5 \/ x = 6 \/ x = 7 \/
          x = 8 \/ x = 9 \/ x = 10 \/ x = 11 \/ x = 12 \/ x = 13 \/ x = 14 \/ x = 15)
    as Hc by lia.
  repeat (destruct Hc as [->|Hc]); try subst x;
    (split; [reflexivity|]; split; [reflexivity|]; split; [reflexivity|];
     split; [try discriminate; intros _; reflexivity | try discriminate; intros _; reflexivity]).
Qed.

Lemma low_nibble (v : Z) : 0 <= v -> u8 (Z.land v 15) = v mod 16.
Proof.
  intros Hv. change 15 with (Z.ones 4). rewrite Z.land_ones by lia.
  change (2 ^ 4) with 16. unfold u8.
  pose proof (Z.mod_pos_bound v 16 ltac:(lia)). apply Z.mod_small. lia.
Qed.

Lemma hex_loop_spec (n : nat) : forall (v i : Z) (pre rest : list ascii),
  0 <= v < 16 ^ Z.of_nat n -> (1 <= n)%nat -> i = 8 - Z.of_nat n -> 0 <= i ->
  length pre = Z.to_nat i -> (n <= length rest)%nat ->
  exists ds,
    hex_loop n v i (pre ++ rest)
    = (i + Z.of_nat (length ds), pre ++ ds ++ drop (length ds) rest) /\
    (1 <= length ds <= n)%nat /\ lsb_value ds = v /\
    Forall (fun c => is_hex_digit c = true /\ Ascii.eqb c zero = false) ds /\
    (v <> 0 -> last ds <> Some "0"%char) /\ (v = 0 -> ds = ["0"%char]).
Proof.
  induction n as [|n IH]; intros v i pre rest Hv Hn Hi Hi0 Hpre Hrest; [lia|].
  cbn [hex_loop]. rewrite low_nibble by lia.
  assert (0 <= v mod 16 < 16) as Hnib by (apply Z.mod_pos_bound; lia).
  destruct (hex_digit_facts (v mod 16) Hnib) as (Hval & Hhex & Hnz & Hzero).
  set (d := hex_digit (v mod 16)) in *.
  rewrite Z.shiftr_div_pow2 by lia. change (2 ^ 4) with 16.
  destruct rest as [|r0 rest]; [cbn in Hrest; lia|].
  assert (aset (pre ++ r0 :: rest) i d = (pre ++ [d]) ++ rest) as Hset.
  { unfold aset. rewrite <- Hpre. rewrite <- (Nat.add_0_r (length pre)).
    rewrite insert_app_r. cbn. rewrite <- app_assoc. reflexivity. }
  rewrite Hset.
  pose proof (Z.div_mod v 16 ltac:(lia)) as Hdm.
  assert (0 <= v / 16) as Hq by (apply Z.div_pos; lia).
  destruct (Z.eq_dec (v / 16) 0) as [Hq0|Hq0].
  - rewrite Hq0. cbn [Z.gtb Z.compare andb].
    exists [d]. cbn [length drop app]. rewrite <- app_assoc. cbn [app].
    split; [reflexivity|]. split; [lia|]. split; [cbn; lia|].
    split; [apply Forall_singleton; split; assumption|]. split.
    + intros Hv0. cbn. intros [= Hd]. apply Hzero in Hd. lia.
    + intros Hv0. f_equal. apply Hzero. lia.
  - assert (16 <= v) as Hbig by lia.
    assert (2 <= S n)%nat as Hn2.
    { destruct n as [|n']; [|lia]. change (16 ^ Z.of_nat 1) with 16 in Hv. lia. }
    rewrite (proj2 (Z.gtb_gt _ _)) by lia.
    rewrite (proj2 (Z.ltb_lt (i + 1) 8)) by lia. cbn [andb].
    assert (0 <= v / 16 < 16 ^ Z.of_nat n) as Hv'.
    { split; [lia|]. apply Z.div_lt_upper_bound; [lia|].
      rewrite Nat2Z.inj_succ, Z.pow_succ_r in Hv by lia. lia. }
    destruct (IH (v / 16) (i + 1) (pre ++ [d]) rest Hv' ltac:(lia) ltac:(lia) ltac:(lia))
      as (ds & Hloop & Hlen & Hvalue & Hall & Hlast & _).
    { rewrite length_app. cbn. lia. }
    { cbn in Hrest. lia. }
    exists (d :: ds). rewrite Hloop. cbn [length drop].
    split; [f_equal; [lia | rewrite <- !app_assoc; reflexivity]|].
    split; [lia|]. split; [cbn [lsb_value]; lia|].
    split; [constructor; [split; assumption | exact Hall]|]. split.
    + intros _. destruct ds as [|d' ds]; [cbn in Hlen; lia|].
      rewrite last_cons_cons. apply Hlast. exact Hq0.
    + intros Hv0. lia.
Qed.

Lemma swap_loop_reverses (ds rest : list ascii) :
  (length ds <= 8)%nat ->
  swap_loop (ds ++ rest) (Z.of_nat (length ds))
            (Z.to_nat (Z.of_nat (length ds) / 2)) 0
  = rev ds ++ rest.
Proof.
  intros Hlen.
  do 9 (destruct ds as [|? ds]; [reflexivity|]). cbn in Hlen. lia.
Qed.

Lemma until_nul_app (l t : list ascii) :
  Forall (fun c => Ascii.eqb c zero = false) l ->
  until_nul (l ++ zero :: t) = l.
Proof.
  induction 1 as [|c l Hc _ IH]; cbn [app until_nul].
  - reflexivity.
  - rewrite Hc, IH. reflexivity.
Qed.

Lemma hex_value_rev (ds : list ascii) : hex_value (rev ds) = lsb_value ds.
Proof.
  unfold hex_value. induction ds as [|d ds IH]; [reflexivity|].
  cbn [rev lsb_value]. rewrite fold_left_app, IH. cbn. lia.
Qed.

Lemma head_rev_last {A} (l : list A) : head (rev l) = last l.
Proof.
  induction l as [|a l IH]; [reflexivity|].
  cbn [rev]. rewrite last_cons, <- IH.
  destruct (rev l); reflexivity.
Qed.

Lemma string_length_append (s1 s2 : string) :
  String.length (s1 ++ s2) = (String.length s1 + String.length s2)%nat.
Proof. induction s1 as [|c s1 IH]; cbn; [reflexivity | rewrite IH; reflexivity]. Qed.

Lemma string_length_of_list (l : list ascii) :
  String.length (string_of_list_ascii l) = length l.
Proof. induction l as [|c l IH]; cbn; [reflexivity | rewrite IH; reflexivity]. Qed.

Lemma address_digits_spec (address : Z) :
  0 <= address < 4294967296 ->
  exists ds, address_digits address = rev ds /\
    (1 <= length ds <= 8)%nat /\ lsb_value ds = address /\
    Forall (fun c => is_hex_digit c = true /\ Ascii.eqb c zero = false) ds /\
    (address <> 0 -> last ds <> Some "0"%char) /\ (address = 0 -> ds = ["0"%char]).
Proof.
  intros Ha. unfold address_digits. rewrite u32_small by lia.
  destruct (hex_loop_spec 8 address 0 [] (replicate 32 zero))
    as (ds & Hloop & Hlen & Hrest); [simpl; lia | lia | reflexivity | lia | reflexivity
                                     | cbn; lia |].
  cbn [app] in Hloop. rewrite Z.add_0_l in Hloop. rewrite Hloop.
  exists ds. split; [|split; [exact Hlen | exact Hrest]].
  rewrite swap_loop_reverses by lia.
  assert (drop (length ds) (replicate 32 zero)
          = zero :: replicate (31 - length ds) zero) as Hdrop.
  { rewrite drop_replicate. replace (32 - length ds)%nat with (S (31 - length ds)) by lia.
    reflexivity. }
  rewrite Hdrop. unfold aset. rewrite Nat2Z.id.
  rewrite <- (length_rev ds), <- (Nat.add_0_r (length (rev ds))), insert_app_r.
  cbn [insert list_insert]. apply until_nul_app.
  destruct Hrest as (_ & Hall & _).
  apply Forall_rev. eapply Forall_impl; [exact Hall|]. cbn. tauto.
Qed.

(** X9. The address that [log_memory_security_event] appends to the detail
    string reads back: for every 32-bit address the digits it writes are
    between one and eight upper-case hexadecimal digits, without a leading
    zero (the null address is written as one zero), and their value is the
    address. The message is the detail text, six characters of separator
    and the digits, so it fits its 256-character buffer whenever the detail
    text has at most 241 characters. *)
Theorem logged_address_reads_back (event details : string) (address : Z) :
  0 <= address < 4294967296 ->
  let digits := address_digits address in
  hex_value digits = address /\
  (1 <= length digits <= 8)%nat /\
  forallb is_hex_digit digits = true /\
  (address = 0 -> digits = ["0"%char]) /\
  (address <> 0 -> head digits <> Some "0"%char) /\
  snd (log_memory_security_event event details address)
    = (details ++ " at 0x" ++ string_of_list_ascii digits)%string /\
  String.length (snd (log_memory_security_event event details address))
    = (String.length details + 6 + length digits)%nat.
Proof.
  intros Ha. cbn zeta.
  destruct (address_digits_spec address Ha) as (ds & Hd & Hlen & Hval & Hall & Hlast & Hzero).
  unfold log_memory_security_event. cbn [snd]. rewrite Hd.
  split; [rewrite hex_value_rev; exact Hval|].
  split; [rewrite length_rev; exact Hlen|]. split; [|split; [|split; [|split]]].
  - apply forallb_forall. intros c Hc. apply in_rev in Hc.
    rewrite Forall_forall in Hall. apply list_elem_of_In in Hc. apply (Hall c Hc).
  - intros H0. rewrite (Hzero H0). reflexivity.
  - intros Hnz. rewrite head_rev_last. apply Hlast. exact Hnz.
  - reflexivity.
  - rewrite !string_length_append, string_length_of_list. cbn [String.length]. lia.
Qed.

Lemma logged_address_reads_back_witness :
  let digits := address_digits 1048576 in
  hex_value digits = 1048576 /\
  (1 <= length digits <= 8)%nat /\
  forallb is_hex_digit digits = true /\
  (1048576 = 0 -> digits = ["0"%char]) /\
  (1048576 <> 0 -> head digits <> Some "0"%char) /\
  snd (log_memory_security_event "MEMORY_ALLOCATED" "Memory page allocated successfully"
         1048576)
    = ("Memory page allocated successfully" ++ " at 0x"
         ++ string_of_list_ascii digits)%string /\
  String.length (snd (log_memory_security_event "MEMORY_ALLOCATED"
                        "Memory page allocated successfully" 1048576))
    = (String.length "Memory page allocated successfully" + 6 + length digits)%nat.
Proof.
  apply (logged_address_reads_back "MEMORY_ALLOCATED"
           "Memory page allocated successfully" 1048576). lia.
Defined.

End MemExtra.
(** * The optimized allocator *)

Module OptProofs.
Import Mem MemProofs MemExtra.

(** ** Bulk marking *)

Lemma fill_bytes_length (n : nat) : forall b i, length (fill_bytes b n i) = length b.
Proof.
  induction n as [|n IH]; intros b i; cbn [fill_bytes]; [reflexivity|].
  rewrite IH. apply length_aset.
Qed.

Lemma fill_bytes_aget (n : nat) : forall b i k,
  0 <= i -> 0 <= k -> i + Z.of_nat n <= Z.of_nat (length b) ->
  aget 0 (fill_bytes b n i) k
  = if (i <=? k) && (k <? i + Z.of_nat n) then 255 else aget 0 b k.
Proof.
  induction n as [|n IH]; intros b i k Hi Hk Hlen; cbn [fill_bytes].
  - destruct (Z.leb_spec i k), (Z.ltb_spec k (i + Z.of_nat 0)); cbn; try reflexivity; lia.
  - rewrite IH by (rewrite ?length_aset; lia).
    destruct (Z.eq_dec k i) as [->|Hne].
    + rewrite aget_aset_eq by lia.
      destruct (Z.leb_spec (i + 1) i), (Z.leb_spec i i), (Z.ltb_spec i (i + 1 + Z.of_nat n)),
        (Z.ltb_spec i (i + Z.of_nat (S n))); cbn; try reflexivity; lia.
    + rewrite aget_aset_ne by lia.
      destruct (Z.leb_spec (i + 1) k), (Z.leb_spec i k), (Z.ltb_spec k (i + 1 + Z.of_nat n)),
        (Z.ltb_spec k (i + Z.of_nat (S n))); cbn; try reflexivity; lia.
Qed.

Lemma testbit_255 (m : Z) : Z.testbit 255 m = (0 <=? m) && (m <? 8).
Proof. change 255 with (Z.ones 8). apply Z.testbit_ones. lia. Qed.

Lemma low_mask_bit (sb j : Z) :
  0 <= sb < 8 -> 0 <= j < 8 ->
  Z.testbit (u8 (Z.shiftl 255 sb)) j = (sb <=? j).
Proof.
  intros Hs Hj. rewrite u8_testbit, Z.shiftl_spec, testbit_255 by lia.
  destruct (Z.leb_spec 0 (j - sb)), (Z.ltb_spec (j - sb) 8), (Z.leb_spec sb j);
    cbn; try reflexivity; lia.
Qed.

Lemma high_mask_bit (eb j : Z) :
  0 <= eb <= 8 -> 0 <= j < 8 ->
  Z.testbit (Z.shiftr 255 (8 - eb)) j = (j <? eb).
Proof.
  intros He Hj. rewrite Z.shiftr_spec, testbit_255 by lia.
  destruct (Z.leb_spec 0 (j + (8 - eb))), (Z.ltb_spec (j + (8 - eb)) 8), (Z.ltb_spec j eb);
    cbn; try reflexivity; lia.
Qed.

Lemma frame_used_byte (b : list Z) (k j : Z) :
  0 <= k -> 0 <= j < 8 ->
  frame_used b (8 * k + j) = Z.testbit (aget 0 b k) j.
Proof.
  intros Hk Hj. rewrite frame_used_testbit by lia.
  destruct (frame_in_byte k j Hj) as [-> ->]. reflexivity.
Qed.

Lemma frame_split (f : Z) :
  0 <= f -> f = 8 * (f / 8) + f mod 8 /\ 0 <= f / 8 /\ 0 <= f mod 8 < 8.
Proof.
  intros Hf. split; [apply Z.div_mod; lia|].
  split; [apply Z.div_pos; lia | apply Z.mod_pos_bound; lia].
Qed.

Lemma frame_used_set_bits (n : nat) : forall b p f,
  bitmap_ok b -> 0 <= p -> p + Z.of_nat n <= TOTAL_PAGES -> 0 <= f ->
  bitmap_ok (set_bits b n p) /\
  frame_used (set_bits b n p) f = frame_used b f || in_frames p (p + Z.of_nat n) f.
Proof.
  unfold in_frames.
  induction n as [|n IH]; intros b p f Hok Hp Hn Hf; cbn [set_bits].
  - split; [exact Hok|].
    destruct (Z.leb_spec p f), (Z.ltb_spec f (p + Z.of_nat 0)); cbn;
      rewrite ?orb_false_r; try reflexivity; lia.
  - destruct (IH (bitmap_set b p) (p + 1) f) as [Hok' Hused];
      [apply bitmap_set_ok; exact Hok | lia | lia | lia |].
    split; [exact Hok'|]. rewrite Hused, frame_used_set by (assumption || lia).
    destruct (Z.eqb_spec p f), (Z.leb_spec (p + 1) f), (Z.leb_spec p f),
      (Z.ltb_spec f (p + 1 + Z.of_nat n)), (Z.ltb_spec f (p + Z.of_nat (S n)));
      cbn; rewrite ?orb_false_r, ?orb_true_r; try reflexivity; lia.
Qed.


Ltac split_cmp :=
  repeat match goal with
         | |- context [?a <=? ?b] => destruct (Z.leb_spec a b)
         | |- context [?a <? ?b] => destruct (Z.ltb_spec a b)
         | |- context [?a >? ?b] => rewrite (Z.gtb_ltb a b)
         | |- context [?a =? ?b] => destruct (Z.eqb_spec a b)
         end.

Ltac bool_lia :=
  split_cmp; cbn [andb orb negb];
  rewrite ?orb_false_r, ?orb_true_r, ?andb_false_r, ?andb_true_r;
  try reflexivity; try lia.

(** The bit [j] of byte [k] after [bitmap_set_range]. *)
Lemma set_range_bit (b : list Z) (start count k j : Z) :
  bitmap_ok b -> 0 <= start -> 0 <= count -> start + count <= TOTAL_PAGES ->
  0 <= k < BITMAP_SIZE -> 0 <= j < 8 ->
  Z.testbit (aget 0 (bitmap_set_range b start count) k) j
  = Z.testbit (aget 0 b k) j
    || in_frames start (range_end_reached start count) (8 * k + j).
Proof.
  intros Hok Hs Hc He Hk Hj.
  destruct Hok as [Hlen Hbytes].
  assert (Z.of_nat (length b) = BITMAP_SIZE) as HL by (rewrite Hlen; zlia).
  unfold bitmap_set_range, range_end_reached, in_frames.
  rewrite u32_small by zlia. rewrite !shiftr3, !land7.
  destruct (frame_split start Hs) as (Hsd & Hs0 & Hsb).
  destruct (frame_split (start + count) ltac:(lia)) as (Hed & He0 & Heb).
  set (s0 := start / 8) in *. set (sb := start mod 8) in *.
  set (e0 := (start + count) / 8) in *. set (eb := (start + count) mod 8) in *.
  clearbody s0 sb e0 eb.
  assert (e0 <= BITMAP_SIZE) as He0' by zlia.
  assert (s0 <= e0) as Hse by lia.
  remember (Z.testbit (aget 0 b k) j) as x eqn:Hx. symmetry in Hx.
  destruct (Z.eqb_spec sb 0) as [Hsb0|Hsb0]; cbn [negb].
  - (* the range starts on a byte boundary *)
    set (reached := if negb (eb =? 0) && (e0 =? s0 + 0) then 8 * e0 else start + count).
    assert ((eb <> 0 /\ e0 = s0 /\ reached = 8 * e0) \/
            ((eb = 0 \/ e0 <> s0) /\ reached = 8 * e0 + eb)) as Hreach.
    { unfold reached. destruct (Z.eqb_spec eb 0), (Z.eqb_spec e0 (s0 + 0)); cbn; lia. }
    clearbody reached.
    set (b2 := fill_bytes b (Z.to_nat (e0 - s0)) s0).
    assert (Z.testbit (aget 0 b2 k) j = x || ((s0 <=? k) && (k <? e0))) as Hb2.
    { unfold b2. rewrite fill_bytes_aget by lia.
      replace (s0 + Z.of_nat (Z.to_nat (e0 - s0))) with e0 by lia.
      destruct ((s0 <=? k) && (k <? e0)); [|rewrite orb_false_r; exact Hx].
      rewrite testbit_255, orb_true_r. bool_lia. }
    assert (length b2 = length b) as Hl2 by apply fill_bytes_length.
    destruct ((e0 >? s0) && negb (eb =? 0)) eqn:Htail.
    + apply andb_true_iff in Htail as [Hgt Hnz].
      apply Z.gtb_gt in Hgt. apply negb_true_iff, Z.eqb_neq in Hnz.
      destruct (Z.eq_dec k e0) as [Hke|Hke].
      * rewrite Hke at 1 2. rewrite aget_aset_eq by lia.
        rewrite u8_testbit, Z.lor_spec by lia.
        rewrite u8_testbit, high_mask_bit by lia. rewrite <- Hke, Hb2.
        clear Hx. destruct x; cbn [orb]; [reflexivity|]. bool_lia.
      * rewrite aget_aset_ne by lia. rewrite Hb2.
        clear Hx. destruct x; cbn [orb]; [reflexivity|]. bool_lia.
    + apply andb_false_iff in Htail. rewrite Hb2.
      assert (e0 <= s0 \/ eb = 0) as Hcase.
      { destruct Htail as [H|H].
        - left. rewrite Z.gtb_ltb in H. apply Z.ltb_ge in H. exact H.
        - right. apply negb_false_iff, Z.eqb_eq in H. exact H. }
      clear Hx. destruct x; cbn [orb]; [reflexivity|]. bool_lia.
  - (* the range starts inside byte [s0] *)
    assert (s0 < BITMAP_SIZE) as Hs0' by zlia.
    rewrite u32_small by zlia.
    set (reached := if negb (eb =? 0) && (e0 =? s0 + 1) then 8 * e0 else start + count).
    assert ((eb <> 0 /\ e0 = s0 + 1 /\ reached = 8 * e0) \/
            ((eb = 0 \/ e0 <> s0 + 1) /\ reached = 8 * e0 + eb)) as Hreach.
    { unfold reached. destruct (Z.eqb_spec eb 0), (Z.eqb_spec e0 (s0 + 1)); cbn; lia. }
    clearbody reached.
    set (mask := if s0 =? e0
                 then u8 (Z.land (u8 (Z.shiftl 255 sb)) (Z.shiftr 255 (8 - eb)))
                 else u8 (Z.shiftl 255 sb)).
    assert (Z.testbit mask j = (sb <=? j) && ((negb (s0 =? e0)) || (j <? eb))) as Hmask.
    { unfold mask. destruct (Z.eqb_spec s0 e0); cbn [negb orb].
      - rewrite u8_testbit, Z.land_spec, low_mask_bit, high_mask_bit by lia. reflexivity.
      - rewrite low_mask_bit by lia. rewrite andb_true_r. reflexivity. }
    clearbody mask.
    set (b1 := aset b s0 (u8 (Z.lor (aget 0 b s0) mask))).
    assert (length b1 = length b) as Hl1 by apply length_aset.
    assert (Z.testbit (aget 0 b1 k) j
            = x || ((k =? s0) && ((sb <=? j) && ((negb (s0 =? e0)) || (j <? eb))))) as Hb1.
    { unfold b1. destruct (Z.eqb_spec k s0) as [Hks|Hks].
      - rewrite Hks at 1. rewrite aget_aset_eq by lia.
        rewrite u8_testbit, Z.lor_spec, Hmask by lia.
        rewrite <- Hks, Hx. reflexivity.
      - rewrite aget_aset_ne by lia. cbn [andb]. rewrite orb_false_r. exact Hx. }
    clearbody b1.
    set (b2 := fill_bytes b1 (Z.to_nat (e0 - (s0 + 1))) (s0 + 1)).
    assert (length b2 = length b) as Hl2
      by (unfold b2; rewrite fill_bytes_length; exact Hl1).
    assert (Z.testbit (aget 0 b2 k) j
            = Z.testbit (aget 0 b1 k) j || ((s0 + 1 <=? k) && (k <? e0))) as Hb2.
    { unfold b2. destruct (Z_le_gt_dec (s0 + 1) e0) as [Hle|Hgt].
      - rewrite fill_bytes_aget by lia.
        replace (s0 + 1 + Z.of_nat (Z.to_nat (e0 - (s0 + 1)))) with e0 by lia.
        destruct ((s0 + 1 <=? k) && (k <? e0)); [|rewrite orb_false_r; reflexivity].
        rewrite testbit_255. rewrite orb_true_r. bool_lia.
      - replace (Z.to_nat (e0 - (s0 + 1))) with 0%nat by lia. cbn [fill_bytes].
        bool_lia. }
    clearbody b2.
    destruct ((e0 >? s0 + 1) && negb (eb =? 0)) eqn:Htail.
    + apply andb_true_iff in Htail as [Hgt Hnz].
      apply Z.gtb_gt in Hgt. apply negb_true_iff, Z.eqb_neq in Hnz.
      destruct (Z.eq_dec k e0) as [Hke|Hke].
      * rewrite Hke at 1 2. rewrite aget_aset_eq by lia.
        rewrite u8_testbit, Z.lor_spec by lia.
        rewrite u8_testbit, high_mask_bit by lia. rewrite <- Hke, Hb2, Hb1.
        clear Hx. destruct x; cbn [orb]; [reflexivity|]. bool_lia.
      * rewrite aget_aset_ne by lia. rewrite Hb2, Hb1.
        clear Hx. destruct x; cbn [orb]; [reflexivity|]. bool_lia.
    + apply andb_false_iff in Htail. rewrite Hb2, Hb1.
      assert (e0 <= s0 + 1 \/ eb = 0) as Hcase.
      { destruct Htail as [H|H].
        - left. rewrite Z.gtb_ltb in H. apply Z.ltb_ge in H. exact H.
        - right. apply negb_false_iff, Z.eqb_eq in H. exact H. }
      clear Hx. destruct x; cbn [orb]; [reflexivity|]. bool_lia.
Qed.


Lemma fill_bytes_ok (n : nat) : forall b i, bitmap_ok b -> bitmap_ok (fill_bytes b n i).
Proof.
  induction n as [|n IH]; intros b i Hok; cbn [fill_bytes]; [exact Hok|].
  apply IH. apply bitmap_ok_aset; [exact Hok | lia].
Qed.

Lemma bitmap_set_range_ok (b : list Z) (start count : Z) :
  bitmap_ok b -> bitmap_ok (bitmap_set_range b start count).
Proof.
  intros Hok. unfold bitmap_set_range.
  destruct (negb (Z.land start 7 =? 0)).
  - match goal with |- context [if ?c then _ else _] => destruct c end.
    + apply bitmap_ok_aset; [|apply u8_range].
      apply fill_bytes_ok. apply bitmap_ok_aset; [exact Hok | apply u8_range].
    + apply fill_bytes_ok. apply bitmap_ok_aset; [exact Hok | apply u8_range].
  - match goal with |- context [if ?c then _ else _] => destruct c end.
    + apply bitmap_ok_aset; [|apply u8_range]. apply fill_bytes_ok. exact Hok.
    + apply fill_bytes_ok. exact Hok.
Qed.

Lemma range_end_bounds (start count : Z) :
  0 <= start -> 0 <= count ->
  start <= range_end_reached start count <= start + count /\
  ((start + count) mod 8 = 0 -> range_end_reached start count = start + count) /\
  (start mod 8 = 0 -> 0 < count < 8 -> range_end_reached start count = start).
Proof.
  intros Hs Hc. unfold range_end_reached.
  destruct (frame_split start Hs) as (Hsd & Hs0 & Hsb).
  destruct (frame_split (start + count) ltac:(lia)) as (Hed & He0 & Heb).
  set (s0 := start / 8) in *. set (sb := start mod 8) in *.
  set (e0 := (start + count) / 8) in *. set (eb := (start + count) mod 8) in *.
  clearbody s0 sb e0 eb.
  destruct (Z.eqb_spec sb 0), (Z.eqb_spec eb 0); cbn [negb andb];
    try (split; [lia|split; [intros; lia | intros; lia]]);
    match goal with |- context [?a =? ?b] => destruct (Z.eqb_spec a b) end;
    split; try lia; split; intros; lia.
Qed.

(** X10. [bitmap_set_range] on a range inside the bitmap never clears a
    frame and never marks one outside the range. It marks the frames from
    [start] up to the end of the range, except that when the range ends
    inside the byte at which its loop over full bytes starts, the frames
    of that last byte are left unmarked: a range of fewer than eight frames
    that starts on a byte boundary is not marked at all. Whenever the range
    ends on a byte boundary (as in the one call of the file, at
    initialisation) the result is that of marking the frames one by one
    with [bitmap_set]. *)
Theorem bitmap_set_range_marks (b : list Z) (start count : Z) :
  bitmap_ok b -> 0 <= start -> 0 <= count -> start + count <= TOTAL_PAGES ->
  let b' := bitmap_set_range b start count in
  bitmap_ok b' /\
  (forall f, 0 <= f < TOTAL_PAGES ->
     frame_used b' f
     = frame_used b f || in_frames start (range_end_reached start count) f) /\
  start <= range_end_reached start count <= start + count /\
  ((start + count) mod 8 = 0 -> b' = set_bits b (Z.to_nat count) start) /\
  (start mod 8 = 0 -> 0 < count < 8 -> b' = b).
Proof.
  intros Hok Hs Hc He. cbn zeta.
  pose proof (bitmap_set_range_ok b start count Hok) as Hok'.
  destruct (range_end_bounds start count Hs Hc) as (Hb & Hfull & Hnone).
  assert (forall f, 0 <= f < TOTAL_PAGES ->
            frame_used (bitmap_set_range b start count) f
            = frame_used b f || in_frames start (range_end_reached start count) f) as Hbits.
  { intros f Hf. destruct (frame_split f ltac:(lia)) as (Hfd & Hf0 & Hfb).
    rewrite Hfd at 1 2 3. rewrite !frame_used_byte by lia.
    apply set_range_bit; try assumption. zlia. }
  split; [exact Hok'|]. split; [exact Hbits|]. split; [exact Hb|]. split.
  - intros Hend.
    destruct (frame_used_set_bits (Z.to_nat count) b start 0 Hok Hs ltac:(lia) ltac:(lia))
      as [Hok2 _].
    apply bitmap_ext; [exact Hok' | exact Hok2 |].
    intros f Hf. rewrite (Hbits f Hf), (Hfull Hend).
    destruct (frame_used_set_bits (Z.to_nat count) b start f Hok Hs ltac:(lia) ltac:(lia))
      as [_ ->].
    replace (start + Z.of_nat (Z.to_nat count)) with (start + count) by lia. reflexivity.
  - intros Hal Hsmall. apply bitmap_ext; [exact Hok' | exact Hok |].
    intros f Hf. rewrite (Hbits f Hf), (Hnone Hal Hsmall).
    unfold in_frames. bool_lia.
Qed.

Lemma bitmap_set_range_marks_witness :
  let b := replicate 512 0 in
  let b' := bitmap_set_range b 0 256 in
  bitmap_ok b' /\
  (forall f, 0 <= f < TOTAL_PAGES ->
     frame_used b' f = frame_used b f || in_frames 0 (range_end_reached 0 256) f) /\
  0 <= range_end_reached 0 256 <= 0 + 256 /\
  ((0 + 256) mod 8 = 0 -> b' = set_bits b (Z.to_nat 256) 0) /\
  (0 mod 8 = 0 -> 0 < 256 < 8 -> b' = b).
Proof.
  apply (bitmap_set_range_marks (replicate 512 0) 0 256).
  - split; [reflexivity | apply Forall_replicate; lia].
  - lia.
  - lia.
  - vm_compute. discriminate.
Defined.

(** ** Initialisation *)

Lemma clear_words_length (n : nat) : forall b i, length (clear_words b n i) = length b.
Proof.
  induction n as [|n IH]; intros b i; cbn [clear_words]; [reflexivity|].
  rewrite IH. change (seqZ 0 8) with [0; 1; 2; 3; 4; 5; 6; 7]. cbn [fold_left].
  rewrite !length_aset. reflexivity.
Qed.

Lemma clear_words_aget (n : nat) : forall b i k,
  0 <= i -> 0 <= k ->
  aget 0 (clear_words b n i) k
  = if (8 * i <=? k) && (k <? 8 * (i + Z.of_nat n)) then 0 else aget 0 b k.
Proof.
  induction n as [|n IH]; intros b i k Hi Hk; cbn [clear_words].
  - bool_lia.
  - rewrite IH by lia. change (seqZ 0 8) with [0; 1; 2; 3; 4; 5; 6; 7]. cbn [fold_left].
    assert (forall (l : list Z) (p : Z), 0 <= p ->
              aget 0 (aset l p 0) k = if p =? k then 0 else aget 0 l k) as Hz.
    { intros l p Hp. destruct (Z.eqb_spec p k) as [->|Hne].
      - unfold aget, aset.
        destruct (Nat.lt_ge_cases (Z.to_nat k) (length l)) as [Hlt|Hge].
        + apply nth_lookup_Some with (d := 0). apply list_lookup_insert_eq. exact Hlt.
        + rewrite nth_overflow; [reflexivity|]. rewrite length_insert. exact Hge.
      - apply aget_aset_ne; lia. }
    rewrite !Hz by lia. bool_lia.
Qed.

Lemma clear_bytes_none (b : list Z) (i : Z) : clear_bytes b 0 i = b.
Proof. reflexivity. Qed.

Lemma list_eq_aget (l l' : list Z) :
  length l = length l' ->
  (forall k, 0 <= k < Z.of_nat (length l) -> aget 0 l k = aget 0 l' k) -> l = l'.
Proof.
  intros Hlen Hall. apply list_eq. intros i.
  destruct (Nat.lt_ge_cases i (length l)) as [Hi|Hi].
  - destruct (lookup_lt_is_Some_2 l i Hi) as [x Hx].
    destruct (lookup_lt_is_Some_2 l' i ltac:(lia)) as [y Hy].
    specialize (Hall (Z.of_nat i) ltac:(lia)). unfold aget in Hall.
    rewrite Nat2Z.id in Hall.
    rewrite (nth_lookup_Some _ _ _ _ Hx), (nth_lookup_Some _ _ _ _ Hy) in Hall.
    congruence.
  - rewrite !lookup_ge_None_2 by lia. reflexivity.
Qed.

(** The words zeroed by the initialisation cover the whole bitmap, and
    the range it marks ends on a byte boundary. *)
Lemma optimized_init_bitmap (s : mm_state) :
  length (page_bitmap s) = Z.to_nat BITMAP_SIZE ->
  page_bitmap (optimized_init_memory_management s) = page_bitmap init_memory_management /\
  next_free_page (optimized_init_memory_management s)
  = next_free_page init_memory_management.
Proof.
  intros Hlen. unfold optimized_init_memory_management.
  cbn [page_bitmap next_free_page set_hint set_bitmap].
  change (BITMAP_SIZE / 8) with 64. change (BITMAP_SIZE - 64 * 8) with 0.
  change (Z.to_nat 0) with 0%nat. rewrite clear_bytes_none.
  assert (clear_words (page_bitmap s) (Z.to_nat 64) 0 = replicate 512 0) as Hzero.
  { apply list_eq_aget.
    - rewrite clear_words_length, Hlen. reflexivity.
    - intros k Hk. rewrite clear_words_length, Hlen in Hk.
      rewrite clear_words_aget by lia.
      rewrite (proj2 (Z.leb_le (8 * 0) k)) by lia.
      rewrite (proj2 (Z.ltb_lt k (8 * (0 + Z.of_nat (Z.to_nat 64))))) by zlia.
      cbn [andb]. unfold aget. symmetry.
      apply nth_lookup_Some with (d := 0). apply lookup_replicate. split; [reflexivity|].
      zlia. }
  rewrite Hzero.
  assert (bitmap_set_range (replicate 512 0) 0 kernel_pages
          = page_bitmap init_memory_management) as Hsame by (vm_compute; reflexivity).
  rewrite Hsame.
  split; reflexivity.
Qed.

(** X11. [optimized_init_memory_management] brings any bitmap of the
    declared size to the state that [init_memory_management] sets up
    frame by frame: the 256 kernel frames marked, every other frame clear,
    the hint at frame 256. *)
Theorem optimized_init_agrees (s : mm_state) :
  length (page_bitmap s) = Z.to_nat BITMAP_SIZE ->
  let s' := optimized_init_memory_management s in
  page_bitmap s' = page_bitmap init_memory_management /\
  next_free_page s' = next_free_page init_memory_management /\
  opt_ok s' /\
  (forall f, 0 <= f < TOTAL_PAGES ->
     frame_used (page_bitmap s') f = (f <? kernel_pages)).
Proof.
  intros Hlen. cbn zeta. destruct (optimized_init_bitmap s Hlen) as (Hbm & Hhint).
  split; [exact Hbm|]. split; [exact Hhint|]. split.
  - split; [rewrite Hbm; apply init_bitmap_ok | rewrite Hhint; cbn; zlia].
  - intros f Hf. rewrite Hbm. apply init_frames. exact Hf.
Qed.

Lemma optimized_init_agrees_witness :
  let s' := optimized_init_memory_management (fst (run [Alloc 7 PAGE_SIZE])) in
  page_bitmap s' = page_bitmap init_memory_management /\
  next_free_page s' = next_free_page init_memory_management /\
  opt_ok s' /\
  (forall f, 0 <= f < TOTAL_PAGES ->
     frame_used (page_bitmap s') f = (f <? kernel_pages)).
Proof.
  apply (optimized_init_agrees (fst (run [Alloc 7 PAGE_SIZE]))). reflexivity.
Defined.


(** ** Allocation and release *)

(** [optimized_find_free_page]: the first clear frame in the cyclic order
    that starts at the first frame of the hint's byte. *)
Lemma opt_find_cases s :
  opt_ok s ->
  let h8 := 8 * (next_free_page s / 8) in
  (optimized_find_free_page s = (NO_PAGE, s) /\
   forall g, 0 <= g < TOTAL_PAGES -> frame_used (page_bitmap s) g = true) \/
  (exists f, 0 <= f < TOTAL_PAGES /\ frame_used (page_bitmap s) f = false /\
     optimized_find_free_page s = (f, set_hint s (f + 1)) /\
     ((h8 <= f /\ forall g, h8 <= g < f -> frame_used (page_bitmap s) g = true) \/
      (f < h8 /\
       (forall g, h8 <= g < TOTAL_PAGES -> frame_used (page_bitmap s) g = true) /\
       forall g, 0 <= g < f -> frame_used (page_bitmap s) g = true))).
Proof.
  intros [Hok Hh]. cbn zeta. unfold optimized_find_free_page. rewrite shiftr3.
  set (h8 := next_free_page s / 8).
  assert (0 <= h8 <= BITMAP_SIZE) as Hh8
    by (subst h8; zconst; Z.to_euclidean_division_equations; lia).
  pose proof (opt_scan_spec (page_bitmap s) (Z.to_nat (BITMAP_SIZE - h8)) h8 Hok
                ltac:(lia) ltac:(lia)) as Hfirst.
  pose proof (opt_scan_spec (page_bitmap s) (Z.to_nat h8) 0 Hok
                ltac:(lia) ltac:(lia)) as Hsecond.
  replace (h8 + Z.of_nat (Z.to_nat (BITMAP_SIZE - h8))) with BITMAP_SIZE in Hfirst by lia.
  replace (0 + Z.of_nat (Z.to_nat h8)) with h8 in Hsecond by lia.
  destruct (opt_scan (page_bitmap s) (Z.to_nat (BITMAP_SIZE - h8)) h8) as [f|].
  - destruct Hfirst as (Hr & Hclear & Hbefore). right. exists f.
    split; [zlia|]. split; [exact Hclear|].
    split; [rewrite u32_small by zlia; reflexivity|].
    left. split; [lia | exact Hbefore].
  - destruct (opt_scan (page_bitmap s) (Z.to_nat h8) 0) as [f|].
    + destruct Hsecond as (Hr & Hclear & Hbefore). right. exists f.
      split; [zlia|]. split; [exact Hclear|].
      split; [rewrite u32_small by zlia; reflexivity|].
      right. split; [lia|]. split; [|intros g Hg; apply Hbefore; lia].
      intros g Hg. apply Hfirst. zlia.
    + left. split; [reflexivity|]. intros g Hg.
      destruct (Z.lt_ge_cases g (8 * h8)); [apply Hsecond | apply Hfirst]; zlia.
Qed.

(** X12. [optimized_allocate_memory] fails only for a size other than one
    page or when every frame is marked, wherever the hint stands: its
    finder wraps around. Otherwise it returns the address of the first
    clear frame in the cyclic order that starts at the first frame of the
    hint's byte (the offset of the hint inside its byte is ignored), marks
    that frame and sets the hint past it. *)
Theorem optimized_allocate_memory_outcome (s : mm_state) (sz : Z) :
  opt_ok s ->
  let h8 := 8 * (next_free_page s / 8) in
  let r := optimized_allocate_memory s sz in
  (sz <> PAGE_SIZE -> r = (0, s)) /\
  (sz = PAGE_SIZE ->
   (forall g, 0 <= g < TOTAL_PAGES -> frame_used (page_bitmap s) g = true) ->
   r = (0, s)) /\
  (sz = PAGE_SIZE ->
   (exists g, 0 <= g < TOTAL_PAGES /\ frame_used (page_bitmap s) g = false) ->
   exists f, 0 <= f < TOTAL_PAGES /\ frame_used (page_bitmap s) f = false /\
     r = (f * PAGE_SIZE,
          set_bitmap (set_hint s (f + 1)) (bitmap_set (page_bitmap s) f)) /\
     opt_ok (snd r) /\ frame_used (page_bitmap (snd r)) f = true /\
     ((h8 <= f /\ forall g, h8 <= g < f -> frame_used (page_bitmap s) g = true) \/
      (f < h8 /\
       (forall g, h8 <= g < TOTAL_PAGES -> frame_used (page_bitmap s) g = true) /\
       forall g, 0 <= g < f -> frame_used (page_bitmap s) g = true))).
Proof.
  intros Hopt. cbn zeta. pose proof Hopt as [Hok Hh].
  unfold optimized_allocate_memory.
  split; [|split].
  - intros Hsz. rewrite (proj2 (Z.eqb_neq _ _) Hsz). reflexivity.
  - intros -> Hall. rewrite Z.eqb_refl. cbn [negb].
    destruct (opt_find_cases s Hopt) as [(-> & _)|(f & Hf & Hclear & _)].
    + reflexivity.
    + rewrite Hall in Hclear by lia. discriminate.
  - intros -> (g & Hg & Hfree). rewrite Z.eqb_refl. cbn [negb].
    destruct (opt_find_cases s Hopt) as [(_ & Hall)|(f & Hf & Hclear & -> & Hfirst)].
    + rewrite Hall in Hfree by lia. discriminate.
    + exists f. rewrite (proj2 (Z.eqb_neq f NO_PAGE)) by zlia.
      rewrite page_address by lia. cbn [page_bitmap set_hint set_bitmap snd].
      split; [exact Hf|]. split; [exact Hclear|]. split; [reflexivity|].
      split; [split; [apply bitmap_set_ok; exact Hok | cbn; lia]|].
      split; [|exact Hfirst].
      rewrite frame_used_set by (assumption || lia). rewrite Z.eqb_refl. reflexivity.
Qed.

Lemma optimized_allocate_memory_outcome_witness :
  let s := init_memory_management in
  let h8 := 8 * (next_free_page s / 8) in
  let r := optimized_allocate_memory s PAGE_SIZE in
  (PAGE_SIZE <> PAGE_SIZE -> r = (0, s)) /\
  (PAGE_SIZE = PAGE_SIZE ->
   (forall g, 0 <= g < TOTAL_PAGES -> frame_used (page_bitmap s) g = true) ->
   r = (0, s)) /\
  (PAGE_SIZE = PAGE_SIZE ->
   (exists g, 0 <= g < TOTAL_PAGES /\ frame_used (page_bitmap s) g = false) ->
   exists f, 0 <= f < TOTAL_PAGES /\ frame_used (page_bitmap s) f = false /\
     r = (f * PAGE_SIZE,
          set_bitmap (set_hint s (f + 1)) (bitmap_set (page_bitmap s) f)) /\
     opt_ok (snd r) /\ frame_used (page_bitmap (snd r)) f = true /\
     ((h8 <= f /\ forall g, h8 <= g < f -> frame_used (page_bitmap s) g = true) \/
      (f < h8 /\
       (forall g, h8 <= g < TOTAL_PAGES -> frame_used (page_bitmap s) g = true) /\
       forall g, 0 <= g < f -> frame_used (page_bitmap s) g = true))).
Proof.
  apply (optimized_allocate_memory_outcome init_memory_management PAGE_SIZE).
  split; [apply init_bitmap_ok | vm_compute; split; discriminate].
Defined.


Lemma frame_of_pointer (ptr : Z) :
  0 <= ptr < PHYS_MEMORY_END -> 0 <= ptr / PAGE_SIZE < TOTAL_PAGES.
Proof. intros H. zconst. Z.to_euclidean_division_equations. lia. Qed.

Lemma optimized_free_is_unchecked_aux (s : mm_state) (ptr : Z) :
  opt_ok s -> 0 < ptr < PHYS_MEMORY_END ->
  let s' := optimized_free_memory s ptr in
  opt_ok s' /\
  page_bitmap s' = bitmap_clear (page_bitmap s) (ptr / PAGE_SIZE) /\
  next_free_page s' = Z.min (next_free_page s) (ptr / PAGE_SIZE) /\
  frame_used (page_bitmap s') (ptr / PAGE_SIZE) = false /\
  forall g, 0 <= g -> g <> ptr / PAGE_SIZE ->
            frame_used (page_bitmap s') g = frame_used (page_bitmap s) g.
Proof.
  intros [Hok Hh] Hp. cbn zeta. unfold optimized_free_memory.
  rewrite (proj2 (Z.eqb_neq ptr 0)) by lia.
  pose proof (frame_of_pointer ptr ltac:(lia)) as Hf.
  rewrite (proj2 (Z.ltb_lt _ _)) by lia.
  cbn [set_bitmap next_free_page].
  assert (forall h, 0 <= h <= TOTAL_PAGES ->
            let t := mkMM (bitmap_clear (page_bitmap s) (ptr / PAGE_SIZE)) h
                          (memory_regions s) (region_count s)
                          (memory_protection_enabled s) in
            opt_ok t /\
            page_bitmap t = bitmap_clear (page_bitmap s) (ptr / PAGE_SIZE) /\
            frame_used (page_bitmap t) (ptr / PAGE_SIZE) = false /\
            forall g, 0 <= g -> g <> ptr / PAGE_SIZE ->
                      frame_used (page_bitmap t) g = frame_used (page_bitmap s) g) as Hgen.
  { intros h Hhr. cbn zeta. cbn [page_bitmap].
    split; [split; [apply bitmap_clear_ok; exact Hok | exact Hhr]|].
    split; [reflexivity|]. split.
    - rewrite frame_used_clear by (assumption || lia). rewrite Z.eqb_refl. reflexivity.
    - intros g Hg Hne. rewrite frame_used_clear by (assumption || lia).
      destruct (Z.eqb_spec (ptr / PAGE_SIZE) g); [congruence | reflexivity]. }
  destruct (Z.ltb_spec (ptr / PAGE_SIZE) (next_free_page s)) as [Hlow|Hhigh].
  - destruct (Hgen (ptr / PAGE_SIZE) ltac:(lia)) as (G1 & G2 & G3 & G4).
    split; [exact G1|]. split; [exact G2|]. split; [cbn; lia|]. split; assumption.
  - destruct (Hgen (next_free_page s) Hh) as (G1 & G2 & G3 & G4).
    split; [exact G1|]. split; [exact G2|]. split; [cbn; lia|]. split; assumption.
Qed.

(** X13. [optimized_free_memory] checks nothing but the frame range: for
    every non-null pointer below the end of physical memory it clears the
    bit of the pointer's frame, whoever holds the frame, whether the
    pointer is page-aligned or not, and also when the frame is one of the
    kernel's; the hint is lowered to the frame when it was above. A null
    pointer or a pointer past physical memory changes nothing. *)
Theorem optimized_free_is_unchecked (s : mm_state) (ptr : Z) :
  opt_ok s -> 0 <= ptr < 4294967296 ->
  let s' := optimized_free_memory s ptr in
  opt_ok s' /\
  (ptr = 0 \/ PHYS_MEMORY_END <= ptr -> s' = s) /\
  (0 < ptr < PHYS_MEMORY_END ->
   page_bitmap s' = bitmap_clear (page_bitmap s) (ptr / PAGE_SIZE) /\
   next_free_page s' = Z.min (next_free_page s) (ptr / PAGE_SIZE) /\
   frame_used (page_bitmap s') (ptr / PAGE_SIZE) = false /\
   forall g, 0 <= g -> g <> ptr / PAGE_SIZE ->
             frame_used (page_bitmap s') g = frame_used (page_bitmap s) g).
Proof.
  intros Hopt Hp. cbn zeta.
  destruct (Z.eq_dec ptr 0) as [->|Hnz].
  { split; [exact Hopt|]. split; [reflexivity | lia]. }
  destruct (Z.lt_ge_cases ptr PHYS_MEMORY_END) as [Hlt|Hge].
  - destruct (optimized_free_is_unchecked_aux s ptr Hopt ltac:(lia))
      as (H1 & H2 & H3 & H4 & H5).
    split; [exact H1|]. split; [intros [H|H]; lia|]. intros _.
    split; [exact H2|]. split; [exact H3|]. split; assumption.
  - assert (optimized_free_memory s ptr = s) as ->.
    { unfold optimized_free_memory. rewrite (proj2 (Z.eqb_neq ptr 0) Hnz).
      rewrite (proj2 (Z.ltb_ge _ _)); [reflexivity|].
      zconst. Z.to_euclidean_division_equations. lia. }
    split; [exact Hopt|]. split; [reflexivity | lia].
Qed.

Lemma optimized_free_is_unchecked_witness :
  let s := init_memory_management in
  let s' := optimized_free_memory s 8192 in
  opt_ok s' /\
  (8192 = 0 \/ PHYS_MEMORY_END <= 8192 -> s' = s) /\
  (0 < 8192 < PHYS_MEMORY_END ->
   page_bitmap s' = bitmap_clear (page_bitmap s) (8192 / PAGE_SIZE) /\
   next_free_page s' = Z.min (next_free_page s) (8192 / PAGE_SIZE) /\
   frame_used (page_bitmap s') (8192 / PAGE_SIZE) = false /\
   forall g, 0 <= g -> g <> 8192 / PAGE_SIZE ->
             frame_used (page_bitmap s') g = frame_used (page_bitmap s) g).
Proof.
  apply (optimized_free_is_unchecked init_memory_management 8192).
  - split; [apply init_bitmap_ok | vm_compute; split; discriminate].
  - lia.
Defined.

(** The finder on a state whose hint is a clear frame that is the lowest
    clear frame of its byte. *)
Lemma opt_find_at_hint s f :
  opt_ok s -> next_free_page s = f -> 0 <= f < TOTAL_PAGES ->
  frame_used (page_bitmap s) f = false ->
  (forall g, 8 * (f / 8) <= g < f -> frame_used (page_bitmap s) g = true) ->
  optimized_find_free_page s = (f, set_hint s (f + 1)).
Proof.
  intros Hopt Hhint Hf Hclear Hlow.
  destruct (frame_split f ltac:(lia)) as (Hfd & Hf0 & Hfb).
  destruct (opt_find_cases s Hopt) as [(_ & Hall)|(f' & Hf' & Hclear' & -> & Hfirst)].
  - rewrite Hall in Hclear by lia. discriminate.
  - rewrite Hhint in Hfirst.
    assert (f' = f) as ->; [|reflexivity].
    destruct Hfirst as [(Hge & Hbefore)|(_ & Hall & _)].
    + destruct (Z.lt_trichotomy f' f) as [Hlt|[Heq|Hgt]]; [|exact Heq|].
      * rewrite Hlow in Hclear' by lia. discriminate.
      * rewrite Hbefore in Hclear by lia. discriminate.
    + rewrite Hall in Hclear by lia. discriminate.
Qed.

(** X14. With the optimized allocator a kernel page can be released and
    handed out: after [optimized_init_memory_management], releasing any
    non-null pointer into the first megabyte and asking for a page returns
    the page of that pointer, which lies below [KERNEL_END]. (For a pointer
    into the first page the address returned is 0, which callers read as
    a failure, while frame 0 is marked again.) *)
Theorem optimized_free_hands_out_kernel_pages (s0 : mm_state) (ptr : Z) :
  length (page_bitmap s0) = Z.to_nat BITMAP_SIZE -> 0 < ptr < KERNEL_END ->
  let s := optimized_init_memory_management s0 in
  let s1 := optimized_free_memory s ptr in
  let r := optimized_allocate_memory s1 PAGE_SIZE in
  frame_used (page_bitmap s) (ptr / PAGE_SIZE) = true /\
  frame_used (page_bitmap s1) (ptr / PAGE_SIZE) = false /\
  fst r = ptr / PAGE_SIZE * PAGE_SIZE /\ fst r < KERNEL_END /\
  page_bitmap (snd r) = page_bitmap s.
Proof.
  intros Hlen Hp. cbn zeta.
  destruct (optimized_init_bitmap s0 Hlen) as (Hbm & Hhint).
  set (s := optimized_init_memory_management s0) in *.
  assert (opt_ok s) as Hopt
    by (split; [rewrite Hbm; apply init_bitmap_ok | rewrite Hhint; cbn; zlia]).
  assert (forall g, 0 <= g < TOTAL_PAGES ->
            frame_used (page_bitmap s) g = (g <? kernel_pages)) as Hframes
    by (intros g Hg; rewrite Hbm; apply init_frames; exact Hg).
  set (f := ptr / PAGE_SIZE).
  assert (0 <= f < kernel_pages) as Hf
    by (subst f; zconst; Z.to_euclidean_division_equations; lia).
  assert (frame_used (page_bitmap s) f = true) as Hused
    by (rewrite Hframes by zlia; apply Z.ltb_lt; lia).
  destruct (optimized_free_is_unchecked_aux s ptr Hopt ltac:(zlia))
    as (Hopt1 & Hb1 & Hh1 & Hc1 & Hother).
  fold f in Hb1, Hh1, Hc1, Hother.
  set (s1 := optimized_free_memory s ptr) in *.
  assert (next_free_page s1 = f) as Hhint1.
  { rewrite Hh1, Hhint. change (next_free_page init_memory_management) with kernel_pages.
    lia. }
  assert (optimized_find_free_page s1 = (f, set_hint s1 (f + 1))) as Hfind.
  { apply opt_find_at_hint; [exact Hopt1 | exact Hhint1 | zlia | exact Hc1 |].
    intros g Hg. destruct (frame_split f ltac:(lia)) as (_ & Hq & _).
    rewrite Hother by lia. rewrite Hframes by zlia. apply Z.ltb_lt. lia. }
  split; [exact Hused|]. split; [exact Hc1|].
  unfold optimized_allocate_memory. rewrite Z.eqb_refl. cbn [negb]. rewrite Hfind.
  rewrite (proj2 (Z.eqb_neq f NO_PAGE)) by zlia. rewrite page_address by zlia.
  cbn [fst snd set_bitmap set_hint page_bitmap].
  split; [reflexivity|]. split; [zlia|].
  rewrite Hb1. apply bitmap_ext.
  - apply bitmap_set_ok, bitmap_clear_ok. apply Hopt.
  - apply Hopt.
  - intros g Hg. rewrite frame_used_set by (try apply bitmap_clear_ok; try apply Hopt; zlia).
    rewrite frame_used_clear by (try apply Hopt; zlia).
    destruct (Z.eqb_spec f g) as [->|]; [symmetry; exact Hused | reflexivity].
Qed.


Lemma optimized_free_hands_out_kernel_pages_witness :
  let s := optimized_init_memory_management init_memory_management in
  let s1 := optimized_free_memory s 8192 in
  let r := optimized_allocate_memory s1 PAGE_SIZE in
  frame_used (page_bitmap s) (8192 / PAGE_SIZE) = true /\
  frame_used (page_bitmap s1) (8192 / PAGE_SIZE) = false /\
  fst r = 8192 / PAGE_SIZE * PAGE_SIZE /\ fst r < KERNEL_END /\
  page_bitmap (snd r) = page_bitmap s.
Proof.
  apply (optimized_free_hands_out_kernel_pages init_memory_management 8192).
  - reflexivity.
  - vm_compute. split; reflexivity.
Defined.

(** X15. With the optimized allocator, allocating a page, releasing it and
    allocating again returns the same page, from every state: the release
    restores the bitmap and puts the hint on the frame, and the frame is
    the lowest clear one of its byte. *)
Theorem optimized_allocate_free_allocate (s : mm_state) :
  opt_ok s ->
  let a := fst (optimized_allocate_memory s PAGE_SIZE) in
  let s1 := snd (optimized_allocate_memory s PAGE_SIZE) in
  let s2 := optimized_free_memory s1 a in
  a <> 0 ->
  page_bitmap s2 = page_bitmap s /\ next_free_page s2 = a / PAGE_SIZE /\
  fst (optimized_allocate_memory s2 PAGE_SIZE) = a.
Proof.
  intros Hopt. cbn zeta. pose proof Hopt as [Hok Hh].
  destruct (opt_find_cases s Hopt) as [(Hnone & _)|(f & Hf & Hclear & Hfound & Hfirst)].
  { unfold optimized_allocate_memory. rewrite Z.eqb_refl, Hnone. cbn. congruence. }
  set (s1 := set_bitmap (set_hint s (f + 1)) (bitmap_set (page_bitmap s) f)).
  assert (optimized_allocate_memory s PAGE_SIZE = (f * PAGE_SIZE, s1)) as Halloc.
  { unfold optimized_allocate_memory. rewrite Z.eqb_refl, Hfound. cbn [negb].
    rewrite (proj2 (Z.eqb_neq f NO_PAGE)) by zlia. rewrite page_address by lia.
    reflexivity. }
  rewrite Halloc. cbn [fst snd]. intros Hnz.
  assert (opt_ok s1) as Hopt1
    by (split; [apply bitmap_set_ok; exact Hok | cbn; lia]).
  destruct (optimized_free_is_unchecked_aux s1 (f * PAGE_SIZE) Hopt1 ltac:(zlia))
    as (Hopt2 & Hb2 & Hh2 & Hc2 & Hother).
  rewrite page_frame in *.
  set (s2 := optimized_free_memory s1 (f * PAGE_SIZE)) in *.
  assert (page_bitmap s2 = page_bitmap s) as Hsame.
  { rewrite Hb2. cbn [s1 page_bitmap set_bitmap]. apply bitmap_clear_set; assumption. }
  assert (next_free_page s2 = f) as Hhint2 by (rewrite Hh2; cbn; lia).
  split; [exact Hsame|]. split; [exact Hhint2|].
  destruct (frame_split f ltac:(lia)) as (Hfd & Hf0 & Hfb).
  assert (optimized_find_free_page s2 = (f, set_hint s2 (f + 1))) as Hfind.
  { apply opt_find_at_hint; [exact Hopt2 | exact Hhint2 | exact Hf | exact Hc2 |].
    intros g Hg. rewrite Hsame.
    destruct Hfirst as [(Hge & Hbefore)|(_ & _ & Hbefore)]; apply Hbefore; [|lia].
    pose proof (Z.div_le_mono _ _ 8 ltac:(lia) Hge) as Hq.
    rewrite Z.mul_comm, Z.div_mul in Hq by lia. lia. }
  unfold optimized_allocate_memory. rewrite Z.eqb_refl. cbn [negb]. rewrite Hfind.
  rewrite (proj2 (Z.eqb_neq f NO_PAGE)) by zlia. rewrite page_address by lia.
  reflexivity.
Qed.

Lemma optimized_allocate_free_allocate_witness :
  let s := init_memory_management in
  let a := fst (optimized_allocate_memory s PAGE_SIZE) in
  let s1 := snd (optimized_allocate_memory s PAGE_SIZE) in
  let s2 := optimized_free_memory s1 a in
  page_bitmap s2 = page_bitmap s /\ next_free_page s2 = a / PAGE_SIZE /\
  fst (optimized_allocate_memory s2 PAGE_SIZE) = a.
Proof.
  apply (optimized_allocate_free_allocate init_memory_management).
  - split; [apply init_bitmap_ok | vm_compute; split; discriminate].
  - vm_compute. discriminate.
Defined.

(** ** The two finders on the states of the optimized allocator *)

Lemma opt_boot_state_ok : opt_ok opt_boot_state /\ below_hint_used opt_boot_state.
Proof.
  split; [split|].
  - split; [reflexivity|]. apply Forall_replicate. lia.
  - cbn. zlia.
  - intros g Hg. cbn in Hg. lia.
Qed.

(** Every function of the optimized allocator that writes the bitmap or
    the hint keeps every frame below the hint marked: initialisation marks
    the kernel's frames and puts the hint behind them, a grant marks the
    frame it found and puts the hint behind it, a release lowers the hint
    to the released frame when it was above, and [optimized_map_page] only
    marks. *)
Lemma opt_step_below_hint s o :
  opt_ok s -> below_hint_used s ->
  opt_ok (opt_step s o) /\ below_hint_used (opt_step s o).
Proof.
  intros Hopt Hlow. pose proof Hopt as [Hok Hh]. unfold below_hint_used in *.
  destruct o as [|sz|ptr|phys virt]; cbn [opt_step].
  - destruct (optimized_init_bitmap s (proj1 Hok)) as (Hbm & Hhint).
    split; [split|].
    + rewrite Hbm. apply init_bitmap_ok.
    + rewrite Hhint. cbn. zlia.
    + intros g Hg. rewrite Hhint in Hg. rewrite Hbm.
      change (next_free_page init_memory_management) with kernel_pages in Hg.
      rewrite init_frames by zlia. apply Z.ltb_lt. lia.
  - unfold optimized_allocate_memory.
    destruct (u32 sz =? PAGE_SIZE); cbn [negb snd]; [|split; assumption].
    destruct (opt_find_cases s Hopt) as [(-> & _)|(f & Hf & Hclear & -> & Hfirst)].
    { rewrite Z.eqb_refl. cbn [snd]. split; assumption. }
    rewrite (proj2 (Z.eqb_neq f NO_PAGE)) by zlia. cbn [snd].
    split; [split|]; cbn [set_bitmap set_hint page_bitmap next_free_page].
    + apply bitmap_set_ok, Hok.
    + lia.
    + intros g Hg. rewrite frame_used_set by (try assumption; lia).
      destruct (Z.eqb_spec f g) as [|Hne]; [reflexivity|].
      destruct (Z.lt_ge_cases g (next_free_page s)) as [Hb|Ha]; [apply Hlow; lia|].
      destruct (frame_split (next_free_page s) ltac:(lia)) as (Hd & Hq & Hr).
      destruct Hfirst as [(_ & Hbefore)|(_ & _ & Hbefore)]; apply Hbefore; lia.
  - pose proof (Z.mod_pos_bound ptr 4294967296 ltac:(lia)) as Hp. fold (u32 ptr) in Hp.
    destruct (Z.eq_dec (u32 ptr) 0) as [Hz|Hnz].
    { rewrite Hz. change (optimized_free_memory s 0) with s. split; assumption. }
    destruct (Z.lt_ge_cases (u32 ptr) PHYS_MEMORY_END) as [Hin|Hout].
    + destruct (optimized_free_is_unchecked_aux s (u32 ptr) Hopt ltac:(lia))
        as (Hopt' & _ & Hh' & _ & Hother).
      split; [exact Hopt'|]. intros g Hg. rewrite Hh' in Hg.
      rewrite Hother by lia. apply Hlow. lia.
    + unfold optimized_free_memory. rewrite (proj2 (Z.eqb_neq _ _) Hnz).
      rewrite (proj2 (Z.ltb_ge _ _)); [split; assumption|].
      zconst. Z.to_euclidean_division_equations. lia.
  - unfold optimized_map_page.
    pose proof (Z.mod_pos_bound phys 4294967296 ltac:(lia)) as Hp. fold (u32 phys) in Hp.
    assert (0 <= u32 phys / PAGE_SIZE)
      by (zconst; Z.to_euclidean_division_equations; lia).
    destruct (Z.ltb_spec (u32 phys / PAGE_SIZE) TOTAL_PAGES); [|split; assumption].
    split; [split|]; cbn [set_bitmap page_bitmap next_free_page].
    + apply bitmap_set_ok, Hok.
    + exact Hh.
    + intros g Hg. rewrite frame_used_set by (try assumption; lia).
      destruct (_ =? _); [reflexivity | apply Hlow, Hg].
Qed.

Lemma opt_run_below_hint ops : forall s,
  opt_ok s -> below_hint_used s ->
  opt_ok (opt_run s ops) /\ below_hint_used (opt_run s ops).
Proof.
  induction ops as [|o ops IH]; intros s Hopt Hlow; [split; assumption|].
  destruct (opt_step_below_hint s o Hopt Hlow) as [Hopt' Hlow'].
  apply (IH _ Hopt' Hlow').
Qed.

(** C9, as amended. On every bitmap and hint in which no frame below the
    hint is clear, [optimized_find_free_page] and [find_free_page] return
    the same frame index, or both report out of memory, and leave the same
    hint. Every state of the optimized allocator is of that kind: the
    property holds of its statics at program start and after
    initialisation, and every sequence of calls of its functions with any
    arguments keeps it. *)
Theorem finders_agree_on_optimized_states (s0 : mm_state) (ops : list opt_op) :
  opt_ok s0 -> below_hint_used s0 ->
  let s := opt_run s0 ops in
  opt_ok s /\ below_hint_used s /\
  optimized_find_free_page s = find_free_page s /\
  (fst (find_free_page s) = NO_PAGE <->
   forall g, 0 <= g < TOTAL_PAGES -> frame_used (page_bitmap s) g = true).
Proof.
  intros Hopt0 Hlow0. cbn zeta.
  destruct (opt_run_below_hint ops s0 Hopt0 Hlow0) as [Hopt Hlow].
  set (s := opt_run s0 ops) in *. pose proof Hopt as [Hok Hh].
  split; [exact Hopt|]. split; [exact Hlow|]. split.
  - apply finders_agree_above_hint; assumption.
  - destruct (find_free_page_cases s) as [(f & -> & Hf & Hclear & _)|(-> & Hall)];
      cbn [fst].
    + split; [zlia|]. intros Hused. rewrite Hused in Hclear by lia. discriminate.
    + split; [|reflexivity]. intros _ g Hg.
      destruct (Z.lt_ge_cases g (next_free_page s)); [apply Hlow | apply Hall]; lia.
Qed.

Lemma finders_agree_on_optimized_states_witness :
  let s := opt_run opt_boot_state
             [OptAlloc 4096; OptInit; OptAlloc 4096; OptAlloc 4096; OptFree 1048576;
              OptFree 20; OptMapPage 8192 8192; OptAlloc 4096] in
  opt_ok s /\ below_hint_used s /\
  optimized_find_free_page s = find_free_page s /\
  (fst (find_free_page s) = NO_PAGE <->
   forall g, 0 <= g < TOTAL_PAGES -> frame_used (page_bitmap s) g = true).
Proof.
  apply (finders_agree_on_optimized_states opt_boot_state
           [OptAlloc 4096; OptInit; OptAlloc 4096; OptAlloc 4096; OptFree 1048576;
            OptFree 20; OptMapPage 8192 8192; OptAlloc 4096]).
  - split; [split; [reflexivity | apply Forall_replicate; lia] | cbn; zlia].
  - intros g Hg. cbn in Hg. lia.
Defined.

End OptProofs.
(** * Further properties of the scheduler *)

Module SchedExtra.
Import Sched.
Import MemProofs.
Import SchedProofs.
Import FairProofs.
Import BalanceProofs.

(** ** The run queue *)

(** X16. The circular run queue is a first-in first-out queue of at most
    63 entries (one of its 64 slots always stays empty): [push_rq] appends
    at the back while fewer than 63 entries are queued and otherwise
    refuses with -1 and changes nothing; [pop_rq] returns -1 on the empty
    queue and otherwise removes and returns the entry at the front.
    Neither touches anything but the queue. *)
Theorem run_queue_is_fifo (s : sc_state) (x : Z) :
  sched_wf s ->
  (length (rq_list s) <= 63)%nat /\
  (rq_len s < 63 ->
   fst (push_rq s x) = 0 /\ rq_list (snd (push_rq s x)) = rq_list s ++ [x]) /\
  (rq_len s = 63 -> push_rq s x = (-1, s)) /\
  (rq_list s = [] -> pop_rq s = (-1, s)) /\
  (forall y l, rq_list s = y :: l ->
     fst (pop_rq s) = y /\ rq_list (snd (pop_rq s)) = l) /\
  (forall t, t = snd (push_rq s x) \/ t = snd (pop_rq s) ->
     sched_wf t /\ sc_threads t = sc_threads s /\
     sc_thread_count t = sc_thread_count s /\ sc_cpu_load t = sc_cpu_load s /\
     sc_cpu_count t = sc_cpu_count s /\ sc_current_thread t = sc_current_thread s).
Proof.
  intros Hwf. pose proof (rq_len_range s) as Hr.
  split; [rewrite length_rq_list; slia|].
  split; [|split; [|split; [|split]]].
  - intros Hroom. destruct (push_rq_room s x Hwf ltac:(slia)) as (-> & Hl & _).
    split; [reflexivity | exact Hl].
  - intros Hfull. apply push_rq_full; [exact Hwf | slia].
  - intros Hnil. apply pop_rq_empty; assumption.
  - intros y l Hq. destruct (pop_rq_cons s y l Hwf Hq) as (-> & Hl & _).
    split; [reflexivity | exact Hl].
  - intros t [-> | ->].
    + destruct (push_rq_frame s x Hwf) as (H1 & H2 & H3 & H4 & H5 & H6 & _).
      do 5 (split; [assumption|]); assumption.
    + destruct (pop_rq_frame s Hwf) as (H1 & H2 & H3 & H4 & H5 & H6 & _).
      do 5 (split; [assumption|]); assumption.
Qed.

Lemma run_queue_is_fifo_witness :
  let s := spawn (init_scheduler boot_state 4) 1 3 in
  (length (rq_list s) <= 63)%nat /\
  (rq_len s < 63 ->
   fst (push_rq s 7) = 0 /\ rq_list (snd (push_rq s 7)) = rq_list s ++ [7]) /\
  (rq_len s = 63 -> push_rq s 7 = (-1, s)) /\
  (rq_list s = [] -> pop_rq s = (-1, s)) /\
  (forall y l, rq_list s = y :: l ->
     fst (pop_rq s) = y /\ rq_list (snd (pop_rq s)) = l) /\
  (forall t, t = snd (push_rq s 7) \/ t = snd (pop_rq s) ->
     sched_wf t /\ sc_threads t = sc_threads s /\
     sc_thread_count t = sc_thread_count s /\ sc_cpu_load t = sc_cpu_load s /\
     sc_cpu_count t = sc_cpu_count s /\ sc_current_thread t = sc_current_thread s).
Proof.
  apply (run_queue_is_fifo (spawn (init_scheduler boot_state 4) 1 3) 7).
  apply (proj1 (spawn_spec 4 1 3 ltac:(discriminate) ltac:(lia))).
Defined.

(** ** The load counters *)

Lemma count_loop_tally s (n : nat) : forall i acc,
  0 <= i ->
  count_loop s n i acc
  = acc + (tally (unfinished s) (Z.to_nat i + n) - tally (unfinished s) (Z.to_nat i)).
Proof.
  induction n as [|n IH]; intros i acc Hi; cbn [count_loop].
  - rewrite Nat.add_0_r. lia.
  - rewrite IH by lia.
    replace (Z.to_nat (i + 1) + n)%nat with (S (Z.to_nat i + n)) by lia.
    replace (Z.to_nat i + S n)%nat with (S (Z.to_nat i + n)) by lia.
    replace (Z.to_nat (i + 1)) with (S (Z.to_nat i)) by lia.
    change (tally (unfinished s) (S (Z.to_nat i)))
      with (tally (unfinished s) (Z.to_nat i)
            + (if unfinished s (Z.of_nat (Z.to_nat i)) then 1 else 0)).
    rewrite Z2Nat.id by lia. unfold unfinished at 3.
    destruct (state_eqb (state (thread_at s i)) THREAD_DONE); cbn [negb]; lia.
Qed.

Lemma get_thread_count_tally s :
  get_thread_count s = tally (unfinished s) (Z.to_nat (sc_thread_count s)).
Proof.
  unfold get_thread_count. rewrite count_loop_tally by lia.
  change (Z.to_nat 0) with 0%nat. cbn [Nat.add tally]. lia.
Qed.

Lemma tally_zero (P : Z -> bool) (n : nat) :
  (forall i, 0 <= i < Z.of_nat n -> P i = false) -> tally P n = 0.
Proof.
  induction n as [|n IH]; intros HP; cbn [tally]; [reflexivity|].
  rewrite IH by (intros i Hi; apply HP; lia). rewrite HP by lia. reflexivity.
Qed.

Lemma tally_add (P Q R : Z -> bool) (n : nat) :
  (forall i, 0 <= i < Z.of_nat n ->
     (if P i then 1 else 0) + (if Q i then 1 else 0) = (if R i then 1 else 0)) ->
  tally P n + tally Q n = tally R n.
Proof.
  induction n as [|n IH]; intros H; cbn [tally]; [reflexivity|].
  specialize (IH ltac:(intros i Hi; apply H; lia)).
  specialize (H (Z.of_nat n) ltac:(lia)). lia.
Qed.

(** Summing, over the CPUs below [k], the threads that count for each. *)
Lemma sum_tally_live s (k : nat) (n : nat) :
  (forall c, 0 <= c < Z.of_nat k -> get_cpu_load s c = tally (live_on s c) n) ->
  sum_loads s k
  = tally (fun i => unfinished s i && (0 <=? cpu_id (thread_at s i))
                    && (cpu_id (thread_at s i) <? Z.of_nat k)) n.
Proof.
  induction k as [|k IH]; intros Hload; cbn [sum_loads].
  - symmetry. apply tally_zero. intros i _.
    destruct (Z.leb_spec 0 (cpu_id (thread_at s i)));
      destruct (Z.ltb_spec (cpu_id (thread_at s i)) (Z.of_nat 0));
      rewrite ?andb_false_r; try reflexivity; lia.
  - rewrite IH by (intros c Hc; apply Hload; lia).
    rewrite Hload by lia. apply tally_add. intros i _.
    unfold live_on, unfinished.
    set (c := cpu_id (thread_at s i)).
    destruct (state_eqb _ _); cbn [negb andb]; rewrite ?andb_false_r; [lia|].
    destruct (Z.leb_spec 0 c), (Z.ltb_spec c (Z.of_nat k)), (Z.ltb_spec c (Z.of_nat (S k))),
      (Z.eqb_spec c (Z.of_nat k)); cbn [andb]; lia.
Qed.

(** X17. Between any two calls of its driver, whatever the thread bodies
    do, each load counter is the number of unfinished threads assigned to
    its CPU, every thread is assigned to a CPU in use, and the counters add
    up to [get_thread_count]. *)
Theorem load_counters_count_threads {E : Type} (code : Z -> Z -> E -> slice E)
    (cpus : Z) (e : E) (ops : list driver_op) :
  let s := fst (drive code (init_scheduler boot_state cpus, e) ops) in
  (forall c, 0 <= c < sc_cpu_count s ->
     get_cpu_load s c = tally (live_on s c) (Z.to_nat (sc_thread_count s)) /\
     0 <= get_cpu_load s c <= get_thread_count s) /\
  (forall i, 0 <= i < sc_thread_count s ->
     0 <= cpu_id (thread_at s i) < sc_cpu_count s) /\
  total_load s = get_thread_count s.
Proof.
  cbn zeta.
  destruct (load_inv_drive code ops (init_scheduler boot_state cpus, e)
              (load_inv_init cpus) eq_refl) as [Hinv _].
  set (s := fst (drive code (init_scheduler boot_state cpus, e) ops)) in *.
  pose proof (li_wf _ Hinv) as Hwf. pose proof (wf_cpus _ Hwf) as Hcpus.
  assert (forall c, 0 <= c < sc_cpu_count s ->
            get_cpu_load s c = tally (live_on s c) (Z.to_nat (sc_thread_count s))) as Hload.
  { intros c Hc. unfold get_cpu_load.
    rewrite (proj2 (Z.ltb_ge c 0)) by lia. rewrite Z.geb_leb.
    rewrite (proj2 (Z.leb_gt (sc_cpu_count s) c)) by lia. cbn [orb].
    apply (li_load _ Hinv). slia. }
  assert (total_load s = get_thread_count s) as Htotal.
  { unfold total_load. rewrite get_thread_count_tally.
    rewrite (sum_tally_live s _ (Z.to_nat (sc_thread_count s)))
      by (intros c Hc; apply Hload; lia).
    apply tally_ext. intros i Hi.
    pose proof (li_cpu _ Hinv i ltac:(lia)) as Hci.
    rewrite (proj2 (Z.leb_le 0 _)) by lia.
    rewrite (proj2 (Z.ltb_lt _ _)) by lia. rewrite !andb_true_r. reflexivity. }
  split; [|split; [apply (li_cpu _ Hinv) | exact Htotal]].
  intros c Hc. split; [apply Hload; exact Hc|]. rewrite (Hload c Hc).
  split; [apply tally_nonneg|]. rewrite get_thread_count_tally.
  clear. induction (Z.to_nat (sc_thread_count s)) as [|n IH]; cbn [tally]; [lia|].
  unfold live_on at 2, unfinished at 2.
  destruct (_ =? c), (state_eqb _ _); cbn [negb andb]; lia.
Qed.


(** ** What each function does to the threads and to the queue *)

Lemma rq_list_frame s s' :
  sc_run_queue s' = sc_run_queue s -> sc_rq_head s' = sc_rq_head s ->
  sc_rq_tail s' = sc_rq_tail s -> rq_list s' = rq_list s.
Proof. intros H1 H2 H3. unfold rq_list, rq_len. rewrite H1, H2, H3. reflexivity. Qed.

Lemma push_rq_list s x :
  sched_wf s ->
  rq_list (snd (push_rq s x)) = rq_list s ++ [x] \/
  rq_list (snd (push_rq s x)) = rq_list s.
Proof.
  intros Hwf. destruct (push_rq_cases s x Hwf) as [[-> _]|(-> & Hl & _)]; cbn [snd].
  - right. reflexivity.
  - left. exact Hl.
Qed.

Lemma yield_effect s :
  load_inv s -> 0 <= sc_current_thread s ->
  let k := sc_current_thread s in
  (forall i, 0 <= i ->
     thread_at (yield s) i
     = if k =? i then set_state (thread_at s k) THREAD_READY else thread_at s i) /\
  (rq_list (yield s) = rq_list s ++ [k] \/ rq_list (yield s) = rq_list s) /\
  sc_thread_count (yield s) = sc_thread_count s /\
  sc_current_thread (yield s) = -1.
Proof.
  intros Hinv Hk. cbn zeta. pose proof (li_wf _ Hinv) as Hwf.
  pose proof (li_current _ Hinv) as Hcur. pose proof (wf_count _ Hwf) as Hc.
  unfold yield. rewrite (proj2 (Z.ltb_ge _ 0)) by lia.
  set (k := sc_current_thread s) in *.
  set (s1 := with_threads s (aset (sc_threads s) k (set_state (thread_at s k) THREAD_READY))).
  assert (sched_wf s1) as Hwf1 by (subst s1; wf_step).
  destruct (push_rq_frame s1 k Hwf1) as (Hwf2 & Hth & Hcount & _).
  split; [|split; [|split; [exact Hcount | reflexivity]]].
  - intros i Hi. unfold thread_at at 1. cbn [with_current sc_threads]. rewrite Hth.
    apply thread_at_update; [exact Hwf | slia | exact Hi].
  - assert (rq_list (with_current (snd (push_rq s1 k)) (-1)) = rq_list (snd (push_rq s1 k)))
      as -> by (apply rq_list_frame; reflexivity).
    assert (rq_list s1 = rq_list s) as <- by (apply rq_list_frame; reflexivity).
    destruct (push_rq_list s1 k Hwf1) as [H|H]; [left | right]; exact H.
Qed.

Lemma complete_effect s :
  load_inv s -> 0 <= sc_current_thread s ->
  let k := sc_current_thread s in
  (forall i, 0 <= i ->
     thread_at (complete_current_thread s) i
     = if k =? i then set_state (thread_at s k) THREAD_DONE else thread_at s i) /\
  rq_list (complete_current_thread s) = rq_list s /\
  sc_thread_count (complete_current_thread s) = sc_thread_count s /\
  sc_current_thread (complete_current_thread s) = -1.
Proof.
  intros Hinv Hk. cbn zeta. pose proof (li_wf _ Hinv) as Hwf.
  pose proof (li_current _ Hinv) as Hcur. pose proof (wf_count _ Hwf) as Hc.
  unfold complete_current_thread. rewrite (proj2 (Z.ltb_ge _ 0)) by lia.
  split; [|split; [|split]]; try reflexivity.
  intros i Hi. unfold thread_at at 1. cbn [with_current with_load with_threads sc_threads].
  apply thread_at_update; [exact Hwf | slia | exact Hi].
Qed.

Lemma create_effect s fn a prio :
  load_inv s ->
  (snd (create_thread s fn a prio) = s /\ fst (create_thread s fn a prio) = -1 /\
   (fn = 0 \/ SC_MAX_THREADS <= sc_thread_count s)) \/
  (fn <> 0 /\ sc_thread_count s < SC_MAX_THREADS /\
   let r := sc_thread_count s in
   let s' := snd (create_thread s fn a prio) in
   fst (create_thread s fn a prio) = r /\
   (exists best, 0 <= best < sc_cpu_count s /\
      forall i, 0 <= i ->
        thread_at s' i
        = if r =? i then mkThread r best prio 1 fn a THREAD_READY 0 else thread_at s i) /\
   (rq_list s' = rq_list s ++ [r] \/ rq_list s' = rq_list s) /\
   sc_thread_count s' = r + 1 /\
   sc_current_thread s' = sc_current_thread s).
Proof.
  intros Hinv. pose proof (li_wf _ Hinv) as Hwf.
  pose proof (wf_count _ Hwf) as Hc. pose proof (wf_cpus _ Hwf) as Hcpus.
  unfold create_thread. destruct (Z.eqb_spec fn 0) as [Hfn|Hfn].
  { left. split; [reflexivity|]. split; [reflexivity | left; exact Hfn]. }
  rewrite Z.geb_leb.
  destruct (Z.leb_spec SC_MAX_THREADS (sc_thread_count s)) as [Hfull|Hroom].
  { left. split; [reflexivity|]. split; [reflexivity | right; exact Hfull]. }
  right. split; [exact Hfn|]. split; [exact Hroom|]. cbn zeta. cbn [fst snd].
  pose proof (best_cpu_range s ltac:(lia)) as Hbest.
  set (best := best_cpu_loop (sc_cpu_load s) (Z.to_nat (sc_cpu_count s - 1)) 1 0) in *.
  set (r := sc_thread_count s) in *.
  set (newt := mkThread r best prio 1 fn a THREAD_READY 0).
  set (s1 := mkSched (aset (sc_threads s) r newt) (r + 1) (sc_run_queue s) (sc_rq_head s)
                     (sc_rq_tail s)
                     (aset (sc_cpu_load s) best (aget 0 (sc_cpu_load s) best + 1))
                     (sc_cpu_count s) (sc_current_thread s)).
  assert (sched_wf s1) as Hwf1 by (subst s1 r; wf_tac Hwf).
  destruct (push_rq_frame s1 r Hwf1) as (Hwf2 & Hth & Hcount & _ & _ & Hcur' & _).
  split; [reflexivity|]. split; [|split; [|split; [exact Hcount | exact Hcur']]].
  - exists best. split; [exact Hbest|]. intros i Hi. unfold thread_at at 1. rewrite Hth.
    apply thread_at_update; [exact Hwf | slia | exact Hi].
  - assert (rq_list s1 = rq_list s) as <- by (apply rq_list_frame; reflexivity).
    apply push_rq_list. exact Hwf1.
Qed.

Lemma load_balance_effect s :
  load_inv s ->
  rq_list (load_balance s) = rq_list s /\
  sc_thread_count (load_balance s) = sc_thread_count s /\
  sc_current_thread (load_balance s) = sc_current_thread s /\
  forall i, 0 <= i ->
    thread_at (load_balance s) i = thread_at s i \/
    (state (thread_at s i) = THREAD_READY /\
     exists c, thread_at (load_balance s) i = set_cpu (thread_at s i) c).
Proof.
  intros Hinv. pose proof (li_wf _ Hinv) as Hwf. pose proof (wf_count _ Hwf) as Hc.
  destruct (load_balance_cases s) as [[_ ->]|[(_ & _ & ->)|(Hgap & k & (Hk & Hready & _) & ->)]];
    try (split; [reflexivity|]; split; [reflexivity|]; split; [reflexivity|];
         intros i _; left; reflexivity).
  split; [reflexivity|]. split; [reflexivity|]. split; [reflexivity|].
  intros i Hi. rewrite migrated_thread by (try assumption; slia).
  destruct (Z.eqb_spec k i) as [<-|Hne]; [|left; reflexivity].
  right. unfold ready_on in Hready. apply andb_true_iff in Hready as [Hst _].
  apply state_eqb_eq in Hst. split; [exact Hst | eexists; reflexivity].
Qed.


(** ** The invariant of the run queue *)

Lemma follows_refl s : queue_inv s -> follows s s.
Proof. intros H. split; [exact H|]. split; [lia | reflexivity]. Qed.

Lemma follows_trans s s' s'' : follows s s' -> follows s' s'' -> follows s s''.
Proof.
  intros (_ & Hc & Hd) (Hq & Hc' & Hd'). split; [exact Hq|]. split; [lia|].
  intros i Hi Hdone. rewrite <- (Hd i Hi Hdone). apply Hd'; [lia|].
  rewrite (Hd i Hi Hdone). exact Hdone.
Qed.

Lemma queue_inv_init cpus : queue_inv (init_scheduler boot_state cpus).
Proof.
  split.
  - apply load_inv_init.
  - change (rq_list (init_scheduler boot_state cpus)) with (@nil Z). constructor.
  - change (rq_list (init_scheduler boot_state cpus)) with (@nil Z).
    intros x Hx. apply not_elem_of_nil in Hx. contradiction.
Qed.

(** The current thread is not in the queue. *)
Lemma current_not_queued s :
  queue_inv s -> 0 <= sc_current_thread s -> sc_current_thread s ∉ rq_list s.
Proof.
  intros [Hli _ Hready] Hk Hin.
  specialize (Hready _ Hin). rewrite (li_running _ Hli Hk) in Hready. discriminate.
Qed.

Lemma follows_call s c : queue_inv s -> follows s (snd (do_call c s)).
Proof.
  intros Hq. pose proof Hq as [Hli Hnd Hready].
  pose proof (li_wf _ Hli) as Hwf. pose proof (wf_count _ Hwf) as Hc.
  pose proof (load_inv_call s c Hli) as Hli'.
  destruct c; cbn [do_call snd] in *; try (apply follows_refl; exact Hq).
  - (* create_thread *)
    destruct (create_effect s fn a prio Hli)
      as [(-> & _)|(Hfn & Hroom & _ & (best & _ & Hth) & Hl & Hcount & _)];
      [apply follows_refl; exact Hq|].
    cbn zeta in *.
    assert (sc_thread_count s ∉ rq_list s) as Hfresh.
    { intros Hin. pose proof (li_queue _ Hli _ Hin). lia. }
    split; [split|].
    + exact Hli'.
    + destruct Hl as [-> | ->]; [|exact Hnd].
      apply NoDup_app. split; [exact Hnd|]. split; [|apply NoDup_singleton].
      intros x Hx Hx'. apply list_elem_of_singleton in Hx'. subst x. contradiction.
    + intros x Hx.
      assert (x ∈ rq_list s \/ x = sc_thread_count s) as Hcase.
      { destruct Hl as [Hl|Hl]; rewrite Hl in Hx; [|left; exact Hx].
        apply elem_of_app in Hx as [Hx|Hx]; [left; exact Hx|].
        right. apply list_elem_of_singleton in Hx. exact Hx. }
      destruct Hcase as [Hin| ->].
      * pose proof (li_queue _ Hli _ Hin). rewrite Hth by lia.
        rewrite (proj2 (Z.eqb_neq _ _)) by lia. apply Hready, Hin.
      * rewrite Hth by lia. rewrite Z.eqb_refl. reflexivity.
    + split; [lia|]. intros i Hi _. rewrite Hth by lia.
      rewrite (proj2 (Z.eqb_neq _ _)) by lia. reflexivity.
  - (* yield *)
    destruct (Z_lt_le_dec (sc_current_thread s) 0) as [Hneg|Hk].
    { assert (yield s = s) as ->
        by (unfold yield; rewrite (proj2 (Z.ltb_lt _ _) Hneg); reflexivity).
      apply follows_refl; exact Hq. }
    destruct (yield_effect s Hli Hk) as (Hth & Hl & Hcount & _). cbn zeta in *.
    pose proof (current_not_queued s Hq Hk) as Hnq.
    pose proof (li_running _ Hli Hk) as Hrun.
    split; [split|].
    + exact Hli'.
    + destruct Hl as [-> | ->]; [|exact Hnd].
      apply NoDup_app. split; [exact Hnd|]. split; [|apply NoDup_singleton].
      intros x Hx Hx'. apply list_elem_of_singleton in Hx'. subst x. contradiction.
    + intros x Hx.
      assert (x ∈ rq_list s \/ x = sc_current_thread s) as Hcase.
      { destruct Hl as [Hl|Hl]; rewrite Hl in Hx; [|left; exact Hx].
        apply elem_of_app in Hx as [Hx|Hx]; [left; exact Hx|].
        right. apply list_elem_of_singleton in Hx. exact Hx. }
      destruct Hcase as [Hin| ->].
      * pose proof (li_queue _ Hli _ Hin). rewrite Hth by lia.
        destruct (Z.eqb_spec (sc_current_thread s) x) as [<-|]; [contradiction|].
        apply Hready, Hin.
      * rewrite Hth by lia. rewrite Z.eqb_refl. reflexivity.
    + split; [lia|]. intros i Hi Hdone. rewrite Hth by lia.
      destruct (Z.eqb_spec (sc_current_thread s) i) as [<-|]; [|reflexivity].
      rewrite Hrun in Hdone. discriminate.
  - (* complete_current_thread *)
    destruct (Z_lt_le_dec (sc_current_thread s) 0) as [Hneg|Hk].
    { assert (complete_current_thread s = s) as ->
        by (unfold complete_current_thread; rewrite (proj2 (Z.ltb_lt _ _) Hneg); reflexivity).
      apply follows_refl; exact Hq. }
    destruct (complete_effect s Hli Hk) as (Hth & Hl & Hcount & _). cbn zeta in *.
    pose proof (current_not_queued s Hq Hk) as Hnq.
    pose proof (li_running _ Hli Hk) as Hrun.
    split; [split|].
    + exact Hli'.
    + rewrite Hl. exact Hnd.
    + intros x Hx. rewrite Hl in Hx. pose proof (li_queue _ Hli _ Hx).
      rewrite Hth by lia.
      destruct (Z.eqb_spec (sc_current_thread s) x) as [<-|]; [contradiction|].
      apply Hready, Hx.
    + split; [lia|]. intros i Hi Hdone. rewrite Hth by lia.
      destruct (Z.eqb_spec (sc_current_thread s) i) as [<-|]; [|reflexivity].
      rewrite Hrun in Hdone. discriminate.
  - (* load_balance *)
    destruct (load_balance_effect s Hli) as (Hl & Hcount & _ & Hth).
    split; [split|].
    + exact Hli'.
    + rewrite Hl. exact Hnd.
    + intros x Hx. rewrite Hl in Hx. pose proof (li_queue _ Hli _ Hx).
      destruct (Hth x ltac:(lia)) as [-> |(_ & c & ->)]; [apply Hready, Hx|].
      cbn [set_cpu state]. apply Hready, Hx.
    + split; [lia|]. intros i Hi Hdone.
      destruct (Hth i ltac:(lia)) as [-> |(Hst & _)]; [reflexivity|].
      rewrite Hst in Hdone. discriminate.
Qed.

Lemma follows_slice {E} (p : slice E) : forall s,
  queue_inv s -> follows s (fst (run_slice p s)).
Proof.
  induction p as [e|c k IH]; intros s Hq; cbn [run_slice].
  - apply follows_refl. exact Hq.
  - pose proof (follows_call s c Hq) as Hf.
    destruct (do_call c s) as [v s']. cbn [snd] in Hf.
    apply (follows_trans s s'); [exact Hf|]. apply IH. apply Hf.
Qed.


Lemma follows_schedule {E} (code : Z -> Z -> E -> slice E) s e :
  queue_inv s -> sc_current_thread s = -1 ->
  follows s (fst (schedule_process code (s, e))) /\
  sc_current_thread (fst (schedule_process code (s, e))) = -1.
Proof.
  intros Hq Hcur. pose proof Hq as [Hli Hnd Hready].
  pose proof (li_wf _ Hli) as Hwf. pose proof (wf_count _ Hwf) as Hc.
  destruct (load_inv_schedule code s e Hli Hcur) as [Hfinal Hcurf].
  split; [|exact Hcurf]. clear Hcurf.
  destruct (rq_list s) as [|x l] eqn:Hl.
  { assert (schedule_process code (s, e) = (s, e)) as ->.
    { unfold schedule_process. rewrite (pop_rq_empty s Hwf Hl). reflexivity. }
    apply follows_refl. exact Hq. }
  destruct (pop_rq_cons s x l Hwf Hl) as (Hpop & Hrest & Hwf1).
  assert (x ∈ rq_list s) as Hxin by (rewrite Hl; apply list_elem_of_here).
  pose proof (li_queue _ Hli _ Hxin) as Hx.
  pose proof (Hready x (list_elem_of_here _ _)) as Hrx.
  apply NoDup_cons in Hnd as [Hxl Hndl].
  destruct (load_inv_pop s Hli) as (Hlip & _). rewrite Hpop in Hlip. cbn [snd] in Hlip.
  unfold schedule_process in Hfinal |- *. rewrite Hpop in Hfinal |- *.
  rewrite (proj2 (Z.ltb_ge x 0)) in Hfinal |- * by lia.
  change (thread_at (popped s) x) with (thread_at s x) in Hfinal |- *.
  rewrite Hrx in Hfinal |- *. cbn [state_eqb negb] in Hfinal |- *.
  set (s3 := with_current (with_threads (popped s)
                (aset (sc_threads (popped s)) x (set_state (thread_at s x) THREAD_RUNNING))) x)
    in Hfinal |- *.
  assert (forall i, 0 <= i ->
            thread_at s3 i
            = if x =? i then set_state (thread_at s x) THREAD_RUNNING else thread_at s i)
    as Hth3.
  { intros i Hi. unfold thread_at at 1. cbn [s3 with_current with_threads sc_threads popped].
    apply thread_at_update; [exact Hwf | slia | exact Hi]. }
  assert (rq_list s3 = l) as Hl3 by (rewrite <- Hrest; apply rq_list_frame; reflexivity).
  assert (queue_inv s3) as Hq3.
  { split.
    - subst s3. apply load_inv_restate; try assumption.
      + left. exact Hcur.
      + reflexivity.
      + change (thread_at (popped s) x) with (thread_at s x). rewrite Hrx. discriminate.
      + cbn. discriminate.
      + left. split; reflexivity.
    - rewrite Hl3. exact Hndl.
    - rewrite Hl3. intros y Hy. rewrite Hth3.
      + destruct (Z.eqb_spec x y) as [<-|]; [contradiction|].
        apply Hready. apply list_elem_of_further. exact Hy.
      + assert (y ∈ rq_list s) as Hyin by (rewrite Hl; apply list_elem_of_further; exact Hy).
        pose proof (li_queue _ Hli _ Hyin). lia. }
  assert (follows s s3) as Hf3.
  { split; [exact Hq3|]. split; [cbn; lia|]. intros i Hi Hdone. rewrite Hth3 by lia.
    destruct (Z.eqb_spec x i) as [<-|]; [|reflexivity].
    rewrite Hrx in Hdone. discriminate. }
  pose proof (follows_slice (code (entry (thread_at s3 x)) (arg (thread_at s3 x)) e) s3 Hq3)
    as Hf4.
  destruct (run_slice (code (entry (thread_at s3 x)) (arg (thread_at s3 x)) e) s3)
    as [s4 e'].
  cbn [fst] in Hf4. pose proof Hf4 as (Hq4 & Hc4 & _).
  destruct (Z.eqb_spec (sc_current_thread s4) x) as [Hcx|Hcx]; cbn [fst] in Hfinal |- *.
  2:{ apply (follows_trans s s3); assumption. }
  apply (follows_trans s s3); [exact Hf3|]. apply (follows_trans s3 s4); [exact Hf4|].
  pose proof Hq4 as [Hli4 Hnd4 Hready4].
  pose proof (li_wf _ Hli4) as Hwf4. pose proof (wf_count _ Hwf4) as Hcount4.
  pose proof (li_current _ Hli4) as Hcur4.
  assert (state (thread_at s4 x) = THREAD_RUNNING) as Hrun4
    by (rewrite <- Hcx; apply (li_running _ Hli4); lia).
  assert (x ∉ rq_list s4) as Hnq4
    by (rewrite <- Hcx; apply current_not_queued; [exact Hq4 | lia]).
  set (s5 := with_threads s4 (aset (sc_threads s4) x (inc_ticks (thread_at s4 x))))
    in Hfinal |- *.
  set (s6 := with_threads s5 (aset (sc_threads s5) x (set_state (thread_at s5 x) THREAD_READY)))
    in Hfinal |- *.
  assert (sched_wf s5) as Hwf5 by (subst s5; wf_step).
  assert (sched_wf s6) as Hwf6 by (subst s6; wf_step).
  destruct (push_rq_frame s6 x Hwf6) as (_ & Hth7 & Hcount7 & _).
  set (f := with_current (snd (push_rq s6 x)) (-1)) in Hfinal |- *.
  assert (forall i, 0 <= i ->
            thread_at f i
            = if x =? i then set_state (thread_at s5 x) THREAD_READY else thread_at s4 i)
    as Hthf.
  { intros i Hi. unfold thread_at at 1. cbn [f with_current sc_threads]. rewrite Hth7.
    cbn [s6 with_threads sc_threads].
    rewrite aget_aset by (try lia; cbn [s5 with_threads sc_threads];
                          rewrite length_aset, (wf_threads _ Hwf4); slia).
    destruct (Z.eqb_spec x i) as [|Hne]; [reflexivity|].
    cbn [s5 with_threads sc_threads]. apply thread_at_other; lia. }
  assert (rq_list f = rq_list s4 ++ [x] \/ rq_list f = rq_list s4) as Hlf.
  { assert (rq_list f = rq_list (snd (push_rq s6 x))) as ->
      by (apply rq_list_frame; reflexivity).
    assert (rq_list s4 = rq_list s6) as -> by (apply rq_list_frame; reflexivity).
    apply push_rq_list. exact Hwf6. }
  split; [split|].
  - exact Hfinal.
  - destruct Hlf as [-> | ->]; [|exact Hnd4].
    apply NoDup_app. split; [exact Hnd4|]. split; [|apply NoDup_singleton].
    intros y Hy Hy'. apply list_elem_of_singleton in Hy'. subst y. contradiction.
  - intros y Hy.
    assert (y ∈ rq_list s4 \/ y = x) as Hcase.
    { destruct Hlf as [H|H]; rewrite H in Hy; [|left; exact Hy].
      apply elem_of_app in Hy as [Hy|Hy]; [left; exact Hy|].
      right. apply list_elem_of_singleton in Hy. exact Hy. }
    destruct Hcase as [Hin| ->].
    + pose proof (li_queue _ Hli4 _ Hin). rewrite Hthf by lia.
      destruct (Z.eqb_spec x y) as [<-|]; [contradiction|]. apply Hready4, Hin.
    + rewrite Hthf by lia. rewrite Z.eqb_refl. reflexivity.
  - split; [cbn [f with_current sc_thread_count]; rewrite Hcount7; cbn; lia|].
    intros i Hi Hdone. rewrite Hthf by lia.
    destruct (Z.eqb_spec x i) as [<-|]; [|reflexivity].
    rewrite Hrun4 in Hdone. discriminate.
Qed.

Lemma follows_drive {E} (code : Z -> Z -> E -> slice E) (ops : list driver_op) :
  forall w, queue_inv (fst w) -> sc_current_thread (fst w) = -1 ->
  follows (fst w) (fst (drive code w ops)) /\
  sc_current_thread (fst (drive code w ops)) = -1.
Proof.
  induction ops as [|o ops IH]; intros w Hq Hcur.
  { split; [apply follows_refl; exact Hq | exact Hcur]. }
  cbn [drive fold_left].
  assert (follows (fst w) (fst (drive_step code w o)) /\
          sc_current_thread (fst (drive_step code w o)) = -1) as [Hf Hcur'].
  { destruct o as [|c]; destruct w as [s e]; cbn [drive_step fst snd] in *.
    - apply follows_schedule; assumption.
    - split; [apply follows_call, Hq|].
      destruct (do_call_current s c (li_wf _ (qi_load _ Hq))) as [H|H]; congruence. }
  destruct (IH (drive_step code w o) (proj1 Hf) Hcur') as [Hf' Hcur''].
  split; [|exact Hcur'']. apply (follows_trans _ (fst (drive_step code w o))); assumption.
Qed.

Lemma drive_app {E} (code : Z -> Z -> E -> slice E) w (ops ops' : list driver_op) :
  drive code w (ops ++ ops') = drive code (drive code w ops) ops'.
Proof. unfold drive. apply fold_left_app. Qed.

(** X18. Between any two calls of its driver, in every run that starts
    with [init_scheduler] and whatever the thread bodies do: no thread is
    current, every thread is [Ready] or [Done] (none is ever [Blocked]),
    and the run queue holds valid thread ids, each at most once, of
    threads that are [Ready]. So the next call of [schedule_process] runs
    the thread at the front of the queue, and its branch for a stale entry
    is never taken. *)
Theorem run_queue_holds_ready_threads {E : Type} (code : Z -> Z -> E -> slice E)
    (cpus : Z) (e : E) (ops : list driver_op) :
  let s := fst (drive code (init_scheduler boot_state cpus, e) ops) in
  sc_current_thread s = -1 /\
  (forall i, 0 <= i < sc_thread_count s ->
     state (thread_at s i) = THREAD_READY \/ state (thread_at s i) = THREAD_DONE) /\
  NoDup (rq_list s) /\
  (forall x, x ∈ rq_list s ->
     0 <= x < sc_thread_count s /\ state (thread_at s x) = THREAD_READY) /\
  dispatched s = head (rq_list s).
Proof.
  cbn zeta.
  destruct (follows_drive code ops (init_scheduler boot_state cpus, e)
              (queue_inv_init cpus) eq_refl) as [(Hq & _) Hcur].
  set (s := fst (drive code (init_scheduler boot_state cpus, e) ops)) in *.
  destruct Hq as [Hli Hnd Hready]. pose proof (li_wf _ Hli) as Hwf.
  split; [exact Hcur|]. split; [|split; [exact Hnd|split]].
  - intros i Hi. apply (li_idle _ Hli i Hi). lia.
  - intros x Hx. split; [apply (li_queue _ Hli _ Hx) | apply Hready, Hx].
  - unfold dispatched. destruct (rq_list s) as [|x l] eqn:Hl.
    + rewrite (pop_rq_empty s Hwf Hl). reflexivity.
    + destruct (pop_rq_cons s x l Hwf Hl) as (-> & _ & _).
      assert (x ∈ rq_list s) as Hxin by (rewrite Hl; apply list_elem_of_here).
      pose proof (li_queue _ Hli _ Hxin) as Hx.
      rewrite (proj2 (Z.ltb_ge x 0)) by lia.
      change (thread_at (popped s) x) with (thread_at s x).
      rewrite (Hready x (list_elem_of_here _ _)). reflexivity.
Qed.

(** X19. A finished thread stays finished: once a thread is [Done], no
    later call of the driver or of a thread body changes any of its
    fields (state, ticks, CPU), and no thread slot is ever given up, so at
    most 64 threads are created between two initialisations. *)
Theorem done_is_final {E : Type} (code : Z -> Z -> E -> slice E)
    (cpus : Z) (e : E) (ops ops' : list driver_op) (i : Z) :
  let s := fst (drive code (init_scheduler boot_state cpus, e) ops) in
  let s' := fst (drive code (init_scheduler boot_state cpus, e) (ops ++ ops')) in
  sc_thread_count s <= sc_thread_count s' <= SC_MAX_THREADS /\
  (0 <= i < sc_thread_count s -> state (thread_at s i) = THREAD_DONE ->
   thread_at s' i = thread_at s i /\ dispatched s' <> Some i).
Proof.
  cbn zeta. rewrite drive_app.
  destruct (follows_drive code ops (init_scheduler boot_state cpus, e)
              (queue_inv_init cpus) eq_refl) as [(Hq & _) Hcur].
  set (w := drive code (init_scheduler boot_state cpus, e) ops) in *.
  destruct (follows_drive code ops' w Hq Hcur) as [(Hq' & Hc & Hkept) _].
  set (s' := fst (drive code w ops')) in *.
  pose proof (wf_count _ (li_wf _ (qi_load _ Hq'))) as Hmax.
  split; [lia|]. intros Hi Hdone. split; [apply Hkept; assumption|].
  intros Hd. unfold dispatched in Hd.
  destruct (pop_rq s') as [x s1] eqn:Hpop.
  destruct (x <? 0); [discriminate|].
  destruct (state_eqb (state (thread_at s1 x)) THREAD_READY) eqn:Hst; [|discriminate].
  injection Hd as ->. apply state_eqb_eq in Hst.
  assert (thread_at s1 i = thread_at s' i) as Hsame.
  { unfold pop_rq in Hpop. destruct (_ =? _); injection Hpop as _ <-; reflexivity. }
  rewrite Hsame, (Hkept i Hi Hdone), Hdone in Hst. discriminate.
Qed.


(** ** The run of the test driver *)

(** One call of [schedule_process] in a run of the test: thread [j] gets
    its slice. *)
Lemma test_step t m k j w :
  1 <= t <= 63 -> 1 <= m <= 2147483647 -> 0 <= k <= m - 1 -> 0 <= j < t ->
  test_inv t m k j w ->
  test_inv t m k (j + 1) (schedule_process worker_code w).
Proof.
  intros Ht Hm Hk Hj Hinv. destruct w as [s e].
  destruct Hinv as [Hwf Hcount Hcur Hsteps Hq Hbody Hserved Hwait]; cbn [fst snd] in *.
  destruct (Hwait j ltac:(lia)) as (Hsj & Htj & Hstj).
  destruct (Hbody j ltac:(lia)) as (Hej & Htgt).
  set (rest := if k <? m - 1 then seqZ (j + 1) (t - (j + 1)) ++ seqZ 0 j
               else seqZ (j + 1) (t - (j + 1))).
  assert (rq_list s = j :: rest) as Hqc.
  { rewrite Hq. subst rest. rewrite (seqZ_cons j) by lia.
    replace (Z.succ j) with (j + 1) by lia.
    replace (Z.pred (t - j)) with (t - (j + 1)) by lia.
    destruct (k <? m - 1); reflexivity. }
  destruct (pop_rq_cons s j rest Hwf Hqc) as (Hpop & Hrest & Hwf1).
  assert (length rest <= Z.to_nat (t - 1))%nat as Hlrest.
  { subst rest. destruct (k <? m - 1); rewrite ?length_app, !length_seqZ; lia. }
  unfold schedule_process. rewrite Hpop.
  rewrite (proj2 (Z.ltb_ge j 0)) by lia.
  change (thread_at (popped s) j) with (thread_at s j).
  rewrite Hstj. cbn [state_eqb negb].
  set (running := set_state (thread_at s j) THREAD_RUNNING).
  set (s3 := with_current (with_threads (popped s) (aset (sc_threads (popped s)) j running)) j).
  assert (sched_wf s3) as Hwf3 by (subst s3; wf_step).
  assert (forall i, 0 <= i -> thread_at s3 i = if j =? i then running else thread_at s i)
    as Hth3.
  { intros i Hi. unfold thread_at. cbn [s3 with_current with_threads sc_threads popped].
    apply thread_at_update; [exact Hwf | slia | exact Hi]. }
  rewrite (Hth3 j) by lia. rewrite Z.eqb_refl.
  cbn [running entry arg set_state]. rewrite Hej.
  change (worker_code WORKER (arg (thread_at s j)) e) with (worker e).
  unfold worker. cbn [run_slice do_call]. unfold current_thread_id.
  change (sc_current_thread s3) with j.
  set (e' := count_step e j).
  assert (forall i, 0 <= i ->
            aget 0 (steps e') i = if j =? i then k + 1 else aget 0 (steps e) i) as Hst'.
  { intros i Hi. cbn [e' count_step steps]. rewrite aget_aset by (rewrite ?Hsteps; slia).
    rewrite Hsj. reflexivity. }
  assert (length (steps e') = Z.to_nat SC_MAX_THREADS) as Hsteps'
    by (cbn [e' count_step steps]; rewrite length_aset; exact Hsteps).
  rewrite (Hst' j) by lia. rewrite Z.eqb_refl.
  change (targets e') with (targets e). rewrite Htgt.
  rewrite Z.geb_leb.
  destruct (Z.ltb_spec k (m - 1)) as [Hround|Hlast].
  - (* an ordinary slice: the body yields *)
    rewrite (proj2 (Z.leb_gt m (k + 1))) by lia.
    cbn [run_slice do_call]. unfold yield.
    change (sc_current_thread s3) with j.
    rewrite (proj2 (Z.ltb_ge j 0)) by lia.
    set (s4 := with_threads s3 (aset (sc_threads s3) j (set_state (thread_at s3 j) THREAD_READY))).
    assert (sched_wf s4) as Hwf4 by (subst s4; wf_step).
    assert (forall i, 0 <= i ->
              thread_at s4 i = if j =? i then set_state running THREAD_READY
                               else thread_at s i) as Hth4.
    { intros i Hi. unfold thread_at at 1. cbn [s4 with_threads sc_threads].
      rewrite thread_at_update by (try assumption; slia).
      rewrite !Hth3 by lia. rewrite Z.eqb_refl. destruct (j =? i); reflexivity. }
    assert (rq_list s4 = rest) as Hq4 by exact Hrest.
    assert (rq_len s4 < SC_MAX_THREADS - 1) as Hroom.
    { pose proof (rq_len_range s4). apply (f_equal length) in Hq4.
      rewrite length_rq_list in Hq4. slia. }
    destruct (push_rq_room s4 j Hwf4 Hroom) as (Hpush & Hq5 & Hwf5).
    rewrite Hpush. cbn [snd with_current sc_current_thread].
    rewrite (proj2 (Z.eqb_neq (-1) j)) by lia.
    split; cbn [fst snd].
    + wf_step.
    + exact Hcount.
    + reflexivity.
    + exact Hsteps'.
    + change (rq_list (with_current (pushed s4 j) (-1))) with (rq_list (pushed s4 j)).
      rewrite Hq5, Hq4. subst rest.
      rewrite (proj2 (Z.ltb_lt k (m - 1)) Hround).
      rewrite <- app_assoc. f_equal.
      rewrite (seqZ_app 0 j 1) by lia. rewrite (seqZ_cons _ 1) by lia. reflexivity.
    + intros i Hi.
      change (thread_at (with_current (pushed s4 j) (-1)) i) with (thread_at s4 i).
      rewrite Hth4 by lia.
      destruct (Z.eqb_spec j i) as [<-|Hne]; [|apply Hbody, Hi].
      cbn [running entry set_state]. split; [exact Hej | exact Htgt].
    + intros i Hi.
      change (thread_at (with_current (pushed s4 j) (-1)) i) with (thread_at s4 i).
      rewrite Hth4, Hst' by lia.
      rewrite (proj2 (Z.ltb_lt k (m - 1)) Hround).
      destruct (Z.eqb_spec j i) as [<-|Hne].
      * cbn [running ticks state set_state]. rewrite Htj. repeat split.
      * apply Hserved. lia.
    + intros i Hi.
      change (thread_at (with_current (pushed s4 j) (-1)) i) with (thread_at s4 i).
      rewrite Hth4, Hst' by lia.
      rewrite (proj2 (Z.eqb_neq j i)) by lia. apply Hwait. lia.
  - (* the last slice: the thread completes *)
    rewrite (proj2 (Z.leb_le m (k + 1))) by lia.
    cbn [run_slice do_call]. unfold complete_current_thread.
    change (sc_current_thread s3) with j.
    rewrite (proj2 (Z.ltb_ge j 0)) by lia.
    set (s4 := with_threads s3 (aset (sc_threads s3) j (set_state (thread_at s3 j) THREAD_DONE))).
    assert (sched_wf s4) as Hwf4 by (subst s4; wf_step).
    assert (forall i, 0 <= i ->
              thread_at s4 i = if j =? i then set_state running THREAD_DONE
                               else thread_at s i) as Hth4.
    { intros i Hi. unfold thread_at at 1. cbn [s4 with_threads sc_threads].
      rewrite thread_at_update by (try assumption; slia).
      rewrite !Hth3 by lia. rewrite Z.eqb_refl. destruct (j =? i); reflexivity. }
    cbn [with_current with_load sc_current_thread].
    rewrite (proj2 (Z.eqb_neq (-1) j)) by lia.
    set (sf := with_current (with_load s4 _) (-1)).
    assert (forall i, thread_at sf i = thread_at s4 i) as Hthf by reflexivity.
    split; cbn [fst snd].
    + subst sf. wf_step.
    + exact Hcount.
    + reflexivity.
    + exact Hsteps'.
    + change (rq_list sf) with (rq_list (popped s)). rewrite Hrest. subst rest.
      rewrite (proj2 (Z.ltb_ge k (m - 1)) Hlast). reflexivity.
    + intros i Hi. rewrite Hthf, Hth4 by lia.
      destruct (Z.eqb_spec j i) as [<-|Hne]; [|apply Hbody, Hi].
      cbn [running entry set_state]. split; [exact Hej | exact Htgt].
    + intros i Hi. rewrite Hthf, Hth4, Hst' by lia.
      rewrite (proj2 (Z.ltb_ge k (m - 1)) Hlast).
      destruct (Z.eqb_spec j i) as [<-|Hne].
      * cbn [running ticks state set_state]. rewrite Htj. repeat split.
      * apply Hserved. lia.
    + intros i Hi. rewrite Hthf, Hth4, Hst' by lia.
      rewrite (proj2 (Z.eqb_neq j i)) by lia. apply Hwait. lia.
Qed.


(** A round is over: every thread has had one more slice. *)
Lemma test_round t m k w :
  k < m - 1 -> test_inv t m k t w -> test_inv t m (k + 1) 0 w.
Proof.
  intros Hk Hinv. destruct Hinv as [Hwf Hcount Hcur Hsteps Hq Hbody Hserved Hwait].
  rewrite (proj2 (Z.ltb_lt k (m - 1)) Hk) in Hq.
  split; try assumption.
  - rewrite Hq, Z.sub_diag, Z.sub_0_r. cbn [seqZ].
    destruct (k + 1 <? m - 1); cbn; rewrite ?app_nil_r; reflexivity.
  - intros i Hi. lia.
  - intros i Hi. pose proof (Hserved i ltac:(lia)) as Hs.
    rewrite (proj2 (Z.ltb_lt k (m - 1)) Hk) in Hs. exact Hs.
Qed.

Lemma test_start cpus t m :
  1 <= t <= 63 -> test_inv t m 0 0 (test_world cpus t m WORKER).
Proof.
  intros Ht. unfold test_world.
  destruct (spawn_spec cpus WORKER (Z.to_nat t) ltac:(discriminate) ltac:(lia))
    as (Hwf & Hcount & Hcur & Hq & Hth).
  rewrite Z2Nat.id in Hcount, Hq, Hth by lia.
  split; cbn [fst snd steps targets]; try assumption.
  - apply length_replicate.
  - rewrite Hq, Z.sub_0_r. destruct (0 <? m - 1); cbn [seqZ]; rewrite ?app_nil_r; reflexivity.
  - intros i Hi. split; [apply Hth, Hi|].
    unfold aget. rewrite nth_lookup, lookup_app_l by (rewrite length_replicate; lia).
    rewrite lookup_replicate_2 by lia. reflexivity.
  - intros i Hi. lia.
  - intros i Hi. split; [|apply Hth, Hi].
    unfold aget. rewrite nth_lookup.
    rewrite lookup_replicate_2 by slia. reflexivity.
Qed.

Lemma test_count_live t m k j w :
  0 <= j < t -> test_inv t m k j w -> 0 < get_thread_count (fst w).
Proof.
  intros Hj Hinv. unfold get_thread_count.
  pose proof (count_loop_live (fst w) (Z.to_nat (sc_thread_count (fst w))) j 0 0) as H.
  rewrite (ti_count _ _ _ _ _ Hinv) in *.
  destruct (ti_waiting _ _ _ _ _ Hinv j ltac:(lia)) as (_ & _ & Hst).
  apply H; [lia | rewrite Hst; discriminate].
Qed.

Lemma test_count_done t m w :
  1 <= m -> test_inv t m (m - 1) t w -> get_thread_count (fst w) = 0.
Proof.
  intros Hm Hinv. unfold get_thread_count. apply count_loop_done.
  intros i Hi. rewrite (ti_count _ _ _ _ _ Hinv) in Hi.
  destruct (ti_served _ _ _ _ _ Hinv i ltac:(lia)) as (_ & _ & Hst).
  rewrite Z.ltb_irrefl in Hst. exact Hst.
Qed.

(** [load_balance] moves threads between CPUs and touches nothing that
    the run depends on. *)
Lemma test_inv_balance t m k j w :
  1 <= t <= 63 -> 0 <= j -> test_inv t m k j w ->
  test_inv t m k j (load_balance (fst w), snd w).
Proof.
  intros Ht Hj Hinv. destruct w as [s e].
  destruct Hinv as [Hwf Hcount Hcur Hsteps Hq Hbody Hserved Hwait]; cbn [fst snd] in *.
  destruct (load_balance_cases s) as [[_ ->]|[(_ & _ & ->)|(_ & x & (Hx & _) & ->)]];
    try (split; assumption).
  assert (forall i, 0 <= i ->
            thread_at (migrated s (fst (min_max_cpu s)) (snd (min_max_cpu s)) x) i
            = if x =? i then set_cpu (thread_at s x) (fst (min_max_cpu s))
              else thread_at s i) as Hth
    by (intros i Hi; apply migrated_thread; try assumption; slia).
  split; cbn [fst snd]; try assumption.
  - apply migrated_wf, Hwf.
  - intros i Hi. rewrite Hth by lia.
    destruct (Z.eqb_spec x i) as [->|]; [|apply Hbody, Hi]. apply (Hbody i Hi).
  - intros i Hi. rewrite Hth by lia.
    destruct (Z.eqb_spec x i) as [->|]; [|apply Hserved, Hi]. apply (Hserved i Hi).
  - intros i Hi. rewrite Hth by lia.
    destruct (Z.eqb_spec x i) as [->|]; [|apply Hwait, Hi]. apply (Hwait i Hi).
Qed.

(** The loop of the driver, started [(m - 1 - k) * t + (t - j)] slices
    before the end with enough iterations left below the guard. *)
Lemma test_run t m (n : nat) : forall k j w guard,
  1 <= t <= 63 -> 1 <= m <= 2147483647 -> 0 <= k <= m - 1 -> 0 <= j <= t ->
  0 <= guard -> guard + ((m - 1 - k) * t + (t - j)) <= 100000 ->
  (m - 1 - k) * t + (t - j) <= Z.of_nat n ->
  test_inv t m k j w ->
  test_inv t m (m - 1) t (run_scheduler_loop worker_code n guard w).
Proof.
  induction n as [|n IH]; intros k j w guard Ht Hm Hk Hj Hg Hlimit Hfuel Hinv.
  - cbn [run_scheduler_loop]. assert (j = t /\ k = m - 1) as [-> ->] by nia. exact Hinv.
  - assert (forall k' j', 0 <= k' <= m - 1 -> 0 <= j' < t ->
              guard + ((m - 1 - k') * t + (t - j')) <= 100000 ->
              (m - 1 - k') * t + (t - j') <= Z.of_nat (S n) ->
              test_inv t m k' j' w ->
              test_inv t m (m - 1) t (run_scheduler_loop worker_code (S n) guard w)) as Hlive.
    { intros k' j' Hk' Hj' Hlimit' Hfuel' Hinv'. cbn [run_scheduler_loop].
      pose proof (test_count_live t m k' j' w Hj' Hinv') as Hpos.
      rewrite (proj2 (Z.gtb_gt _ 0)) by lia.
      assert (0 <= (m - 1 - k') * t) as Hnn by nia.
      rewrite (proj2 (Z.ltb_lt guard 100000)) by lia. cbn [andb].
      pose proof (test_step t m k' j' w Ht Hm Hk' Hj' Hinv') as Hstep.
      apply (IH k' (j' + 1)); try assumption; try lia.
      destruct (guard mod 32 =? 0); [|exact Hstep].
      apply test_inv_balance; [assumption | lia | assumption]. }
    destruct (Z.eq_dec j t) as [->|Hjt]; [|apply (Hlive k j); try assumption; lia].
    destruct (Z.eq_dec k (m - 1)) as [->|Hkm].
    + cbn [run_scheduler_loop].
      rewrite (test_count_done t m w) by (try assumption; lia). exact Hinv.
    + apply test_round in Hinv; [|lia].
      apply (Hlive (k + 1) 0); try assumption; try lia; nia.
Qed.

(** X20. The concurrency test of the repository holds in general: for
    [t] threads (at most 63, the capacity of the run queue) running the
    test's [worker] with target [m] each, on any number of CPUs, with
    [t * m] within the guard of 100000 iterations, the test driver (which
    also calls [load_balance] every 32 iterations) ends with every thread
    [Done], every step counter equal to its target and no thread left to
    count. The worker yields by itself, so every tick counter is still
    0. *)
Theorem test_concurrency_holds (cpus t m : Z) :
  1 <= t <= 63 -> 1 <= m -> t * m <= 100000 ->
  let w' := run_scheduler_until_done worker_code (test_world cpus t m WORKER) in
  get_thread_count (fst w') = 0 /\
  forall i, 0 <= i < t ->
    aget 0 (steps (snd w')) i = aget 0 (targets (snd w')) i /\
    aget 0 (steps (snd w')) i = m /\
    state (thread_at (fst w') i) = THREAD_DONE /\
    ticks (thread_at (fst w') i) = 0.
Proof.
  intros Ht Hm Hlimit. cbn zeta. unfold run_scheduler_until_done.
  assert (m <= 100000) as Hm' by nia.
  pose proof (test_run t m (Z.to_nat 100000) 0 0 (test_world cpus t m WORKER) 0
                Ht ltac:(lia) ltac:(lia) ltac:(lia) ltac:(lia) ltac:(nia) ltac:(nia)
                (test_start cpus t m Ht)) as Hfinal.
  set (w' := run_scheduler_loop worker_code (Z.to_nat 100000) 0 (test_world cpus t m WORKER))
    in *.
  split; [apply (test_count_done t m w'); [lia | exact Hfinal]|].
  intros i Hi.
  destruct (ti_served _ _ _ _ _ Hfinal i Hi) as (Hs & Htk & Hst).
  destruct (ti_body _ _ _ _ _ Hfinal i Hi) as (_ & Htg).
  rewrite Z.ltb_irrefl in Hst.
  split; [rewrite Hs, Htg; lia|]. split; [lia|]. split; assumption.
Qed.

Lemma test_concurrency_holds_witness :
  let w' := run_scheduler_until_done worker_code (test_world 4 12 100 WORKER) in
  get_thread_count (fst w') = 0 /\
  forall i, 0 <= i < 12 ->
    aget 0 (steps (snd w')) i = aget 0 (targets (snd w')) i /\
    aget 0 (steps (snd w')) i = 100 /\
    state (thread_at (fst w') i) = THREAD_DONE /\
    ticks (thread_at (fst w') i) = 0.
Proof. apply (test_concurrency_holds 4 12 100); lia. Defined.

(** ** Where [create_thread] places a thread *)

(** [create_thread] picks a CPU of least load; among equals, the lowest
    index. *)
Lemma best_cpu_loop_first (load : list Z) (n : nat) : forall i best,
  0 <= best < i ->
  (forall c, 0 <= c < i -> aget 0 load best <= aget 0 load c) ->
  (forall c, 0 <= c < best -> aget 0 load best < aget 0 load c) ->
  let r := best_cpu_loop load n i best in
  0 <= r < i + Z.of_nat n /\
  (forall c, 0 <= c < i + Z.of_nat n -> aget 0 load r <= aget 0 load c) /\
  (forall c, 0 <= c < r -> aget 0 load r < aget 0 load c).
Proof.
  induction n as [|n IH]; intros i best Hb Hall Hfirst; cbn zeta.
  - cbn [best_cpu_loop]. rewrite Z.add_0_r. auto.
  - cbn [best_cpu_loop].
    replace (i + Z.of_nat (S n)) with (i + 1 + Z.of_nat n) by lia.
    apply IH.
    + destruct (aget 0 load i <? aget 0 load best); lia.
    + intros c Hc. destruct (Z.ltb_spec (aget 0 load i) (aget 0 load best)) as [Hlt|Hge].
      * destruct (Z.eq_dec c i) as [->|Hne]; [lia|].
        pose proof (Hall c ltac:(lia)). lia.
      * destruct (Z.eq_dec c i) as [->|Hne]; [lia|]. apply Hall. lia.
    + intros c Hc. destruct (Z.ltb_spec (aget 0 load i) (aget 0 load best)) as [Hlt|Hge].
      * pose proof (Hall c ltac:(lia)). lia.
      * apply Hfirst, Hc.
Qed.

(** What a successful [create_thread] writes, whether or not the run
    queue had room for the new id. *)
Lemma create_thread_fields s fn a prio :
  fn <> 0 -> sc_thread_count s < SC_MAX_THREADS ->
  let best := best_cpu_loop (sc_cpu_load s) (Z.to_nat (sc_cpu_count s - 1)) 1 0 in
  let s' := snd (create_thread s fn a prio) in
  sc_threads s' =
    aset (sc_threads s) (sc_thread_count s)
         (mkThread (sc_thread_count s) best prio 1 fn a THREAD_READY 0) /\
  sc_thread_count s' = sc_thread_count s + 1 /\
  sc_cpu_load s' = aset (sc_cpu_load s) best (aget 0 (sc_cpu_load s) best + 1) /\
  sc_cpu_count s' = sc_cpu_count s.
Proof.
  intros Hfn Hroom. cbn zeta. unfold create_thread.
  rewrite (proj2 (Z.eqb_neq _ _) Hfn).
  rewrite Z.geb_leb, (proj2 (Z.leb_gt _ _)) by exact Hroom.
  cbn zeta. unfold push_rq.
  destruct (_ =? _); cbn; repeat split; reflexivity.
Qed.

Lemma init_scheduler_cpus s cpus :
  sc_cpu_count (init_scheduler s cpus) = clamp_cpus cpus.
Proof.
  unfold init_scheduler, clamp_cpus. cbn [sc_cpu_count]. sconst.
  destruct (Z.ltb_spec cpus 1);
    [|rewrite Z.gtb_ltb; destruct (Z.ltb_spec 8 cpus)]; cbn; lia.
Qed.

Lemma clamp_cpus_range cpus : 1 <= clamp_cpus cpus <= SC_MAX_CPUS.
Proof. unfold clamp_cpus. slia. Qed.

Lemma next_share c n :
  1 <= c -> 0 <= n ->
  forall k, 0 <= k < c ->
    (n / c + (if k <? n mod c then 1 else 0)) + (if n mod c =? k then 1 else 0)
    = (n + 1) / c + (if k <? (n + 1) mod c then 1 else 0).
Proof.
  intros Hc Hn k Hk.
  pose proof (Z.div_mod n c ltac:(lia)) as Hdm.
  pose proof (Z.mod_pos_bound n c ltac:(lia)) as Hr.
  destruct (Z.eq_dec (n mod c + 1) c) as [Hwrap|Hnext].
  - assert ((n + 1) / c = n / c + 1) as ->
      by (symmetry; apply (Z.div_unique _ _ _ 0); nia).
    assert ((n + 1) mod c = 0) as ->
      by (symmetry; apply (Z.mod_unique _ _ (n / c + 1)); nia).
    destruct (Z.ltb_spec k (n mod c)), (Z.eqb_spec (n mod c) k),
      (Z.ltb_spec k 0); lia.
  - assert ((n + 1) / c = n / c) as ->
      by (symmetry; apply (Z.div_unique _ _ _ (n mod c + 1)); nia).
    assert ((n + 1) mod c = n mod c + 1) as ->
      by (symmetry; apply (Z.mod_unique _ _ (n / c)); nia).
    destruct (Z.ltb_spec k (n mod c)), (Z.eqb_spec (n mod c) k),
      (Z.ltb_spec k (n mod c + 1)); lia.
Qed.

Lemma spawn_placement cpus fn (n : nat) :
  fn <> 0 -> (n <= 64)%nat ->
  let c := clamp_cpus cpus in
  let s := spawn (init_scheduler boot_state cpus) fn n in
  sc_cpu_count s = c /\ sc_thread_count s = Z.of_nat n /\
  length (sc_threads s) = Z.to_nat SC_MAX_THREADS /\
  length (sc_cpu_load s) = Z.to_nat SC_MAX_CPUS /\
  (forall k, 0 <= k < c ->
     load_at s k = Z.of_nat n / c + (if k <? Z.of_nat n mod c then 1 else 0)) /\
  (forall i, 0 <= i < Z.of_nat n -> cpu_id (thread_at s i) = i mod c).
Proof.
  intros Hfn. cbn zeta. pose proof (clamp_cpus_range cpus) as Hc.
  set (c := clamp_cpus cpus) in *.
  induction n as [|n IH]; intros Hn.
  - cbn [spawn]. split; [apply init_scheduler_cpus|]. split; [reflexivity|].
    split; [reflexivity|]. split; [apply length_replicate|]. split.
    + intros k Hk. change (Z.of_nat 0) with 0. rewrite Z.div_0_l, Z.mod_0_l by lia.
      rewrite (proj2 (Z.ltb_ge k 0)) by lia.
      unfold load_at, aget. cbn [init_scheduler sc_cpu_load].
      rewrite nth_lookup, lookup_replicate_2 by slia. reflexivity.
    + intros i Hi. lia.
  - cbn [spawn]. destruct (IH ltac:(lia)) as (Hcpus & Hcount & Hlt & Hll & Hload & Hcpu).
    set (s := spawn (init_scheduler boot_state cpus) fn n) in *.
    destruct (create_thread_fields s fn 0 1 Hfn ltac:(slia)) as (Ht' & Hc' & Hl' & Hn').
    set (s' := snd (create_thread s fn 0 1)) in *.
    set (best := best_cpu_loop (sc_cpu_load s) (Z.to_nat (sc_cpu_count s - 1)) 1 0) in *.
    pose proof (Z.mod_pos_bound (Z.of_nat n) c ltac:(lia)) as Hr.
    assert (best = Z.of_nat n mod c) as Hbest.
    { pose proof (best_cpu_loop_first (sc_cpu_load s) (Z.to_nat (sc_cpu_count s - 1)) 1 0
                    ltac:(lia)) as H.
      cbn zeta in H. fold best in H.
      replace (1 + Z.of_nat (Z.to_nat (sc_cpu_count s - 1))) with c in H by lia.
      destruct H as (Hb & Hmin & Hfirst).
      { intros k Hk. replace k with 0 by lia. lia. }
      { intros k Hk. lia. }
      fold (load_at s best) in Hmin, Hfirst.
      pose proof (Hmin (Z.of_nat n mod c) Hr) as Hle.
      fold (load_at s (Z.of_nat n mod c)) in Hle.
      rewrite (Hload best Hb), (Hload _ Hr), Z.ltb_irrefl in Hle.
      destruct (Z.lt_trichotomy best (Z.of_nat n mod c)) as [Hlt'|[Heq|Hgt]];
        [|exact Heq|].
      - rewrite (proj2 (Z.ltb_lt _ _) Hlt') in Hle. lia.
      - pose proof (Hfirst (Z.of_nat n mod c) ltac:(lia)) as Hlt'.
        fold (load_at s (Z.of_nat n mod c)) in Hlt'.
        rewrite (Hload best Hb), (Hload _ Hr), Z.ltb_irrefl in Hlt'.
        destruct (best <? Z.of_nat n mod c); lia. }
    split; [congruence|]. split; [lia|].
    split; [rewrite Ht', length_aset; exact Hlt|].
    split; [rewrite Hl', length_aset; exact Hll|]. split.
    + intros k Hk. unfold load_at. rewrite Hl'.
      rewrite aget_aset by (rewrite ?Hll; slia).
      fold (load_at s best) (load_at s k).
      rewrite Nat2Z.inj_succ, <- Z.add_1_r, <- (next_share c (Z.of_nat n)) by lia.
      rewrite Hbest.
      destruct (Z.eqb_spec (Z.of_nat n mod c) k) as [Heq|Hne]; [subst k|];
        rewrite Hload by lia; lia.
    + intros i Hi. unfold thread_at. rewrite Ht'.
      rewrite aget_aset by (rewrite ?Hlt; slia). rewrite Hcount.
      destruct (Z.eqb_spec (Z.of_nat n) i) as [<-|Hne]; [exact Hbest|].
      apply Hcpu. lia.
Qed.

(** X21. Threads created in a row on a fresh scheduler are dealt out to
    the CPUs in turn: with [c] the number of CPUs [init_scheduler] settled
    on, thread [i] is assigned to CPU [i mod c], so after [n] creations (up
    to the table's 64) CPU [k] has load [n / c], plus one for the first
    [n mod c] CPUs, and [load_balance] finds nothing to move. *)
Theorem create_thread_deals_round_robin cpus fn (n : nat) :
  fn <> 0 -> (n <= 64)%nat ->
  let c := clamp_cpus cpus in
  let s := spawn (init_scheduler boot_state cpus) fn n in
  (forall i, 0 <= i < Z.of_nat n -> cpu_id (thread_at s i) = i mod c) /\
  (forall k, 0 <= k < c ->
     get_cpu_load s k = Z.of_nat n / c + (if k <? Z.of_nat n mod c then 1 else 0)) /\
  load_balance s = s.
Proof.
  intros Hfn Hn. cbn zeta. pose proof (clamp_cpus_range cpus) as Hc.
  destruct (spawn_placement cpus fn n Hfn Hn) as (Hcpus & Hcount & Hlt & Hll & Hload & Hcpu).
  set (s := spawn (init_scheduler boot_state cpus) fn n) in *.
  set (c := clamp_cpus cpus) in *.
  split; [exact Hcpu|]. split.
  - intros k Hk. unfold get_cpu_load. rewrite Hcpus, Z.geb_leb.
    rewrite (proj2 (Z.ltb_ge k 0)), (proj2 (Z.leb_gt c k)) by lia.
    apply Hload, Hk.
  - destruct (min_max_cpu_spec s ltac:(lia)) as (Hmn & Hmx & _).
    rewrite Hcpus in Hmn, Hmx.
    assert (load_gap s <= 1) as Hgap.
    { unfold load_gap. rewrite (Hload _ Hmn), (Hload _ Hmx).
      destruct (_ <? _), (_ <? _); lia. }
    destruct (load_balance_cases s) as [[_ H]|[(Hbig & _)|(Hbig & _)]];
      [exact H | lia | lia].
Qed.

Lemma create_thread_deals_round_robin_witness :
  let s := spawn (init_scheduler boot_state 4) 1 16 in
  (forall i, 0 <= i < 16 -> cpu_id (thread_at s i) = i mod 4) /\
  (forall k, 0 <= k < 4 -> get_cpu_load s k = 4 + (if k <? 0 then 1 else 0)) /\
  load_balance s = s.
Proof. apply (create_thread_deals_round_robin 4 1 16); [discriminate | lia]. Defined.

End SchedExtra.
